(* ===== verification/_CoqProject ===== *)
-Q . S2P
Prelude.v
JsString.v
Encoding.v
Regex.v
Runtime.v
JsMap.v
JsValue.v
InviteService.v
InviteLemmas.v
InviteCode.v
InviteInvariant.v
InviteProps.v
InviteLiveness.v
InviteSpec.v
InviteTimed.v
Server.v
ServerProps.v
Contentful.v
ContentfulProps.v
Api.v
Auth.v
App.v
AppProps.v
EventLoop.v
EventLoopProps.v
ServerLoop.v
ServerLoopProps.v
Menu.v
MenuProps.v
JsonText.v
AuthContext.v
AuthContextProps.v
Base64.v
Base64Props.v
Forms.v
FormsProps.v
TokenProps.v
AppView.v
AppViewProps.v
