(* ===== verification/Prelude.v ===== *)
(** * Curry2Cakes: a verification development

    The repository is an invite-gated ordering site.  Its back end
    ([src/api/invite-service.js], [src/api/server.js]) issues, rate-limits,
    expires and redeems invite codes held in two in-memory [Map]s; its front
    end ([src/src/]) signs a visitor in, redeems a code through the back end
    and shows a menu fetched from a content catalogue.

    ** The program and how its parts interact

    - The registry, [src/api/invite-service.js]: [generateInviteCode],
      [requestInviteCode] (validate the address, rate-limit the requester,
      issue and store a code, send the mail), [validateInviteCode] (redeem
      a code once, before its expiry) and [getInviteStats].
    - The server, [src/api/server.js]: an express application that routes
      four URLs to the registry and answers in JSON, behind [cors], the
      body parser and a logger.
    - The API client, [src/src/services/api.js]: axios wrappers that turn
      an answer into a value or an exception.
    - The front end, [src/src/App.jsx] with [src/src/services/auth.js]:
      the state of the session ([useAuth]), the invite form, and the page
      that is rendered.
    - The catalogue, [src/src/services/contentful.js]: the menu items and
      the functions that select, search, group and display them.
    - The menu page, [src/src/components/DynamicMenu.jsx], which [App.jsx]
      mounts for a visitor with an invite: it loads the catalogue,
      searches it after a pause in typing, and shows cards and a modal.
    - The session provider, [src/src/contexts/AuthContext.jsx], with its
      forms [src/src/components/InviteCodeForm.jsx] and
      [src/src/components/GoogleSignIn.jsx]: a second implementation of
      the session, which keeps the user and the invite in [localStorage]
      and accepts a list of codes of its own.

    ** Files, in dependency order

    - [Prelude] (this file): the scope [c2c_scope], the tactics [inv],
      [case_guard], [bool_to_prop], the hint databases [c2c],
      [countb] ([filter(p).length]) with its lemmas, and [eventually]
      with its proof rule [eventually_measure].  Standard Library only,
      so that both the stdpp files and the MathComp files load it.
    - [JsString], [Encoding], [Regex]: the JavaScript built-ins the sources
      call: [toUpperCase] and [toLowerCase] on units below 256,
      [substring], [trim], [includes], [split], [replace]; [toString(36)]
      and hexadecimal text; [RegExp.test] by Brzozowski derivatives,
      proved equal to the language of the expression
      ([regexTest_correct]).
    - [Runtime]: the state monad [M] with its laws and [let*] notation, and
      [Env], the clock and the random source as oracles.
    - [JsMap]: a JavaScript [Map] as its entries in insertion order, and its
      abstraction to a [gmap] ([jsMap_refines_gmap]).
    - [JsValue]: JSON values, property access, truthiness, [String(v)].
    - [InviteService]: the registry, definition by definition.  [World] is
      the two [Map]s plus the number of clock readings and random bytes
      consumed; every [Date.now()] and [new Date()] is one [Date_now], in
      the order the source evaluates them.  [requestInviteCode] is split at
      its [await]; the mail provider is the class [EmailProvider], with
      the repository's mock as an instance.
    - [InviteLemmas]: one equation per branch of each operation, and the
      inductive case views [validate_spec] and [prepare_spec].
    - [InviteCode]: codes have 12 units and keep four random bits;
      [isValidEmail] accepts exactly [l@d.t].
    - [InviteInvariant]: calls, traces ([runCalls]), reachable states, and
      the invariants [worldInv] and [timeInv], by induction on
      reachability.
    - [InviteProps]: single use, expiry, cooldown, issue-then-redeem,
      dispatch failure, statistics, and that a code is redeemed twice
      when the generator repeats it.
    - [InviteLiveness]: a requester who keeps asking is served, when the
      clock reaches the end of the cooldown ([retry_eventually_granted]),
      after at most 300000 refusals when it advances at every reading
      ([strict_clock_rounds]), and never when it stands still
      ([frozen_clock_starves]).
    - [InviteSpec]: the abstract registry over [gmap] ([astep]) and the
      simulation of it by the service.
    - [InviteTimed]: the abstract registry with a clock ([tstep]): every
      time in a rule lies between the time at which the call begins and
      the time at which it ends, in the order in which the source reads
      the clock.  What these rules promise about the cooldown and the
      expiry is proved of the rules ([tstep_cooldown], [tstep_expiry]);
      the service, with a clock that does not run backwards, is a run of
      them ([service_refines_timed]).
    - [Server], [ServerProps]: the express application.  [application] is
      the whole chain for one request: [cors] answers a preflight
      ([OPTIONS]) request with 204 before anything else runs, and the
      answer to a [HEAD] request, which express gives to the handler of
      the [GET] route, leaves without its body.  [serve] is the chain
      from the body parser on, and it is the registry behind one clock
      reading ([serve_refines_service]).
    - [Contentful], [ContentfulProps] (MathComp): the catalogue, with the
      settings that decide between the remote catalogue and the built-in
      items ([contentfulClient]), and its properties, with [sort],
      [uniq], [subseq] and [bigop].
    - [Api], [Auth], [App], [AppProps]: the client with its axios
      instance (timeout and interceptors, [send]), the sign-in wrappers
      and the listener of [onAuthStateChange], the front-end state as an
      event machine, and the front end run against the server.
    - [EventLoop]: calls of the registry that overlap at the [await] of
      [requestInviteCode]: a request is two events, [Begin] and [End],
      and an interleaving is a list of events ([runLoop]).
    - [EventLoopProps]: the invariant under any interleaving
      ([overlapping_calls_keep_invariant]), the sequential model as a
      special case ([sequential_request_in_loop]), a code redeemed
      before its mail is sent ([redeemed_before_dispatch]).  Every
      test-and-write of the registry lies within one event, so an
      interleaving is a run of the abstract registry on the calls in the
      order they start ([overlap_refines]), and single use and the
      cooldown hold for every interleaving ([overlap_redeems_once],
      [overlap_cooldown]).
    - [ServerLoop], [ServerLoopProps]: the same over HTTP: the handler of
      [POST /api/invite/request] waits at its [await] while other
      requests arrive ([serverStep], [runServer]); the sequential server
      is the special case in which the mail settles first
      ([server_sequential]), and every interleaving is a run of the
      abstract registry ([http_overlap_refines]).
    - [Menu], [MenuProps] (MathComp): the menu page as a component with
      its timer and its promises, one event per handler, and what it
      renders.  Every call of the catalogue fetches it again, so the
      event that settles a call carries the catalogue that answered it
      ([LoadSettles items cats], [SearchSettles k answer]).  Its
      invariant, the termination of its internal events, and what it
      comes to show.
    - [JsonText]: [JSON.stringify] and [JSON.parse] on the literals
      [null], [true], [false], integers and strings of plain units, and
      on objects whose fields hold these, with their round trip in both
      directions ([parsePlain_stringifyPlain], [parsePlain_plainJson]).
      [Base64]: [atob], and [decodeURIComponent] on ASCII.
    - [AuthContext], [AuthContextProps]: the session provider over
      [localStorage] (module [AuthProvider]), with JSON behind the class
      [JsonCodec].  The user is a JSON value, [null] when nobody is
      signed in, as in the source, so a stored [null] is told apart from
      no stored text.  The agreement of state and storage, and what a
      page that is opened again restores.
    - [Base64Props]: a reference encoder of base64 and base64url, and
      that [atob] decodes what it encodes ([atob_encode]).
    - [Forms], [FormsProps]: the invite form and the Google button of the
      provider (modules [InviteCodeForm] and [GoogleSignIn]), from a
      token to a session that survives the next page.
    - [TokenProps]: the decoding of a token end to end: for every token
      whose second segment encodes a text below 128, [decodeToken] is
      [JSON.parse] of that text ([decodeToken_encoded]).
    - [AppView], [AppViewProps]: what [App.jsx] puts on the screen (the
      form, the header, the four pages) as far as it depends on the
      state.  A [Shell] is the state of [App], the mobile menu and the
      promises that handlers await; [canHappen] allows a click when its
      control is on the screen and enabled, and a continuation when its
      promise is awaited.  A form that leaves the screen loses its state,
      its calls stay in flight and settle without a form ([StaleDone]),
      and the form that comes back starts from the user's address.  The
      invariant of the screen ([screen_keeps_one_call_in_flight]), the
      screen as a refinement of the event machine of [App]
      ([screen_refines_app]), and the alert of the request form against
      the server.

    ** What the theorems show

    - Invariants: every reachable registry is well formed
      ([reachable_worldInv]), times are ordered under a monotone clock
      ([reachable_timeInv]), nothing is ever deleted
      ([registry_never_forgets]), HTTP traffic keeps the invariant
      ([serveAll_worldInv]), the front end's flags agree
      ([reachable_pages]), the flags of the invite form count the calls
      it awaits ([screen_keeps_one_call_in_flight]), the menu shows items
      of a catalogue that answered ([shown_items_from_catalogue]; of the
      catalogue, when all answer alike, [steady_items_shown]), the session
      and the storage agree ([session_agrees_with_storage]).
    - Termination and liveness: the timer and the promises of the menu
      run out ([internal_events_terminate]); with answers in the order of
      the calls the page comes to show an answer to the last query
      ([search_eventually_shown]) and the spinner goes away
      ([spinner_eventually_gone]); every submission of the invite form is
      answered ([form_eventually_idle]); a requester of the registry who
      keeps asking is served ([retry_eventually_granted],
      [strict_clock_rounds]).
    - Interleavings: single use and the cooldown of the registry under
      overlapping calls ([overlap_redeems_once], [overlap_cooldown]),
      over HTTP too ([http_overlap_refines]); the events the screen
      allows, continuations of a form that has gone included
      ([screen_keeps_one_call_in_flight]).
    - Round trips through the storage: [reload_restores_session],
      [sign_in_survives_reload], over [parsePlain_stringifyPlain]; the
      error path [corrupt_session_discarded].  Round trips of encodings:
      [atob_encode], [decodeAscii_percentEncodeAll],
      [decodeToken_encoded].
    - Functional behaviour of every branch of the registry: [redeem_once],
      [expired_forever], [cooldown_enforced], [cooldown_elapsed],
      [issue_then_redeem], [invalid_email_refused],
      [dispatch_failure_keeps_state], [mock_never_fails],
      [stats_partition], [stats_expired_bounds].
    - Refinement: [service_refines], [service_refines_timed],
      [serve_refines_service], [overlap_refines], [http_overlap_refines].
    - Encodings: [toString36_roundtrip], [isValidEmail_spec],
      [generateInviteCode_shape], [inviteCodeOf_random_part].
    - The catalogue: [getMenuCategories_characterised],
      [categories_partition], [searchMenuItems_spec],
      [getFeaturedItems_spec], [getMenuItem_fallback],
      [getSpiceLevelDisplay_peppers], [getDietaryBadges_spec].
    - What modelling showed: a code is redeemed twice when a request is
      granted under the same text ([collision_redeems_twice], with
      [collision_run] as such a run); the front end never accepts a
      code the server accepted ([delivered_code_is_refused]) and accepts
      four built-in codes when the server cannot be reached
      ([only_builtin_codes_accepted]); refusal reasons do not reach the
      visitor ([refusal_reason_is_masked], [alert_green_iff_issued]); an
      answer that arrives after the timeout of the client has changed the
      registry unseen ([send_late]); a late validation admits the
      next user ([stale_validation_admits_next_user]); a late answer of
      the catalogue replaces a newer one ([late_answer_overwrites]); the
      items and the tabs of the menu can come from different catalogues
      ([items_and_categories_differ]); the case of a query matters for
      U+00DF ([sharpS_query_differs]); a second sign-in can start while
      the first is awaited ([second_sign_in_while_first_waits]); the
      invite flag of the provider is restored only with a user and passes
      to the next user ([invite_returns_after_sign_in],
      [invite_passes_to_next_user]); the provider says authenticated for
      the stored text [null] ([signed_in_as_nobody]); the two lists of
      built-in codes differ ([validCodes_differ]).

    ** Bounds and fuel

    - Numbers are integers ([Z]); the sources' numbers are times in
      milliseconds and counts, far below 2^53, where JavaScript's numbers
      are exact.  Prices are kept in cents ([nat]).
    - [Encoding.digitsOf] takes fuel; [radixFuel n] is one more than the
      binary logarithm of [n], which bounds the number of digits in any
      radix from 2 on ([radixValue_digitsOf]), so [toStringRadix] is
      total.  [Contentful.groupDigits] takes the amount itself as fuel.
    - [JsonText.readFields] takes the length of the text as fuel; a
      field takes at least one unit, so the fuel covers every text
      ([readFields_print] needs no more than the number of fields).
      [JsonText.readNumber] accepts the digits [JSON.stringify] writes
      for an integer and no others (no leading zero, no fraction, no
      exponent).
    - The events of the menu and of the invite form need no fuel: their
      measures [MenuProps.work] and [FormsProps.owed] bound the timer and
      promise events that can still happen.  The measures of the cooldown
      are [InviteLiveness.readingsLeft], the readings of the clock before
      the one at which the cooldown is over, and, for a clock that
      advances at every reading, [InviteLiveness.remaining], in
      milliseconds, which is at most 300000.
    - Strings are sequences of 8-bit units, read as the code units
      U+0000 to U+00FF.  [toLowerCase] is that of JavaScript on every
      such text.  [toUpperCase] is that of JavaScript on every text
      without U+00B5 and U+00FF, whose upper case lies above U+00FF
      ([JsString.upperInRange]); U+00DF becomes [SS].  The texts the
      registry converts are hexadecimal digits; a code or a query typed
      by a visitor with a unit above U+00FF is outside the model.  Facts
      about one unit of a text are checked on all of its values
      ([JsString.each_unit], [Base64Props.checkBelow]: 64 sextets, 16
      hexadecimal digits, 256 units).

    ** Not modelled

    [console.log] and Google Analytics calls; the HTML of the mail, the
    constant texts, the layout and the class names of the pages and
    components; the headers that cors adds, dotenv and [app.listen]; the
    text and the delay of the mock mail; the Firebase SDK and its
    configuration in [src/src/config/firebase.js] (its results are
    parameters); the build settings of [src/vite.config.js];
    JSON bodies whose [email], [userName] or [code] is not a string
    (a number, an array or an object, which the registry would coerce);
    JSON texts other than the literals and flat objects of [JsonText]
    (nested values, escapes inside strings, white space, fractions,
    exponents and repeated keys), and escapes of
    [decodeURIComponent] outside ASCII (both are behind a class, with
    these as instances); the inside of the [GoogleLogin] widget;
    strings with units above U+00FF; unmounting of the menu or of the
    provider's form while its timer or promise is pending (for the form
    of [App.jsx] it is modelled, [AppView.StaleDone]). *)

From Stdlib Require Import List ZArith Lia Bool Permutation Morphisms Wf_nat.
Import ListNotations.

Declare Scope c2c_scope.
Delimit Scope c2c_scope with c2c.

Create HintDb c2c.
Create Rewrite HintDb c2c.

(** ** Tactics *)

(** [inv H]: inversion that cleans up after itself. *)
Ltac inv H := inversion H; subst; clear H.

(** [case_guard]: case analysis on the scrutinee of the first [if] or
    [match] of the goal, keeping the equation. *)
Ltac case_guard :=
  match goal with
  | |- context [if ?b then _ else _] => destruct b eqn:?
  | |- context [match ?x with _ => _ end] => destruct x eqn:?
  end.

(** [case_guard_in H]: the same in a hypothesis. *)
Ltac case_guard_in H :=
  match type of H with
  | context [if ?b then _ else _] => destruct b eqn:?
  | context [match ?x with _ => _ end] => destruct x eqn:?
  end.

(** [bool_to_prop]: boolean tests on integers, in the hypotheses and in the
    goal, become the propositions [lia] reads. *)
Ltac bool_to_prop :=
  repeat match goal with
  | H : (_ <? _)%Z = true |- _ => apply Z.ltb_lt in H
  | H : (_ <? _)%Z = false |- _ => apply Z.ltb_ge in H
  | H : (_ <=? _)%Z = true |- _ => apply Z.leb_le in H
  | H : (_ <=? _)%Z = false |- _ => apply Z.leb_gt in H
  | H : (_ =? _)%Z = true |- _ => apply Z.eqb_eq in H
  | H : (_ =? _)%Z = false |- _ => apply Z.eqb_neq in H
  | H : (_ >? _)%Z = true |- _ => rewrite Z.gtb_ltb in H; apply Z.ltb_lt in H
  | H : (_ >? _)%Z = false |- _ => rewrite Z.gtb_ltb in H; apply Z.ltb_ge in H
  | H : (_ && _)%bool = true |- _ => apply andb_true_iff in H; destruct H
  | H : (_ || _)%bool = false |- _ => apply orb_false_iff in H; destruct H
  | H : negb _ = true |- _ => apply negb_true_iff in H
  | H : negb _ = false |- _ => apply negb_false_iff in H
  | |- (_ <? _)%Z = true => apply Z.ltb_lt
  | |- (_ <? _)%Z = false => apply Z.ltb_ge
  | |- (_ <=? _)%Z = true => apply Z.leb_le
  | |- (_ <=? _)%Z = false => apply Z.leb_gt
  | |- (_ >? _)%Z = true => rewrite Z.gtb_ltb; apply Z.ltb_lt
  | |- (_ >? _)%Z = false => rewrite Z.gtb_ltb; apply Z.ltb_ge
  end.

(** ** Counting

    [Array.prototype.filter(p).length] is how the sources count; [countb]
    is that composite. *)

Section Counting.
Context {A : Type}.
Implicit Types (p q : A -> bool) (l : list A).

Definition countb p l : nat := length (filter p l).

Lemma countb_nil p : countb p [] = 0.
Proof. reflexivity. Qed.

Lemma countb_cons p x l :
  countb p (x :: l) = (if p x then 1 else 0) + countb p l.
Proof. unfold countb; simpl; destruct (p x); reflexivity. Qed.

Lemma countb_app p l1 l2 : countb p (l1 ++ l2) = countb p l1 + countb p l2.
Proof. unfold countb. now rewrite filter_app, length_app. Qed.

Lemma countb_le_length p l : countb p l <= length l.
Proof. apply filter_length_le. Qed.

Lemma countb_ext p q l :
  (forall x, In x l -> p x = q x) -> countb p l = countb q l.
Proof. intros H. unfold countb. now rewrite (filter_ext_in _ _ _ H). Qed.

(** Two predicates that never hold together select disjoint parts. *)
Lemma countb_disjoint p q l :
  (forall x, In x l -> p x && q x = false) ->
  countb p l + countb q l <= length l.
Proof.
  induction l as [|x l IH]; intros H; [reflexivity|].
  rewrite !countb_cons. simpl length.
  assert (Hx := H x (or_introl eq_refl)).
  assert (IH' : countb p l + countb q l <= length l)
    by (apply IH; intros y Hy; apply H; now right).
  destruct (p x), (q x); simpl in *; try discriminate; lia.
Qed.

(** A predicate and its complement partition the list. *)
Lemma countb_negb p l : countb p l + countb (fun x => negb (p x)) l = length l.
Proof.
  induction l as [|x l IH]; [reflexivity|].
  rewrite !countb_cons. simpl length. destruct (p x); simpl; lia.
Qed.

Lemma countb_monotone p q l :
  (forall x, In x l -> p x = true -> q x = true) -> countb p l <= countb q l.
Proof.
  induction l as [|x l IH]; intros H; [reflexivity|].
  rewrite !countb_cons.
  assert (IH' : countb p l <= countb q l)
    by (apply IH; intros y Hy; apply H; now right).
  destruct (p x) eqn:Hp; [rewrite (H x (or_introl eq_refl) Hp)|]; lia.
Qed.

(** Counting does not depend on the order of the list. *)
#[export] Instance countb_Permutation p :
  Proper (@Permutation A ==> eq) (countb p).
Proof.
  intros l l' H. induction H; rewrite ?countb_cons; lia.
Qed.

End Counting.

Lemma countb_map {A B : Type} (f : B -> A) (p : A -> bool) (l : list B) :
  countb p (map f l) = countb (fun y => p (f y)) l.
Proof.
  induction l as [|x l IH]; [reflexivity|].
  simpl map. now rewrite !countb_cons, IH.
Qed.

#[export] Hint Rewrite @countb_nil @countb_cons @countb_app : c2c.
#[export] Hint Resolve countb_le_length : c2c.

(** ** Inevitability

    [eventually R P x]: on every maximal sequence of [R]-steps from [x]
    there is a state where [P] holds.  A state without a successor has to
    satisfy [P] itself. *)

Section Eventually.
Context {T : Type} (R : T -> T -> Prop).

Inductive eventually (P : T -> Prop) : T -> Prop :=
| ev_now x : P x -> eventually P x
| ev_later x :
    (exists y, R x y) -> (forall y, R x y -> eventually P y) ->
    eventually P x.

Lemma eventually_weaken (P Q : T -> Prop) x :
  (forall y, P y -> Q y) -> eventually P x -> eventually Q x.
Proof.
  intros HPQ H. induction H as [x H|x Hex _ IH].
  - apply ev_now. auto.
  - apply ev_later; auto.
Qed.

(** The rule for proving it: an invariant [I] that every step keeps, a
    measure that every step from [I] decreases, and a step from every
    state of [I] where [P] does not hold yet. *)
Lemma eventually_measure (m : T -> nat) (I P : T -> Prop) :
  (forall x y, I x -> R x y -> I y /\ m y < m x) ->
  (forall x, I x -> P x \/ exists y, R x y) ->
  forall x, I x -> eventually P x.
Proof.
  intros Hstep Hprog x. remember (m x) as n eqn:En.
  revert x En. induction n as [n IH] using lt_wf_ind. intros x -> Hx.
  destruct (Hprog x Hx) as [HP|Hex]; [now apply ev_now|].
  apply ev_later; [exact Hex|]. intros y Hxy.
  destruct (Hstep x y Hx Hxy) as [Hy Hlt]. now apply (IH (m y)).
Qed.

(** Along a deterministic step, it is reached after a number of steps. *)
Lemma eventually_iter (f : T -> T) (P : T -> Prop) x :
  (forall y z, R y z -> z = f y) ->
  eventually P x -> exists n, P (Nat.iter n f x).
Proof.
  intros Hdet H. induction H as [x H|x [y Hy] _ IH].
  - now exists 0.
  - destruct (IH y Hy) as [n Hn]. exists (S n).
    rewrite (Hdet x y Hy) in Hn. now rewrite Nat.iter_succ_r.
Qed.

End Eventually.
