(* ===== verification/JsString.v ===== *)
(** * JsString: the string operations the sources call

    The sources use a handful of [String.prototype] methods: [substring],
    [toUpperCase], [toLowerCase], [trim], [includes], and string
    concatenation (template literals).  This file gives each a definition on
    Rocq strings and the lemmas the components need.

    A Rocq [string] is a sequence of 8-bit units, a JavaScript string a
    sequence of 16-bit units; the model reads a unit as the code point of the
    same number.  [isWhiteSpace] is the ECMAScript WhiteSpace and
    LineTerminator sets cut to that range.

    [toLowerCase] is ECMAScript's on every text of such units: the letters
    [A-Z] and U+00C0-U+00DE (without the sign U+00D7) move by 32.
    [toUpperCase] is ECMAScript's on every text without U+00B5 and U+00FF:
    [a-z] and U+00E0-U+00FE (without the sign U+00F7) move by 32 and
    U+00DF becomes the two units of [SS].  The upper case of U+00B5 and of
    U+00FF is above U+00FF, which a Rocq string cannot hold; the model
    leaves these two units in place ([upperInRange] marks the texts
    without them).  Since both the unit and its upper case are outside
    ASCII, a comparison of the result with an ASCII text is not changed
    by this. *)

From Stdlib Require Import List ZArith NArith Lia Bool String Ascii.
From S2P Require Import Prelude.
Import ListNotations.

#[local] Open Scope string_scope.

(** ** Definitions *)

(** The numeric value of a unit ([charCodeAt]). *)
Definition charCode (c : ascii) : N := N_of_ascii c.

(** [\s] of a regular expression, and what [trim] removes. *)
Definition isWhiteSpace (c : ascii) : bool :=
  let n := charCode c in
  ((9 <=? n) && (n <=? 13) || (n =? 32) || (n =? 160))%N.

Definition isLower (c : ascii) : bool :=
  let n := charCode c in ((97 <=? n) && (n <=? 122))%N.

Definition isUpper (c : ascii) : bool :=
  let n := charCode c in ((65 <=? n) && (n <=? 90))%N.

(** The letters of U+00C0-U+00DE and of U+00E0-U+00FE; U+00D7 and U+00F7
    are the signs of multiplication and division. *)
Definition isLatinUpper (c : ascii) : bool :=
  let n := charCode c in ((192 <=? n) && (n <=? 222) && negb (n =? 215))%N.

Definition isLatinLower (c : ascii) : bool :=
  let n := charCode c in ((224 <=? n) && (n <=? 254) && negb (n =? 247))%N.

(** U+00DF, whose upper case is [SS]. *)
Definition sharpS : ascii := ascii_of_N 223.

Definition upperChar (c : ascii) : ascii :=
  if isLower c || isLatinLower c then ascii_of_N (charCode c - 32) else c.

Definition lowerChar (c : ascii) : ascii :=
  if isUpper c || isLatinUpper c then ascii_of_N (charCode c + 32) else c.

Fixpoint mapString (f : ascii -> ascii) (s : string) : string :=
  match s with
  | EmptyString => EmptyString
  | String c s' => String (f c) (mapString f s')
  end.

(** [s.toUpperCase()], [s.toLowerCase()]. *)
Fixpoint toUpperCase (s : string) : string :=
  match s with
  | EmptyString => EmptyString
  | String c s' =>
      if Ascii.eqb c sharpS then String "S" (String "S" (toUpperCase s'))
      else String (upperChar c) (toUpperCase s')
  end.

Definition toLowerCase : string -> string := mapString lowerChar.

Fixpoint allChars (p : ascii -> bool) (s : string) : bool :=
  match s with
  | EmptyString => true
  | String c s' => p c && allChars p s'
  end.

(** The texts of units below 128. *)
Definition isAscii (s : string) : bool :=
  allChars (fun c => (charCode c <? 128)%N) s.

(** The texts whose upper case is a text of units below 256: those
    without U+00B5 and U+00FF. *)
Definition upperInRange (s : string) : bool :=
  allChars (fun c => negb (charCode c =? 181)%N && negb (charCode c =? 255)%N)
    s.

(** The texts without U+00DF and U+00B5: the units whose upper case has
    another lower case than the unit has. *)
Definition caseFolds (s : string) : bool :=
  allChars (fun c => negb (charCode c =? 223)%N && negb (charCode c =? 181)%N)
    s.

(** [s.substring(from, to)] for [from <= to], both non-negative: the units
    at positions [from .. to-1] that exist. *)
Definition jsSubstring (from to : nat) (s : string) : string :=
  substring from (to - from) s.

(** [isPrefixOf p s]: [s] starts with [p]. *)
Fixpoint isPrefixOf (p s : string) : bool :=
  match p, s with
  | EmptyString, _ => true
  | String _ _, EmptyString => false
  | String a p', String b s' => Ascii.eqb a b && isPrefixOf p' s'
  end.

(** [s.includes(sub)]: [sub] occurs in [s] as a contiguous block; the empty
    string occurs in every string. *)
Fixpoint includes (s sub : string) : bool :=
  isPrefixOf sub s ||
  match s with
  | EmptyString => false
  | String _ s' => includes s' sub
  end.

Fixpoint trimStart (s : string) : string :=
  match s with
  | EmptyString => EmptyString
  | String c s' => if isWhiteSpace c then trimStart s' else s
  end.

(** [trimEnd] drops the trailing white space: a unit is kept when it is not
    white space or when something is kept after it. *)
Fixpoint trimEnd (s : string) : string :=
  match s with
  | EmptyString => EmptyString
  | String c s' =>
      match trimEnd s' with
      | EmptyString => if isWhiteSpace c then EmptyString else String c EmptyString
      | r => String c r
      end
  end.

(** [s.trim()]. *)
Definition trim (s : string) : string := trimEnd (trimStart s).

(** A string in a boolean position: [""] is falsy, every other string is
    truthy. *)
Definition truthyString (s : string) : bool :=
  match s with EmptyString => false | _ => true end.

(** ** Lemmas *)

Lemma length_append (s1 s2 : string) :
  String.length (s1 ++ s2) = String.length s1 + String.length s2.
Proof. induction s1; simpl; congruence. Qed.

Lemma append_nil_r (s : string) : s ++ "" = s.
Proof. induction s; simpl; congruence. Qed.

Lemma append_assoc (s1 s2 s3 : string) : (s1 ++ s2) ++ s3 = s1 ++ (s2 ++ s3).
Proof. induction s1; simpl; congruence. Qed.

Lemma length_mapString f s : String.length (mapString f s) = String.length s.
Proof. induction s; simpl; congruence. Qed.

Lemma mapString_append f s1 s2 :
  mapString f (s1 ++ s2) = mapString f s1 ++ mapString f s2.
Proof. induction s1; simpl; congruence. Qed.

Lemma length_substring (n m : nat) (s : string) :
  String.length (substring n m s) = Nat.min m (String.length s - n).
Proof.
  revert n m; induction s as [|c s IH]; intros [|n] [|m]; simpl;
    rewrite ?IH; try reflexivity; lia.
Qed.

(** A prefix that fits entirely before position [m] is taken whole. *)
Lemma substring_0_append (m : nat) (s1 s2 : string) :
  String.length s1 <= m ->
  substring 0 m (s1 ++ s2) = s1 ++ substring 0 (m - String.length s1) s2.
Proof.
  revert m; induction s1 as [|c s1 IH]; intros m Hm; simpl in *.
  - now rewrite Nat.sub_0_r.
  - destruct m as [|m]; [lia|]. simpl. rewrite IH by lia. reflexivity.
Qed.

Lemma substring_0_all (m : nat) (s : string) :
  String.length s <= m -> substring 0 m s = s.
Proof.
  revert m; induction s as [|c s IH]; intros [|m] Hm; simpl in *;
    try reflexivity; try lia.
  now rewrite IH by lia.
Qed.

Lemma length_jsSubstring from to s :
  String.length (jsSubstring from to s) =
  Nat.min (to - from) (String.length s - from).
Proof. apply length_substring. Qed.

Lemma length_toLowerCase s : String.length (toLowerCase s) = String.length s.
Proof. apply length_mapString. Qed.

(** A fact about one unit is checked on its 256 values. *)
Ltac each_unit c := destruct c as [[] [] [] [] [] [] [] []]; reflexivity.

Lemma isLower_upperChar c : isLower (upperChar c) = false.
Proof. each_unit c. Qed.

Lemma isUpper_lowerChar c : isUpper (lowerChar c) = false.
Proof. each_unit c. Qed.

Lemma upperChar_idem c : upperChar (upperChar c) = upperChar c.
Proof. each_unit c. Qed.

Lemma lowerChar_idem c : lowerChar (lowerChar c) = lowerChar c.
Proof. each_unit c. Qed.

Lemma upperChar_sharpS c :
  Ascii.eqb (upperChar c) sharpS = Ascii.eqb c sharpS.
Proof. each_unit c. Qed.

(** The upper case of a unit below 128. *)
Lemma upperChar_ascii c :
  (charCode c < 128)%N ->
  upperChar c = if isLower c then ascii_of_N (charCode c - 32) else c.
Proof.
  intros Hc. unfold upperChar, isLatinLower.
  replace (224 <=? charCode c)%N with false by (symmetry; apply N.leb_gt; lia).
  now rewrite orb_false_r.
Qed.

Lemma lowerChar_ascii c :
  (charCode c < 128)%N ->
  lowerChar c = if isUpper c then ascii_of_N (charCode c + 32) else c.
Proof.
  intros Hc. unfold lowerChar, isLatinUpper.
  replace (192 <=? charCode c)%N with false by (symmetry; apply N.leb_gt; lia).
  now rewrite orb_false_r.
Qed.

(** Away from U+00DF the upper case is taken unit by unit. *)
Lemma toUpperCase_cons c s :
  (charCode c <> 223)%N ->
  toUpperCase (String c s) = String (upperChar c) (toUpperCase s).
Proof.
  intros Hc. cbn [toUpperCase].
  destruct (Ascii.eqb_spec c sharpS) as [->|]; [now destruct Hc|reflexivity].
Qed.

(** The upper case of a text below 128 has its length (every U+00DF
    makes it one unit longer). *)
Lemma length_toUpperCase s :
  isAscii s = true -> String.length (toUpperCase s) = String.length s.
Proof.
  unfold isAscii. induction s as [|c s IH]; [reflexivity|].
  cbn [allChars]. intros [Hc Hs]%andb_true_iff. apply N.ltb_lt in Hc.
  rewrite toUpperCase_cons by lia. cbn [String.length]. now rewrite IH.
Qed.

Lemma toUpperCase_idem s : toUpperCase (toUpperCase s) = toUpperCase s.
Proof.
  induction s as [|c s IH]; [reflexivity|]. cbn [toUpperCase].
  destruct (Ascii.eqb c sharpS) eqn:E; cbn [toUpperCase].
  - cbn. now rewrite IH.
  - now rewrite upperChar_sharpS, E, upperChar_idem, IH.
Qed.

Lemma toLowerCase_idem s : toLowerCase (toLowerCase s) = toLowerCase s.
Proof.
  unfold toLowerCase. induction s; simpl; [reflexivity|].
  now rewrite lowerChar_idem, IHs.
Qed.

Lemma isPrefixOf_append (p s : string) : isPrefixOf p (p ++ s) = true.
Proof. induction p; simpl; [reflexivity|]. now rewrite Ascii.eqb_refl. Qed.

Lemma isPrefixOf_inv (p s : string) :
  isPrefixOf p s = true -> exists r, s = p ++ r.
Proof.
  revert s; induction p as [|c p IH]; intros s H; simpl in *.
  - now exists s.
  - destruct s as [|d s]; [discriminate|].
    apply andb_true_iff in H as [E H].
    apply Ascii.eqb_eq in E. subst.
    destruct (IH _ H) as [r ->]. now exists r.
Qed.

Lemma includes_prefix (s sub : string) :
  isPrefixOf sub s = true -> includes s sub = true.
Proof. intros H. destruct s; simpl; now rewrite H. Qed.

(** [includes] decides "occurs as a contiguous block". *)
Lemma includes_spec (s sub : string) :
  includes s sub = true <-> exists a b, s = a ++ sub ++ b.
Proof.
  split.
  - induction s as [|c s IH]; simpl; intros H.
    + rewrite orb_false_r in H. destruct (isPrefixOf_inv _ _ H) as [r Hr].
      now exists "", r.
    + apply orb_true_iff in H as [H|H].
      * destruct (isPrefixOf_inv _ _ H) as [r Hr]. now exists "", r.
      * destruct (IH H) as (a & b & ->). now exists (String c a), b.
  - intros (a & b & ->). induction a as [|c a IH]; simpl.
    + apply includes_prefix, isPrefixOf_append.
    + rewrite IH. apply orb_true_r.
Qed.

Lemma includes_empty (s : string) : includes s "" = true.
Proof. apply includes_spec. now exists "", s. Qed.

Lemma includes_refl (s : string) : includes s s = true.
Proof. apply includes_spec. exists "", "". now rewrite append_nil_r. Qed.

Lemma includes_trans (s t u : string) :
  includes s t = true -> includes t u = true -> includes s u = true.
Proof.
  rewrite !includes_spec. intros (a & b & ->) (c & d & ->).
  exists (a ++ c), (d ++ b). now rewrite !append_assoc.
Qed.

(** A unit-wise conversion keeps occurrences. *)
Lemma includes_mapString f (s t : string) :
  includes s t = true -> includes (mapString f s) (mapString f t) = true.
Proof.
  rewrite !includes_spec. intros (a & b & ->).
  exists (mapString f a), (mapString f b). now rewrite !mapString_append.
Qed.

Lemma lowerChar_upperChar c : lowerChar (upperChar c) = lowerChar c.
Proof. each_unit c. Qed.

(** The lower case of the upper case is the lower case, for a text
    without U+00DF (whose upper case [SS] has the lower case [ss]) and
    U+00B5 (whose upper case U+039C has the lower case U+03BC). *)
Lemma toLowerCase_toUpperCase s :
  caseFolds s = true -> toLowerCase (toUpperCase s) = toLowerCase s.
Proof.
  unfold caseFolds, toLowerCase. induction s as [|c s IH]; [reflexivity|].
  cbn [allChars]. intros [[Hc _]%andb_true_iff Hs]%andb_true_iff.
  apply negb_true_iff, N.eqb_neq in Hc.
  rewrite toUpperCase_cons by exact Hc. cbn [mapString].
  now rewrite lowerChar_upperChar, IH.
Qed.

(** U+00DF is where the two differ. *)
Example toLowerCase_toUpperCase_sharpS :
  toLowerCase (toUpperCase (String sharpS "")) = "ss" /\
  toLowerCase (String sharpS "") = String sharpS "".
Proof. split; reflexivity. Qed.

Lemma trimStart_spec (s : string) :
  match trimStart s with
  | EmptyString => allChars isWhiteSpace s = true
  | String c _ => isWhiteSpace c = false
  end.
Proof.
  induction s as [|c s IH]; simpl; [reflexivity|].
  destruct (isWhiteSpace c) eqn:E; simpl; [|exact E].
  destruct (trimStart s); simpl; auto.
Qed.

Lemma trimEnd_empty (s : string) :
  trimEnd s = "" <-> allChars isWhiteSpace s = true.
Proof.
  induction s as [|c s IH]; simpl; [tauto|].
  destruct (trimEnd s) eqn:E.
  - destruct (isWhiteSpace c); simpl; [tauto|]. split; discriminate.
  - split; [discriminate|]. intros H. apply andb_true_iff in H as [_ H].
    apply IH in H. discriminate.
Qed.

Lemma trimStart_white (s : string) :
  allChars isWhiteSpace s = true -> trimStart s = "".
Proof.
  induction s as [|c s IH]; simpl; [reflexivity|].
  intros H. apply andb_true_iff in H as [-> H]. auto.
Qed.

Lemma allChars_trimStart p (s : string) :
  allChars p s = true -> allChars p (trimStart s) = true.
Proof.
  induction s as [|c s IH]; simpl; [reflexivity|].
  intros H. destruct (isWhiteSpace c); simpl; [|exact H].
  apply andb_true_iff in H as [_ H]. auto.
Qed.

(** [trim] yields the empty string exactly on strings of white space: this
    is the test [!s.trim()] of the forms. *)
Lemma trim_empty (s : string) :
  trim s = "" <-> allChars isWhiteSpace s = true.
Proof.
  unfold trim. rewrite trimEnd_empty. split.
  - intros H. pose proof (trimStart_spec s) as Hs.
    destruct (trimStart s) as [|c r]; [exact Hs|].
    simpl in H. rewrite Hs in H. discriminate.
  - apply allChars_trimStart.
Qed.

Lemma truthyString_trim (s : string) :
  truthyString (trim s) = negb (allChars isWhiteSpace s).
Proof.
  destruct (allChars isWhiteSpace s) eqn:E.
  - apply trim_empty in E. now rewrite E.
  - destruct (trim s) eqn:T; [|reflexivity].
    apply trim_empty in T. congruence.
Qed.

(** ** [split], [join] and [replace]

    [s.split(sep)] for a separator of one unit, [l.join(sep)], and
    [s.replace(/a/g, b)] for single units. *)

Fixpoint splitOn (sep : ascii) (s : string) : list string :=
  match s with
  | EmptyString => [EmptyString]
  | String c s' =>
      if Ascii.eqb c sep then EmptyString :: splitOn sep s'
      else
        match splitOn sep s' with
        | piece :: rest => String c piece :: rest
        | [] => [String c EmptyString]
        end
  end.

Fixpoint join (sep : ascii) (l : list string) : string :=
  match l with
  | [] => ""
  | [s] => s
  | s :: rest => s ++ String sep (join sep rest)
  end.

Definition replaceChar (a b : ascii) : string -> string :=
  mapString (fun c => if Ascii.eqb c a then b else c).

Lemma splitOn_nonempty sep s : splitOn sep s <> [].
Proof.
  destruct s as [|c s]; simpl; [discriminate|].
  destruct (Ascii.eqb c sep); [discriminate|].
  destruct (splitOn sep s); discriminate.
Qed.

Lemma join_splitOn sep s : join sep (splitOn sep s) = s.
Proof.
  induction s as [|c s IH]; [reflexivity|]. simpl splitOn.
  pose proof (splitOn_nonempty sep s) as Hn.
  destruct (Ascii.eqb_spec c sep) as [->|_].
  - destruct (splitOn sep s); [easy|]. simpl in *. now rewrite IH.
  - destruct (splitOn sep s) as [|piece [|next rest]]; [easy| |];
      simpl in *; now rewrite <- IH.
Qed.

(** A piece contains no separator. *)
Lemma splitOn_pieces sep s piece :
  In piece (splitOn sep s) -> allChars (fun c => negb (Ascii.eqb c sep)) piece = true.
Proof.
  revert piece. induction s as [|c s IH]; simpl; intros piece.
  - now intros [<-|[]].
  - destruct (Ascii.eqb c sep) eqn:E.
    + intros [<-|H]; [reflexivity|auto].
    + pose proof (splitOn_nonempty sep s) as Hn.
      destruct (splitOn sep s) as [|p rest]; [easy|].
      intros [<-|H]; [|apply IH; now right].
      simpl. rewrite E. simpl. apply IH. now left.
Qed.

Lemma length_replaceChar a b s :
  String.length (replaceChar a b s) = String.length s.
Proof. apply length_mapString. Qed.

Lemma replaceChar_gone a b s :
  a <> b -> allChars (fun c => negb (Ascii.eqb c a)) (replaceChar a b s) = true.
Proof.
  intros Hab. unfold replaceChar.
  induction s as [|c s IH]; [reflexivity|]. cbn [mapString allChars].
  rewrite IH, andb_true_r. destruct (Ascii.eqb_spec c a) as [->|Hc].
  - destruct (Ascii.eqb_spec b a); [congruence|reflexivity].
  - destruct (Ascii.eqb_spec c a); [contradiction|reflexivity].
Qed.

#[export] Hint Rewrite length_append length_substring
  length_toLowerCase append_nil_r : c2c.
