(* ===== verification/Encoding.v ===== *)
(** * Encoding: numbers and bytes as text

    [generateInviteCode] ([src/api/invite-service.js], lines 23-27) builds a
    code from [Date.now().toString(36)] and
    [crypto.randomBytes(4).toString('hex').toUpperCase()].  This file models
    the two encodings:

    - [toStringRadix radix n] is [Number.prototype.toString(radix)] on an
      integer [n]: digits [0-9a-z], most significant first, a leading [-] for
      a negative number.  The digit loop runs on fuel; [radixFuel] gives
      enough of it for every number (one more than the binary logarithm,
      since each step divides by a radix of at least 2), which
      [radixValue_digitsOf] and [length_digitsOf] establish.
    - [toHex] is [Buffer.prototype.toString('hex')]: two lower-case
      hexadecimal digits per byte.

    The theorems give the value the text denotes (so the encoding is
    injective), the number of digits from the size of the number, and the
    shape of the text after [toUpperCase]. *)

From Stdlib Require Import List ZArith NArith Lia Bool String Ascii.
From Stdlib.Strings Require Import Byte.
From S2P Require Import Prelude JsString.
Import ListNotations.

#[local] Open Scope string_scope.
#[local] Open Scope Z_scope.

(** ** Definitions *)

(** The digit of value [d], for [0 <= d < 36]: [0-9] then [a-z]. *)
Definition digitChar (d : Z) : ascii :=
  ascii_of_N (Z.to_N (if d <? 10 then 48 + d else 87 + d)).

(** The value of a digit; [-1] for a unit that is no digit. *)
Definition digitVal (c : ascii) : Z :=
  let n := Z.of_N (N_of_ascii c) in
  if (48 <=? n) && (n <=? 57) then n - 48
  else if (97 <=? n) && (n <=? 122) then n - 87
  else -1.

Section Radix.
Variable radix : Z.

(** The digits of a non-negative [n], most significant first.  One digit is
    produced per unit of fuel. *)
Fixpoint digitsOf (fuel : nat) (n : Z) : string :=
  match fuel with
  | O => ""
  | S fuel' =>
      (if n <? radix then "" else digitsOf fuel' (n / radix))
      ++ String (digitChar (n mod radix)) ""
  end.

(** Fuel that suffices for [n]. *)
Definition radixFuel (n : Z) : nat := S (Z.to_nat (Z.log2 n)).

(** [n.toString(radix)] for an integer [n]. *)
Definition toStringRadix (n : Z) : string :=
  if n <? 0 then String "-" (digitsOf (radixFuel (- n)) (- n))
  else digitsOf (radixFuel n) n.

(** The number a digit string denotes, reading from the left with [acc]
    already read. *)
Fixpoint radixValueFrom (acc : Z) (s : string) : Z :=
  match s with
  | EmptyString => acc
  | String c s' => radixValueFrom (acc * radix + digitVal c) s'
  end.

Definition radixValue (s : string) : Z := radixValueFrom 0 s.

End Radix.

(** [n.toString(36)]. *)
Definition toString36 : Z -> string := toStringRadix 36.

(** One hexadecimal digit, lower case. *)
Definition hexChar (d : Z) : ascii := digitChar d.

(** The numeric value of a byte. *)
Definition byteVal (b : byte) : Z := Z.of_N (Byte.to_N b).

(** A byte as two hexadecimal digits. *)
Definition byteHex (b : byte) : string :=
  String (hexChar (byteVal b / 16)) (String (hexChar (byteVal b mod 16)) "").

(** [buf.toString('hex')]. *)
Fixpoint toHex (buf : list byte) : string :=
  match buf with
  | [] => ""
  | b :: buf' => byteHex b ++ toHex buf'
  end.

(** ** Digits *)

Lemma digitVal_digitChar d : 0 <= d < 36 -> digitVal (digitChar d) = d.
Proof.
  intros Hd. unfold digitVal, digitChar.
  destruct (d <? 10) eqn:E; bool_to_prop;
    rewrite N_ascii_embedding by lia; rewrite Z2N.id by lia.
  - replace ((48 <=? 48 + d) && (48 + d <=? 57)) with true; [lia|].
    symmetry. apply andb_true_iff. split; bool_to_prop; lia.
  - replace ((48 <=? 87 + d) && (87 + d <=? 57)) with false.
    2:{ symmetry. apply andb_false_iff. right. bool_to_prop. lia. }
    replace ((97 <=? 87 + d) && (87 + d <=? 122)) with true; [lia|].
    symmetry. apply andb_true_iff. split; bool_to_prop; lia.
Qed.

Lemma digitChar_inj d1 d2 :
  0 <= d1 < 36 -> 0 <= d2 < 36 -> digitChar d1 = digitChar d2 -> d1 = d2.
Proof.
  intros H1 H2 E. apply (f_equal digitVal) in E.
  now rewrite !digitVal_digitChar in E.
Qed.

(** Upper-casing a digit: the decimal digits stay, the letters move to
    [A-Z]. *)
Definition digitCharUpper (d : Z) : ascii :=
  ascii_of_N (Z.to_N (if d <? 10 then 48 + d else 55 + d)).

Lemma charCode_digitChar d : 0 <= d < 36 -> (charCode (digitChar d) <> 223)%N.
Proof.
  intros Hd. unfold charCode, digitChar.
  destruct (d <? 10); rewrite N_ascii_embedding by lia; lia.
Qed.

Lemma upperChar_digitChar d :
  0 <= d < 36 -> upperChar (digitChar d) = digitCharUpper d.
Proof.
  intros Hd. rewrite upperChar_ascii.
  2:{ unfold charCode, digitChar.
      destruct (d <? 10); rewrite N_ascii_embedding by lia; lia. }
  unfold isLower, charCode, digitChar, digitCharUpper.
  destruct (d <? 10) eqn:E; bool_to_prop; rewrite N_ascii_embedding by lia.
  - replace ((97 <=? Z.to_N (48 + d))%N) with false; [reflexivity|].
    symmetry. apply N.leb_gt. lia.
  - replace ((97 <=? Z.to_N (87 + d))%N) with true
      by (symmetry; apply N.leb_le; lia).
    replace ((Z.to_N (87 + d) <=? 122)%N) with true
      by (symmetry; apply N.leb_le; lia).
    cbv [andb]. f_equal. lia.
Qed.

(** ** Positional notation *)

Section RadixFacts.
Variable radix : Z.
Hypothesis radix_range : 2 <= radix <= 36.

Lemma radixValueFrom_append acc s1 s2 :
  radixValueFrom radix acc (s1 ++ s2) =
  radixValueFrom radix (radixValueFrom radix acc s1) s2.
Proof. revert acc; induction s1; intros acc; simpl; auto. Qed.

Lemma log2_div_lt n : radix <= n -> Z.log2 (n / radix) < Z.log2 n.
Proof.
  intros Hn.
  assert (Hq : n / radix <= n / 2)
    by (apply Z.div_le_compat_l; lia).
  assert (H2 : Z.log2 (n / 2) = Z.log2 n - 1).
  { rewrite <- Z.div2_div, Z.div2_spec, Z.log2_shiftr by lia.
    rewrite Z.max_r; [lia|]. assert (0 < Z.log2 n) by (apply Z.log2_pos; lia). lia. }
  pose proof (Z.log2_le_mono _ _ Hq). lia.
Qed.

(** With enough fuel the digits denote the number. *)
Lemma radixValue_digitsOf fuel n :
  0 <= n -> (Z.to_nat (Z.log2 n) < fuel)%nat ->
  radixValue radix (digitsOf radix fuel n) = n.
Proof.
  unfold radixValue. revert n.
  induction fuel as [|fuel IH]; intros n Hn Hf; [lia|].
  simpl. rewrite radixValueFrom_append. simpl.
  assert (Hm : 0 <= n mod radix < radix) by (apply Z.mod_pos_bound; lia).
  rewrite digitVal_digitChar by lia.
  destruct (n <? radix) eqn:E; bool_to_prop; simpl.
  - rewrite Z.mod_small; lia.
  - rewrite IH.
    + pose proof (Z.div_mod n radix). lia.
    + apply Z.div_pos; lia.
    + pose proof (log2_div_lt n E).
      pose proof (Z.log2_nonneg (n / radix)). lia.
Qed.

(** The number of digits: [k] of them for a number of [k] digits' size. *)
Lemma length_digitsOf (k : nat) fuel n :
  (1 <= k <= fuel)%nat ->
  (k = 1%nat /\ 0 <= n \/ radix ^ (Z.of_nat k - 1) <= n) ->
  n < radix ^ Z.of_nat k ->
  String.length (digitsOf radix fuel n) = k.
Proof.
  revert fuel n. induction k as [|k IH]; intros fuel n Hf Hlo Hhi; [lia|].
  destruct fuel as [|fuel]; [lia|].
  cbn [digitsOf]. rewrite length_append. simpl String.length.
  rewrite Nat2Z.inj_succ, Z.pow_succ_r in Hhi by lia.
  replace (Z.of_nat (S k) - 1) with (Z.of_nat k) in Hlo by lia.
  destruct (n <? radix) eqn:E; bool_to_prop.
  - destruct k as [|k]; [reflexivity|]. exfalso.
    destruct Hlo as [[? _]|Hlo]; [lia|].
    assert (radix ^ 1 <= radix ^ Z.of_nat (S k))
      by (apply Z.pow_le_mono_r; lia).
    lia.
  - assert (Hk : (1 <= k)%nat) by (destruct k; [simpl in Hhi|]; lia).
    rewrite (IH fuel (n / radix)); [lia|lia| |].
    + right. destruct Hlo as [[? _]|Hlo]; [lia|].
      apply Z.div_le_lower_bound; [lia|].
      replace (Z.of_nat k) with (Z.succ (Z.of_nat k - 1)) in Hlo by lia.
      rewrite Z.pow_succ_r in Hlo by lia. lia.
    + apply Z.div_lt_upper_bound; lia.
Qed.

(** The radix fuel suffices: [toStringRadix] denotes its argument. *)
Lemma radixValue_toStringRadix n :
  0 <= n -> radixValue radix (toStringRadix radix n) = n.
Proof.
  intros Hn. unfold toStringRadix.
  replace (n <? 0) with false by (symmetry; bool_to_prop; lia).
  apply radixValue_digitsOf; [lia|]. unfold radixFuel. lia.
Qed.

Lemma toStringRadix_inj n m :
  0 <= n -> 0 <= m -> toStringRadix radix n = toStringRadix radix m -> n = m.
Proof.
  intros Hn Hm E. apply (f_equal (radixValue radix)) in E.
  now rewrite !radixValue_toStringRadix in E.
Qed.

Lemma length_toStringRadix (k : nat) n :
  (1 <= k)%nat -> radix ^ (Z.of_nat k - 1) <= n < radix ^ Z.of_nat k ->
  String.length (toStringRadix radix n) = k.
Proof.
  intros Hk [Hlo Hhi].
  assert (Hpos : 0 < radix ^ (Z.of_nat k - 1)) by (apply Z.pow_pos_nonneg; lia).
  unfold toStringRadix.
  replace (n <? 0) with false by (symmetry; bool_to_prop; lia).
  unfold radixFuel. rewrite length_digitsOf with (k := k); [lia| |lia|lia].
  assert (H2 : 2 ^ (Z.of_nat k - 1) <= n).
  { etransitivity; [|exact Hlo]. apply Z.pow_le_mono_l. lia. }
  apply Z.log2_le_pow2 in H2; lia.
Qed.

Lemma toStringRadix_nonempty n : toStringRadix radix n <> "".
Proof.
  unfold toStringRadix, radixFuel. destruct (n <? 0); [discriminate|].
  simpl. destruct (if n <? radix then _ else _); discriminate.
Qed.

End RadixFacts.

(** C20: the base-36 text of a clock reading determines the reading:
    reading the digits of [n.toString(36)] back gives [n], the text is not
    empty, and two readings with the same text are equal. *)
Theorem toString36_roundtrip n m :
  0 <= n -> 0 <= m ->
  radixValue 36 (toString36 n) = n /\ toString36 n <> "" /\
  (toString36 n = toString36 m -> n = m).
Proof.
  intros Hn Hm. unfold toString36. split; [|split].
  - apply radixValue_toStringRadix; lia.
  - apply toStringRadix_nonempty.
  - apply toStringRadix_inj; lia.
Qed.

Lemma toString36_roundtrip_witness :
  radixValue 36 (toString36 1700000000000) = 1700000000000 /\
  toString36 1700000000000 <> "" /\
  (toString36 1700000000000 = toString36 1700000000001 ->
   1700000000000 = 1700000000001).
Proof. apply (toString36_roundtrip 1700000000000 1700000000001); lia. Defined.

(** ** Hexadecimal *)

Lemma byteVal_range b : 0 <= byteVal b < 256.
Proof.
  unfold byteVal. pose proof (Byte.to_N_bounded b). lia.
Qed.

Lemma length_byteHex b : String.length (byteHex b) = 2%nat.
Proof. reflexivity. Qed.

Lemma length_toHex buf : String.length (toHex buf) = (2 * List.length buf)%nat.
Proof.
  induction buf as [|b buf IH]; [reflexivity|].
  cbn [toHex byteHex append String.length List.length]. rewrite IH. lia.
Qed.

(** [toHex] of a non-empty buffer starts with the high digit of its first
    byte. *)
Lemma toHex_cons b buf :
  toHex (b :: buf) =
  String (hexChar (byteVal b / 16))
    (String (hexChar (byteVal b mod 16)) (toHex buf)).
Proof. reflexivity. Qed.

Lemma toUpperCase_toHex_cons b buf :
  toUpperCase (toHex (b :: buf)) =
  String (digitCharUpper (byteVal b / 16))
    (String (digitCharUpper (byteVal b mod 16)) (toUpperCase (toHex buf))).
Proof.
  pose proof (byteVal_range b) as Hb.
  assert (0 <= byteVal b / 16 < 16) as Hh.
  { split; [apply Z.div_pos; lia|apply Z.div_lt_upper_bound; lia]. }
  pose proof (Z.mod_pos_bound (byteVal b) 16 ltac:(lia)) as Hl.
  rewrite toHex_cons. unfold hexChar.
  rewrite !toUpperCase_cons, !upperChar_digitChar by
    (lia || apply charCode_digitChar; lia).
  reflexivity.
Qed.

Lemma length_toUpperCase_toHex buf :
  String.length (toUpperCase (toHex buf)) = (2 * List.length buf)%nat.
Proof.
  induction buf as [|b buf IH]; [reflexivity|].
  rewrite toUpperCase_toHex_cons. cbn [String.length List.length].
  rewrite IH. lia.
Qed.

#[export] Hint Rewrite length_toHex length_byteHex : c2c.
