(* ===== verification/Regex.v ===== *)
(** * Regex: the regular expressions the sources test strings against

    [isValidEmail] ([src/api/invite-service.js], line 33) tests its argument
    against a literal regular expression anchored at both ends.  This file
    models the fragment of the expression language that literal uses
    (character classes, concatenation, alternation, [*] and [+]) and
    [RegExp.prototype.test] for an expression between [^] and [$].

    - [regex] is the syntax; a character class is a boolean predicate on
      units.
    - [matches r s], an inductive relation, is the language of [r].
    - [matchb r s] decides it by derivatives, one per unit of the subject,
      so it terminates on every input; [matchb_spec] shows the two agree.

    For an expression without back-references or look-around, [test]
    answers whether some match exists, so the backtracking order of the
    engine does not show in the result and the language is the
    specification. *)

From Stdlib Require Import List Bool String Ascii.
From S2P Require Import Prelude.
Import ListNotations.

(** ** Syntax and semantics *)

Inductive regex : Type :=
| Never : regex
| Eps : regex
| Class : (ascii -> bool) -> regex
| Seq : regex -> regex -> regex
| Alt : regex -> regex -> regex
| Star : regex -> regex.

(** [r+] is [r r*]. *)
Definition Plus (r : regex) : regex := Seq r (Star r).

(** A literal unit. *)
Definition Lit (c : ascii) : regex := Class (Ascii.eqb c).

Inductive matches : regex -> list ascii -> Prop :=
| MEps : matches Eps []
| MClass p c : p c = true -> matches (Class p) [c]
| MSeq r1 r2 s1 s2 :
    matches r1 s1 -> matches r2 s2 -> matches (Seq r1 r2) (s1 ++ s2)
| MAltL r1 r2 s : matches r1 s -> matches (Alt r1 r2) s
| MAltR r1 r2 s : matches r2 s -> matches (Alt r1 r2) s
| MStarNil r : matches (Star r) []
| MStarApp r s1 s2 :
    matches r s1 -> matches (Star r) s2 -> matches (Star r) (s1 ++ s2).

#[export] Hint Constructors matches : c2c.

(** ** The matcher *)

(** [nullable r]: [r] matches the empty string. *)
Fixpoint nullable (r : regex) : bool :=
  match r with
  | Never => false
  | Eps => true
  | Class _ => false
  | Seq r1 r2 => nullable r1 && nullable r2
  | Alt r1 r2 => nullable r1 || nullable r2
  | Star _ => true
  end.

(** [deriv c r] matches [s] exactly when [r] matches [c :: s]. *)
Fixpoint deriv (c : ascii) (r : regex) : regex :=
  match r with
  | Never => Never
  | Eps => Never
  | Class p => if p c then Eps else Never
  | Seq r1 r2 =>
      if nullable r1 then Alt (Seq (deriv c r1) r2) (deriv c r2)
      else Seq (deriv c r1) r2
  | Alt r1 r2 => Alt (deriv c r1) (deriv c r2)
  | Star r1 => Seq (deriv c r1) (Star r1)
  end.

Fixpoint matchb (r : regex) (s : list ascii) : bool :=
  match s with
  | [] => nullable r
  | c :: s' => matchb (deriv c r) s'
  end.

(** [/^r$/.test(s)]. *)
Definition regexTest (r : regex) (s : string) : bool :=
  matchb r (list_ascii_of_string s).

(** ** Correctness of the matcher *)

Lemma nullable_spec r : nullable r = true <-> matches r [].
Proof.
  induction r; simpl; split; intros H; try discriminate; eauto with c2c.
  - inversion H.
  - inversion H.
  - apply andb_true_iff in H as [H1 H2].
    change (@nil ascii) with (@nil ascii ++ []). constructor; tauto.
  - inversion H; subst.
    match goal with E : _ ++ _ = [] |- _ => apply app_eq_nil in E as [-> ->] end.
    apply andb_true_iff. tauto.
  - apply orb_true_iff in H as [H|H]; [apply MAltL|apply MAltR]; tauto.
  - apply orb_true_iff. inversion H; subst; tauto.
Qed.

(** A non-empty match of [r*] starts with a non-empty match of [r]. *)
Lemma matches_star_cons r c s :
  matches (Star r) (c :: s) ->
  exists s1 s2, s = s1 ++ s2 /\ matches r (c :: s1) /\ matches (Star r) s2.
Proof.
  intros H. remember (Star r) as r' eqn:Er. remember (c :: s) as cs eqn:Es.
  revert s Es.
  induction H as [| | | | | |r0 s1 s2 H1 _ H2 IH2]; intros t Et;
    try discriminate.
  inv Er. destruct s1 as [|c1 s1]; simpl in Et.
  - eauto.
  - inv Et. eauto.
Qed.

Lemma deriv_sound c r s : matches (deriv c r) s -> matches r (c :: s).
Proof.
  revert s; induction r as [| |p|r1 IH1 r2 IH2|r1 IH1 r2 IH2|r1 IH1];
    intros s H; simpl in H.
  - inversion H.
  - inversion H.
  - destruct (p c) eqn:E; inv H. now constructor.
  - assert (Hseq : forall s, matches (Seq (deriv c r1) r2) s ->
                             matches (Seq r1 r2) (c :: s)).
    { intros s' Hs. inv Hs. rewrite app_comm_cons. constructor; auto. }
    destruct (nullable r1) eqn:N; [|auto].
    inv H; [auto|].
    change (c :: s) with ([] ++ c :: s). constructor; [|auto].
    now apply nullable_spec.
  - inv H; [apply MAltL|apply MAltR]; auto.
  - inv H. rewrite app_comm_cons. constructor; auto.
Qed.

Lemma deriv_complete c r s : matches r (c :: s) -> matches (deriv c r) s.
Proof.
  revert s; induction r as [| |p|r1 IH1 r2 IH2|r1 IH1 r2 IH2|r1 IH1];
    intros s H; simpl.
  - inversion H.
  - inversion H.
  - inv H. match goal with E : p c = true |- _ => rewrite E end. constructor.
  - inversion H as [| |? ? s1 s2 H1 H2| | | |]; subst.
    destruct s1 as [|c1 s1]; simpl in *.
    + subst s2. apply nullable_spec in H1. rewrite H1. apply MAltR. auto.
    + match goal with E : _ :: _ = _ :: _ |- _ => inv E end.
      assert (Hd : matches (Seq (deriv c r1) r2) (s1 ++ s2))
        by (constructor; auto).
      destruct (nullable r1); [now apply MAltL|exact Hd].
  - inv H; [apply MAltL|apply MAltR]; auto.
  - destruct (matches_star_cons _ _ _ H) as (s1 & s2 & -> & H1 & H2).
    constructor; auto.
Qed.

(** The matcher decides the language. *)
Lemma matchb_spec r s : matchb r s = true <-> matches r s.
Proof.
  revert r; induction s as [|c s IH]; intros r; simpl.
  - apply nullable_spec.
  - rewrite IH. split; [apply deriv_sound|apply deriv_complete].
Qed.

(** [regex.test(s)], computed by derivatives, holds exactly when the
    units of [s] are in the language of the expression, and fails exactly
    when they are not. *)
Theorem regexTest_correct r s :
  (regexTest r s = true <-> matches r (list_ascii_of_string s)) /\
  (regexTest r s = false <-> ~ matches r (list_ascii_of_string s)).
Proof.
  unfold regexTest. rewrite <- matchb_spec.
  destruct (matchb r (list_ascii_of_string s)); intuition congruence.
Qed.

(** ** Derived forms *)

Lemma matches_lit c s : matches (Lit c) s <-> s = [c].
Proof.
  unfold Lit. split.
  - intros H. inv H. match goal with E : (_ =? _)%char = true |- _ =>
      apply Ascii.eqb_eq in E; now subst end.
  - intros ->. constructor. apply Ascii.eqb_refl.
Qed.

Lemma matches_star_class p s :
  matches (Star (Class p)) s <-> forallb p s = true.
Proof.
  split.
  - intros H. remember (Star (Class p)) as r eqn:Er.
    induction H as [| | | | | |r0 s1 s2 H1 _ H2 IH2]; try discriminate;
      [reflexivity|].
    inv Er. inv H1. simpl.
    match goal with E : p _ = true |- _ => rewrite E end. auto.
  - induction s as [|c s IH]; simpl; intros H; [constructor|].
    apply andb_true_iff in H as [Hc Hs].
    change (c :: s) with ([c] ++ s). constructor; auto. now constructor.
Qed.

(** [[p]+] matches the non-empty strings of units in the class. *)
Lemma matches_plus_class p s :
  matches (Plus (Class p)) s <-> s <> [] /\ forallb p s = true.
Proof.
  unfold Plus. split.
  - intros H. inv H.
    match goal with H1 : matches (Class _) _ |- _ => inv H1 end.
    match goal with H2 : matches (Star _) _ |- _ =>
      apply matches_star_class in H2 end.
    simpl. split; [discriminate|]. apply andb_true_iff. auto.
  - intros [Hne H]. destruct s as [|c s]; [congruence|].
    simpl in H. apply andb_true_iff in H as [Hc Hs].
    change (c :: s) with ([c] ++ s). constructor; [now constructor|].
    now apply matches_star_class.
Qed.

Lemma matches_seq r1 r2 s :
  matches (Seq r1 r2) s <->
  exists s1 s2, s = s1 ++ s2 /\ matches r1 s1 /\ matches r2 s2.
Proof.
  split.
  - intros H. inv H. eauto.
  - intros (s1 & s2 & -> & H1 & H2). now constructor.
Qed.
