(* ===== verification/Runtime.v ===== *)
(** * Runtime: state passing for the handlers

    The JavaScript sources mutate module-level and component-level state and
    read the wall clock and the random source.  A handler is modelled as a
    function from the state before to a result and the state after: the
    state monad [M S], with [S] the state of the component.

    - [ret], [bind], [get], [put], [gets], [modify] and the notation
      [let* x := m in k] in [c2c_scope].
    - [meq], equality of computations at every state, with its [Equivalence]
      and [Proper] instances, and the monad laws stated for it.
    - [countM], [Array.prototype.filter(p).length] for a predicate that has
      effects (it is run once per element, in order).
    - [Env], what a run of the server is given from outside: the successive
      readings of the clock and the successive random bytes.  A handler that
      reads the clock [n] times consumes [n] readings; nothing is assumed of
      the readings unless a lemma says so ([clockMonotone]). *)

From Stdlib Require Import List ZArith Lia Bool Morphisms RelationClasses.
From Stdlib.Strings Require Import Byte.
From S2P Require Import Prelude.
Import ListNotations.

(** ** The state monad *)

Definition M (S A : Type) : Type := S -> A * S.

Section Monad.
Context {S : Type}.

Definition ret {A} (a : A) : M S A := fun s => (a, s).

Definition bind {A B} (m : M S A) (k : A -> M S B) : M S B :=
  fun s => let (a, s') := m s in k a s'.

Definition get : M S S := fun s => (s, s).
Definition put (s : S) : M S unit := fun _ => (tt, s).
Definition gets {A} (f : S -> A) : M S A := fun s => (f s, s).
Definition modify (f : S -> S) : M S unit := fun s => (tt, f s).

(** The result and the final state of running [m] from [s]. *)
Definition evalM {A} (m : M S A) (s : S) : A := fst (m s).
Definition execM {A} (m : M S A) (s : S) : S := snd (m s).

(** Two computations are equal when they agree at every state. *)
Definition meq {A} (m1 m2 : M S A) : Prop := forall s, m1 s = m2 s.

End Monad.

Notation "'let*' x ':=' m 'in' k" := (bind m (fun x => k))
  (at level 10, x name, m at level 100, k at level 200) : c2c_scope.
Infix "=m=" := meq (at level 70, no associativity) : c2c_scope.

#[local] Open Scope c2c_scope.

Section MonadLaws.
Context {S : Type}.

#[export] Instance meq_equivalence {A} : Equivalence (@meq S A).
Proof.
  split.
  - intros m s. reflexivity.
  - intros m1 m2 H s. symmetry. apply H.
  - intros m1 m2 m3 H1 H2 s. etransitivity; [apply H1|apply H2].
Qed.

#[export] Instance bind_proper {A B} :
  Proper (meq ==> pointwise_relation A meq ==> meq) (@bind S A B).
Proof.
  intros m1 m2 Hm k1 k2 Hk s. unfold bind. rewrite Hm.
  destruct (m2 s). apply Hk.
Qed.

Lemma bind_ret_l {A B} (a : A) (k : A -> M S B) : bind (ret a) k =m= k a.
Proof. intros s. reflexivity. Qed.

Lemma bind_ret_r {A} (m : M S A) : bind m ret =m= m.
Proof. intros s. unfold bind, ret. now destruct (m s). Qed.

Lemma bind_assoc {A B C} (m : M S A) (k : A -> M S B) (h : B -> M S C) :
  bind (bind m k) h =m= bind m (fun a => bind (k a) h).
Proof. intros s. unfold bind. now destruct (m s). Qed.

(** Running a [bind]: the equation the proofs about handlers unfold with. *)
Lemma run_bind {A B} (m : M S A) (k : A -> M S B) s :
  bind m k s = k (evalM m s) (execM m s).
Proof. unfold bind, evalM, execM. now destruct (m s). Qed.

Lemma evalM_bind {A B} (m : M S A) (k : A -> M S B) s :
  evalM (bind m k) s = evalM (k (evalM m s)) (execM m s).
Proof. unfold evalM at 1. now rewrite run_bind. Qed.

Lemma execM_bind {A B} (m : M S A) (k : A -> M S B) s :
  execM (bind m k) s = execM (k (evalM m s)) (execM m s).
Proof. unfold execM at 1. now rewrite run_bind. Qed.

(** ** Counting with effects *)

(** [l.filter(p).length] where [p] runs in the monad: one run of [p] per
    element, first to last. *)
Fixpoint countM {A} (p : A -> M S bool) (l : list A) : M S nat :=
  match l with
  | [] => ret 0
  | x :: l' =>
      let* b := p x in
      let* n := countM p l' in
      ret ((if b then 1 else 0) + n)
  end.

Lemma countM_le_length {A} (p : A -> M S bool) l s :
  evalM (countM p l) s <= length l.
Proof.
  revert s; induction l as [|x l IH]; intros s; simpl; [reflexivity|].
  rewrite !evalM_bind. unfold evalM at 1, ret. simpl.
  specialize (IH (execM (p x) s)). destruct (evalM (p x) s); simpl; lia.
Qed.

(** A predicate without effects counts as [countb] does. *)
Lemma countM_pure {A} (q : A -> bool) l s :
  countM (fun x => ret (q x)) l s = (countb q l, s).
Proof.
  induction l as [|x l IH]; [reflexivity|].
  cbn [countM]. unfold bind at 1. cbn [ret]. unfold bind. rewrite IH.
  rewrite countb_cons. reflexivity.
Qed.

End MonadLaws.

(** ** The environment of a server run *)

Record Env : Type := {
  (** the [i]-th reading of the clock, in milliseconds since the epoch *)
  clock : nat -> Z;
  (** the [i]-th byte the random source yields *)
  entropy : nat -> byte
}.

(** The clock never runs backwards. *)
Definition clockMonotone (env : Env) : Prop :=
  forall i j, i <= j -> (clock env i <= clock env j)%Z.

(** A clock that stands still at [t], and a random source that repeats [b]:
    the environment of the worked examples. *)
Definition constEnv (t : Z) (b : byte) : Env :=
  {| clock := fun _ => t; entropy := fun _ => b |}.

Lemma constEnv_monotone t b : clockMonotone (constEnv t b).
Proof. intros i j _. simpl. lia. Qed.

(** A clock that advances by [step] at every reading. *)
Definition tickEnv (base step : Z) (b : byte) : Env :=
  {| clock := fun i => (base + Z.of_nat i * step)%Z; entropy := fun _ => b |}.

Lemma tickEnv_monotone base step b :
  (0 <= step)%Z -> clockMonotone (tickEnv base step b).
Proof. intros Hs i j Hij. simpl. nia. Qed.

(** A clock that advances by [step] for [n] readings and then stands at
    [later]. *)
Definition jumpEnv (n : nat) (base step later : Z) (b : byte) : Env :=
  {| clock := fun i =>
       if i <? n then (base + Z.of_nat i * step)%Z else later;
     entropy := fun _ => b |}.

Lemma jumpEnv_monotone n base step later b :
  (0 <= step)%Z -> (base + Z.of_nat n * step <= later)%Z ->
  clockMonotone (jumpEnv n base step later b).
Proof.
  intros Hs Hl i j Hij. simpl.
  destruct (Nat.ltb_spec i n), (Nat.ltb_spec j n); nia.
Qed.

(** Running a computation and returning a function of its value. *)
Lemma run_map {S A B : Type} (m : M S A) (f : A -> B) (s : S) :
  (let* x := m in ret (f x)) s = (f (evalM m s), execM m s).
Proof. unfold bind, evalM, execM, ret. now destruct (m s). Qed.

Lemma run_pair {S A : Type} (m : M S A) (s : S) :
  m s = (evalM m s, execM m s).
Proof. unfold evalM, execM. now destruct (m s). Qed.

#[export] Hint Rewrite @run_bind @evalM_bind @execM_bind : c2c.
#[export] Hint Resolve constEnv_monotone : c2c.
