(* ===== verification/JsMap.v ===== *)
(** * JsMap: the JavaScript [Map] keyed by strings

    The invite service keeps its state in two [Map]s
    ([src/api/invite-service.js], lines 17-18).  A [Map] remembers the order
    in which keys were first set: [set] on a new key appends an entry, [set]
    on a present key replaces the value where the entry stands, and
    [values()] lists the values in that order.  The order is observable in
    [getInviteStats], whose filter callback reads the clock once per entry.

    - [jsMap V] is the list of entries in insertion order, with [mapGet],
      [mapSet], [mapHas], [mapSize], [mapValues], [mapKeys].
    - [mapWf], no key twice, is the representation invariant; [mapSet]
      keeps it.
    - [absMap] forgets the order: the finite map ([gmap]) with the same
      entries.  [absMap_mapGet], [absMap_mapSet] and [absMap_mapSize] show
      that the operations implement lookup, insert and size of finite maps,
      which is the refinement the registry's abstract specification rests
      on. *)

From stdpp Require Import gmap strings list.
From S2P Require Import Prelude.

Definition jsMap (V : Type) : Type := list (string * V).

Section JsMap.
Context {V : Type}.
Implicit Types (m : jsMap V) (k : string) (v : V).

(** ** Operations *)

(** [new Map()]. *)
Definition mapEmpty : jsMap V := [].

(** [m.get(k)]; [None] is [undefined]. *)
Fixpoint mapGet k m : option V :=
  match m with
  | [] => None
  | (k', v) :: m' => if String.eqb k k' then Some v else mapGet k m'
  end.

(** [m.set(k, v)]. *)
Fixpoint mapSet k v m : jsMap V :=
  match m with
  | [] => [(k, v)]
  | (k', v') :: m' =>
      if String.eqb k k' then (k, v) :: m' else (k', v') :: mapSet k v m'
  end.

(** [m.has(k)]. *)
Definition mapHas k m : bool :=
  match mapGet k m with Some _ => true | None => false end.

(** [m.size]. *)
Definition mapSize m : nat := length m.

(** [Array.from(m.values())], [Array.from(m.keys())]. *)
Definition mapValues m : list V := m.*2.
Definition mapKeys m : list string := m.*1.

(** ** The representation invariant and the abstraction *)

Definition mapWf m : Prop := NoDup (mapKeys m).

Definition absMap m : gmap string V := list_to_map m.

(** ** Lemmas on the operations *)

Lemma mapGet_mapSet_eq k v m : mapGet k (mapSet k v m) = Some v.
Proof.
  induction m as [|[k' v'] m IH]; simpl.
  - by rewrite String.eqb_refl.
  - destruct (String.eqb_spec k k') as [->|Hne]; simpl.
    + by rewrite String.eqb_refl.
    + by destruct (String.eqb_spec k k').
Qed.

Lemma mapGet_mapSet_ne k k' v m :
  k ≠ k' → mapGet k' (mapSet k v m) = mapGet k' m.
Proof.
  intros Hne. induction m as [|[k0 v0] m IH]; simpl.
  - by destruct (String.eqb_spec k' k) as [->|].
  - destruct (String.eqb_spec k k0) as [->|Hk]; simpl.
    + destruct (String.eqb_spec k' k0); congruence.
    + by rewrite IH.
Qed.

Lemma mapGet_mapSet k k' v m :
  mapGet k' (mapSet k v m) = if String.eqb k k' then Some v else mapGet k' m.
Proof.
  destruct (String.eqb_spec k k') as [->|Hne].
  - apply mapGet_mapSet_eq.
  - by apply mapGet_mapSet_ne.
Qed.

Lemma mapGet_None k m : mapGet k m = None ↔ k ∉ mapKeys m.
Proof.
  unfold mapKeys. induction m as [|[k' v'] m IH]; simpl.
  - split; [intros _; apply not_elem_of_nil|done].
  - rewrite not_elem_of_cons.
    destruct (String.eqb_spec k k') as [->|Hne]; [|tauto].
    split; [done|]. intros [? _]. done.
Qed.

Lemma mapGet_Some_elem_of k v m : mapGet k m = Some v → (k, v) ∈ m.
Proof.
  induction m as [|[k' v'] m IH]; simpl; [done|].
  destruct (String.eqb_spec k k') as [->|Hne].
  - intros [= ->]. apply elem_of_cons. by left.
  - intros H. apply elem_of_cons. right. by apply IH.
Qed.

Lemma elem_of_mapGet k v m : mapWf m → (k, v) ∈ m → mapGet k m = Some v.
Proof.
  unfold mapWf, mapKeys. induction m as [|[k' v'] m IH]; simpl.
  - intros _ H. by apply elem_of_nil in H.
  - intros [Hk Hm]%NoDup_cons [[= -> ->]|Hin]%elem_of_cons.
    + by rewrite String.eqb_refl.
    + destruct (String.eqb_spec k k') as [->|Hne]; [|by apply IH].
      exfalso. apply Hk. apply (list_elem_of_fmap_2 fst _ _ Hin).
Qed.

Lemma mapGet_Some_value k v m : mapGet k m = Some v → v ∈ mapValues m.
Proof.
  intros H%mapGet_Some_elem_of. apply (list_elem_of_fmap_2 snd _ _ H).
Qed.

(** A new key is appended, a present key keeps its place. *)
Lemma mapKeys_mapSet k v m :
  mapKeys (mapSet k v m) = if mapHas k m then mapKeys m else mapKeys m ++ [k].
Proof.
  unfold mapHas, mapKeys. induction m as [|[k' v'] m IH]; csimpl; [done|].
  destruct (String.eqb_spec k k') as [->|Hne]; csimpl; [done|].
  rewrite IH. by destruct (mapGet k m).
Qed.

Lemma mapSize_mapSet k v m :
  mapSize (mapSet k v m) = if mapHas k m then mapSize m else S (mapSize m).
Proof.
  unfold mapSize. rewrite <- !(length_fmap fst).
  change (fst <$> ?x) with (mapKeys x). rewrite mapKeys_mapSet.
  destruct (mapHas k m); [done|]. rewrite length_app. simpl. lia.
Qed.

Lemma mapSet_fresh k v m : mapGet k m = None → mapSet k v m = m ++ [(k, v)].
Proof.
  induction m as [|[k' v'] m IH]; simpl; [done|].
  destruct (String.eqb_spec k k'); [done|]. intros H. by rewrite IH.
Qed.

Lemma mapWf_nil : mapWf mapEmpty.
Proof. apply NoDup_nil_2. Qed.

Lemma mapWf_mapSet k v m : mapWf m → mapWf (mapSet k v m).
Proof.
  unfold mapWf. rewrite mapKeys_mapSet. unfold mapHas.
  destruct (mapGet k m) eqn:E; [done|]. intros Hm.
  apply NoDup_app. split_and!; [done| |apply NoDup_singleton].
  intros x Hx ->%list_elem_of_singleton. by apply mapGet_None in E.
Qed.

(** ** Refinement of finite maps *)

Lemma absMap_mapGet k m : absMap m !! k = mapGet k m.
Proof.
  unfold absMap. induction m as [|[k' v'] m IH]; simpl; [done|].
  destruct (String.eqb_spec k k') as [->|Hne].
  - by rewrite lookup_insert_eq.
  - by rewrite lookup_insert_ne.
Qed.

Lemma absMap_mapSet k v m : absMap (mapSet k v m) = <[k:=v]> (absMap m).
Proof.
  unfold absMap. induction m as [|[k' v'] m IH]; simpl; [done|].
  destruct (String.eqb_spec k k') as [->|Hne]; simpl.
  - by rewrite insert_insert_eq.
  - by rewrite IH, insert_insert_ne.
Qed.

Lemma absMap_mapSize m : mapWf m → size (absMap m) = mapSize m.
Proof. apply map_size_list_to_map. Qed.

Lemma absMap_empty : absMap mapEmpty = ∅.
Proof. done. Qed.

Lemma absMap_dom m : dom (absMap m) = list_to_set (mapKeys m).
Proof. apply dom_list_to_map_L. Qed.

(** A [Map] kept as the list of its entries in insertion order is a
    finite map: [get] is lookup, [set] is insertion, [has] is membership
    of the domain, a [Map] built by [set] from the empty one has no key
    twice, and then [size] is the number of keys. *)
Theorem jsMap_refines_gmap k v m k' :
  absMap m !! k' = mapGet k' m /\
  absMap (mapSet k v m) = <[k:=v]> (absMap m) /\
  (mapHas k' m = true <-> k' ∈ dom (absMap m)) /\
  (mapWf m -> mapWf (mapSet k v m) /\ size (absMap m) = mapSize m).
Proof.
  split_and!.
  - apply absMap_mapGet.
  - apply absMap_mapSet.
  - unfold mapHas. rewrite elem_of_dom, absMap_mapGet.
    destruct (mapGet k' m); split; (done || by intros []).
  - intros Hwf. split; [by apply mapWf_mapSet|by apply absMap_mapSize].
Qed.

End JsMap.

#[export] Hint Rewrite @mapGet_mapSet_eq @absMap_mapGet @absMap_mapSet : c2c.
#[export] Hint Resolve mapWf_nil mapWf_mapSet : c2c.
