(* ===== verification/JsValue.v ===== *)
(** * JsValue: JSON values as the sources use them

    The bodies of the HTTP messages ([express.json()], [res.json], axios)
    are JSON values.  [Json] is their syntax; [field] is property access
    ([undefined] is [None]); [truthy] is the coercion of [!x], [x ? a : b]
    and [x || y]; [orElse] is [x || y] on values that may be [undefined].

    Numbers are integers, which is what the sources put in their messages
    (counts, prices, times).  Objects keep their keys in order and [field]
    returns the last binding of a key, as [JSON.parse] does. *)

From Stdlib Require Import List ZArith Lia Bool String.
From S2P Require Import Prelude JsString Encoding.
Import ListNotations.

#[local] Open Scope string_scope.

Inductive Json : Type :=
| JNull
| JBool (b : bool)
| JNum (n : Z)
| JStr (s : string)
| JArr (l : list Json)
| JObj (fields : list (string * Json)).

(** The last binding of [k] in a list of fields. *)
Fixpoint lookupField (k : string) (fields : list (string * Json))
    : option Json :=
  match fields with
  | [] => None
  | (k', v) :: rest =>
      match lookupField k rest with
      | Some v' => Some v'
      | None => if String.eqb k k' then Some v else None
      end
  end.

(** [v.k], for the keys the sources read (none is a property of arrays or
    of primitive values). *)
Definition field (k : string) (v : Json) : option Json :=
  match v with
  | JObj fields => lookupField k fields
  | _ => None
  end.

(** [Boolean(v)], with [None] for [undefined]. *)
Definition truthy (v : option Json) : bool :=
  match v with
  | None => false
  | Some JNull => false
  | Some (JBool b) => b
  | Some (JNum n) => negb (n =? 0)%Z
  | Some (JStr s) => truthyString s
  | Some (JArr _) => true
  | Some (JObj _) => true
  end.

(** [x || y]. *)
Definition orElse (x y : option Json) : option Json :=
  if truthy x then x else y.

(** [v] when it is a string. *)
Definition asString (v : option Json) : option string :=
  match v with Some (JStr s) => Some s | _ => None end.

(** The decimal numeral of an integer. *)
Definition numeral (n : Z) : string :=
  if (n <? 0)%Z then "-" ++ toStringRadix 10 (- n) else toStringRadix 10 n.

(** [String(v)]: a string is itself, an array is its elements joined by
    commas ([null] as the empty string), an object is [[object Object]]. *)
Fixpoint jsToString (v : Json) : string :=
  match v with
  | JNull => "null"
  | JBool true => "true"
  | JBool false => "false"
  | JNum n => numeral n
  | JStr s => s
  | JArr l =>
      (fix join (l : list Json) : string :=
         match l with
         | [] => ""
         | x :: rest =>
             (match x with JNull => "" | _ => jsToString x end) ++
             (match rest with [] => "" | _ => "," ++ join rest end)
         end) l
  | JObj _ => "[object Object]"
  end.

(** [String(v)] with [None] for [undefined]. *)
Definition toStringOpt (v : option Json) : string :=
  match v with Some x => jsToString x | None => "undefined" end.

(** ** Lemmas *)

Lemma truthy_JStr s : truthy (Some (JStr s)) = negb (String.eqb s "").
Proof. destruct s; reflexivity. Qed.

Lemma truthy_asString v s : asString v = Some s -> truthy v = truthyString s.
Proof. destruct v as [[]|]; simpl; congruence. Qed.

Lemma orElse_truthy x y : truthy (orElse x y) = truthy x || truthy y.
Proof. unfold orElse. destruct (truthy x) eqn:E; [rewrite E|]; reflexivity. Qed.

Lemma orElse_None_l y : orElse None y = y.
Proof. reflexivity. Qed.

Lemma lookupField_app k fs gs :
  lookupField k (fs ++ gs) =
  match lookupField k gs with
  | Some v => Some v
  | None => lookupField k fs
  end.
Proof.
  induction fs as [|[k' v] fs IH]; simpl.
  - destruct (lookupField k gs); reflexivity.
  - rewrite IH. destruct (lookupField k gs); reflexivity.
Qed.

Lemma field_single k v : field k (JObj [(k, v)]) = Some v.
Proof. simpl. now rewrite String.eqb_refl. Qed.
