(* ===== verification/InviteService.v ===== *)
(** * InviteService: the invite registry of [src/api/invite-service.js]

    The module keeps two [Map]s, [inviteCodes] (code to invite record) and
    [emailRequests] (requester to last request), and exports
    [generateInviteCode], [requestInviteCode], [validateInviteCode] and
    [getInviteStats].

    ** Model

    - [World] is the state of the module together with the number of clock
      readings and random bytes consumed so far; [Env] ([Runtime]) supplies
      the readings.  Every [Date.now()] and [new Date()] of the source is
      one [Date_now] here, in the order the source evaluates them, so a
      handler that reads the clock five times sees five readings.
    - A [Date] is its time value, a number of milliseconds; numbers are
      integers ([Z]), which is exact for the magnitudes involved (below
      2^53).
    - [requestInviteCode] is [async]: it suspends once, at
      [await sendInviteEmail(...)].  [requestInviteCodePrepare] is the part
      before the suspension (every write to the maps is there),
      [requestInviteCodeFinish] the part after it, and [requestInviteCode]
      their composition around the mail call.
    - The mail call goes through the interface [EmailProvider]; the
      repository's implementation is the mock [sendInviteEmail], which
      waits and reports success.
    - [console.log] output is not modelled.  The [try]/[catch] of
      [requestInviteCode] guards operations that do not throw on the
      modelled inputs (strings), so its handler is not reachable in the
      model. *)

From stdpp Require Import gmap strings list.
From Stdlib Require Import ZArith.
From Stdlib.Strings Require Import Byte Ascii.
From S2P Require Import Prelude JsString Encoding Regex Runtime JsMap.

#[local] Open Scope c2c_scope.
#[local] Open Scope Z_scope.

(** ** Data *)

(** An entry of [inviteCodes] (lines 166-172; [usedAt] is added by
    [validateInviteCode], line 234, and is [undefined] before). *)
Record Invite : Type := mkInvite {
  email : string;
  userName : string;
  createdAt : Z;
  expiresAt : Z;
  used : bool;
  usedAt : option Z
}.

(** An entry of [emailRequests] (lines 175-178). *)
Record EmailRequest : Type := mkEmailRequest {
  timestamp : Z;
  inviteCode : string
}.

(** The module state (lines 17-18) and the position in the environment. *)
Record World : Type := mkWorld {
  inviteCodes : jsMap Invite;
  emailRequests : jsMap EmailRequest;
  ticks : nat;
  draws : nat
}.

Definition emptyWorld : World := mkWorld mapEmpty mapEmpty 0 0.

(** What [sendInviteEmail] resolves to (line 136). *)
Record EmailResult : Type := mkEmailResult {
  success : bool;
  messageId : string
}.

(** The object [requestInviteCode] resolves to:
    [{success: true, message, inviteCode}] or [{success: false, error}]. *)
Inductive RequestResult : Type :=
| RequestOk (message code : string)
| RequestError (error : string).

(** The object [validateInviteCode] returns:
    [{valid: true, email, userName}] or [{valid: false, error}]. *)
Inductive ValidateResult : Type :=
| ValidateOk (email userName : string)
| ValidateError (error : string).

(** The object [getInviteStats] returns.  The field [used] of the source is
    [statsUsed] here, [used] being the field of [Invite]. *)
Record Stats : Type := mkStats {
  total : Z;
  statsUsed : Z;
  expired : Z;
  active : Z
}.

(** The message that is sent (lines 45-120).  The static text of the
    [html] template literal is three parameters of [emailContent]. *)
Record EmailContent : Type := mkEmailContent {
  to : string;
  from : string;
  subject : string;
  html : string
}.

(** ** Constants *)

(** [GODADDY_CONFIG.fromEmail] (line 12). *)
Definition fromEmail : string := "invites@curry2cakes.com".

(** The cooldown of line 154 and the validity of line 163, in ms. *)
Definition cooldownMs : Z := 300000.
Definition validityMs : Z := 30 * 24 * 60 * 60 * 1000.

(** [[^\s@]]. *)
Definition notSpaceAt (c : ascii) : bool :=
  negb (isWhiteSpace c || Ascii.eqb c "@").

(** [/^[^\s@]+@[^\s@]+\.[^\s@]+$/] (line 33). *)
Definition emailRegex : regex :=
  Seq (Plus (Class notSpaceAt))
    (Seq (Lit "@")
      (Seq (Plus (Class notSpaceAt))
        (Seq (Lit ".") (Plus (Class notSpaceAt))))).

(** ** Pure parts *)

(** [isValidEmail] (lines 32-35). *)
Definition isValidEmail (email : string) : bool := regexTest emailRegex email.

(** The code built from a clock reading and four random bytes (lines
    24-26). *)
Definition inviteCodeOf (now : Z) (buf : list byte) : string :=
  let timestamp := toString36 now in
  let random := toUpperCase (toHex buf) in
  jsSubstring 0 12 ("C2C" +:+ timestamp +:+ random).

(** [emailContent] (lines 45-120); [head], [middle] and [tail] are the
    static text before the greeting, between greeting and code, and after
    the code. *)
Definition emailContent (subjectText head middle tail : string)
    (email inviteCode userName : string) : EmailContent :=
  {| to := email;
     from := fromEmail;
     subject := subjectText;
     html := head +:+ (if truthyString userName then " " +:+ userName else "")
             +:+ middle +:+ inviteCode +:+ tail |}.

Definition setInviteCodes (f : jsMap Invite -> jsMap Invite) (w : World) : World :=
  mkWorld (f (inviteCodes w)) (emailRequests w) (ticks w) (draws w).

Definition setEmailRequests (f : jsMap EmailRequest -> jsMap EmailRequest)
    (w : World) : World :=
  mkWorld (inviteCodes w) (f (emailRequests w)) (ticks w) (draws w).

(** [invite.used = true; invite.usedAt = new Date()] (lines 233-234). *)
Definition markUsed (now : Z) (invite : Invite) : Invite :=
  mkInvite (email invite) (userName invite) (createdAt invite)
    (expiresAt invite) true (Some now).

(** [requestInviteCode] after the mail call (lines 183-194). *)
Definition requestInviteCodeFinish (code : string) (emailResult : EmailResult)
    : RequestResult :=
  if success emailResult then
    RequestOk
      "Invite code sent successfully! Check your email in a few minutes." code
  else RequestError "Failed to send email. Please try again later.".

(** ** Effects *)

Section Service.
Context (env : Env).

(** [Date.now()], and the time value of [new Date()]. *)
Definition Date_now : M World Z :=
  fun w =>
    (clock env (ticks w),
     mkWorld (inviteCodes w) (emailRequests w) (S (ticks w)) (draws w)).

(** [crypto.randomBytes(n)]. *)
Definition randomBytes (n : nat) : M World (list byte) :=
  fun w =>
    (entropy env <$> seq (draws w) n,
     mkWorld (inviteCodes w) (emailRequests w) (ticks w) (n + draws w)).

(** [generateInviteCode] (lines 23-27). *)
Definition generateInviteCode : M World string :=
  let* now := Date_now in
  let* buf := randomBytes 4 in
  ret (inviteCodeOf now buf).

(** [sendInviteEmail] (lines 40-137): the mock builds the message, waits
    and reports success with an identifier made from the clock. *)
Definition sendInviteEmail (email code userName : string)
    : M World EmailResult :=
  let* now := Date_now in
  ret {| success := true; messageId := "mock-" +:+ toStringRadix 10 now |}.

(** What the registry asks of a mail provider: an answer, and no write to
    the two maps.  The clock and the random source may be consumed. *)
Class EmailProvider : Type := {
  sendEmail : string -> string -> string -> M World EmailResult;
  sendEmail_inviteCodes email code name w :
    inviteCodes (execM (sendEmail email code name) w) = inviteCodes w;
  sendEmail_emailRequests email code name w :
    emailRequests (execM (sendEmail email code name) w) = emailRequests w;
  sendEmail_ticks email code name w :
    (ticks w <= ticks (execM (sendEmail email code name) w))%nat
}.

(** The rate-limit test of lines 153-154:
    [existingRequest && Date.now() - existingRequest.timestamp < 300000].
    The clock is read only when an entry exists. *)
Definition rateLimited (email : string) : M World bool :=
  let* existingRequest := gets (fun w => mapGet email (emailRequests w)) in
  match existingRequest with
  | None => ret false
  | Some r => let* now := Date_now in ret (now - timestamp r <? cooldownMs)
  end.

(** [requestInviteCode] up to the mail call (lines 142-178): the early
    result, or the code that was issued. *)
Definition requestInviteCodePrepare (email userName : string)
    : M World (RequestResult + string) :=
  if negb (isValidEmail email) then
    ret (inl (RequestError "Invalid email address format"))
  else
    let* limited := rateLimited email in
    if limited then
      ret (inl (RequestError
        "Please wait 5 minutes before requesting another invite code"))
    else
      let* code := generateInviteCode in
      let* now := Date_now in
      let expiryDate := now + validityMs in
      let* created := Date_now in
      let* _ := modify (setInviteCodes
        (mapSet code (mkInvite email userName created expiryDate false None))) in
      let* stamp := Date_now in
      let* _ := modify (setEmailRequests (mapSet email (mkEmailRequest stamp code))) in
      ret (inr code).

(** [requestInviteCode] (lines 142-203); [None] for [userName] is a call
    without the argument, which takes the default [''].  *)
Definition requestInviteCodeWith (provider : EmailProvider)
    (email : string) (userNameArg : option string) : M World RequestResult :=
  let userName := default "" userNameArg in
  let* prepared := requestInviteCodePrepare email userName in
  match prepared with
  | inl result => ret result
  | inr code =>
      let* emailResult := sendEmail email code userName in
      ret (requestInviteCodeFinish code emailResult)
  end.

(** [validateInviteCode] (lines 208-241). *)
Definition validateInviteCode (code : string) : M World ValidateResult :=
  let* found := gets (fun w => mapGet code (inviteCodes w)) in
  match found with
  | None => ret (ValidateError "Invalid invite code")
  | Some invite =>
      if used invite then
        ret (ValidateError "This invite code has already been used")
      else
        let* now := Date_now in
        if now >? expiresAt invite then
          ret (ValidateError "This invite code has expired")
        else
          let* usedNow := Date_now in
          let* _ := modify (setInviteCodes (mapSet code (markUsed usedNow invite))) in
          ret (ValidateOk (email invite) (userName invite))
  end.

(** The filter callback of lines 249-251:
    [new Date() > invite.expiresAt && !invite.used]. *)
Definition isExpiredNow (invite : Invite) : M World bool :=
  let* now := Date_now in
  ret ((now >? expiresAt invite) && negb (used invite)).

(** [getInviteStats] (lines 246-259). *)
Definition getInviteStats : M World Stats :=
  let* invites := gets (fun w => mapValues (inviteCodes w)) in
  let total := Z.of_nat (length invites) in
  let usedCount := Z.of_nat (countb used invites) in
  let* expiredCount := countM isExpiredNow invites in
  let expired := Z.of_nat expiredCount in
  ret (mkStats total usedCount expired (total - usedCount - expired)).

End Service.

(** ** The repository's mail provider *)

Lemma sendInviteEmail_inviteCodes env email code name w :
  inviteCodes (execM (sendInviteEmail env email code name) w) = inviteCodes w.
Proof. reflexivity. Qed.

Lemma sendInviteEmail_emailRequests env email code name w :
  emailRequests (execM (sendInviteEmail env email code name) w) =
  emailRequests w.
Proof. reflexivity. Qed.

Lemma sendInviteEmail_ticks env email code name w :
  (ticks w <= ticks (execM (sendInviteEmail env email code name) w))%nat.
Proof. simpl. lia. Qed.

#[export] Instance mockProvider (env : Env) : EmailProvider := {|
  sendEmail := sendInviteEmail env;
  sendEmail_inviteCodes := sendInviteEmail_inviteCodes env;
  sendEmail_emailRequests := sendInviteEmail_emailRequests env;
  sendEmail_ticks := sendInviteEmail_ticks env
|}.

(** [requestInviteCode] as the module exports it. *)
Definition requestInviteCode (env : Env) :
    string -> option string -> M World RequestResult :=
  requestInviteCodeWith env (mockProvider env).
