(* ===== verification/InviteLemmas.v ===== *)
(** * InviteLemmas: what each handler of the invite service computes

    One equation per handler and per branch of it: the result and the state
    after, written with the state before and the clock readings and random
    bytes the branch consumes.  The later files (invariants, specification,
    traces) are proved from these equations and never unfold a handler.

    - [advance dt dd w] is [w] after [dt] clock readings and [dd] random
      bytes; [readAt w k] is the [k]-th reading from [w] on, [bytesAt w n]
      the next [n] random bytes.
    - [issued email name k w] is the state after a request that was granted,
      [k] being the number of readings the rate limiter took (0 when the
      requester is new, 1 otherwise). *)

From stdpp Require Import gmap strings list.
From Stdlib Require Import ZArith.
From Stdlib.Strings Require Import Byte Ascii.
From S2P Require Import Prelude JsString Encoding Regex Runtime JsMap.
From S2P Require Import InviteService.

#[local] Open Scope Z_scope.

(** ** Positions in the environment *)

Definition advance (dt dd : nat) (w : World) : World :=
  mkWorld (inviteCodes w) (emailRequests w) (dt + ticks w) (dd + draws w).

Section Equations.
Context (env : Env).

Definition readAt (w : World) (k : nat) : Z := clock env (k + ticks w).

Definition bytesAt (w : World) (n : nat) : list byte :=
  entropy env <$> seq (draws w) n.

(** The code a granted request issues, and the record it stores. *)
Definition issuedCode (w : World) (k : nat) : string :=
  inviteCodeOf (readAt w k) (bytesAt w 4).

Definition newInvite (email userName : string) (w : World) (k : nat) : Invite :=
  mkInvite email userName (readAt w (k + 2)) (readAt w (k + 1) + validityMs)
    false None.

Definition newRequest (w : World) (k : nat) : EmailRequest :=
  mkEmailRequest (readAt w (k + 3)) (issuedCode w k).

Definition issued (email userName : string) (k : nat) (w : World) : World :=
  mkWorld
    (mapSet (issuedCode w k) (newInvite email userName w k) (inviteCodes w))
    (mapSet email (newRequest w k) (emailRequests w))
    (k + 4 + ticks w) (4 + draws w).

(** The state after a redemption that succeeded. *)
Definition redeemed (code : string) (invite : Invite) (w : World) : World :=
  setInviteCodes (mapSet code (markUsed (readAt w 1) invite)) (advance 2 0 w).

(** ** [advance] *)

Lemma advance_0 w : advance 0 0 w = w.
Proof. by destruct w. Qed.

Lemma advance_advance dt1 dd1 dt2 dd2 w :
  advance dt1 dd1 (advance dt2 dd2 w) = advance (dt1 + dt2) (dd1 + dd2) w.
Proof. unfold advance; simpl. f_equal; lia. Qed.

Lemma inviteCodes_advance dt dd w : inviteCodes (advance dt dd w) = inviteCodes w.
Proof. reflexivity. Qed.

Lemma emailRequests_advance dt dd w :
  emailRequests (advance dt dd w) = emailRequests w.
Proof. reflexivity. Qed.

Lemma readAt_advance dt dd w k : readAt (advance dt dd w) k = readAt w (k + dt).
Proof. unfold readAt; simpl. f_equal. lia. Qed.

(** ** The primitives *)

Lemma Date_now_run w : Date_now env w = (readAt w 0, advance 1 0 w).
Proof. reflexivity. Qed.

Lemma randomBytes_run n w : randomBytes env n w = (bytesAt w n, advance 0 n w).
Proof. reflexivity. Qed.

Lemma generateInviteCode_run w :
  generateInviteCode env w = (issuedCode w 0, advance 1 4 w).
Proof. reflexivity. Qed.

Lemma sendInviteEmail_run email code name w :
  sendInviteEmail env email code name w =
  (mkEmailResult true ("mock-" +:+ toStringRadix 10 (readAt w 0)),
   advance 1 0 w).
Proof. reflexivity. Qed.

(** ** The rate limiter *)

Lemma rateLimited_new email w :
  mapGet email (emailRequests w) = None ->
  rateLimited env email w = (false, w).
Proof. intros H. unfold rateLimited, bind, gets. by rewrite H. Qed.

Lemma rateLimited_known email r w :
  mapGet email (emailRequests w) = Some r ->
  rateLimited env email w =
  (readAt w 0 - timestamp r <? cooldownMs, advance 1 0 w).
Proof. intros H. unfold rateLimited, bind, gets. by rewrite H. Qed.

(** ** [requestInviteCode] before the mail call, branch by branch *)

Lemma prepare_invalid email name w :
  isValidEmail email = false ->
  requestInviteCodePrepare env email name w =
  (inl (RequestError "Invalid email address format"), w).
Proof. intros H. unfold requestInviteCodePrepare. by rewrite H. Qed.

Lemma prepare_limited email name r w :
  isValidEmail email = true ->
  mapGet email (emailRequests w) = Some r ->
  readAt w 0 - timestamp r < cooldownMs ->
  requestInviteCodePrepare env email name w =
  (inl (RequestError
     "Please wait 5 minutes before requesting another invite code"),
   advance 1 0 w).
Proof.
  intros Hv Hr Ht. unfold requestInviteCodePrepare. rewrite Hv. simpl.
  rewrite run_bind. unfold evalM, execM. rewrite (rateLimited_known _ _ _ Hr).
  simpl. by replace (_ <? _) with true by (symmetry; bool_to_prop; lia).
Qed.

Lemma prepare_new email name w :
  isValidEmail email = true ->
  mapGet email (emailRequests w) = None ->
  requestInviteCodePrepare env email name w =
  (inr (issuedCode w 0), issued email name 0 w).
Proof.
  intros Hv Hr. unfold requestInviteCodePrepare. rewrite Hv. simpl.
  rewrite run_bind. unfold evalM, execM. rewrite (rateLimited_new _ _ Hr).
  reflexivity.
Qed.

Lemma prepare_again email name r w :
  isValidEmail email = true ->
  mapGet email (emailRequests w) = Some r ->
  cooldownMs <= readAt w 0 - timestamp r ->
  requestInviteCodePrepare env email name w =
  (inr (issuedCode w 1), issued email name 1 w).
Proof.
  intros Hv Hr Ht. unfold requestInviteCodePrepare. rewrite Hv. simpl.
  rewrite run_bind. unfold evalM, execM. rewrite (rateLimited_known _ _ _ Hr).
  simpl. by replace (_ <? _) with false by (symmetry; bool_to_prop; lia).
Qed.

(** ** [requestInviteCode] around the mail call *)

Lemma request_early (P : EmailProvider) email nameArg result w w' :
  requestInviteCodePrepare env email (default "" nameArg) w = (inl result, w') ->
  requestInviteCodeWith env P email nameArg w = (result, w').
Proof.
  intros H. unfold requestInviteCodeWith. rewrite run_bind.
  unfold evalM, execM. by rewrite H.
Qed.

Lemma request_sent (P : EmailProvider) email nameArg code w w' :
  requestInviteCodePrepare env email (default "" nameArg) w = (inr code, w') ->
  requestInviteCodeWith env P email nameArg w =
  (requestInviteCodeFinish code
     (evalM (sendEmail email code (default "" nameArg)) w'),
   execM (sendEmail email code (default "" nameArg)) w').
Proof.
  intros H. unfold requestInviteCodeWith. rewrite run_bind.
  unfold evalM at 1, execM at 1. rewrite H. simpl. by rewrite run_bind.
Qed.

(** ** [validateInviteCode], branch by branch *)

Lemma validate_unknown code w :
  mapGet code (inviteCodes w) = None ->
  validateInviteCode env code w = (ValidateError "Invalid invite code", w).
Proof. intros H. unfold validateInviteCode, bind, gets. by rewrite H. Qed.

Lemma validate_used code invite w :
  mapGet code (inviteCodes w) = Some invite -> used invite = true ->
  validateInviteCode env code w =
  (ValidateError "This invite code has already been used", w).
Proof. intros H U. unfold validateInviteCode, bind, gets. by rewrite H, U. Qed.

Lemma validate_expired code invite w :
  mapGet code (inviteCodes w) = Some invite -> used invite = false ->
  expiresAt invite < readAt w 0 ->
  validateInviteCode env code w =
  (ValidateError "This invite code has expired", advance 1 0 w).
Proof.
  intros H U E. change (readAt w 0) with (clock env (ticks w)) in E.
  unfold validateInviteCode, bind, gets, Date_now. rewrite H, U.
  by replace (_ >? _) with true by (symmetry; bool_to_prop; lia).
Qed.

Lemma validate_fresh code invite w :
  mapGet code (inviteCodes w) = Some invite -> used invite = false ->
  readAt w 0 <= expiresAt invite ->
  validateInviteCode env code w =
  (ValidateOk (email invite) (userName invite), redeemed code invite w).
Proof.
  intros H U E. change (readAt w 0) with (clock env (ticks w)) in E.
  unfold validateInviteCode, bind, gets, Date_now. rewrite H, U.
  by replace (_ >? _) with false by (symmetry; bool_to_prop; lia).
Qed.

(** ** [getInviteStats] *)

Lemma isExpiredNow_run invite w :
  isExpiredNow env invite w =
  ((readAt w 0 >? expiresAt invite) && negb (used invite), advance 1 0 w).
Proof. reflexivity. Qed.

(** The scan reads the clock once per record and writes nothing. *)
Lemma countM_isExpiredNow_exec invites w :
  execM (countM (isExpiredNow env) invites) w = advance (length invites) 0 w.
Proof.
  revert w. induction invites as [|i l IH]; intros w.
  - simpl. by rewrite advance_0.
  - cbn [countM]. rewrite execM_bind, execM_bind. unfold execM at 1, ret.
    simpl. rewrite IH. unfold execM. rewrite isExpiredNow_run. simpl.
    rewrite advance_advance. f_equal; lia.
Qed.

Lemma getInviteStats_exec w :
  execM (getInviteStats env) w = advance (mapSize (inviteCodes w)) 0 w.
Proof.
  unfold getInviteStats. rewrite execM_bind. unfold evalM, execM at 2, gets.
  simpl. rewrite execM_bind. unfold execM at 1, ret. simpl.
  rewrite countM_isExpiredNow_exec. unfold mapValues, mapSize.
  by rewrite length_fmap.
Qed.

(** ** Case analysis

    [validateP] and [prepareP] package the branch equations: destructing
    them splits a goal about a handler into one goal per branch, with the
    branch's conditions as hypotheses and the run replaced by its value. *)

Inductive validate_spec (code : string) (w : World)
  : ValidateResult * World -> Prop :=
| ValidateUnknown :
    mapGet code (inviteCodes w) = None ->
    validate_spec code w (ValidateError "Invalid invite code", w)
| ValidateUsed invite :
    mapGet code (inviteCodes w) = Some invite -> used invite = true ->
    validate_spec code w
      (ValidateError "This invite code has already been used", w)
| ValidateExpired invite :
    mapGet code (inviteCodes w) = Some invite -> used invite = false ->
    expiresAt invite < readAt w 0 ->
    validate_spec code w
      (ValidateError "This invite code has expired", advance 1 0 w)
| ValidateFresh invite :
    mapGet code (inviteCodes w) = Some invite -> used invite = false ->
    readAt w 0 <= expiresAt invite ->
    validate_spec code w
      (ValidateOk (email invite) (userName invite), redeemed code invite w).

Lemma validateP code w : validate_spec code w (validateInviteCode env code w).
Proof.
  destruct (mapGet code (inviteCodes w)) as [invite|] eqn:Hget.
  2:{ rewrite validate_unknown by done. by constructor. }
  destruct (used invite) eqn:Hused.
  { rewrite (validate_used _ _ _ Hget Hused). by econstructor. }
  destruct (Z_lt_le_dec (expiresAt invite) (readAt w 0)) as [Hlt|Hle].
  - rewrite (validate_expired _ _ _ Hget Hused Hlt). by econstructor.
  - rewrite (validate_fresh _ _ _ Hget Hused Hle). by econstructor.
Qed.

Inductive prepare_spec (email name : string) (w : World)
  : (RequestResult + string) * World -> Prop :=
| PrepareInvalid :
    isValidEmail email = false ->
    prepare_spec email name w
      (inl (RequestError "Invalid email address format"), w)
| PrepareLimited r :
    isValidEmail email = true ->
    mapGet email (emailRequests w) = Some r ->
    readAt w 0 - timestamp r < cooldownMs ->
    prepare_spec email name w
      (inl (RequestError
         "Please wait 5 minutes before requesting another invite code"),
       advance 1 0 w)
| PrepareNew :
    isValidEmail email = true ->
    mapGet email (emailRequests w) = None ->
    prepare_spec email name w (inr (issuedCode w 0), issued email name 0 w)
| PrepareAgain r :
    isValidEmail email = true ->
    mapGet email (emailRequests w) = Some r ->
    cooldownMs <= readAt w 0 - timestamp r ->
    prepare_spec email name w (inr (issuedCode w 1), issued email name 1 w).

Lemma prepareP email name w :
  prepare_spec email name w (requestInviteCodePrepare env email name w).
Proof.
  destruct (isValidEmail email) eqn:Hv.
  2:{ rewrite prepare_invalid by done. by constructor. }
  destruct (mapGet email (emailRequests w)) as [r|] eqn:Hr.
  2:{ rewrite prepare_new by done. by constructor. }
  destruct (Z_lt_le_dec (readAt w 0 - timestamp r) cooldownMs) as [Hlt|Hle].
  - rewrite (prepare_limited _ _ _ _ Hv Hr Hlt). by econstructor.
  - rewrite (prepare_again _ _ _ _ Hv Hr Hle). by econstructor.
Qed.

End Equations.

#[export] Hint Rewrite advance_0 advance_advance inviteCodes_advance
  emailRequests_advance readAt_advance : c2c.
