(* ===== verification/InviteCode.v ===== *)
(** * InviteCode: the pure parts of the invite service

    Properties of [inviteCodeOf] (the text of a code, from a clock reading
    and four random bytes) and of [isValidEmail] (the shape test), both of
    [src/api/invite-service.js].

    - Every code has 12 units and starts with [C2C].
    - For a clock reading of eight base-36 digits (from 36^7 ms, in 1972, to
      36^8 ms, in 2059) the prefix and the timestamp fill 11 of the 12
      units: one unit, the high half of the first random byte, is all that
      is left of the four random bytes.  Two codes built in the same
      millisecond are equal as soon as those halves agree.
    - [isValidEmail] accepts exactly the strings [l@d.t] with [l], [d] and
      [t] non-empty and free of white space and [@]. *)

From stdpp Require Import gmap strings list.
From Stdlib Require Import ZArith.
From Stdlib.Strings Require Import Byte Ascii.
From S2P Require Import Prelude JsString Encoding Regex Runtime JsMap.
From S2P Require Import InviteService InviteLemmas.

#[local] Open Scope Z_scope.

(** ** The shape of a code *)

(** The range of clock readings that have eight base-36 digits. *)
Definition eightDigits (now : Z) : Prop := 36 ^ 7 <= now < 36 ^ 8.

(** The high half of a byte as an upper-case hexadecimal digit. *)
Definition highNibble (b : byte) : ascii := digitCharUpper (byteVal b / 16).

Lemma length_toString36_eight now :
  eightDigits now -> String.length (toString36 now) = 8%nat.
Proof.
  intros H. apply (length_toStringRadix 36 ltac:(lia) 8); [lia|exact H].
Qed.

Lemma length_inviteCodeOf now buf :
  length buf = 4%nat -> String.length (inviteCodeOf now buf) = 12%nat.
Proof.
  intros Hb. unfold inviteCodeOf. rewrite length_jsSubstring.
  rewrite !length_append, length_toUpperCase_toHex, Hb.
  assert (String.length (toString36 now) <> 0%nat).
  { pose proof (toStringRadix_nonempty 36 now).
    unfold toString36. by destruct (toStringRadix 36 now). }
  simpl String.length. lia.
Qed.

Lemma isPrefixOf_inviteCodeOf now buf :
  isPrefixOf "C2C" (inviteCodeOf now buf) = true.
Proof.
  reflexivity.
Qed.

(** Of the random bytes, only the high half of the first one reaches the
    code. *)
Lemma inviteCodeOf_eight now b buf :
  eightDigits now ->
  inviteCodeOf now (b :: buf) =
  "C2C" +:+ toString36 now +:+ String (highNibble b) "".
Proof.
  intros H. unfold inviteCodeOf, jsSubstring.
  pose proof (length_toString36_eight now H) as Hl.
  rewrite toUpperCase_toHex_cons. fold (highNibble b).
  change (12 - 0)%nat with 12%nat.
  change ("C2C" +:+ ?s) with (String "C" (String "2" (String "C" s))).
  cbn [String.substring]. do 3 f_equal.
  rewrite substring_0_append by lia. rewrite Hl. reflexivity.
Qed.

(** C9: for a clock reading of eight base-36 digits, two codes built in the
    same millisecond are equal exactly when the high halves of their first
    random bytes agree: the code carries four random bits, whatever the
    other 28 are. *)
Theorem inviteCodeOf_random_part now b1 b2 buf1 buf2 :
  eightDigits now ->
  inviteCodeOf now (b1 :: buf1) = inviteCodeOf now (b2 :: buf2) <->
  highNibble b1 = highNibble b2.
Proof.
  intros H. rewrite !inviteCodeOf_eight by done.
  split; [|by intros ->].
  intros E. apply (inj (String.app _)), (inj (String.app _)) in E.
  by injection E.
Qed.

Lemma inviteCodeOf_random_part_witness :
  inviteCodeOf 1700000000000 [Byte.xab; Byte.x01; Byte.x02; Byte.x03] =
  inviteCodeOf 1700000000000 [Byte.xa0; Byte.xff; Byte.xfe; Byte.xfd].
Proof.
  apply (inviteCodeOf_random_part 1700000000000); [|reflexivity].
  unfold eightDigits. vm_compute. split; [discriminate | reflexivity].
Defined.

(** C21: [generateInviteCode] reads the clock once, draws four bytes, and
    returns 12 units that start with [C2C]; it writes to neither map. *)
Theorem generateInviteCode_shape env w :
  let code := evalM (generateInviteCode env) w in
  String.length code = 12%nat /\ isPrefixOf "C2C" code = true /\
  code = inviteCodeOf (clock env (ticks w))
           (entropy env <$> seq (draws w) 4) /\
  execM (generateInviteCode env) w = advance 1 4 w.
Proof.
  cbv zeta. unfold evalM, execM. rewrite generateInviteCode_run.
  split_and!; try reflexivity.
  by apply length_inviteCodeOf.
Qed.

(** ** The shape of an accepted address *)

(** No white space and no [@]. *)
Definition plainPart (s : list ascii) : Prop :=
  s <> [] /\ forallb notSpaceAt s = true.

Lemma matches_emailRegex (s : list ascii) :
  matches emailRegex s <->
  exists l d t, s = l ++ "@"%char :: d ++ "."%char :: t /\
                plainPart l /\ plainPart d /\ plainPart t.
Proof.
  unfold emailRegex, plainPart. split.
  - intros (l & ? & -> & Hl%matches_plus_class & H)%matches_seq.
    apply matches_seq in H as (? & ? & -> & ->%matches_lit & H).
    apply matches_seq in H as (d & ? & -> & Hd%matches_plus_class & H).
    apply matches_seq in H as (? & t & -> & ->%matches_lit & Ht).
    apply matches_plus_class in Ht. by exists l, d, t.
  - intros (l & d & t & -> & Hl & Hd & Ht).
    apply (MSeq _ _ l); [by apply matches_plus_class|].
    apply (MSeq _ _ ["@"%char]); [by apply matches_lit|].
    apply (MSeq _ _ d); [by apply matches_plus_class|].
    apply (MSeq _ _ ["."%char]); [by apply matches_lit|].
    by apply matches_plus_class.
Qed.

(** [isValidEmail] decides the shape. *)
Lemma isValidEmail_shape (email : string) :
  isValidEmail email = true <->
  exists l d t, String.list_ascii_of_string email = l ++ "@"%char :: d ++ "."%char :: t /\
                plainPart l /\ plainPart d /\ plainPart t.
Proof.
  unfold isValidEmail, regexTest. rewrite matchb_spec.
  apply matches_emailRegex.
Qed.

(** An address without [@] is rejected. *)
Lemma isValidEmail_needs_at (email : string) :
  isValidEmail email = true -> In "@"%char (String.list_ascii_of_string email).
Proof.
  intros (l & d & t & -> & _)%isValidEmail_shape.
  apply in_or_app. right. by left.
Qed.

(** An accepted address has no white space. *)
Lemma isValidEmail_no_space (email : string) :
  isValidEmail email = true ->
  forallb (fun c => negb (isWhiteSpace c)) (String.list_ascii_of_string email) = true.
Proof.
  intros (l & d & t & -> & [_ Hl] & [_ Hd] & [_ Ht])%isValidEmail_shape.
  assert (Hp : forall s, forallb notSpaceAt s = true ->
                         forallb (fun c => negb (isWhiteSpace c)) s = true).
  { intros s Hs. rewrite forallb_forall in *. intros c Hc.
    specialize (Hs c Hc). unfold notSpaceAt in Hs.
    by destruct (isWhiteSpace c). }
  rewrite forallb_app. cbn [forallb]. rewrite forallb_app. cbn [forallb].
  rewrite !Hp by done. reflexivity.
Qed.

(** C18: [isValidEmail] accepts exactly the addresses of the form
    [l@d.t] in which [l], [d] and [t] are not empty and contain neither
    white space nor [@]; an accepted address therefore has an [@] and no
    white space. *)
Theorem isValidEmail_spec (email : string) :
  (isValidEmail email = true <->
   exists l d t,
     String.list_ascii_of_string email = l ++ "@"%char :: d ++ "."%char :: t /\
     plainPart l /\ plainPart d /\ plainPart t) /\
  (isValidEmail email = true ->
   In "@"%char (String.list_ascii_of_string email) /\
   forallb (fun c => negb (isWhiteSpace c))
     (String.list_ascii_of_string email) = true).
Proof.
  split; [apply isValidEmail_shape|]. intros H.
  split; [by apply isValidEmail_needs_at|by apply isValidEmail_no_space].
Qed.

Example isValidEmail_examples :
  map isValidEmail
    ["a@b.c"; "a@b.c.d"; "no-at-sign"; "@missing-local.com";
     "missing-domain@"; "a b@c.d"; "a@b@c.d"; "a@b."; "a@.b"] =
  [true; true; false; false; false; false; false; false; false].
Proof. vm_compute. reflexivity. Qed.
