(* ===== verification/InviteInvariant.v ===== *)
(** * InviteInvariant: what holds of the registry in every reachable state

    The module of [src/api/invite-service.js] exports three operations
    (lines 261-266).  [Call] names a use of one of them, [handle] runs it,
    and [reachable] is the set of states the module can be in: the empty
    state, and what any call makes of a reachable state.  A call runs from
    start to end here; for the registry this loses nothing, since the one
    suspension of [requestInviteCode] comes after its last write.

    [worldInv] collects the facts every reachable state satisfies:

    - neither [Map] holds a key twice ([mapWf]);
    - every key of [inviteCodes] has 12 units and starts with [C2C], and its
      record has an accepted address and carries [usedAt] exactly when
      [used] is set;
    - every key of [emailRequests] is an accepted address, and the code its
      entry names is a key of [inviteCodes].

    [timeInv] adds, for a clock that never runs backwards, that no stored
    time lies ahead of the clock and that a record expires at most
    [validityMs] after its creation time. *)

From stdpp Require Import gmap strings list.
From Stdlib Require Import ZArith.
From Stdlib.Strings Require Import Byte Ascii.
From S2P Require Import Prelude JsString Encoding Regex Runtime JsMap.
From S2P Require Import InviteService InviteLemmas InviteCode.

#[local] Open Scope c2c_scope.
#[local] Open Scope Z_scope.

(** ** Calls and reachable states *)

Inductive Call : Type :=
| CallRequest (email : string) (userName : option string)
| CallValidate (code : string)
| CallStats.

Inductive Reply : Type :=
| ReplyRequest (r : RequestResult)
| ReplyValidate (r : ValidateResult)
| ReplyStats (s : Stats).

Section Trace.
Context (env : Env) (P : EmailProvider).

Definition handle (c : Call) : M World Reply :=
  match c with
  | CallRequest email name =>
      let* r := requestInviteCodeWith env P email name in ret (ReplyRequest r)
  | CallValidate code =>
      let* r := validateInviteCode env code in ret (ReplyValidate r)
  | CallStats =>
      let* s := getInviteStats env in ret (ReplyStats s)
  end.

Fixpoint runCalls (cs : list Call) : M World (list Reply) :=
  match cs with
  | [] => ret []
  | c :: cs' =>
      let* r := handle c in
      let* rs := runCalls cs' in
      ret (r :: rs)
  end.

Inductive reachable : World -> Prop :=
| reachable_init : reachable emptyWorld
| reachable_step w c : reachable w -> reachable (execM (handle c) w).

End Trace.

(** ** The invariant *)

Record inviteOk (code : string) (i : Invite) : Prop := mkInviteOk {
  ok_length : String.length code = 12%nat;
  ok_prefix : isPrefixOf "C2C" code = true;
  ok_email : isValidEmail (email i) = true;
  ok_usedAt : used i = true <-> is_Some (usedAt i)
}.

Record requestOk (codes : jsMap Invite) (e : string) (r : EmailRequest)
  : Prop := mkRequestOk {
  ok_requester : isValidEmail e = true;
  ok_code : mapHas (inviteCode r) codes = true
}.

Record worldInv (w : World) : Prop := mkWorldInv {
  inv_codes : mapWf (inviteCodes w);
  inv_requests : mapWf (emailRequests w);
  inv_invite code i : mapGet code (inviteCodes w) = Some i -> inviteOk code i;
  inv_request e r :
    mapGet e (emailRequests w) = Some r -> requestOk (inviteCodes w) e r
}.

(** Times, for a monotone clock: [next] is the next reading. *)
Record inviteTimes (next : Z) (i : Invite) : Prop := mkInviteTimes {
  times_created : createdAt i <= next;
  times_expires : expiresAt i <= createdAt i + validityMs;
  times_used t : usedAt i = Some t -> t <= next
}.

Record timeInv (env : Env) (w : World) : Prop := mkTimeInv {
  time_invite code i :
    mapGet code (inviteCodes w) = Some i -> inviteTimes (readAt env w 0) i;
  time_request e r :
    mapGet e (emailRequests w) = Some r -> timestamp r <= readAt env w 0
}.

(** ** Preservation of [worldInv] *)

Lemma worldInv_empty : worldInv emptyWorld.
Proof. split; [apply mapWf_nil..|done|done]. Qed.

(** The invariant reads the two maps only. *)
Lemma worldInv_ext w w' :
  inviteCodes w' = inviteCodes w -> emailRequests w' = emailRequests w ->
  worldInv w -> worldInv w'.
Proof. intros Hc Hr [????]. split; rewrite ?Hc, ?Hr; auto. Qed.

Lemma worldInv_advance dt dd w : worldInv w -> worldInv (advance dt dd w).
Proof. by apply worldInv_ext. Qed.

Lemma mapHas_mapSet {V} k k' (v : V) m :
  mapHas k' m = true -> mapHas k' (mapSet k v m) = true.
Proof.
  unfold mapHas. rewrite mapGet_mapSet.
  by destruct (String.eqb k k').
Qed.

Lemma mapHas_mapSet_eq {V} k (v : V) m : mapHas k (mapSet k v m) = true.
Proof. unfold mapHas. by rewrite mapGet_mapSet_eq. Qed.

Section Preservation.
Context (env : Env).

Lemma length_bytesAt w n : length (bytesAt env w n) = n.
Proof. unfold bytesAt. by rewrite length_fmap, length_seq. Qed.

Lemma inviteOk_issued email name w k :
  isValidEmail email = true ->
  inviteOk (issuedCode env w k) (newInvite env email name w k).
Proof.
  intros Hv. split.
  - apply length_inviteCodeOf, length_bytesAt.
  - apply isPrefixOf_inviteCodeOf.
  - done.
  - cbn [newInvite used usedAt]. split; [done|]. by intros [? ?].
Qed.

Lemma worldInv_issued email name k w :
  isValidEmail email = true -> worldInv w ->
  worldInv (issued env email name k w).
Proof.
  intros Hv [Hc Hr Hi Hq]. split; simpl.
  - by apply mapWf_mapSet.
  - by apply mapWf_mapSet.
  - intros code i. rewrite mapGet_mapSet.
    destruct (String.eqb_spec (issuedCode env w k) code) as [<-|_]; [|apply Hi].
    intros [= <-]. by apply inviteOk_issued.
  - intros e r. rewrite mapGet_mapSet.
    destruct (String.eqb_spec email e) as [<-|_].
    + intros [= <-]. split; [done|]. apply mapHas_mapSet_eq.
    + intros [??]%Hq. split; [done|]. by apply mapHas_mapSet.
Qed.

Lemma worldInv_redeemed code invite w :
  mapGet code (inviteCodes w) = Some invite -> worldInv w ->
  worldInv (redeemed env code invite w).
Proof.
  intros Hget [Hc Hr Hi Hq]. split; simpl.
  - by apply mapWf_mapSet.
  - done.
  - intros c i. rewrite mapGet_mapSet.
    destruct (String.eqb_spec code c) as [<-|_]; [|apply Hi].
    intros [= <-]. destruct (Hi _ _ Hget) as [? ? ? ?].
    split; simpl; [done..|]. split; [by eexists|done].
  - intros e r [??]%Hq. split; [done|]. by apply mapHas_mapSet.
Qed.

Lemma worldInv_prepare email name w :
  worldInv w -> worldInv (execM (requestInviteCodePrepare env email name) w).
Proof.
  intros Hw. unfold execM.
  destruct (prepareP env email name w); simpl;
    auto using worldInv_advance, worldInv_issued.
Qed.

Lemma worldInv_request (P : EmailProvider) email name w :
  worldInv w -> worldInv (execM (requestInviteCodeWith env P email name) w).
Proof.
  intros Hw. pose proof (worldInv_prepare email (default "" name) w Hw) as Hp.
  unfold execM in *.
  destruct (requestInviteCodePrepare env email (default "" name) w)
    as [[result|code] w'] eqn:E; simpl in Hp.
  - by rewrite (request_early env P _ _ _ _ _ E).
  - rewrite (request_sent env P _ _ _ _ _ E). simpl.
    eapply worldInv_ext; [apply sendEmail_inviteCodes
                         |apply sendEmail_emailRequests|done].
Qed.

Lemma worldInv_validate code w :
  worldInv w -> worldInv (execM (validateInviteCode env code) w).
Proof.
  intros Hw. unfold execM.
  destruct (validateP env code w); simpl;
    eauto using worldInv_advance, worldInv_redeemed.
Qed.

Lemma worldInv_stats w : worldInv w -> worldInv (execM (getInviteStats env) w).
Proof. rewrite getInviteStats_exec. apply worldInv_advance. Qed.

Lemma worldInv_handle (P : EmailProvider) c w :
  worldInv w -> worldInv (execM (handle env P c) w).
Proof.
  intros Hw. destruct c; simpl; rewrite execM_bind; unfold execM at 1, ret;
    simpl; auto using worldInv_request, worldInv_validate, worldInv_stats.
Qed.

(** ** Preservation of [timeInv] *)

Hypothesis clock_mono : clockMonotone env.

Lemma readAt_mono w w' k k' :
  (k + ticks w <= k' + ticks w')%nat -> readAt env w k <= readAt env w' k'.
Proof. intros H. by apply clock_mono. Qed.

Lemma inviteTimes_mono next next' i :
  next <= next' -> inviteTimes next i -> inviteTimes next' i.
Proof.
  intros Hn [H1 H2 H3]. split; [lia|done|].
  intros t Ht. specialize (H3 t Ht). lia.
Qed.

(** Time may pass: the maps as they are and a later clock position. *)
Lemma timeInv_later w w' :
  inviteCodes w' = inviteCodes w -> emailRequests w' = emailRequests w ->
  (ticks w <= ticks w')%nat ->
  timeInv env w -> timeInv env w'.
Proof.
  intros Hc Hr Ht [Hi Hq].
  assert (Hn : readAt env w 0 <= readAt env w' 0)
    by (apply readAt_mono; lia).
  split; rewrite ?Hc, ?Hr.
  - intros code i Hget. eapply inviteTimes_mono; eauto.
  - intros e r Hget. specialize (Hq e r Hget). lia.
Qed.

Lemma timeInv_advance dt dd w : timeInv env w -> timeInv env (advance dt dd w).
Proof. apply timeInv_later; simpl; [done..|lia]. Qed.

Lemma timeInv_empty : timeInv env emptyWorld.
Proof. by split. Qed.

Lemma timeInv_issued email name k w :
  timeInv env w -> timeInv env (issued env email name k w).
Proof.
  intros [Hi Hq]. split; simpl.
  - intros code i. rewrite mapGet_mapSet.
    destruct (String.eqb_spec (issuedCode env w k) code) as [_|_].
    + intros [= <-]. split; simpl.
      * apply readAt_mono; simpl; lia.
      * pose proof (readAt_mono w w (k + 1) (k + 2) ltac:(lia)). lia.
      * done.
    + intros Hget. eapply inviteTimes_mono; [|by eauto].
      apply readAt_mono; simpl; lia.
  - intros e r. rewrite mapGet_mapSet.
    destruct (String.eqb_spec email e) as [_|_].
    + intros [= <-]. simpl. apply readAt_mono; simpl; lia.
    + intros Hget. specialize (Hq e r Hget).
      pose proof (readAt_mono w (issued env email name k w) 0 0
                    ltac:(simpl; lia)). lia.
Qed.

Lemma timeInv_redeemed code invite w :
  mapGet code (inviteCodes w) = Some invite ->
  timeInv env w -> timeInv env (redeemed env code invite w).
Proof.
  intros Hget [Hi Hq].
  assert (Hn : readAt env w 0 <= readAt env (redeemed env code invite w) 0)
    by (apply readAt_mono; simpl; lia).
  split; simpl.
  - intros c i. rewrite mapGet_mapSet.
    destruct (String.eqb_spec code c) as [_|_].
    + intros [= <-]. destruct (Hi _ _ Hget) as [H1 H2 H3].
      split; simpl; [lia|done|].
      intros t [= <-]. apply readAt_mono; simpl; lia.
    + intros Hc. eapply inviteTimes_mono; eauto.
  - intros e r Hr. specialize (Hq e r Hr). lia.
Qed.

Lemma timeInv_handle (P : EmailProvider) c w :
  timeInv env w -> timeInv env (execM (handle env P c) w).
Proof.
  intros Hw. destruct c as [email name|code|]; simpl; rewrite execM_bind;
    unfold execM at 1, ret; simpl.
  - unfold execM.
    destruct (requestInviteCodePrepare env email (default "" name) w)
      as [[result|code] w'] eqn:E.
    + rewrite (request_early env P _ _ _ _ _ E). simpl.
      pose proof (prepareP env email (default "" name) w) as Hp.
      rewrite E in Hp. inversion Hp; subst; auto using timeInv_advance.
    + rewrite (request_sent env P _ _ _ _ _ E). simpl.
      eapply timeInv_later; [apply sendEmail_inviteCodes
        |apply sendEmail_emailRequests|apply sendEmail_ticks|].
      pose proof (prepareP env email (default "" name) w) as Hp.
      rewrite E in Hp. inversion Hp; subst; auto using timeInv_issued.
  - unfold execM. destruct (validateP env code w); simpl;
      eauto using timeInv_advance, timeInv_redeemed.
  - rewrite getInviteStats_exec. by apply timeInv_advance.
Qed.

End Preservation.

(** ** Every reachable state satisfies the invariants *)

(** C2: in every state the module can reach, by any calls in any order
    and against any mail provider, both maps have unique keys, every code
    has 12 units and the prefix [C2C], every stored address passes
    [isValidEmail], [usedAt] is present exactly on used records, and every
    request entry names a stored code. *)
Theorem reachable_worldInv env (P : EmailProvider) w :
  reachable env P w -> worldInv w.
Proof.
  induction 1; [apply worldInv_empty|by apply worldInv_handle].
Qed.

(** C11: with a clock that never runs backwards, in every reachable state
    no creation, use or request time lies ahead of the clock, and every
    record expires at most 30 days after its creation time. *)
Theorem reachable_timeInv env (P : EmailProvider) w :
  clockMonotone env -> reachable env P w -> timeInv env w.
Proof.
  intros Hm. induction 1; [apply timeInv_empty|by apply timeInv_handle].
Qed.

(** ** Worked examples *)

(** A clock that stands at 2023-11-14T22:13:20Z and a random source that
    repeats the byte [ab]. *)
Definition demoEnv : Env := constEnv 1700000000000 Byte.xab.

Lemma reachable_worldInv_witness :
  worldInv
    (execM (handle demoEnv (mockProvider demoEnv) (CallRequest "a@b.c" None))
       emptyWorld).
Proof.
  apply (reachable_worldInv demoEnv (mockProvider demoEnv)).
  apply reachable_step, reachable_init.
Defined.

Lemma reachable_timeInv_witness :
  timeInv demoEnv
    (execM (handle demoEnv (mockProvider demoEnv) (CallValidate "C2Cloyw3v28A"))
       (execM (handle demoEnv (mockProvider demoEnv) (CallRequest "a@b.c" None))
          emptyWorld)).
Proof.
  apply (reachable_timeInv demoEnv (mockProvider demoEnv)).
  - apply constEnv_monotone.
  - do 2 apply reachable_step. apply reachable_init.
Defined.
