(* ===== verification/InviteProps.v ===== *)
(** * InviteProps: the lifecycle of an invite code

    The properties of [src/api/invite-service.js] that a user of the module
    relies on, over states and over sequences of calls ([runCalls]):

    - what a call leaves alone: [handle_keeps_invite], [handle_keeps_request];
    - redemption is single-use, for any clock and any calls in between that
      do not issue the same code again;
    - an unredeemed code stays refused once the clock has passed its expiry;
    - the cooldown of a requester;
    - what a granted request stores and returns;
    - the statistics;
    - the mail provider's answer does not touch the registry.

    [issues c w code] says that call [c], run in state [w], stores a record
    under [code]: it is a request that the module grants and whose generated
    code is [code].  Codes are generated from the clock and the random
    source without a look at the keys already present, so a granted request
    can replace a record. *)

From stdpp Require Import gmap strings list.
From Stdlib Require Import ZArith.
From Stdlib.Strings Require Import Byte Ascii.
From S2P Require Import Prelude JsString Encoding Regex Runtime JsMap.
From S2P Require Import InviteService InviteLemmas InviteCode InviteInvariant.

#[local] Open Scope c2c_scope.
#[local] Open Scope Z_scope.

(** The messages of the module. *)
Definition msgNotFound : string := "Invalid invite code".
Definition msgAlreadyUsed : string := "This invite code has already been used".
Definition msgExpired : string := "This invite code has expired".
Definition msgInvalidEmail : string := "Invalid email address format".
Definition msgRateLimited : string :=
  "Please wait 5 minutes before requesting another invite code".
Definition msgDispatchFailed : string :=
  "Failed to send email. Please try again later.".
Definition msgSent : string :=
  "Invite code sent successfully! Check your email in a few minutes.".

Section Props.
Context (env : Env) (P : EmailProvider).

(** Call [c] in state [w] stores a record under [code]. *)
Definition issues (c : Call) (w : World) (code : string) : Prop :=
  match c with
  | CallRequest email name =>
      evalM (requestInviteCodePrepare env email (default "" name)) w = inr code
  | _ => False
  end.

(** Call [c] in state [w] stores a request entry for [email]. *)
Definition grants (c : Call) (w : World) (email : string) : Prop :=
  match c with
  | CallRequest email' name =>
      email' = email /\
      exists code,
        evalM (requestInviteCodePrepare env email' (default "" name)) w = inr code
  | _ => False
  end.

(** No call of [cs], run from [w], stores a record under [code]. *)
Fixpoint neverIssues (code : string) (cs : list Call) (w : World) : Prop :=
  match cs with
  | [] => True
  | c :: cs' =>
      ~ issues c w code /\ neverIssues code cs' (execM (handle env P c) w)
  end.

(** ** Running calls *)

Lemma handle_eval c w :
  evalM (handle env P c) w =
  match c with
  | CallRequest email name =>
      ReplyRequest (evalM (requestInviteCodeWith env P email name) w)
  | CallValidate code => ReplyValidate (evalM (validateInviteCode env code) w)
  | CallStats => ReplyStats (evalM (getInviteStats env) w)
  end.
Proof. destruct c; simpl; by rewrite evalM_bind. Qed.

Lemma handle_exec c w :
  execM (handle env P c) w =
  match c with
  | CallRequest email name => execM (requestInviteCodeWith env P email name) w
  | CallValidate code => execM (validateInviteCode env code) w
  | CallStats => execM (getInviteStats env) w
  end.
Proof. destruct c; simpl; by rewrite execM_bind. Qed.

Lemma handle_request_exec email name w :
  execM (handle env P (CallRequest email name)) w =
  execM (requestInviteCodeWith env P email name) w.
Proof. simpl. rewrite execM_bind. reflexivity. Qed.

Lemma handle_validate_exec code w :
  execM (handle env P (CallValidate code)) w =
  execM (validateInviteCode env code) w.
Proof. simpl. rewrite execM_bind. reflexivity. Qed.

Lemma handle_stats_exec w :
  execM (handle env P CallStats) w = advance (mapSize (inviteCodes w)) 0 w.
Proof. simpl. rewrite execM_bind. apply getInviteStats_exec. Qed.

Lemma runCalls_cons_exec c cs w :
  execM (runCalls env P (c :: cs)) w =
  execM (runCalls env P cs) (execM (handle env P c) w).
Proof. cbn [runCalls]. rewrite execM_bind, execM_bind. reflexivity. Qed.

Lemma runCalls_nil_exec w : execM (runCalls env P []) w = w.
Proof. reflexivity. Qed.

Lemma runCalls_cons_eval c cs w :
  evalM (runCalls env P (c :: cs)) w =
  evalM (handle env P c) w ::
  evalM (runCalls env P cs) (execM (handle env P c) w).
Proof. cbn [runCalls]. by rewrite !evalM_bind. Qed.

(** The state after a request, from the state after its first part. *)
Lemma request_exec email name w :
  let prepared := requestInviteCodePrepare env email (default "" name) w in
  (inviteCodes (execM (requestInviteCodeWith env P email name) w) =
     inviteCodes prepared.2) /\
  (emailRequests (execM (requestInviteCodeWith env P email name) w) =
     emailRequests prepared.2) /\
  (ticks prepared.2 <= ticks (execM (requestInviteCodeWith env P email name) w))%nat.
Proof.
  simpl. unfold execM.
  destruct (requestInviteCodePrepare env email (default "" name) w)
    as [[result|code] w'] eqn:E.
  - by rewrite (request_early env P _ _ _ _ _ E).
  - rewrite (request_sent env P _ _ _ _ _ E). simpl.
    split_and!; [apply sendEmail_inviteCodes|apply sendEmail_emailRequests
                |apply sendEmail_ticks].
Qed.

(** ** What a call leaves alone *)

(** The clock position never decreases. *)
Lemma ticks_handle c w : (ticks w <= ticks (execM (handle env P c) w))%nat.
Proof.
  destruct c as [email name|code|].
  - rewrite handle_request_exec.
    destruct (request_exec email name w) as (_ & _ & Ht).
    etransitivity; [|exact Ht]. unfold execM.
    destruct (prepareP env email (default "" name) w); simpl; lia.
  - rewrite handle_validate_exec. unfold execM.
    destruct (validateP env code w); simpl; lia.
  - rewrite handle_stats_exec. simpl. lia.
Qed.

(** A record changes in two ways only: its code is issued again, or it is
    redeemed. *)
Lemma handle_keeps_invite c w code i :
  mapGet code (inviteCodes w) = Some i ->
  ~ issues c w code ->
  let after := mapGet code (inviteCodes (execM (handle env P c) w)) in
  after = Some i \/
  (c = CallValidate code /\ used i = false /\ readAt env w 0 <= expiresAt i /\
   after = Some (markUsed (readAt env w 1) i)).
Proof.
  intros Hget Hno. cbv zeta. destruct c as [email name|code'|]; simpl in Hno.
  - left. rewrite handle_request_exec.
    destruct (request_exec email name w) as (-> & _ & _).
    unfold evalM in Hno.
    destruct (prepareP env email (default "" name) w); simpl in *; try done.
    + rewrite mapGet_mapSet_ne; [done|]. congruence.
    + rewrite mapGet_mapSet_ne; [done|]. congruence.
  - rewrite handle_validate_exec. unfold execM.
    destruct (validateP env code' w) as [| | |j Hj Hu He]; simpl; auto.
    rewrite mapGet_mapSet.
    destruct (String.eqb_spec code' code) as [->|_]; [|by left].
    right. by simplify_eq.
  - left. by rewrite handle_stats_exec.
Qed.

(** A request entry changes only when its requester is granted a code. *)
Lemma handle_keeps_request c w email r :
  mapGet email (emailRequests w) = Some r ->
  ~ grants c w email ->
  mapGet email (emailRequests (execM (handle env P c) w)) = Some r.
Proof.
  intros Hget Hno. destruct c as [email' name|code'|]; simpl in Hno.
  - rewrite handle_request_exec.
    destruct (request_exec email' name w) as (_ & -> & _).
    unfold evalM in Hno.
    destruct (prepareP env email' (default "" name) w); simpl in *; try done.
    + rewrite mapGet_mapSet_ne; [done|]. intros ->. apply Hno. eauto.
    + rewrite mapGet_mapSet_ne; [done|]. intros ->. apply Hno. eauto.
  - rewrite handle_validate_exec. unfold execM.
    by destruct (validateP env code' w).
  - by rewrite handle_stats_exec.
Qed.

(** ** Redemption is single-use *)

Lemma used_stays w cs code i :
  mapGet code (inviteCodes w) = Some i -> used i = true ->
  neverIssues code cs w ->
  mapGet code (inviteCodes (execM (runCalls env P cs) w)) = Some i.
Proof.
  revert w. induction cs as [|c cs IH]; intros w Hget Hu Hn; [done|].
  destruct Hn as [Hc Hn]. rewrite runCalls_cons_exec. apply IH; [|done|done].
  destruct (handle_keeps_invite c w code i Hget Hc) as [H|(_ & Hf & _)];
    [done|congruence].
Qed.

(** C1: a code that was redeemed is refused with "already used" at every
    later attempt, whatever the clock shows and whatever calls come in
    between, as long as none of them issues the same code again. *)
Theorem redeem_once code e n cs w :
  evalM (validateInviteCode env code) w = ValidateOk e n ->
  neverIssues code cs (execM (validateInviteCode env code) w) ->
  evalM (validateInviteCode env code)
    (execM (runCalls env P cs) (execM (validateInviteCode env code) w)) =
  ValidateError msgAlreadyUsed.
Proof.
  unfold evalM, execM.
  destruct (validateP env code w) as [| | |i Hget Hu He]; try done.
  simpl. intros _ Hn.
  assert (Hi : mapGet code (inviteCodes (redeemed env code i w)) =
               Some (markUsed (readAt env w 1) i))
    by apply mapGet_mapSet_eq.
  pose proof (used_stays _ cs _ _ Hi eq_refl Hn) as Hs. unfold execM in Hs.
  by rewrite (validate_used env code _ _ Hs eq_refl).
Qed.

(** A record that is marked used is refused with "already used" even
    when it has expired as well: the order of the tests makes redemption
    history win over expiry, and the refusal changes nothing. *)
Lemma used_before_expired code i w :
  mapGet code (inviteCodes w) = Some i -> used i = true ->
  expiresAt i < readAt env w 0 ->
  validateInviteCode env code w = (ValidateError msgAlreadyUsed, w).
Proof. intros Hget Hu _. by apply validate_used with i. Qed.

(** ** Expiry *)

Lemma expired_stays w cs code i :
  clockMonotone env ->
  mapGet code (inviteCodes w) = Some i -> used i = false ->
  expiresAt i < readAt env w 0 ->
  neverIssues code cs w ->
  mapGet code (inviteCodes (execM (runCalls env P cs) w)) = Some i /\
  expiresAt i < readAt env (execM (runCalls env P cs) w) 0.
Proof.
  intros Hm. revert w.
  induction cs as [|c cs IH]; intros w Hget Hu He Hn; [done|].
  destruct Hn as [Hc Hn]. rewrite runCalls_cons_exec. apply IH; [|done| |done].
  - destruct (handle_keeps_invite c w code i Hget Hc) as [H|(_ & _ & Hle & _)];
      [done|lia].
  - pose proof (ticks_handle c w).
    pose proof (readAt_mono env Hm w (execM (handle env P c) w) 0 0
                  ltac:(lia)). lia.
Qed.

(** C5: with a clock that never runs backwards, a code that was not redeemed
    before its expiry time is refused with "expired" from then on, after
    any calls that do not issue the same code again, and stays unused. *)
Theorem expired_forever code i cs w :
  clockMonotone env ->
  mapGet code (inviteCodes w) = Some i -> used i = false ->
  expiresAt i < readAt env w 0 ->
  neverIssues code cs w ->
  let w' := execM (runCalls env P cs) w in
  validateInviteCode env code w' = (ValidateError msgExpired, advance 1 0 w').
Proof.
  intros Hm Hget Hu He Hn w'.
  destruct (expired_stays w cs code i Hm Hget Hu He Hn) as [Hget' He'].
  by apply validate_expired with i.
Qed.

(** ** The cooldown of a requester *)

(** No call of [cs], run from [w], is a granted request of [email]. *)
Fixpoint neverGrants (email : string) (cs : list Call) (w : World) : Prop :=
  match cs with
  | [] => True
  | c :: cs' =>
      ~ grants c w email /\ neverGrants email cs' (execM (handle env P c) w)
  end.

Lemma request_entry_stays w cs email r :
  mapGet email (emailRequests w) = Some r ->
  neverGrants email cs w ->
  mapGet email (emailRequests (execM (runCalls env P cs) w)) = Some r.
Proof.
  revert w. induction cs as [|c cs IH]; intros w Hget Hn; [done|].
  destruct Hn as [Hc Hn]. rewrite runCalls_cons_exec.
  apply IH; [|done]. by apply handle_keeps_request.
Qed.

Lemma worldInv_runCalls cs w :
  worldInv w -> worldInv (execM (runCalls env P cs) w).
Proof.
  revert w. induction cs as [|c cs IH]; intros w Hw; [done|].
  rewrite runCalls_cons_exec. by apply IH, worldInv_handle.
Qed.

(** A requester with an entry younger than the cooldown is refused, and the
    refusal costs one clock reading and nothing else. *)
Lemma request_limited email name r w :
  worldInv w ->
  mapGet email (emailRequests w) = Some r ->
  readAt env w 0 - timestamp r < cooldownMs ->
  requestInviteCodeWith env P email name w =
  (RequestError msgRateLimited, advance 1 0 w).
Proof.
  intros Hw Hr Ht. destruct (inv_request _ Hw _ _ Hr) as [Hv _].
  apply request_early. by apply prepare_limited with r.
Qed.

(** What a granted request stores for its requester. *)
Lemma request_entry email name code w :
  evalM (requestInviteCodePrepare env email (default "" name)) w = inr code ->
  exists r,
    mapGet email
      (emailRequests (execM (requestInviteCodeWith env P email name) w)) =
    Some r /\
    inviteCode r = code /\
    exists k, (k <= 1)%nat /\ timestamp r = readAt env w (k + 3).
Proof.
  intros Hp. destruct (request_exec email name w) as (_ & -> & _).
  unfold evalM in Hp.
  destruct (prepareP env email (default "" name) w); cbn [fst snd] in *;
    simplify_eq; cbn [issued emailRequests].
  - eexists. split; [apply mapGet_mapSet_eq|]. split; [done|].
    exists 0%nat. split; [lia|done].
  - eexists. split; [apply mapGet_mapSet_eq|]. split; [done|].
    exists 1%nat. split; [lia|done].
Qed.

(** C4: after a request of [email] was granted, and after any further calls
    among which no request of [email] is granted, a request of [email] whose
    clock reading is less than 5 minutes past the stored request time is
    refused with the cooldown message and leaves both maps as they are. *)
Theorem cooldown_enforced email name name' code cs w :
  worldInv w ->
  evalM (requestInviteCodePrepare env email (default "" name)) w = inr code ->
  let w1 := execM (requestInviteCodeWith env P email name) w in
  neverGrants email cs w1 ->
  let w2 := execM (runCalls env P cs) w1 in
  exists r, mapGet email (emailRequests w2) = Some r /\
    (readAt env w2 0 - timestamp r < cooldownMs ->
     requestInviteCodeWith env P email name' w2 =
     (RequestError msgRateLimited, advance 1 0 w2)).
Proof.
  intros Hw Hp w1 Hn w2.
  destruct (request_entry email name code w Hp) as (r & Hr & _).
  exists r. split; [by apply request_entry_stays|].
  intros Ht. apply request_limited with r; [|by apply request_entry_stays|done].
  by apply worldInv_runCalls, worldInv_request.
Qed.

(** C12: once the clock reading is 5 minutes or more past the stored request
    time, the requester is granted a new code: the record is stored under
    the new code with a validity of 30 days from the clock reading, unused,
    and the request entry is replaced. *)
Theorem cooldown_elapsed email name r w :
  worldInv w ->
  mapGet email (emailRequests w) = Some r ->
  cooldownMs <= readAt env w 0 - timestamp r ->
  requestInviteCodePrepare env email name w =
  (inr (issuedCode env w 1), issued env email name 1 w) /\
  mapGet (issuedCode env w 1) (inviteCodes (issued env email name 1 w)) =
  Some (mkInvite email name (readAt env w 3) (readAt env w 2 + validityMs)
          false None) /\
  mapGet email (emailRequests (issued env email name 1 w)) =
  Some (mkEmailRequest (readAt env w 4) (issuedCode env w 1)).
Proof.
  intros Hw Hr Ht. destruct (inv_request _ Hw _ _ Hr) as [Hv _].
  split; [by apply prepare_again with r|].
  split; apply mapGet_mapSet_eq.
Qed.

(** ** Issue, then redeem *)

(** What a granted request stores under the code it returns. *)
Lemma request_record email name code w :
  evalM (requestInviteCodePrepare env email (default "" name)) w = inr code ->
  exists i,
    mapGet code
      (inviteCodes (execM (requestInviteCodeWith env P email name) w)) =
    Some i /\
    InviteService.email i = email /\ userName i = default "" name /\
    used i = false /\ usedAt i = None.
Proof.
  intros Hp. destruct (request_exec email name w) as (-> & _ & _).
  unfold evalM in Hp.
  destruct (prepareP env email (default "" name) w); cbn [fst snd] in *;
    simplify_eq; cbn [issued inviteCodes];
    (eexists; split; [apply mapGet_mapSet_eq|done]).
Qed.

(** C6: the code a granted request returns redeems, at its first
    presentation before the expiry time, to the address and the name of
    that request; this holds whatever the mail provider answered, so a
    failed dispatch does not take the code back. *)
Theorem issue_then_redeem email name code w :
  evalM (requestInviteCodePrepare env email (default "" name)) w = inr code ->
  let w1 := execM (requestInviteCodeWith env P email name) w in
  exists i, mapGet code (inviteCodes w1) = Some i /\
    (readAt env w1 0 <= expiresAt i ->
     evalM (validateInviteCode env code) w1 =
     ValidateOk email (default "" name)) /\
    (expiresAt i < readAt env w1 0 ->
     evalM (validateInviteCode env code) w1 = ValidateError msgExpired).
Proof.
  intros Hp w1.
  destruct (request_record email name code w Hp) as (i & Hi & <- & <- & Hu & _).
  exists i. split; [done|]. unfold evalM. split; intros Ht.
  - by rewrite (validate_fresh env code i w1 Hi Hu Ht).
  - by rewrite (validate_expired env code i w1 Hi Hu Ht).
Qed.

(** C8: single use does not survive a collision.  When a code is
    redeemed and a later request is granted under the same text (the
    generator keeps four random bits, so a request in the same
    millisecond repeats the text once in sixteen times), the new record
    replaces the used one: in the run of the three calls the code is
    redeemed twice, the second time, before its new expiry time, to the
    new requester. *)
Theorem collision_redeems_twice code e n email name w :
  evalM (validateInviteCode env code) w = ValidateOk e n ->
  evalM (requestInviteCodePrepare env email (default "" name))
    (execM (validateInviteCode env code) w) = inr code ->
  (forall i,
     mapGet code
       (inviteCodes
          (execM (requestInviteCodeWith env P email name)
             (execM (validateInviteCode env code) w))) = Some i ->
     readAt env
       (execM (requestInviteCodeWith env P email name)
          (execM (validateInviteCode env code) w)) 0 <= expiresAt i) ->
  exists r,
    evalM (runCalls env P
             [CallValidate code; CallRequest email name; CallValidate code])
      w =
    [ReplyValidate (ValidateOk e n); ReplyRequest r;
     ReplyValidate (ValidateOk email (default "" name))].
Proof.
  intros Hv Hp Ht.
  destruct (request_record email name code _ Hp) as (i & Hi & <- & <- & Hu & _).
  eexists. rewrite !runCalls_cons_eval, !handle_eval.
  rewrite handle_validate_exec, handle_request_exec, Hv.
  do 3 f_equal. unfold evalM.
  by rewrite (validate_fresh env code i _ Hi Hu (Ht i Hi)).
Qed.

(** C16: when the mail provider reports failure, the request answers with the
    dispatch-failure message while the record and the request entry stay
    stored: the registry is as after a successful request. *)
Theorem dispatch_failure_keeps_state email name code w :
  let prepared := requestInviteCodePrepare env email (default "" name) w in
  prepared.1 = inr code ->
  success (evalM (sendEmail email code (default "" name)) prepared.2) = false ->
  let after := requestInviteCodeWith env P email name w in
  after.1 = RequestError msgDispatchFailed /\
  inviteCodes after.2 = inviteCodes prepared.2 /\
  emailRequests after.2 = emailRequests prepared.2 /\
  mapHas code (inviteCodes after.2) = true.
Proof.
  intros prepared Hp Hs after. subst prepared after.
  destruct (requestInviteCodePrepare env email (default "" name) w)
    as [res w'] eqn:E. simpl in Hp, Hs. subst res.
  rewrite (request_sent env P _ _ _ _ _ E). cbn [fst snd].
  unfold requestInviteCodeFinish. rewrite Hs.
  rewrite sendEmail_inviteCodes, sendEmail_emailRequests.
  split_and!; try done.
  pose proof (prepareP env email (default "" name) w) as Hspec.
  rewrite E in Hspec. inversion Hspec; subst; apply mapHas_mapSet_eq.
Qed.

(** ** Refusals *)

(** An address that fails the shape test is refused with the
    invalid-address message before anything is read or written: the state
    after is the state before. *)
Theorem invalid_email_refused email name w :
  isValidEmail email = false ->
  requestInviteCodeWith env P email name w = (RequestError msgInvalidEmail, w).
Proof. intros Hv. apply request_early. by apply prepare_invalid. Qed.

(** A code that is not a key is refused and nothing changes. *)
Lemma unknown_code_refused code w :
  mapGet code (inviteCodes w) = None ->
  validateInviteCode env code w = (ValidateError msgNotFound, w).
Proof. apply validate_unknown. Qed.

(** ** Statistics *)

(** [expiredAt t i]: record [i] counts as expired at clock reading [t]. *)
Definition expiredAt (t : Z) (i : Invite) : bool :=
  (t >? expiresAt i) && negb (used i).

Lemma countM_expired_cons i l w :
  evalM (countM (isExpiredNow env) (i :: l)) w =
  ((if expiredAt (readAt env w 0) i then 1 else 0) +
   evalM (countM (isExpiredNow env) l) (advance 1 0 w))%nat.
Proof.
  cbn [countM]. rewrite evalM_bind, evalM_bind. unfold evalM at 1, ret.
  cbn [fst]. unfold evalM at 1, execM. by rewrite isExpiredNow_run.
Qed.

(** Used records and expired records are counted apart. *)
Lemma countM_expired_used l w :
  (evalM (countM (isExpiredNow env) l) w + countb used l <= length l)%nat.
Proof.
  revert w. induction l as [|i l IH]; intros w; [done|].
  rewrite countM_expired_cons, countb_cons. specialize (IH (advance 1 0 w)).
  unfold expiredAt. simpl length.
  destruct (used i); rewrite ?andb_false_r; [lia|].
  destruct (_ && _); lia.
Qed.

Lemma expiredAt_mono t t' i :
  t <= t' -> expiredAt t i = true -> expiredAt t' i = true.
Proof.
  unfold expiredAt. intros Ht [H1 H2]%andb_true_iff. rewrite H2, andb_true_r.
  bool_to_prop. lia.
Qed.

(** With a monotone clock the scan counts at least the records expired when
    it starts and at most those expired when it ends. *)
Lemma countM_expired_bounds l w :
  clockMonotone env ->
  (countb (expiredAt (readAt env w 0)) l
   <= evalM (countM (isExpiredNow env) l) w
   <= countb (expiredAt (readAt env w (length l))) l)%nat.
Proof.
  intros Hm. revert w. induction l as [|i l IH]; intros w; [done|].
  rewrite countM_expired_cons, !countb_cons.
  destruct (IH (advance 1 0 w)) as [Hlo Hhi]. rewrite !readAt_advance in *.
  assert (H01 : (countb (expiredAt (readAt env w 0)) l
                 <= countb (expiredAt (readAt env w (0 + 1))) l)%nat).
  { apply countb_monotone. intros x _. apply expiredAt_mono.
    apply (readAt_mono env Hm). lia. }
  assert (Hn : (countb (expiredAt (readAt env w (length l + 1))) l
                <= countb (expiredAt (readAt env w (length (i :: l)))) l)%nat).
  { apply countb_monotone. intros x _. apply expiredAt_mono.
    apply (readAt_mono env Hm). simpl. lia. }
  destruct (expiredAt (readAt env w 0) i) eqn:E; [|lia].
  apply (expiredAt_mono _ (readAt env w (length (i :: l)))) in E as ->; [lia|].
  apply (readAt_mono env Hm). lia.
Qed.

(** The upper bound holds at the last reading of the scan already. *)
Lemma countM_expired_last l w :
  clockMonotone env ->
  (evalM (countM (isExpiredNow env) l) w
   <= countb (expiredAt (readAt env w (Nat.pred (length l)))) l)%nat.
Proof.
  intros Hm. revert w. induction l as [|i l IH]; intros w; [done|].
  rewrite countM_expired_cons, countb_cons. cbn [length Nat.pred].
  specialize (IH (advance 1 0 w)). rewrite readAt_advance in IH.
  assert (Hl : (countb (expiredAt (readAt env w (Nat.pred (length l) + 1))) l
                <= countb (expiredAt (readAt env w (length l))) l)%nat).
  { destruct l as [|j l]; [done|]. cbn [length Nat.pred]. by rewrite Nat.add_1_r. }
  destruct (expiredAt (readAt env w 0) i) eqn:E; [|lia].
  apply (expiredAt_mono _ (readAt env w (length l))) in E as ->; [lia|].
  apply (readAt_mono env Hm). lia.
Qed.

Lemma getInviteStats_eval w :
  let invites := mapValues (inviteCodes w) in
  let n := Z.of_nat (length invites) in
  let u := Z.of_nat (countb used invites) in
  let x := Z.of_nat (evalM (countM (isExpiredNow env) invites) w) in
  evalM (getInviteStats env) w = mkStats n u x (n - u - x).
Proof.
  unfold getInviteStats. rewrite evalM_bind. unfold evalM at 2, execM, gets.
  cbn [fst snd]. by rewrite evalM_bind.
Qed.

(** C10: the statistics split the records three ways: [total] is the number
    of records, [used] the number of used ones, and
    [total = used + expired + active] with no count negative; computing
    them writes to neither map. *)
Theorem stats_partition w :
  let s := evalM (getInviteStats env) w in
  let w' := execM (getInviteStats env) w in
  total s = Z.of_nat (mapSize (inviteCodes w)) /\
  statsUsed s = Z.of_nat (countb used (mapValues (inviteCodes w))) /\
  total s = statsUsed s + expired s + active s /\
  0 <= statsUsed s /\ 0 <= expired s /\ 0 <= active s /\
  inviteCodes w' = inviteCodes w /\ emailRequests w' = emailRequests w.
Proof.
  cbv zeta. rewrite getInviteStats_eval, getInviteStats_exec. cbn [total
    statsUsed expired active inviteCodes emailRequests advance].
  pose proof (countM_expired_used (mapValues (inviteCodes w)) w).
  unfold mapSize, mapValues in *. rewrite length_fmap in *.
  split_and!; try done; lia.
Qed.

(** C22: with a clock that never runs backwards, [expired] lies between the
    number of unused records past their expiry at the first clock reading
    of the scan and that number at the last one; when the two readings
    agree it is exactly that number. *)
Theorem stats_expired_bounds w :
  clockMonotone env ->
  let s := evalM (getInviteStats env) w in
  let invites := mapValues (inviteCodes w) in
  Z.of_nat (countb (expiredAt (readAt env w 0)) invites) <= expired s /\
  expired s <=
  Z.of_nat
    (countb (expiredAt (readAt env w (Nat.pred (length invites)))) invites).
Proof.
  intros Hm. cbv zeta. rewrite getInviteStats_eval. cbn [expired].
  pose proof (countM_expired_bounds (mapValues (inviteCodes w)) w Hm).
  pose proof (countM_expired_last (mapValues (inviteCodes w)) w Hm). lia.
Qed.

End Props.

(** ** The repository's provider *)

(** With the mock provider of the repository a request ends in one of
    three ways: the address is refused, the requester is rate limited, or
    the code that was stored is reported as sent.  The answer
    [msgDispatchFailed] is never given. *)
Theorem mock_never_fails env email name w :
  match evalM (requestInviteCode env email name) w with
  | RequestOk m code =>
      m = msgSent /\
      evalM (requestInviteCodePrepare env email (default "" name)) w = inr code
  | RequestError e => e = msgInvalidEmail \/ e = msgRateLimited
  end.
Proof.
  unfold requestInviteCode, evalM.
  pose proof (prepareP env email (default "" name) w) as Hp.
  destruct (requestInviteCodePrepare env email (default "" name) w)
    as [[r|code] w'] eqn:E.
  - rewrite (request_early env _ _ _ _ _ _ E). inv Hp; cbn; [by left|by right].
  - rewrite (request_sent env _ _ _ _ _ _ E). by split.
Qed.

(** A provider that reports failure, for the branch the mock never takes. *)
Definition failedResult : EmailResult :=
  {| success := false; messageId := "" |}.

#[refine] Instance failingProvider : EmailProvider := {|
  sendEmail := fun _ _ _ => ret failedResult |}.
Proof. all: intros; cbn; first [reflexivity | lia]. Defined.

(** ** Worked examples

    Four environments: a clock that advances one minute per reading
    ([slowEnv]) or ten seconds ([fastEnv]), one that stands still during the
    first request and is past the thirty days afterwards ([lateEnv]), and
    one that advances a minute per reading for 17 readings and then stands
    thirty days and eight minutes after its start ([scanEnv]). *)

Definition T0 : Z := 1700000000000.
Definition slowEnv : Env := tickEnv T0 60000 Byte.xab.
Definition fastEnv : Env := tickEnv T0 10000 Byte.xab.
Definition lateEnv : Env := jumpEnv 5 T0 0 (T0 + validityMs + 1) Byte.xab.
Definition scanEnv : Env :=
  jumpEnv 17 T0 60000 (T0 + validityMs + 480000) Byte.xab.

Definition scanCalls : list Call :=
  [CallRequest "a@b.c" None; CallRequest "d@e.f" (Some "Di");
   CallRequest "x@y.z" (Some "Bo"); CallValidate "C2Cloyw3v28A"].

(** Decides [neverIssues] and [neverGrants] on closed traces. *)
Ltac solve_never :=
  vm_compute;
  repeat match goal with
  | |- _ /\ _ => split
  | |- True => exact I
  | |- False -> False => exact (fun x => x)
  | |- _ = _ -> False => discriminate
  | |- _ /\ _ -> False => intros [? _]; discriminate
  end.

Lemma redeem_once_witness :
  evalM (validateInviteCode fastEnv "C2Cloyw3v28A")
    (execM (runCalls fastEnv (mockProvider fastEnv)
              [CallStats; CallRequest "x@y.z" (Some "Bo")])
       (execM (runCalls fastEnv (mockProvider fastEnv)
                 [CallRequest "a@b.c" None; CallValidate "C2Cloyw3v28A"])
          emptyWorld)) =
  ValidateError msgAlreadyUsed.
Proof.
  apply (redeem_once fastEnv (mockProvider fastEnv) "C2Cloyw3v28A" "a@b.c" ""
           [CallStats; CallRequest "x@y.z" (Some "Bo")]
           (execM (requestInviteCode fastEnv "a@b.c" None) emptyWorld)).
  - vm_compute. reflexivity.
  - solve_never.
Defined.

Lemma expired_forever_witness :
  let w := execM (requestInviteCode lateEnv "a@b.c" None) emptyWorld in
  let w' := execM (runCalls lateEnv (mockProvider lateEnv)
                     [CallStats; CallRequest "x@y.z" None]) w in
  validateInviteCode lateEnv "C2Cloyw3v28A" w' =
  (ValidateError msgExpired, advance 1 0 w').
Proof.
  apply (expired_forever lateEnv (mockProvider lateEnv) "C2Cloyw3v28A"
           (mkInvite "a@b.c" "" T0 (T0 + validityMs) false None)).
  - apply jumpEnv_monotone; vm_compute; discriminate.
  - vm_compute. reflexivity.
  - reflexivity.
  - vm_compute. reflexivity.
  - solve_never.
Defined.

Lemma cooldown_enforced_witness :
  let w2 := execM (runCalls fastEnv (mockProvider fastEnv)
                     [CallStats; CallRequest "x@y.z" None])
              (execM (requestInviteCode fastEnv "a@b.c" None) emptyWorld) in
  requestInviteCode fastEnv "a@b.c" (Some "Al") w2 =
  (RequestError msgRateLimited, advance 1 0 w2).
Proof.
  intros w2.
  destruct (cooldown_enforced fastEnv (mockProvider fastEnv) "a@b.c" None
              (Some "Al") "C2Cloyw3v28A" [CallStats; CallRequest "x@y.z" None]
              emptyWorld) as (r & Hr & Hlim).
  - apply worldInv_empty.
  - vm_compute. reflexivity.
  - solve_never.
  - apply Hlim. vm_compute in Hr. injection Hr as <-. vm_compute. reflexivity.
Defined.

(** The boundary: exactly five minutes after the recorded request. *)
Lemma cooldown_elapsed_witness :
  let w := execM (runCalls slowEnv (mockProvider slowEnv)
                    [CallRequest "a@b.c" None; CallStats; CallStats; CallStats])
             emptyWorld in
  evalM (requestInviteCodePrepare slowEnv "a@b.c" "Al") w =
  inr (issuedCode slowEnv w 1).
Proof.
  intros w.
  destruct (cooldown_elapsed slowEnv "a@b.c" "Al"
              (mkEmailRequest (T0 + 180000) "C2Cloyw3v28A") w) as (H & _).
  - apply (worldInv_runCalls slowEnv (mockProvider slowEnv)), worldInv_empty.
  - vm_compute. reflexivity.
  - vm_compute. discriminate.
  - unfold evalM. by rewrite H.
Defined.

Lemma issue_then_redeem_witness :
  evalM (validateInviteCode fastEnv "C2Cloyw3v28A")
    (execM (requestInviteCode fastEnv "a@b.c" None) emptyWorld) =
  ValidateOk "a@b.c" "".
Proof.
  destruct (issue_then_redeem fastEnv (mockProvider fastEnv) "a@b.c" None
              "C2Cloyw3v28A" emptyWorld) as (i & Hi & Hok & _).
  - vm_compute. reflexivity.
  - apply Hok. vm_compute in Hi. injection Hi as <-. vm_compute. discriminate.
Defined.

Lemma collision_redeems_twice_witness :
  exists r,
    evalM (runCalls demoEnv (mockProvider demoEnv)
             [CallValidate "C2Cloyw3v28A"; CallRequest "x@y.z" (Some "Bo");
              CallValidate "C2Cloyw3v28A"])
      (execM (requestInviteCode demoEnv "a@b.c" None) emptyWorld) =
    [ReplyValidate (ValidateOk "a@b.c" ""); ReplyRequest r;
     ReplyValidate (ValidateOk "x@y.z" "Bo")].
Proof.
  apply (collision_redeems_twice demoEnv (mockProvider demoEnv)
           "C2Cloyw3v28A" "a@b.c" "" "x@y.z" (Some "Bo")).
  - by vm_compute.
  - by vm_compute.
  - intros i Hi. vm_compute in Hi. injection Hi as <-. vm_compute. discriminate.
Defined.

Lemma dispatch_failure_keeps_state_witness :
  let after := requestInviteCodeWith fastEnv failingProvider "a@b.c" None
                 emptyWorld in
  after.1 = RequestError msgDispatchFailed /\
  mapHas "C2Cloyw3v28A" (inviteCodes after.2) = true.
Proof.
  destruct (dispatch_failure_keeps_state fastEnv failingProvider "a@b.c" None
              "C2Cloyw3v28A" emptyWorld) as (H1 & _ & _ & H4).
  - vm_compute. reflexivity.
  - reflexivity.
  - by split.
Defined.

Lemma invalid_email_refused_witness :
  requestInviteCode fastEnv "no-at-sign" None emptyWorld =
  (RequestError msgInvalidEmail, emptyWorld).
Proof.
  apply (invalid_email_refused fastEnv (mockProvider fastEnv)).
  vm_compute. reflexivity.
Defined.

(** Three codes issued, one redeemed, one past its expiry when the scan
    reaches it. *)
Example stats_three_ways :
  evalM (getInviteStats scanEnv)
    (execM (runCalls scanEnv (mockProvider scanEnv) scanCalls) emptyWorld) =
  mkStats 3 1 1 1.
Proof. vm_compute. reflexivity. Qed.

Lemma stats_expired_bounds_witness :
  let w := execM (runCalls scanEnv (mockProvider scanEnv) scanCalls)
             emptyWorld in
  1 <= expired (evalM (getInviteStats scanEnv) w) <= 1.
Proof.
  intros w.
  destruct (stats_expired_bounds scanEnv w) as [Hlo Hhi].
  - apply jumpEnv_monotone; vm_compute; discriminate.
  - split; [exact Hlo | exact Hhi].
Defined.

(** ** A code issued twice

    With the clock standing still and the random source repeating, two
    requests by different requesters produce the same code: the second
    [inviteCodes.set] replaces the record of the first, [used] is [false]
    again, and the code is redeemed a second time. *)

(** A run of the service in which one code is redeemed twice: issued to
    [a@b.c] and redeemed, issued again to [x@y.z] under the same text, and
    redeemed again. *)
Example collision_run :
  evalM (runCalls demoEnv (mockProvider demoEnv)
           [CallRequest "a@b.c" None; CallValidate "C2Cloyw3v28A";
            CallRequest "x@y.z" (Some "Bo"); CallValidate "C2Cloyw3v28A"])
    emptyWorld =
  [ReplyRequest (RequestOk msgSent "C2Cloyw3v28A");
   ReplyValidate (ValidateOk "a@b.c" "");
   ReplyRequest (RequestOk msgSent "C2Cloyw3v28A");
   ReplyValidate (ValidateOk "x@y.z" "Bo")].
Proof. vm_compute. reflexivity. Qed.
