(* ===== verification/InviteLiveness.v ===== *)
(** * InviteLiveness: a requester who keeps asking is served

    The cooldown of [src/api/invite-service.js] (lines 152-160) compares
    the clock with the time of the last granted request.  A refused
    request reads the clock once and writes nothing, so whether a
    requester is ever served again depends on the clock alone.

    - [round]: any calls among which no request of the requester is
      granted, ending with a request of the requester that is refused.
    - [due]: from here on the next request of the requester is granted,
      whatever calls come before it.
    - [round_inv]: what a round does: it keeps the entry, finds the
      cooldown running and moves the clock by a reading at least.
    - [retry_eventually_granted]: with a clock that does not run
      backwards and that reaches the end of the cooldown at some reading,
      every sequence of rounds is finite and ends in a state in which the
      requester is [due].  The measure is [readingsLeft], the readings up
      to that one.
    - [strict_clock_rounds]: with a clock that advances at every reading
      there are at most 300000 rounds, one per millisecond of the
      cooldown ([remaining]).
    - [frozen_clock_starves]: with a clock that stands still the requester
      is refused for ever, so the hypothesis on the clock is needed. *)

From stdpp Require Import gmap strings list.
From Stdlib Require Import ZArith.
From Stdlib.Strings Require Import Byte Ascii.
From S2P Require Import Prelude JsString Encoding Regex Runtime JsMap.
From S2P Require Import InviteService InviteLemmas InviteCode InviteInvariant.
From S2P Require Import InviteProps.

#[local] Open Scope c2c_scope.
#[local] Open Scope Z_scope.

(** The clock advances at every reading. *)
Definition clockStrict (env : Env) : Prop :=
  forall i, clock env i < clock env (S i).

Lemma clockStrict_lt env i j :
  clockStrict env -> (i < j)%nat -> clock env i < clock env j.
Proof.
  intros Hs Hij. induction Hij as [|j _ IH]; [apply Hs|].
  specialize (Hs j). lia.
Qed.

Lemma clockStrict_monotone env : clockStrict env -> clockMonotone env.
Proof.
  intros Hs i j Hij. destruct (decide (i = j)) as [->|Hne]; [lia|].
  apply Z.lt_le_incl, clockStrict_lt; [done|lia].
Qed.

Lemma tickEnv_strict base step b : 0 < step -> clockStrict (tickEnv base step b).
Proof. intros Hs i. simpl. nia. Qed.

(** A clock that advances at every reading reaches every time. *)
Lemma clockStrict_reaches env t :
  clockStrict env -> exists i, t <= clock env i.
Proof.
  intros Hs. exists (Z.to_nat (t - clock env 0)).
  assert (H : forall n, clock env 0 + Z.of_nat n <= clock env n).
  { induction n as [|n IH]; [lia|]. specialize (Hs n). lia. }
  specialize (H (Z.to_nat (t - clock env 0))). lia.
Qed.

Section Liveness.
Context (env : Env) (P : EmailProvider) (email : string).

(** What is left of the cooldown of [email], in milliseconds. *)
Definition remaining (w : World) : nat :=
  match mapGet email (emailRequests w) with
  | Some r => Z.to_nat (cooldownMs - (readAt env w 0 - timestamp r))
  | None => 0
  end.

(** The readings of the clock before reading [i]. *)
Definition readingsLeft (i : nat) (w : World) : nat := i - ticks w.

(** One round of waiting: calls in which no request of [email] is granted,
    the last of them a request of [email]. *)
Definition round (w w' : World) : Prop :=
  exists cs name,
    neverGrants env P email (cs ++ [CallRequest email name]) w /\
    w' = execM (runCalls env P (cs ++ [CallRequest email name])) w.

(** The next request of [email] is granted, whatever comes before it. *)
Definition due (w : World) : Prop :=
  forall cs name,
    neverGrants env P email cs w ->
    grants env (CallRequest email name) (execM (runCalls env P cs) w) email.

(** [n] rounds in a row. *)
Inductive rounds : nat -> World -> World -> Prop :=
| rounds_O w : rounds 0 w w
| rounds_S n w w1 w2 : round w w1 -> rounds n w1 w2 -> rounds (S n) w w2.

(** ** Sequences of calls *)

Lemma runCalls_app_exec cs cs' w :
  execM (runCalls env P (cs ++ cs')) w =
  execM (runCalls env P cs') (execM (runCalls env P cs) w).
Proof.
  revert w. induction cs as [|c cs IH]; intros w; [done|].
  cbn [app]. by rewrite !runCalls_cons_exec, IH.
Qed.

Lemma neverGrants_app cs cs' w :
  neverGrants env P email (cs ++ cs') w <->
  neverGrants env P email cs w /\
  neverGrants env P email cs' (execM (runCalls env P cs) w).
Proof.
  revert w. induction cs as [|c cs IH]; intros w; cbn [app neverGrants].
  - rewrite runCalls_nil_exec. tauto.
  - rewrite runCalls_cons_exec, IH. tauto.
Qed.

Lemma ticks_runCalls cs w :
  (ticks w <= ticks (execM (runCalls env P cs) w))%nat.
Proof.
  revert w. induction cs as [|c cs IH]; intros w; [done|].
  rewrite runCalls_cons_exec. etransitivity; [apply ticks_handle|apply IH].
Qed.

(** ** A request of a requester on record *)

(** A request that is not granted found the cooldown running. *)
Lemma refused_limited name r w :
  worldInv w ->
  mapGet email (emailRequests w) = Some r ->
  ~ grants env (CallRequest email name) w email ->
  readAt env w 0 - timestamp r < cooldownMs.
Proof.
  intros Hw Hr Hn. destruct (inv_request _ Hw _ _ Hr) as [Hv _].
  destruct (Z.lt_ge_cases (readAt env w 0 - timestamp r) cooldownMs) as [|Hge];
    [done|].
  destruct Hn. split; [done|]. eexists. unfold evalM.
  by rewrite (prepare_again env email _ r w Hv Hr Hge).
Qed.

(** A request during the cooldown: its reply and its effect. *)
Lemma limited_run name r w :
  worldInv w ->
  mapGet email (emailRequests w) = Some r ->
  readAt env w 0 - timestamp r < cooldownMs ->
  (evalM (handle env P (CallRequest email name)) w =
     ReplyRequest (RequestError msgRateLimited)) /\
  (execM (handle env P (CallRequest email name)) w = advance 1 0 w).
Proof.
  intros Hw Hr Hlim. rewrite handle_eval, handle_request_exec.
  unfold evalM, execM. by rewrite (request_limited env P email name r w).
Qed.

Lemma elapsed_granted name r w :
  worldInv w ->
  mapGet email (emailRequests w) = Some r ->
  cooldownMs <= readAt env w 0 - timestamp r ->
  grants env (CallRequest email name) w email.
Proof.
  intros Hw Hr Hge. destruct (inv_request _ Hw _ _ Hr) as [Hv _].
  split; [done|]. eexists. unfold evalM.
  by rewrite (prepare_again env email _ r w Hv Hr Hge).
Qed.

(** What a round does: the entry stays, the requester was refused in a
    state [w1] that the clock had reached or passed, and the refusal read
    the clock once. *)
Lemma round_inv r w w' :
  worldInv w ->
  mapGet email (emailRequests w) = Some r ->
  round w w' ->
  exists w1,
    (ticks w <= ticks w1)%nat /\ readAt env w1 0 - timestamp r < cooldownMs /\
    worldInv w1 /\ mapGet email (emailRequests w1) = Some r /\
    w' = advance 1 0 w1.
Proof.
  intros Hw Hr (cs & name & Hn & ->).
  apply neverGrants_app in Hn as [Hcs [Hlast _]].
  rewrite runCalls_app_exec, runCalls_cons_exec, runCalls_nil_exec.
  set (w1 := execM (runCalls env P cs) w) in *. exists w1.
  assert (Hw1 : worldInv w1) by by apply worldInv_runCalls.
  assert (Hr1 : mapGet email (emailRequests w1) = Some r)
    by by apply request_entry_stays.
  pose proof (refused_limited name r w1 Hw1 Hr1 Hlast) as Hlim.
  rewrite (proj2 (limited_run name r w1 Hw1 Hr1 Hlim)).
  split_and!; try done. apply ticks_runCalls.
Qed.

Section Monotone.
Hypothesis clock_mono : clockMonotone env.

(** Once the cooldown is over it stays over until the next grant. *)
Lemma elapsed_due r w :
  worldInv w ->
  mapGet email (emailRequests w) = Some r ->
  cooldownMs <= readAt env w 0 - timestamp r ->
  due w.
Proof.
  intros Hw Hr Hge cs name Hn.
  apply elapsed_granted with r;
    [by apply worldInv_runCalls|by apply request_entry_stays|].
  pose proof (ticks_runCalls cs w) as Ht.
  pose proof (readAt_mono env clock_mono w (execM (runCalls env P cs) w) 0 0).
  lia.
Qed.

(** A requester on record is due or can go another round. *)
Lemma due_or_round r w :
  worldInv w ->
  mapGet email (emailRequests w) = Some r ->
  due w \/ exists w', round w w'.
Proof.
  intros Hw Hr.
  destruct (Z.lt_ge_cases (readAt env w 0 - timestamp r) cooldownMs)
    as [Hlt|Hge]; [right|left; by apply elapsed_due with r].
  destruct (inv_request _ Hw _ _ Hr) as [Hv _].
  eexists. exists [], None. split; [|done].
  split; [|done]. intros [_ [code Hc]]. unfold evalM in Hc.
  by rewrite (prepare_limited env email _ r w Hv Hr Hlt) in Hc.
Qed.

(** A round happens before the reading at which the cooldown is over, and
    uses up a reading. *)
Lemma round_readingsLeft i r w w' :
  timestamp r + cooldownMs <= clock env i ->
  worldInv w ->
  mapGet email (emailRequests w) = Some r ->
  round w w' ->
  worldInv w' /\ mapGet email (emailRequests w') = Some r /\
  (readingsLeft i w' < readingsLeft i w)%nat.
Proof.
  intros Hi Hw Hr Hround.
  destruct (round_inv r w w' Hw Hr Hround) as (w1 & Ht & Hlim & Hw1 & Hr1 & ->).
  split; [by apply worldInv_advance|]. split; [exact Hr1|].
  assert (ticks w1 < i)%nat.
  { destruct (Nat.lt_ge_cases (ticks w1) i) as [|Hge]; [done|].
    pose proof (clock_mono i (0 + ticks w1)%nat). unfold readAt in Hlim. lia. }
  unfold readingsLeft. cbn [advance ticks]. lia.
Qed.

End Monotone.

Section Strict.
Hypothesis clock_strict : clockStrict env.

(** With a clock that advances, a round uses up some of the cooldown. *)
Lemma round_remaining r w w' :
  worldInv w ->
  mapGet email (emailRequests w) = Some r ->
  round w w' ->
  worldInv w' /\ mapGet email (emailRequests w') = Some r /\
  (remaining w' < remaining w)%nat.
Proof.
  intros Hw Hr Hround.
  destruct (round_inv r w w' Hw Hr Hround) as (w1 & Ht & Hlim & Hw1 & Hr1 & ->).
  split; [by apply worldInv_advance|]. split; [exact Hr1|].
  unfold remaining. cbn [advance emailRequests]. rewrite Hr, Hr1.
  pose proof (readAt_mono env (clockStrict_monotone env clock_strict)
                w w1 0 0) as Hc.
  pose proof (clock_strict (0 + ticks w1)%nat) as Hs.
  change (readAt env (advance 1 0 w1) 0) with (clock env (S (0 + ticks w1))).
  unfold readAt in *. lia.
Qed.

(** Each round costs at least a millisecond of the cooldown. *)
Lemma rounds_remaining n r w w' :
  worldInv w ->
  mapGet email (emailRequests w) = Some r ->
  rounds n w w' ->
  (n + remaining w' <= remaining w)%nat.
Proof.
  intros Hw Hr Hn. induction Hn as [w|n w w1 w2 H1 _ IH]; [done|].
  destruct (round_remaining r w w1 Hw Hr H1) as (Hw1 & Hr1 & Hlt).
  specialize (IH Hw1 Hr1). lia.
Qed.

End Strict.

(** With a clock that does not run backwards, what is left is at most the
    cooldown. *)
Lemma remaining_bound w :
  timeInv env w -> (remaining w <= Z.to_nat cooldownMs)%nat.
Proof.
  intros Ht. unfold remaining.
  destruct (mapGet email (emailRequests w)) as [r|] eqn:Hr; [|lia].
  pose proof (time_request _ _ Ht _ _ Hr). lia.
Qed.

End Liveness.

(** C40: a requester on record who keeps asking is served.  With a clock
    that does not run backwards and that reaches the end of the cooldown
    at some reading, however the requester's refused requests are
    interleaved with calls of others, after finitely many rounds the
    state is one in which the next request of the requester is granted,
    whatever calls come before it. *)
Theorem retry_eventually_granted env (P : EmailProvider) email r w :
  clockMonotone env ->
  (exists i, timestamp r + cooldownMs <= clock env i) ->
  worldInv w ->
  mapGet email (emailRequests w) = Some r ->
  eventually (round env P email) (due env P email) w.
Proof.
  intros Hm [i Hi] Hw Hr.
  apply (@eventually_measure _ (round env P email) (readingsLeft i)
           (fun w => worldInv w /\ mapGet email (emailRequests w) = Some r));
    [|intros x [Hx Hrx]; by apply due_or_round with r|done].
  intros x y [Hx Hrx] Hxy.
  by destruct (round_readingsLeft env P email Hm i r x y Hi Hx Hrx Hxy)
    as (? & ? & ?).
Qed.

(** With a clock that advances at every reading, no sequence of rounds is
    longer than the cooldown has milliseconds. *)
Theorem strict_clock_rounds env (P : EmailProvider) email r n w w' :
  clockStrict env ->
  worldInv w -> timeInv env w ->
  mapGet email (emailRequests w) = Some r ->
  rounds env P email n w w' -> Z.of_nat n <= cooldownMs.
Proof.
  intros Hs Hw Ht Hr Hn.
  pose proof (rounds_remaining env P email Hs n r w w' Hw Hr Hn).
  pose proof (remaining_bound env email w Ht). unfold cooldownMs in *. lia.
Qed.

(** ** A clock that stands still *)

(** With a clock that stands still a requester on record is refused for
    ever: any number of requests is answered with the cooldown message. *)
Lemma frozen_clock_starves t b (P : EmailProvider) email r n w :
  let env := constEnv t b in
  worldInv w ->
  mapGet email (emailRequests w) = Some r ->
  t - timestamp r < cooldownMs ->
  evalM (runCalls env P (replicate n (CallRequest email None))) w =
  replicate n (ReplyRequest (RequestError msgRateLimited)).
Proof.
  intros env Hw Hr Ht. revert w Hw Hr.
  induction n as [|n IH]; intros w Hw Hr; [done|].
  cbn [replicate]. rewrite runCalls_cons_eval.
  destruct (limited_run env P email None r w Hw Hr Ht) as [-> ->].
  by rewrite IH; [|apply worldInv_advance|].
Qed.

(** ** Worked examples *)

Lemma retry_eventually_granted_witness :
  eventually (round fastEnv (mockProvider fastEnv) "a@b.c")
    (due fastEnv (mockProvider fastEnv) "a@b.c")
    (execM (requestInviteCode fastEnv "a@b.c" None) emptyWorld).
Proof.
  apply (retry_eventually_granted fastEnv (mockProvider fastEnv) "a@b.c"
           (mkEmailRequest (T0 + 30000) "C2Cloyw3v28A")).
  - apply tickEnv_monotone. lia.
  - exists 33%nat. vm_compute. discriminate.
  - apply (worldInv_request fastEnv (mockProvider fastEnv)), worldInv_empty.
  - vm_compute. reflexivity.
Defined.

(** With a reading every ten seconds, a requester who asks again and again
    is refused 28 times and served at the 29th request. *)
Example retries_until_granted :
  let w := execM (requestInviteCode fastEnv "a@b.c" None) emptyWorld in
  let replies :=
    evalM (runCalls fastEnv (mockProvider fastEnv)
             (replicate 29 (CallRequest "a@b.c" None))) w in
  take 28 replies = replicate 28 (ReplyRequest (RequestError msgRateLimited)) /\
  exists code, drop 28 replies = [ReplyRequest (RequestOk msgSent code)].
Proof. vm_compute. split; [done|]. by eexists. Qed.
