(* ===== verification/InviteSpec.v ===== *)
(** * InviteSpec: what the registry promises, and that the code keeps it

    The abstract registry is a pair of finite maps ([gmap]): codes to
    records and requesters to their last request.  [astep] is its
    transition relation: one rule for each way a call of
    [src/api/invite-service.js] can end.  The rules do not mention the
    clock counter, the random source or the order of the entries; the times
    they need are bound by the rules, so they say which replies and which
    writes a call may have, not when ([InviteTimed] adds the clock).

    [abs] forgets the order of insertion and the counters of a [World].
    [handle_sim] is the simulation: every call of the service, from a
    state that satisfies the invariant, is a step of the abstract registry
    between the abstractions of the states.  [service_refines] extends it
    to sequences of calls from the empty registry, and
    [registry_never_forgets] is a property of the rules ([astep_dom])
    carried over to the service. *)

From stdpp Require Import gmap strings list.
From Stdlib Require Import ZArith.
From Stdlib.Strings Require Import Byte Ascii.
From S2P Require Import Prelude JsString Encoding Regex Runtime JsMap.
From S2P Require Import InviteService InviteLemmas InviteCode InviteInvariant.
From S2P Require Import InviteProps.

#[local] Open Scope c2c_scope.
#[local] Open Scope Z_scope.

(** ** The abstract registry *)

Record AState : Type := mkAState {
  acodes : gmap string Invite;
  arequests : gmap string EmailRequest
}.

Definition abs (w : World) : AState :=
  mkAState (absMap (inviteCodes w)) (absMap (emailRequests w)).

(** The records of the registry, in some order. *)
Definition arecords (s : AState) : list Invite := (map_to_list (acodes s)).*2.

(** No request of [email] is on record, or the last one is five minutes
    old at [now]. *)
Definition cooledDown (s : AState) (email : string) (now : Z) : Prop :=
  forall r, arequests s !! email = Some r -> cooldownMs <= now - timestamp r.

(** The two answers to a request that stored a code. *)
Definition issueReply (sent : bool) (code : string) : RequestResult :=
  if sent then RequestOk msgSent code else RequestError msgDispatchFailed.

Inductive astep : AState -> Call -> Reply -> AState -> Prop :=
| AInvalid s email name :
    isValidEmail email = false ->
    astep s (CallRequest email name)
      (ReplyRequest (RequestError msgInvalidEmail)) s
| ALimited s email name r now :
    isValidEmail email = true ->
    arequests s !! email = Some r -> now - timestamp r < cooldownMs ->
    astep s (CallRequest email name)
      (ReplyRequest (RequestError msgRateLimited)) s
| AIssue s email name code now created expiry stamp sent :
    isValidEmail email = true ->
    cooledDown s email now ->
    String.length code = 12%nat -> isPrefixOf "C2C" code = true ->
    astep s (CallRequest email name)
      (ReplyRequest (issueReply sent code))
      (mkAState
         (<[code := mkInvite email (default "" name) created
                      (expiry + validityMs) false None]> (acodes s))
         (<[email := mkEmailRequest stamp code]> (arequests s)))
| ANotFound s code :
    acodes s !! code = None ->
    astep s (CallValidate code)
      (ReplyValidate (ValidateError msgNotFound)) s
| AUsed s code i :
    acodes s !! code = Some i -> used i = true ->
    astep s (CallValidate code)
      (ReplyValidate (ValidateError msgAlreadyUsed)) s
| AExpired s code i now :
    acodes s !! code = Some i -> used i = false -> expiresAt i < now ->
    astep s (CallValidate code)
      (ReplyValidate (ValidateError msgExpired)) s
| ARedeem s code i now usedNow :
    acodes s !! code = Some i -> used i = false -> now <= expiresAt i ->
    astep s (CallValidate code)
      (ReplyValidate (ValidateOk (email i) (userName i)))
      (mkAState (<[code := markUsed usedNow i]> (acodes s)) (arequests s))
| AStats s st :
    total st = Z.of_nat (size (acodes s)) ->
    statsUsed st = Z.of_nat (countb used (arecords s)) ->
    total st = statsUsed st + expired st + active st ->
    0 <= expired st -> 0 <= active st ->
    astep s CallStats (ReplyStats st) s.

(** Sequences of steps. *)
Inductive asteps : AState -> list Call -> list Reply -> AState -> Prop :=
| ANil s : asteps s [] [] s
| ACons s c r s1 cs rs s2 :
    astep s c r s1 -> asteps s1 cs rs s2 ->
    asteps s (c :: cs) (r :: rs) s2.

(** ** Abstraction *)

Lemma abs_advance dt dd w : abs (advance dt dd w) = abs w.
Proof. reflexivity. Qed.

Lemma abs_ext w w' :
  inviteCodes w' = inviteCodes w -> emailRequests w' = emailRequests w ->
  abs w' = abs w.
Proof. unfold abs. by intros -> ->. Qed.

Lemma acodes_lookup w code : acodes (abs w) !! code = mapGet code (inviteCodes w).
Proof. apply absMap_mapGet. Qed.

Lemma arequests_lookup w e :
  arequests (abs w) !! e = mapGet e (emailRequests w).
Proof. apply absMap_mapGet. Qed.

Lemma abs_issued env email name k w :
  abs (issued env email name k w) =
  mkAState
    (<[issuedCode env w k := newInvite env email name w k]> (acodes (abs w)))
    (<[email := newRequest env w k]> (arequests (abs w))).
Proof.
  unfold abs, issued. cbn [inviteCodes emailRequests acodes arequests].
  by rewrite !absMap_mapSet.
Qed.

Lemma abs_redeemed env code i w :
  abs (redeemed env code i w) =
  mkAState (<[code := markUsed (readAt env w 1) i]> (acodes (abs w)))
    (arequests (abs w)).
Proof.
  unfold abs, redeemed, setInviteCodes.
  cbn [inviteCodes emailRequests acodes arequests advance].
  by rewrite absMap_mapSet.
Qed.

(** The records of the abstraction are those of the [Map], reordered. *)
Lemma arecords_abs w :
  mapWf (inviteCodes w) -> arecords (abs w) ≡ₚ mapValues (inviteCodes w).
Proof.
  intros Hwf. unfold arecords, abs, absMap, mapValues. cbn.
  by rewrite map_to_list_to_map.
Qed.

Lemma mapHas_dom {V} k (m : jsMap V) :
  mapHas k m = true <-> k ∈ dom (absMap m).
Proof.
  unfold mapHas. rewrite elem_of_dom, absMap_mapGet.
  destruct (mapGet k m); split; (done || by intros []).
Qed.

(** ** A consequence of the rules: nothing is deleted *)

Lemma astep_dom s c r s' :
  astep s c r s' ->
  dom (acodes s) ⊆ dom (acodes s') /\ dom (arequests s) ⊆ dom (arequests s').
Proof. destruct 1; cbn [acodes arequests]; set_solver. Qed.

Lemma asteps_dom s cs rs s' :
  asteps s cs rs s' ->
  dom (acodes s) ⊆ dom (acodes s') /\ dom (arequests s) ⊆ dom (arequests s').
Proof.
  induction 1 as [|s c r s1 cs rs s2 H1 _ IH]; [done|].
  destruct (astep_dom _ _ _ _ H1), IH. split; by etrans.
Qed.

(** ** The simulation *)

Section Refinement.
Context (env : Env) (P : EmailProvider).

Lemma validate_refines code w :
  astep (abs w) (CallValidate code)
    (ReplyValidate (evalM (validateInviteCode env code) w))
    (abs (execM (validateInviteCode env code) w)).
Proof.
  unfold evalM, execM.
  destruct (validateP env code w) as [H|i H Hu|i H Hu He|i H Hu He];
    cbn [fst snd]; rewrite ?abs_advance, ?abs_redeemed;
    rewrite <- acodes_lookup in H.
  - by apply ANotFound.
  - by apply AUsed with i.
  - by apply AExpired with i (readAt env w 0).
  - by apply ARedeem with (readAt env w 0).
Qed.

Lemma issue_refines email name k sent w :
  isValidEmail email = true ->
  cooledDown (abs w) email (readAt env w 0) ->
  astep (abs w) (CallRequest email name)
    (ReplyRequest (issueReply sent (issuedCode env w k)))
    (abs (issued env email (default "" name) k w)).
Proof.
  intros Hv Hc. rewrite abs_issued.
  apply AIssue with (readAt env w 0); [done|done| |done].
  by apply length_inviteCodeOf.
Qed.

Lemma request_refines email name w :
  astep (abs w) (CallRequest email name)
    (ReplyRequest (evalM (requestInviteCodeWith env P email name) w))
    (abs (execM (requestInviteCodeWith env P email name) w)).
Proof.
  destruct (request_exec env P email name w) as (Hc & Hr & _).
  rewrite (abs_ext _ _ Hc Hr). clear Hc Hr. unfold evalM.
  pose proof (prepareP env email (default "" name) w) as Hp.
  destruct (requestInviteCodePrepare env email (default "" name) w)
    as [[r|code] w'] eqn:E; cbn [snd].
  - rewrite (request_early env _ _ _ _ _ _ E). cbn [fst].
    inv Hp; rewrite ?abs_advance; [by apply AInvalid|].
    apply ALimited with r0 (readAt env w 0); by rewrite ?arequests_lookup.
  - rewrite (request_sent env _ _ _ _ _ _ E). cbn [fst].
    change (requestInviteCodeFinish code ?x)
      with (issueReply (success x) code).
    inv Hp; apply issue_refines; try done; intros r';
      rewrite arequests_lookup; intros; simplify_eq; done.
Qed.

Lemma stats_refines w :
  mapWf (inviteCodes w) ->
  astep (abs w) CallStats (ReplyStats (evalM (getInviteStats env) w))
    (abs (execM (getInviteStats env) w)).
Proof.
  intros Hwf. rewrite getInviteStats_exec, abs_advance, getInviteStats_eval.
  pose proof (countM_expired_used env (mapValues (inviteCodes w)) w) as Hle.
  apply AStats; cbn [total statsUsed expired active acodes abs].
  - rewrite absMap_mapSize by done. unfold mapSize, mapValues.
    by rewrite length_fmap.
  - by rewrite (arecords_abs w Hwf).
  - lia.
  - lia.
  - unfold mapValues in *. rewrite length_fmap in *. lia.
Qed.

Lemma handle_sim c w :
  worldInv w ->
  astep (abs w) c (evalM (handle env P c) w) (abs (execM (handle env P c) w)).
Proof.
  intros Hw. destruct c as [email name|code|]; unfold handle;
    rewrite evalM_bind, execM_bind.
  - apply request_refines.
  - apply validate_refines.
  - apply stats_refines, Hw.
Qed.

Lemma runCalls_sim cs w :
  worldInv w ->
  asteps (abs w) cs (evalM (runCalls env P cs) w)
    (abs (execM (runCalls env P cs) w)).
Proof.
  revert w. induction cs as [|c cs IH]; intros w Hw; [apply ANil|].
  rewrite runCalls_cons_exec, runCalls_cons_eval.
  eapply ACons; [by apply handle_sim|].
  by apply IH, worldInv_handle.
Qed.

(** C3: every run of the service from the empty registry, with any mail
    provider and any clock, is a run of the abstract registry: the replies
    are those the rules allow, and the maps at the end are those the rules
    produce. *)
Theorem service_refines cs :
  asteps (mkAState ∅ ∅) cs (evalM (runCalls env P cs) emptyWorld)
    (abs (execM (runCalls env P cs) emptyWorld)).
Proof. apply (runCalls_sim cs emptyWorld), worldInv_empty. Qed.

(** The service never forgets: a code on record stays on record, and so
    does a requester, whatever calls follow. *)
Theorem registry_never_forgets cs w code email :
  worldInv w ->
  (mapHas code (inviteCodes w) = true ->
   mapHas code (inviteCodes (execM (runCalls env P cs) w)) = true) /\
  (mapHas email (emailRequests w) = true ->
   mapHas email (emailRequests (execM (runCalls env P cs) w)) = true).
Proof.
  intros Hw. destruct (asteps_dom _ _ _ _ (runCalls_sim cs w Hw)) as [Hc Hr].
  rewrite !mapHas_dom. split; intros H; [by apply Hc|by apply Hr].
Qed.

End Refinement.

Lemma registry_never_forgets_witness :
  mapHas "C2Cloyw3v28A"
    (inviteCodes
       (execM (runCalls fastEnv (mockProvider fastEnv)
                 [CallValidate "C2Cloyw3v28A"; CallRequest "x@y.z" None])
          (execM (requestInviteCode fastEnv "a@b.c" None) emptyWorld))) = true.
Proof.
  apply (registry_never_forgets fastEnv (mockProvider fastEnv) _ _ _ "a@b.c").
  - apply (worldInv_request fastEnv), worldInv_empty.
  - vm_compute. reflexivity.
Defined.
