(* ===== verification/InviteTimed.v ===== *)
(** * InviteTimed: the abstract registry with a clock

    [InviteSpec.astep] says which replies and which writes a call may
    have; the times in its rules are bound by the rules, so it does not
    say when a request is limited or a code expired.  This file adds the
    clock.

    - [TState] is an abstract registry and the time.  [tstep] is its
      transition relation: a call begins at the time of the state before
      it and ends at the time of the state after it, and every time the
      rule of the call uses lies between the two, in the order in which
      [src/api/invite-service.js] reads the clock.
    - What the rules promise about time is proved of the rules alone
      ([tstep_cooldown], [tstep_expiry]): a request that ends within five
      minutes of the last one is refused, a request that begins five
      minutes after it is granted; a code is redeemed by a call that ends
      before its expiry and refused by one that begins after it.
    - [tabs] abstracts a [World] to the registry and the next reading of
      the clock.  [handle_timed] is the simulation: with a clock that
      does not run backwards, every call of the service is a step of the
      timed registry.  [service_refines_timed] extends it to sequences
      of calls, and [tsteps_asteps] forgets the clock again. *)

From stdpp Require Import gmap strings list.
From Stdlib Require Import ZArith.
From Stdlib.Strings Require Import Byte Ascii.
From S2P Require Import Prelude JsString Encoding Regex Runtime JsMap.
From S2P Require Import InviteService InviteLemmas InviteCode InviteInvariant.
From S2P Require Import InviteProps InviteSpec.

#[local] Open Scope c2c_scope.
#[local] Open Scope Z_scope.

(** ** The timed registry *)

Record TState : Type := mkTState {
  registry : AState;
  clockNow : Z
}.

Inductive tstep : TState -> Call -> Reply -> TState -> Prop :=
| TInvalid s email name hi :
    isValidEmail email = false -> clockNow s <= hi ->
    tstep s (CallRequest email name)
      (ReplyRequest (RequestError msgInvalidEmail)) (mkTState (registry s) hi)
| TLimited s email name r t hi :
    isValidEmail email = true ->
    arequests (registry s) !! email = Some r ->
    clockNow s <= t -> t <= hi -> t - timestamp r < cooldownMs ->
    tstep s (CallRequest email name)
      (ReplyRequest (RequestError msgRateLimited)) (mkTState (registry s) hi)
| TIssue s email name code t expiry created stamp sent hi :
    isValidEmail email = true ->
    cooledDown (registry s) email t ->
    clockNow s <= t -> t <= expiry -> expiry <= created ->
    created <= stamp -> stamp <= hi ->
    String.length code = 12%nat -> isPrefixOf "C2C" code = true ->
    tstep s (CallRequest email name)
      (ReplyRequest (issueReply sent code))
      (mkTState
         (mkAState
            (<[code := mkInvite email (default "" name) created
                         (expiry + validityMs) false None]>
               (acodes (registry s)))
            (<[email := mkEmailRequest stamp code]> (arequests (registry s))))
         hi)
| TNotFound s code hi :
    acodes (registry s) !! code = None -> clockNow s <= hi ->
    tstep s (CallValidate code)
      (ReplyValidate (ValidateError msgNotFound)) (mkTState (registry s) hi)
| TUsed s code i hi :
    acodes (registry s) !! code = Some i -> used i = true ->
    clockNow s <= hi ->
    tstep s (CallValidate code)
      (ReplyValidate (ValidateError msgAlreadyUsed)) (mkTState (registry s) hi)
| TExpired s code i t hi :
    acodes (registry s) !! code = Some i -> used i = false ->
    clockNow s <= t -> t <= hi -> expiresAt i < t ->
    tstep s (CallValidate code)
      (ReplyValidate (ValidateError msgExpired)) (mkTState (registry s) hi)
| TRedeem s code i t usedNow hi :
    acodes (registry s) !! code = Some i -> used i = false ->
    clockNow s <= t -> t <= usedNow -> usedNow <= hi -> t <= expiresAt i ->
    tstep s (CallValidate code)
      (ReplyValidate (ValidateOk (email i) (userName i)))
      (mkTState
         (mkAState (<[code := markUsed usedNow i]> (acodes (registry s)))
            (arequests (registry s)))
         hi)
| TStats s st hi :
    clockNow s <= hi ->
    total st = Z.of_nat (size (acodes (registry s))) ->
    statsUsed st = Z.of_nat (countb used (arecords (registry s))) ->
    total st = statsUsed st + expired st + active st ->
    Z.of_nat (countb (expiredAt (clockNow s)) (arecords (registry s)))
      <= expired st ->
    expired st <= Z.of_nat (countb (expiredAt hi) (arecords (registry s))) ->
    0 <= active st ->
    tstep s CallStats (ReplyStats st) (mkTState (registry s) hi).

Inductive tsteps : TState -> list Call -> list Reply -> TState -> Prop :=
| TNil s : tsteps s [] [] s
| TCons s c r s1 cs rs s2 :
    tstep s c r s1 -> tsteps s1 cs rs s2 ->
    tsteps s (c :: cs) (r :: rs) s2.

(** ** What the rules promise *)

(** Time does not run backwards. *)
Lemma tstep_clock s c r s' : tstep s c r s' -> clockNow s <= clockNow s'.
Proof. destruct 1; cbn [clockNow]; lia. Qed.

Lemma tsteps_clock s cs rs s' : tsteps s cs rs s' -> clockNow s <= clockNow s'.
Proof.
  induction 1 as [|s c r s1 cs rs s2 H1 _ IH]; [lia|].
  apply tstep_clock in H1. lia.
Qed.

(** Without the clock, the rules are those of [InviteSpec]. *)
Lemma tstep_astep s c r s' :
  tstep s c r s' -> astep (registry s) c r (registry s').
Proof.
  destruct 1; cbn [registry].
  - by apply AInvalid.
  - by apply ALimited with r t.
  - by apply AIssue with t.
  - by apply ANotFound.
  - by apply AUsed with i.
  - by apply AExpired with i t.
  - by apply ARedeem with t.
  - apply AStats; [done|done|done|lia|done].
Qed.

Lemma tsteps_asteps s cs rs s' :
  tsteps s cs rs s' -> asteps (registry s) cs rs (registry s').
Proof.
  induction 1 as [|s c r s1 cs rs s2 H1 _ IH]; [apply ANil|].
  eapply ACons; [by apply tstep_astep|done].
Qed.

(** The cooldown: a request of an address whose last request is on
    record is refused when it ends within five minutes of that request,
    and granted when it begins five minutes after it or later. *)
Theorem tstep_cooldown s email name rep s' r :
  tstep s (CallRequest email name) rep s' ->
  isValidEmail email = true ->
  arequests (registry s) !! email = Some r ->
  (clockNow s' - timestamp r < cooldownMs ->
   rep = ReplyRequest (RequestError msgRateLimited)) /\
  (cooldownMs <= clockNow s - timestamp r ->
   exists sent code, rep = ReplyRequest (issueReply sent code)).
Proof.
  intros Hs Hv Hr. inversion Hs; subst; cbn [clockNow]; [congruence| |].
  - simplify_eq. split; [done|]. intros ?. lia.
  - match goal with H : cooledDown _ _ _ |- _ => specialize (H r Hr) end.
    split; [intros ?; lia|]. intros _. by eexists _, _.
Qed.

(** The expiry: an unused code is redeemed by a call that ends before its
    expiry time, and refused as expired by a call that begins after it. *)
Theorem tstep_expiry s code rep s' i :
  tstep s (CallValidate code) rep s' ->
  acodes (registry s) !! code = Some i -> used i = false ->
  (clockNow s' <= expiresAt i ->
   rep = ReplyValidate (ValidateOk (email i) (userName i))) /\
  (expiresAt i < clockNow s ->
   rep = ReplyValidate (ValidateError msgExpired)).
Proof.
  intros Hs Hi Hu. inversion Hs; subst; cbn [clockNow];
    [congruence|congruence| |]; simplify_eq.
  - split; [intros ?; lia|done].
  - split; [done|intros ?; lia].
Qed.

(** ** The simulation *)

Section Timed.
Context (env : Env) (P : EmailProvider).
Hypothesis Hmono : clockMonotone env.

(** The registry of a [World], at the next reading of its clock. *)
Definition tabs (w : World) : TState :=
  mkTState (abs w) (clock env (ticks w)).

(** A state of the timed registry from the two maps of one world and the
    clock of another. *)
Lemma tabs_ext w w' :
  inviteCodes w' = inviteCodes w -> emailRequests w' = emailRequests w ->
  tabs w' = mkTState (abs w) (clock env (ticks w')).
Proof. intros Hc Hr. unfold tabs. by rewrite (abs_ext _ _ Hc Hr). Qed.

(** The readings of a call lie between the time at which it begins and
    the time at which it ends. *)
Lemma reading_from w k : clock env (ticks w) <= readAt env w k.
Proof. apply Hmono. lia. Qed.

Lemma readings_ordered w j k : (j <= k)%nat -> readAt env w j <= readAt env w k.
Proof. intros H. apply Hmono. lia. Qed.

Lemma reading_before w k n :
  (k + ticks w <= n)%nat -> readAt env w k <= clock env n.
Proof. intros H. by apply Hmono. Qed.

Lemma validate_timed code w :
  tstep (tabs w) (CallValidate code)
    (ReplyValidate (evalM (validateInviteCode env code) w))
    (tabs (execM (validateInviteCode env code) w)).
Proof.
  unfold evalM, execM.
  destruct (validateP env code w) as [H|i H Hu|i H Hu He|i H Hu He];
    cbn [fst snd]; rewrite <- acodes_lookup in H.
  - by apply (TNotFound (tabs w)).
  - by apply (TUsed (tabs w)) with i.
  - apply (TExpired (tabs w)) with i (readAt env w 0);
      [done|done|apply reading_from|apply reading_before; cbn; lia|done].
  - unfold tabs at 2. rewrite abs_redeemed.
    apply (TRedeem (tabs w)) with (readAt env w 0);
      [done|done|apply reading_from|apply readings_ordered; lia
      |apply reading_before; cbn; lia|done].
Qed.

(** A granted request: the four readings of the record and the entry, in
    the order of lines 163-174, after the reading [t] of the cooldown. *)
Lemma issue_timed email name k sent t n w :
  isValidEmail email = true ->
  cooledDown (abs w) email t ->
  clock env (ticks w) <= t -> t <= readAt env w (k + 1) ->
  (k + 4 + ticks w <= n)%nat ->
  tstep (tabs w) (CallRequest email name)
    (ReplyRequest (issueReply sent (issuedCode env w k)))
    (mkTState (abs (issued env email (default "" name) k w)) (clock env n)).
Proof.
  intros Hv Hc Ht Hk Hn. rewrite abs_issued.
  apply (TIssue (tabs w)) with t; try done.
  - apply readings_ordered. lia.
  - apply readings_ordered. lia.
  - apply reading_before. lia.
  - by apply length_inviteCodeOf.
Qed.

Lemma request_timed email name w :
  tstep (tabs w) (CallRequest email name)
    (ReplyRequest (evalM (requestInviteCodeWith env P email name) w))
    (tabs (execM (requestInviteCodeWith env P email name) w)).
Proof.
  destruct (request_exec env P email name w) as (Hc & Hr & Hk).
  rewrite (tabs_ext _ _ Hc Hr). unfold evalM.
  pose proof (prepareP env email (default "" name) w) as Hp.
  destruct (requestInviteCodePrepare env email (default "" name) w)
    as [[r|code] w'] eqn:E; cbn [snd] in *.
  - rewrite (request_early env _ _ _ _ _ _ E). cbn [fst snd].
    inv Hp; [eapply TInvalid; [done|by apply Hmono]|].
    eapply TLimited with (r := r0) (t := readAt env w 0); [done| | | |done].
    + by rewrite <- H2, <- arequests_lookup.
    + apply reading_from.
    + apply reading_before. cbn in Hk. lia.
  - rewrite (request_sent env _ _ _ _ _ _ E). cbn [fst].
    change (requestInviteCodeFinish code ?x)
      with (issueReply (success x) code).
    inv Hp; cbn [issued ticks] in Hk.
    + apply issue_timed with (clock env (ticks w));
        [done| |done|apply reading_from|done].
      intros r'. rewrite arequests_lookup. congruence.
    + apply issue_timed with (readAt env w 0);
        [done| |apply reading_from|apply readings_ordered; lia|done].
      intros r'. rewrite arequests_lookup. intros; simplify_eq. done.
Qed.

Lemma stats_timed w :
  mapWf (inviteCodes w) ->
  tstep (tabs w) CallStats (ReplyStats (evalM (getInviteStats env) w))
    (tabs (execM (getInviteStats env) w)).
Proof.
  intros Hwf. rewrite getInviteStats_exec, getInviteStats_eval.
  pose proof (countM_expired_used env (mapValues (inviteCodes w)) w) as Hle.
  pose proof (countM_expired_bounds env (mapValues (inviteCodes w)) w Hmono)
    as [Hlo Hhi].
  apply (TStats (tabs w)); cbn [total statsUsed expired active registry tabs
                                clockNow advance ticks acodes abs].
  - apply Hmono. lia.
  - rewrite absMap_mapSize by done. unfold mapSize, mapValues.
    by rewrite length_fmap.
  - by rewrite (arecords_abs w Hwf).
  - lia.
  - rewrite (arecords_abs w Hwf).
    change (clock env (ticks w)) with (readAt env w 0). lia.
  - rewrite (arecords_abs w Hwf). unfold mapSize, mapValues in *.
    rewrite length_fmap in Hhi. unfold readAt in Hhi. lia.
  - unfold mapValues in *. rewrite length_fmap in *. lia.
Qed.

Lemma handle_timed c w :
  worldInv w ->
  tstep (tabs w) c (evalM (handle env P c) w) (tabs (execM (handle env P c) w)).
Proof.
  intros Hw. destruct c as [email name|code|]; unfold handle;
    rewrite evalM_bind, execM_bind.
  - apply request_timed.
  - apply validate_timed.
  - apply stats_timed, Hw.
Qed.

Lemma runCalls_timed cs w :
  worldInv w ->
  tsteps (tabs w) cs (evalM (runCalls env P cs) w)
    (tabs (execM (runCalls env P cs) w)).
Proof.
  revert w. induction cs as [|c cs IH]; intros w Hw; [apply TNil|].
  rewrite runCalls_cons_exec, runCalls_cons_eval.
  eapply TCons; [by apply handle_timed|].
  by apply IH, worldInv_handle.
Qed.

End Timed.

(** C19: with a clock that does not run backwards, every run of the
    service from the empty registry, with any mail provider, is a run of
    the timed registry: each call begins at the reading of the clock it
    finds and ends at the reading it leaves, the replies are those the
    timed rules allow, and the maps at the end are those the rules
    produce.  So the cooldown and the expiry of the service are those of
    [tstep_cooldown] and [tstep_expiry]. *)
Theorem service_refines_timed env (P : EmailProvider) cs :
  clockMonotone env ->
  tsteps (mkTState (mkAState ∅ ∅) (clock env 0)) cs
    (evalM (runCalls env P cs) emptyWorld)
    (tabs env (execM (runCalls env P cs) emptyWorld)).
Proof.
  intros Hm. apply (runCalls_timed env P Hm cs emptyWorld), worldInv_empty.
Qed.

(** The cooldown of the service, from the rules: a request that the
    clock shows to end within five minutes of the requester's last one is
    refused, and one that the clock shows to begin five minutes after it
    is granted. *)
Corollary service_cooldown_window env (P : EmailProvider) email name r w :
  clockMonotone env -> worldInv w ->
  mapGet email (emailRequests w) = Some r ->
  let reply := evalM (requestInviteCodeWith env P email name) w in
  let w' := execM (requestInviteCodeWith env P email name) w in
  (clock env (ticks w') - timestamp r < cooldownMs ->
   reply = RequestError msgRateLimited) /\
  (cooldownMs <= clock env (ticks w) - timestamp r ->
   exists sent code, reply = issueReply sent code).
Proof.
  intros Hm Hw Hr reply w'.
  destruct (inv_request _ Hw _ _ Hr) as [Hv _].
  destruct (tstep_cooldown _ _ _ _ _ r (request_timed env P Hm email name w) Hv)
    as [H1 H2]; [by cbn [tabs registry]; rewrite arequests_lookup|].
  split.
  - intros Ht. specialize (H1 Ht). by injection H1.
  - intros Ht. destruct (H2 Ht) as (sent & code & E).
    exists sent, code. by injection E.
Qed.

(** The expiry of the service, from the rules. *)
Corollary service_expiry_window env code i w :
  clockMonotone env ->
  mapGet code (inviteCodes w) = Some i -> used i = false ->
  let reply := evalM (validateInviteCode env code) w in
  let w' := execM (validateInviteCode env code) w in
  (clock env (ticks w') <= expiresAt i ->
   reply = ValidateOk (email i) (userName i)) /\
  (expiresAt i < clock env (ticks w) -> reply = ValidateError msgExpired).
Proof.
  intros Hm Hi Hu reply w'.
  destruct (tstep_expiry _ _ _ _ i (validate_timed env Hm code w))
    as [H1 H2]; [by cbn [tabs registry]; rewrite acodes_lookup|done|].
  split; intros Ht; [specialize (H1 Ht); by injection H1|].
  specialize (H2 Ht). by injection H2.
Qed.

(** ** Worked example *)

Lemma service_refines_timed_witness :
  tsteps (mkTState (mkAState ∅ ∅) (clock fastEnv 0))
    [CallRequest "a@b.c" None; CallRequest "a@b.c" None]
    (evalM (runCalls fastEnv (mockProvider fastEnv)
              [CallRequest "a@b.c" None; CallRequest "a@b.c" None])
       emptyWorld)
    (tabs fastEnv
       (execM (runCalls fastEnv (mockProvider fastEnv)
                 [CallRequest "a@b.c" None; CallRequest "a@b.c" None])
          emptyWorld)).
Proof.
  apply (service_refines_timed fastEnv (mockProvider fastEnv)).
  apply tickEnv_monotone. lia.
Defined.
