(* ===== verification/Server.v ===== *)
(** * Server: the HTTP front of the registry, [src/api/server.js]

    An express application: [cors], [express.json()], a logging
    middleware, four routes, an error handler and a catch-all.  [serve]
    is what the application does with one request that reaches the body
    parser: the status and the JSON body it answers with, and the new
    state of the registry.

    ** Model

    - A request is its method, its path and its body.  The body is what
      [express.json()] leaves in [req.body]: an object, of which the model
      keeps the fields whose values are strings ([BodyFields]; other JSON
      values in [email], [userName] or [code] are outside the model), or a
      parse failure ([BodyMalformed]), which express hands to the error
      handler of lines 110-116 before any route or middleware below it
      runs.
    - Routes match as express matches them with its default settings: the
      case of the path is ignored and so is one trailing [/], and a
      [HEAD] request is answered by the handler of [app.get], without
      the body.
    - [serve] is the application from its body parser on (lines 20-123).
      [application] puts the middleware of lines 16-19 before it: of what
      [cors] does the model keeps that it answers a preflight request
      ([OPTIONS]) itself, with status 204 and no body, so that such a
      request reaches neither the body parser nor the logger.  The
      headers it adds to the other answers are not modelled.
    - The logging middleware of lines 23-26 reads the clock once for
      every request that reaches it; the text it prints is not modelled,
      the reading is.  [toISOString] is a parameter.
    - The [catch] blocks of the handlers guard calls that do not throw on
      the modelled inputs; [internalError] is what they would answer. *)

From stdpp Require Import gmap strings list.
From Stdlib Require Import ZArith.
From Stdlib.Strings Require Import Byte Ascii.
From S2P Require Import Prelude JsString Encoding Regex Runtime JsMap JsValue.
From S2P Require Import InviteService.

#[local] Open Scope c2c_scope.
#[local] Open Scope Z_scope.

(** ** Messages *)

(** The methods the application tells apart; [OtherMethod] is [PUT],
    [DELETE] and the rest, for which no route is registered. *)
Inductive Method : Type := GET | POST | HEAD | OPTIONS | OtherMethod.

Inductive Body : Type :=
| BodyMalformed
| BodyFields (fields : list (string * string)).

Record Request : Type := mkRequest {
  method : Method;
  path : string;
  body : Body
}.

Record Response : Type := mkResponse {
  status : Z;
  json : Json
}.

(** What leaves the server: an answer with its body, or a status alone
    (the answer to [HEAD], the answer of [cors] to a preflight
    request). *)
Inductive Sent : Type :=
| WithBody (r : Response)
| StatusOnly (status : Z).

Definition sentStatus (x : Sent) : Z :=
  match x with WithBody r => status r | StatusOnly k => k end.

Definition sentBody (x : Sent) : option Json :=
  match x with WithBody r => Some (json r) | StatusOnly _ => None end.

(** The answer of a handler as it leaves: without its body when the
    request was a [HEAD]. *)
Definition sentOf (m : Method) (r : Response) : Sent :=
  match m with
  | HEAD => StatusOnly (status r)
  | _ => WithBody r
  end.

(** [const { k } = req.body]: the last binding of [k]. *)
Fixpoint bodyField (k : string) (fields : list (string * string))
    : option string :=
  match fields with
  | [] => None
  | (k', v) :: rest =>
      match bodyField k rest with
      | Some v' => Some v'
      | None => if String.eqb k k' then Some v else None
      end
  end.

(** [!x] for a field that is a string or [undefined]. *)
Definition missing (x : option string) : bool :=
  match x with
  | None => true
  | Some s => negb (truthyString s)
  end.

(** ** The objects the service returns, as JSON *)

Definition requestJson (r : RequestResult) : Json :=
  match r with
  | RequestOk message code =>
      JObj [("success", JBool true); ("message", JStr message);
            ("inviteCode", JStr code)]
  | RequestError error =>
      JObj [("success", JBool false); ("error", JStr error)]
  end.

Definition validateJson (r : ValidateResult) : Json :=
  match r with
  | ValidateOk email userName =>
      JObj [("valid", JBool true); ("email", JStr email);
            ("userName", JStr userName)]
  | ValidateError error =>
      JObj [("valid", JBool false); ("error", JStr error)]
  end.

Definition statsJson (s : Stats) : Json :=
  JObj [("total", JNum (total s)); ("used", JNum (statsUsed s));
        ("expired", JNum (expired s)); ("active", JNum (active s))].

(** [result.success] (line 54). *)
Definition requestSucceeded (r : RequestResult) : bool :=
  match r with RequestOk _ _ => true | RequestError _ => false end.

(** ** Routing *)

(** One trailing [/] removed, unless the path is [/]. *)
Definition stripSlash (p : string) : string :=
  let n := String.length p in
  if (1 <? Z.of_nat n) && String.eqb (String.substring (n - 1) 1 p) "/"
  then String.substring 0 (n - 1) p else p.

(** [app.get(pattern, ...)] and [app.post(pattern, ...)] match [p]. *)
Definition routeMatches (pattern p : string) : bool :=
  String.eqb (toLowerCase (stripSlash p)) (toLowerCase pattern).

Section Server.
Context (env : Env) (P : EmailProvider) (toISOString : Z -> string).

(** The error handler (lines 110-116), and the [catch] of a handler. *)
Definition internalError : Response :=
  mkResponse 500
    (JObj [("success", JBool false); ("error", JStr "Internal server error")]).

(** The catch-all (lines 119-123). *)
Definition notFound : Response :=
  mkResponse 404 (JObj [("error", JStr "Endpoint not found")]).

(** [GET /api/health] (lines 29-35). *)
Definition healthHandler : M World Response :=
  let* now := Date_now env in
  ret (mkResponse 200
         (JObj [("status", JStr "healthy");
                ("timestamp", JStr (toISOString now));
                ("service", JStr "curry2cakes-api")])).

(** [POST /api/invite/request] (lines 38-67). *)
Definition inviteRequestHandler (fields : list (string * string))
    : M World Response :=
  let email := bodyField "email" fields in
  let userName := bodyField "userName" fields in
  if missing email then
    ret (mkResponse 400
           (JObj [("success", JBool false);
                  ("error", JStr "Email address is required")]))
  else
    let* result := requestInviteCodeWith env P (default "" email) userName in
    if requestSucceeded result then ret (mkResponse 200 (requestJson result))
    else ret (mkResponse 400 (requestJson result)).

(** [POST /api/invite/validate] (lines 70-93). *)
Definition inviteValidateHandler (fields : list (string * string))
    : M World Response :=
  let code := bodyField "code" fields in
  if missing code then
    ret (mkResponse 400
           (JObj [("valid", JBool false);
                  ("error", JStr "Invite code is required")]))
  else
    let* result := validateInviteCode env (default "" code) in
    ret (mkResponse 200 (validateJson result)).

(** [GET /api/admin/stats] (lines 96-107). *)
Definition statsHandler : M World Response :=
  let* stats := getInviteStats env in
  ret (mkResponse 200 (statsJson stats)).

(** The routes, in the order they are registered (lines 29-123).  A
    route of [app.get] takes [HEAD] requests too. *)
Definition route (m : Method) (p : string) (fields : list (string * string))
    : M World Response :=
  match m with
  | GET | HEAD =>
      if routeMatches "/api/health" p then healthHandler
      else if routeMatches "/api/admin/stats" p then statsHandler
      else ret notFound
  | POST =>
      if routeMatches "/api/invite/request" p then inviteRequestHandler fields
      else if routeMatches "/api/invite/validate" p
      then inviteValidateHandler fields
      else ret notFound
  | OPTIONS | OtherMethod => ret notFound
  end.

(** The application from the body parser on: body parser, logger, routes
    (lines 20-123). *)
Definition serve (req : Request) : M World Response :=
  match body req with
  | BodyMalformed => ret internalError
  | BodyFields fields =>
      let* _ := Date_now env in
      route (method req) (path req) fields
  end.

(** The application (lines 16-123): [cors] ends a preflight request, and
    the answer to a [HEAD] request leaves without its body. *)
Definition application (req : Request) : M World Sent :=
  match method req with
  | OPTIONS => ret (StatusOnly 204)
  | m => let* r := serve req in ret (sentOf m r)
  end.

(** A sequence of requests, served one after the other. *)
Fixpoint serveAll (reqs : list Request) : M World (list Response) :=
  match reqs with
  | [] => ret []
  | r :: rest =>
      let* a := serve r in
      let* bs := serveAll rest in
      ret (a :: bs)
  end.

End Server.
