(* ===== verification/ServerProps.v ===== *)
(** * ServerProps: what the HTTP front adds to the registry

    [callOf] says which call of the service, if any, a request amounts to,
    and [replyJson] how the answer of the service is sent.  [serve] is
    then the service behind one reading of the clock (the logger's):
    [serve_call] and [serve_no_call] are the two halves of that statement.
    The invariant of the registry and the refinement of its specification
    carry over to sequences of requests.  [application] adds the
    preflight answer of [cors] ([application_preflight]) and the answer
    without body to a [HEAD] request ([application_head]); neither
    changes what a request does to the registry ([application_call],
    [application_no_call]). *)

From stdpp Require Import gmap strings list.
From Stdlib Require Import ZArith.
From Stdlib.Strings Require Import Byte Ascii.
From S2P Require Import Prelude JsString Encoding Regex Runtime JsMap JsValue.
From S2P Require Import InviteService InviteLemmas InviteCode InviteInvariant.
From S2P Require Import InviteProps Server.

#[local] Open Scope c2c_scope.
#[local] Open Scope Z_scope.

(** The call of the service that a request leads to. *)
Definition callOf (req : Request) : option Call :=
  match body req, method req with
  | BodyFields fields, POST =>
      if routeMatches "/api/invite/request" (path req) then
        let email := bodyField "email" fields in
        if missing email then None
        else Some (CallRequest (default "" email) (bodyField "userName" fields))
      else if routeMatches "/api/invite/validate" (path req) then
        let code := bodyField "code" fields in
        if missing code then None else Some (CallValidate (default "" code))
      else None
  | BodyFields _, (GET | HEAD) =>
      if routeMatches "/api/health" (path req) then None
      else if routeMatches "/api/admin/stats" (path req) then Some CallStats
      else None
  | _, _ => None
  end.

(** How a reply of the service is sent. *)
Definition replyJson (r : Reply) : Response :=
  match r with
  | ReplyRequest r =>
      mkResponse (if requestSucceeded r then 200 else 400) (requestJson r)
  | ReplyValidate r => mkResponse 200 (validateJson r)
  | ReplyStats s => mkResponse 200 (statsJson s)
  end.

Section ServerProps.
Context (env : Env) (P : EmailProvider) (toISOString : Z -> string).

Lemma inviteRequestHandler_run fields w :
  missing (bodyField "email" fields) = false ->
  let c := CallRequest (default "" (bodyField "email" fields))
             (bodyField "userName" fields) in
  inviteRequestHandler env P fields w =
  (replyJson (evalM (handle env P c) w), execM (handle env P c) w).
Proof.
  intros Hm c. unfold inviteRequestHandler. cbv zeta. rewrite Hm.
  rewrite run_bind, handle_eval, handle_exec. unfold c, replyJson.
  by destruct (requestSucceeded _).
Qed.

Lemma inviteValidateHandler_run fields w :
  missing (bodyField "code" fields) = false ->
  let c := CallValidate (default "" (bodyField "code" fields)) in
  inviteValidateHandler env fields w =
  (replyJson (evalM (handle env P c) w), execM (handle env P c) w).
Proof.
  intros Hm c. unfold inviteValidateHandler. cbv zeta. rewrite Hm.
  by rewrite run_bind, handle_eval, handle_exec.
Qed.

Lemma statsHandler_run w :
  statsHandler env w =
  (replyJson (evalM (handle env P CallStats) w),
   execM (handle env P CallStats) w).
Proof.
  unfold statsHandler. by rewrite run_bind, handle_eval, handle_exec.
Qed.

(** A request that amounts to a call: the logger reads the clock, the
    service runs, its reply is sent. *)
Lemma serve_call req c w :
  callOf req = Some c ->
  serve env P toISOString req w =
  (replyJson (evalM (handle env P c) (advance 1 0 w)),
   execM (handle env P c) (advance 1 0 w)).
Proof.
  destruct req as [m p [|fields]]; [done|]. unfold callOf, serve.
  cbn [body method path]. rewrite run_bind.
  change (execM (Date_now env) w) with (advance 1 0 w).
  destruct m; try done; unfold route.
  - destruct (routeMatches "/api/health" p); [done|].
    destruct (routeMatches "/api/admin/stats" p); [|done].
    intros [= <-]. apply statsHandler_run.
  - destruct (routeMatches "/api/invite/request" p).
    { cbv zeta. destruct (missing (bodyField "email" fields)) eqn:Hm; [done|].
      intros [= <-]. by apply inviteRequestHandler_run. }
    destruct (routeMatches "/api/invite/validate" p); [|done].
    cbv zeta. destruct (missing (bodyField "code" fields)) eqn:Hm; [done|].
    intros [= <-]. by apply inviteValidateHandler_run.
  - destruct (routeMatches "/api/health" p); [done|].
    destruct (routeMatches "/api/admin/stats" p); [|done].
    intros [= <-]. apply statsHandler_run.
Qed.

(** A request that amounts to no call writes to neither map: it reads the
    clock at most twice (the logger, and the health report). *)
Lemma serve_no_call req w :
  callOf req = None ->
  exists k, (k <= 2)%nat /\ execM (serve env P toISOString req) w = advance k 0 w.
Proof.
  destruct req as [m p [|fields]].
  { intros _. exists 0%nat. split; [lia|by rewrite advance_0]. }
  unfold callOf, serve. cbn [body method path]. rewrite execM_bind.
  change (execM (Date_now env) w) with (advance 1 0 w).
  assert (H1 : exists k, (k <= 2)%nat /\ advance 1 0 w = advance k 0 w)
    by (exists 1%nat; split; [lia|done]).
  assert (Hget :
    (if routeMatches "/api/health" p then None
     else if routeMatches "/api/admin/stats" p then Some CallStats else None)
      = None ->
    exists k, (k <= 2)%nat /\
      execM (if routeMatches "/api/health" p then healthHandler env toISOString
             else if routeMatches "/api/admin/stats" p then statsHandler env
             else ret notFound) (advance 1 0 w) = advance k 0 w).
  { destruct (routeMatches "/api/health" p).
    { intros _. exists 2%nat. split; [lia|done]. }
    by destruct (routeMatches "/api/admin/stats" p). }
  destruct m; unfold route; try done.
  unfold inviteRequestHandler, inviteValidateHandler. cbv zeta.
  destruct (routeMatches "/api/invite/request" p).
  { by destruct (missing (bodyField "email" fields)). }
  destruct (routeMatches "/api/invite/validate" p); [|done].
  by destruct (missing (bodyField "code" fields)).
Qed.

(** C14: the application is the service behind the logger: a request that
    carries a call is answered by the service, run after one reading of the
    clock, with the service's reply as JSON and a status of 200 (or 400 for
    a refused invite request); any other request leaves both maps as they
    are and reads the clock at most twice. *)
Theorem serve_refines_service req w :
  match callOf req with
  | Some c =>
      serve env P toISOString req w =
      (replyJson (evalM (handle env P c) (advance 1 0 w)),
       execM (handle env P c) (advance 1 0 w))
  | None =>
      exists k, (k <= 2)%nat /\
        execM (serve env P toISOString req) w = advance k 0 w
  end.
Proof.
  destruct (callOf req) eqn:E; [by apply serve_call|by apply serve_no_call].
Qed.

(** ** The middleware before the body parser *)

(** A preflight request is answered by [cors]: the registry and its
    clock are as they were. *)
Lemma application_preflight req w :
  method req = OPTIONS ->
  application env P toISOString req w = (StatusOnly 204, w).
Proof. unfold application. by intros ->. Qed.

(** Every other request is served, and answered with what the handler
    sent. *)
Lemma application_served req w :
  method req <> OPTIONS ->
  application env P toISOString req w =
  (sentOf (method req) (evalM (serve env P toISOString req) w),
   execM (serve env P toISOString req) w).
Proof.
  intros Hm. unfold application.
  by destruct (method req) eqn:E; try done; rewrite run_bind.
Qed.

(** A [HEAD] request is a [GET] request whose answer leaves without its
    body: the registry cannot tell them apart. *)
Lemma application_head p b w :
  execM (application env P toISOString (mkRequest HEAD p b)) w =
  execM (application env P toISOString (mkRequest GET p b)) w /\
  sentStatus (evalM (application env P toISOString (mkRequest HEAD p b)) w) =
  sentStatus (evalM (application env P toISOString (mkRequest GET p b)) w) /\
  sentBody (evalM (application env P toISOString (mkRequest HEAD p b)) w) =
  None.
Proof.
  unfold evalM, execM.
  rewrite !application_served by done. cbn [method fst snd sentOf].
  unfold evalM, execM, serve. cbn [body method path]. by destruct b.
Qed.

Lemma callOf_preflight req : method req = OPTIONS -> callOf req = None.
Proof. unfold callOf. intros ->. by destruct (body req). Qed.

(** The state after a request, whatever its method. *)
Lemma application_call req c w :
  callOf req = Some c ->
  execM (application env P toISOString req) w =
  execM (handle env P c) (advance 1 0 w).
Proof.
  intros Hc. unfold execM at 1. rewrite application_served.
  - unfold execM at 1. by rewrite (serve_call _ _ _ Hc).
  - intros Hm. by rewrite (callOf_preflight _ Hm) in Hc.
Qed.

(** The answer to a request that carries a call. *)
Lemma application_answer req c w :
  callOf req = Some c ->
  evalM (application env P toISOString req) w =
  sentOf (method req) (replyJson (evalM (handle env P c) (advance 1 0 w))).
Proof.
  intros Hc. unfold evalM at 1. rewrite application_served.
  - unfold evalM at 1. by rewrite (serve_call _ _ _ Hc).
  - intros Hm. by rewrite (callOf_preflight _ Hm) in Hc.
Qed.

Lemma application_no_call req w :
  callOf req = None ->
  exists k, (k <= 2)%nat /\
    execM (application env P toISOString req) w = advance k 0 w.
Proof.
  intros Hc.
  assert (method req = OPTIONS \/ method req <> OPTIONS) as [Hm|Hm]
    by (destruct (method req); auto).
  - exists 0%nat. unfold execM. rewrite application_preflight by done.
    split; [lia|by rewrite advance_0].
  - unfold execM at 1. rewrite application_served by done.
    by apply serve_no_call.
Qed.

Lemma worldInv_serve req w :
  worldInv w -> worldInv (execM (serve env P toISOString req) w).
Proof.
  intros Hw. destruct (callOf req) as [c|] eqn:E.
  - unfold execM at 1. rewrite (serve_call _ _ _ E). cbn [snd].
    by apply worldInv_handle, worldInv_advance.
  - destruct (serve_no_call _ w E) as (k & _ & ->). by apply worldInv_advance.
Qed.

(** Whatever requests are served, in whatever order, the registry
    satisfies its invariant afterwards. *)
Theorem serveAll_worldInv reqs :
  worldInv (execM (serveAll env P toISOString reqs) emptyWorld).
Proof.
  generalize worldInv_empty. generalize emptyWorld.
  induction reqs as [|r reqs IH]; intros w Hw; [done|].
  cbn [serveAll]. rewrite execM_bind, execM_bind.
  by apply IH, worldInv_serve.
Qed.

(** The validation route answers 200 whenever a code is sent, whether
    the code is accepted or refused; the body is the service's reply. *)
Theorem validate_route_status p fields w :
  routeMatches "/api/invite/validate" p = true ->
  missing (bodyField "code" fields) = false ->
  let r := evalM (serve env P toISOString (mkRequest POST p (BodyFields fields))) w in
  status r = 200 /\
  json r = validateJson
             (evalM (validateInviteCode env (default "" (bodyField "code" fields)))
                (advance 1 0 w)).
Proof.
  intros Hp Hm r.
  assert (E : callOf (mkRequest POST p (BodyFields fields)) =
              Some (CallValidate (default "" (bodyField "code" fields)))).
  { unfold callOf. cbn [body method path].
    destruct (routeMatches "/api/invite/request" p) eqn:Hr.
    - apply String.eqb_eq in Hr, Hp. rewrite Hr in Hp. discriminate Hp.
    - by rewrite Hp, Hm. }
  unfold r, evalM. rewrite (serve_call _ _ _ E), handle_eval. done.
Qed.

(** The request route answers 200 exactly when the service reports
    success, and 400 otherwise. *)
Theorem request_route_status p fields w :
  routeMatches "/api/invite/request" p = true ->
  missing (bodyField "email" fields) = false ->
  let r := evalM (serve env P toISOString (mkRequest POST p (BodyFields fields))) w in
  let result := evalM (requestInviteCodeWith env P
                         (default "" (bodyField "email" fields))
                         (bodyField "userName" fields)) (advance 1 0 w) in
  json r = requestJson result /\
  status r = (if requestSucceeded result then 200 else 400).
Proof.
  intros Hp Hm r result.
  assert (E : callOf (mkRequest POST p (BodyFields fields)) =
              Some (CallRequest (default "" (bodyField "email" fields))
                      (bodyField "userName" fields))).
  { unfold callOf. cbn [body method path]. by rewrite Hp, Hm. }
  unfold r, evalM. rewrite (serve_call _ _ _ E), handle_eval. done.
Qed.

End ServerProps.

(** ** Worked examples *)

Example routeMatches_insensitive :
  routeMatches "/api/health" "/API/Health/" = true /\
  routeMatches "/api/health" "/api/health//" = false /\
  routeMatches "/api/health" "/api/healthy" = false.
Proof. by vm_compute. Qed.

Lemma validate_route_status_witness :
  let r := evalM (serve fastEnv (mockProvider fastEnv) (toStringRadix 10)
                    (mkRequest POST "/api/invite/validate"
                       (BodyFields [("code", "NOPE")]))) emptyWorld in
  status r = 200 /\
  json r = JObj [("valid", JBool false); ("error", JStr msgNotFound)].
Proof.
  apply (validate_route_status fastEnv (mockProvider fastEnv)
           (toStringRadix 10) "/api/invite/validate" [("code", "NOPE")]
           emptyWorld); reflexivity.
Defined.

Lemma request_route_status_witness :
  let r := evalM (serve fastEnv (mockProvider fastEnv) (toStringRadix 10)
                    (mkRequest POST "/api/invite/request"
                       (BodyFields [("email", "not-an-address")]))) emptyWorld in
  json r = JObj [("success", JBool false); ("error", JStr msgInvalidEmail)] /\
  status r = 400.
Proof.
  apply (request_route_status fastEnv (mockProvider fastEnv)
           (toStringRadix 10) "/api/invite/request"
           [("email", "not-an-address")] emptyWorld); reflexivity.
Defined.
