(* ===== verification/Contentful.v ===== *)
(** * Contentful: the menu catalogue, [src/src/services/contentful.js]

    The module answers from a remote catalogue when one is configured and
    from six built-in items ([mockMenuItems]) otherwise, and whenever the
    remote call fails.  The functions that select, search and group the
    items are pure once the items are there; [Client] is the remote
    catalogue as the module sees it.

    ** Model

    - An item is the record [MenuItem]; [item.sys.id] is [sysId] and
      [item.fields.image.fields.file.url] is [imageUrl].  A price is kept in
      cents, which is exact for the prices of the catalogue.
    - [new Set(xs)] keeps the first occurrence of every element, in order
      ([newSet]); [Array.prototype.sort()] without a comparator orders
      strings by their code units ([leString]).
    - An [async] function that cannot fail is the function of its result;
      one that can is an [option] at the place where it is awaited.
    - [Intl.NumberFormat('en-US', {style: 'currency', currency: 'USD'})]
      prints a non-negative amount as [$], the dollars in groups of three,
      a point and two digits of cents ([formatPrice]).

    This file uses MathComp's [seq], [path] and [bigop]. *)

From HB Require Import structures.
From mathcomp Require Import boot.
From Stdlib Require Import String Ascii.
From S2P Require Import Prelude JsString.

Set Implicit Arguments.
Unset Strict Implicit.
Unset Printing Implicit Defensive.

#[local] Open Scope string_scope.
#[local] Open Scope seq_scope.

(** ** Strings as an [eqType], and their order *)

Lemma string_eqP : Equality.axiom String.eqb.
Proof.
  move=> x y; apply: (iffP idP) => [/String.eqb_eq //|->].
  exact: String.eqb_refl.
Qed.

HB.instance Definition _ := hasDecEq.Build string string_eqP.

Lemma ascii_eqP : Equality.axiom Ascii.eqb.
Proof.
  move=> x y; apply: (iffP idP) => [/Ascii.eqb_eq //|->].
  exact: Ascii.eqb_refl.
Qed.

HB.instance Definition _ := hasDecEq.Build ascii ascii_eqP.

(** The order of [Array.prototype.sort()] on strings: code unit by code
    unit, a proper prefix first. *)
Fixpoint leString (s t : string) : bool :=
  match s, t with
  | EmptyString, _ => true
  | String _ _, EmptyString => false
  | String a s', String b t' =>
      (nat_of_ascii a < nat_of_ascii b) || ((a == b) && leString s' t')
  end.

(** ** Data *)

Record MenuItem : Type := mkMenuItem {
  sysId : string;
  name : string;
  description : string;
  price : nat;
  category : string;
  imageUrl : option string;
  isLimitedAccess : bool;
  ingredients : seq string;
  spiceLevel : nat;
  preparationTime : nat;
  isVegetarian : bool;
  isGlutenFree : bool;
  calories : nat
}.

Definition tupleOfItem (i : MenuItem) :=
  (sysId i, name i, description i, price i, category i, imageUrl i,
   isLimitedAccess i, ingredients i, spiceLevel i, preparationTime i,
   isVegetarian i, isGlutenFree i, calories i).

Definition itemOfTuple t : MenuItem :=
  let: (a, b, c, d, e, f, g, h, i, j, k, l, m) := t in
  mkMenuItem a b c d e f g h i j k l m.

Lemma tupleOfItemK : cancel tupleOfItem itemOfTuple.
Proof. by case. Qed.

HB.instance Definition _ := Equality.copy MenuItem (can_type tupleOfItemK).

(** What a configured catalogue answers: [None] is a call that throws. *)
Record Remote : Type := mkRemote {
  getEntries : option (seq MenuItem);
  getEntry : string -> option MenuItem
}.

(** [contentfulClient] (lines 12-20): [null] unless both settings are
    given. *)
Definition Client : Type := option Remote.

(** [CONTENTFUL_CONFIG] (lines 5-9): the settings of the build, each with
    its default. *)
Record Config : Type := mkConfig {
  space : string;
  accessToken : string;
  host : string
}.

(** [setting || fallback], for a setting that may be undefined. *)
Definition settingOr (setting : option string) (fallback : string) : string :=
  match setting with
  | Some s => if truthyString s then s else fallback
  | None => fallback
  end.

Definition CONTENTFUL_CONFIG (spaceId token : option string) : Config :=
  mkConfig (settingOr spaceId "demo-space-id")
    (settingOr token "demo-access-token") "cdn.contentful.com".

(** The client of lines 12-20: it is created when neither setting is the
    default; [createClient] is [None] when it throws, which leaves
    [null]. *)
Definition contentfulClient (createClient : Config -> option Remote)
    (config : Config) : Client :=
  if (space config != "demo-space-id") &&
     (accessToken config != "demo-access-token")
  then createClient config else None.

(** A badge and a spice display (lines 280-287, 298-308). *)
Record Badge : Type := mkBadge { badgeText : string; badgeColor : string }.

Record SpiceDisplay : Type := mkSpiceDisplay {
  spiceText : string;
  peppers : nat;
  spiceColor : string
}.

(** ** The built-in items (lines 23-162) *)

Definition item1 : MenuItem :=
  {| sysId := "1";
     name := "Butter Chicken Curry";
     description :=
       "Rich and creamy tomato-based curry with tender chicken pieces, aromatic spices, and a hint of sweetness.";
     price := 1899;
     category := "Curry";
     imageUrl :=
       Some "https://images.unsplash.com/photo-1565557623262-b51c2513a641?w=400&h=300&fit=crop";
     isLimitedAccess := false;
     ingredients :=
       [:: "Chicken"; "Tomatoes"; "Cream"; "Onions"; "Garam Masala"; "Ginger"; "Garlic"];
     spiceLevel := 2;
     preparationTime := 25;
     isVegetarian := false;
     isGlutenFree := true;
     calories := 420 |}.

Definition item2 : MenuItem :=
  {| sysId := "2";
     name := "Lamb Rogan Josh";
     description :=
       "Aromatic Kashmiri curry with tender lamb pieces, traditional spices, and rich gravy.";
     price := 2499;
     category := "Curry";
     imageUrl :=
       Some "https://images.unsplash.com/photo-1585937421612-70a008356fbe?w=400&h=300&fit=crop";
     isLimitedAccess := false;
     ingredients :=
       [:: "Lamb"; "Yogurt"; "Onions"; "Kashmiri Chili"; "Cardamom"; "Cinnamon"; "Bay Leaves"];
     spiceLevel := 3;
     preparationTime := 45;
     isVegetarian := false;
     isGlutenFree := true;
     calories := 520 |}.

Definition item3 : MenuItem :=
  {| sysId := "3";
     name := "New York Cheesecake";
     description :=
       "Creamy, rich cheesecake with a buttery graham cracker crust and fresh berry compote.";
     price := 1299;
     category := "Dessert";
     imageUrl :=
       Some "https://images.unsplash.com/photo-1533134242443-d4fd215305ad?w=400&h=300&fit=crop";
     isLimitedAccess := true;
     ingredients :=
       [:: "Cream Cheese"; "Graham Crackers"; "Eggs"; "Sugar"; "Vanilla"; "Sour Cream"];
     spiceLevel := 0;
     preparationTime := 60;
     isVegetarian := true;
     isGlutenFree := false;
     calories := 380 |}.

Definition item4 : MenuItem :=
  {| sysId := "4";
     name := "Chocolate Decadence";
     description :=
       "Intensely rich chocolate cake with layers of dark chocolate ganache and fresh raspberries.";
     price := 1499;
     category := "Dessert";
     imageUrl :=
       Some "https://images.unsplash.com/photo-1578985545062-69928b1d9587?w=400&h=300&fit=crop";
     isLimitedAccess := false;
     ingredients :=
       [:: "Dark Chocolate"; "Butter"; "Eggs"; "Sugar"; "Flour"; "Raspberries"];
     spiceLevel := 0;
     preparationTime := 40;
     isVegetarian := true;
     isGlutenFree := false;
     calories := 450 |}.

Definition item5 : MenuItem :=
  {| sysId := "5";
     name := "Paneer Tikka Masala";
     description :=
       "Grilled cottage cheese cubes in a creamy tomato-based sauce with aromatic spices.";
     price := 1699;
     category := "Curry";
     imageUrl :=
       Some "https://images.unsplash.com/photo-1567188040759-fb8a883dc6d8?w=400&h=300&fit=crop";
     isLimitedAccess := false;
     ingredients :=
       [:: "Paneer"; "Tomatoes"; "Cream"; "Onions"; "Bell Peppers"; "Garam Masala"];
     spiceLevel := 2;
     preparationTime := 30;
     isVegetarian := true;
     isGlutenFree := true;
     calories := 350 |}.

Definition item6 : MenuItem :=
  {| sysId := "6";
     name := "Tiramisu";
     description :=
       "Classic Italian dessert with coffee-soaked ladyfingers and mascarpone cream.";
     price := 1199;
     category := "Dessert";
     imageUrl :=
       Some "https://images.unsplash.com/photo-1571877227200-a0d98ea607e9?w=400&h=300&fit=crop";
     isLimitedAccess := true;
     ingredients :=
       [:: "Mascarpone"; "Ladyfingers"; "Coffee"; "Cocoa"; "Eggs"; "Sugar"];
     spiceLevel := 0;
     preparationTime := 30;
     isVegetarian := true;
     isGlutenFree := false;
     calories := 320 |}.

Definition mockMenuItems : seq MenuItem :=
  [:: item1; item2; item3; item4; item5; item6].

(** ** Operations *)

(** [[...new Set(xs)]]. *)
Definition newSet (xs : seq string) : seq string :=
  foldl (fun acc x => if x \in acc then acc else rcons acc x) [::] xs.

(** [getMenuItems] (lines 167-184). *)
Definition getMenuItems (client : Client) : seq MenuItem :=
  match client with
  | None => mockMenuItems
  | Some remote =>
      match getEntries remote with
      | Some items => items
      | None => mockMenuItems
      end
  end.

(** The test of lines 192-194 and of [DynamicMenu.jsx], lines 73-75. *)
Definition sameCategory (c : string) (item : MenuItem) : bool :=
  toLowerCase (category item) == toLowerCase c.

(** [getMenuItemsByCategory] (lines 189-199). *)
Definition getMenuItemsByCategory (client : Client) (c : string)
    : seq MenuItem :=
  filter (sameCategory c) (getMenuItems client).

(** [mockMenuItems.find(item => item.sys.id === id)]. *)
Definition findMock (id : string) : option MenuItem :=
  ohead (filter (fun item => sysId item == id) mockMenuItems).

(** [getMenuItem] (lines 204-216). *)
Definition getMenuItem (client : Client) (id : string) : option MenuItem :=
  match client with
  | None => findMock id
  | Some remote =>
      match getEntry remote id with
      | Some item => Some item
      | None => findMock id
      end
  end.

(** [getMenuCategories] (lines 221-230). *)
Definition getMenuCategories (client : Client) : seq string :=
  sort leString (newSet (map category (getMenuItems client))).

(** The predicate of lines 240-246, [searchTerm] in lower case. *)
Definition matchesTerm (searchTerm : string) (item : MenuItem) : bool :=
  [|| includes (toLowerCase (name item)) searchTerm,
      includes (toLowerCase (description item)) searchTerm
    | has (fun ingredient => includes (toLowerCase ingredient) searchTerm)
        (ingredients item)].

(** [searchMenuItems] (lines 235-251). *)
Definition searchMenuItems (client : Client) (query : string)
    : seq MenuItem :=
  let searchTerm := toLowerCase query in
  filter (matchesTerm searchTerm) (getMenuItems client).

(** [getFeaturedItems] (lines 256-264). *)
Definition getFeaturedItems (client : Client) : seq MenuItem :=
  filter isLimitedAccess (getMenuItems client).

(** The table of lines 280-287. *)
Definition spiceLevels (level : nat) : option SpiceDisplay :=
  match level with
  | 0 => Some (mkSpiceDisplay "Mild" 1 "text-green-600")
  | 1 => Some (mkSpiceDisplay "Mild" 1 "text-green-600")
  | 2 => Some (mkSpiceDisplay "Medium" 2 "text-yellow-600")
  | 3 => Some (mkSpiceDisplay "Hot" 3 "text-orange-600")
  | 4 => Some (mkSpiceDisplay "Very Hot" 4 "text-red-600")
  | 5 => Some (mkSpiceDisplay "Extreme" 5 "text-red-800")
  | _ => None
  end.

(** [getSpiceLevelDisplay] (lines 279-290): [spiceLevels[level] ||
    spiceLevels[0]]. *)
Definition getSpiceLevelDisplay (level : nat) : SpiceDisplay :=
  match spiceLevels level with
  | Some d => d
  | None => mkSpiceDisplay "Mild" 1 "text-green-600"
  end.

(** [getDietaryBadges] (lines 295-311). *)
Definition getDietaryBadges (item : MenuItem) : seq Badge :=
  (if isVegetarian item
   then [:: mkBadge "Vegetarian" "bg-green-100 text-green-800"] else [::])
  ++ (if isGlutenFree item
      then [:: mkBadge "Gluten-Free" "bg-blue-100 text-blue-800"] else [::])
  ++ (if isLimitedAccess item
      then [:: mkBadge "Limited Access" "bg-red-100 text-red-800"] else [::]).

(** A decimal digit. *)
Definition decimalDigit (d : nat) : ascii := ascii_of_nat (48 + d).

(** The decimal digits of [n], most significant first, with a comma before
    every group of three ([fuel] bounds the number of groups). *)
Fixpoint groupDigits (fuel n : nat) : string :=
  match fuel with
  | 0 => ""
  | fuel'.+1 =>
      if n < 10 then String (decimalDigit n) ""
      else if n < 100 then
        String (decimalDigit (n %/ 10)) (String (decimalDigit (n %% 10)) "")
      else if n < 1000 then
        String (decimalDigit (n %/ 100))
          (String (decimalDigit (n %/ 10 %% 10))
             (String (decimalDigit (n %% 10)) ""))
      else
        (groupDigits fuel' (n %/ 1000) ++
         String "," (String (decimalDigit (n %/ 100 %% 10))
           (String (decimalDigit (n %/ 10 %% 10))
              (String (decimalDigit (n %% 10)) ""))))%string
  end.

(** [formatPrice] (lines 269-274), on an amount in cents. *)
Definition formatPrice (cents : nat) : string :=
  ("$" ++ groupDigits cents.+1 (cents %/ 100) ++ "." ++
   String (decimalDigit (cents %/ 10 %% 10))
     (String (decimalDigit (cents %% 10)) ""))%string.
