(* ===== verification/ContentfulProps.v ===== *)
(** * ContentfulProps: what the catalogue functions return

    Properties of the functions of [Contentful]: the order used by
    [sort()] is a total order; [new Set] keeps one copy of each element;
    [getMenuCategories] is characterised by three properties;
    the selections by category add up to the catalogue; searching, the
    featured items and the lookup by identifier are filters with the
    expected members (the case of a query is immaterial except for
    U+00DF and U+00B5, [sharpS_query_differs]); the displays of spice level and dietary badges are
    tabulated.  The proofs are in SSReflect style, on MathComp's [seq],
    [path] ([sort], [sorted]) and [bigop]. *)

From HB Require Import structures.
From mathcomp Require Import boot.
From Stdlib Require Import String Ascii.
From S2P Require Import Prelude JsString Contentful.

Set Implicit Arguments.
Unset Strict Implicit.
Unset Printing Implicit Defensive.

#[local] Open Scope string_scope.
#[local] Open Scope seq_scope.

(** ** The order of strings *)

Lemma nat_of_ascii_inj : injective nat_of_ascii.
Proof. exact: (can_inj ascii_nat_embedding). Qed.

Lemma leString_refl : reflexive leString.
Proof. by elim=> [|a s IH] //=; rewrite eqxx IH orbT. Qed.

Lemma leString_total : total leString.
Proof.
  elim=> [|a s IH] [|b t] //=.
  case: (ltngtP (nat_of_ascii a) (nat_of_ascii b)) => [_|_|E] //=.
  - by rewrite orbT.
  - by rewrite (nat_of_ascii_inj E) eqxx /=.
Qed.

Lemma leString_anti : antisymmetric leString.
Proof.
  elim=> [|a s IH] [|b t] //=.
  case: (ltngtP (nat_of_ascii a) (nat_of_ascii b)) => [lt_ab|lt_ba|E] /=.
  - by rewrite eq_sym; case: eqP lt_ab => [->|//]; rewrite ltnn.
  - by case: eqP lt_ba => [->|//]; rewrite ltnn.
  - by rewrite (nat_of_ascii_inj E) eqxx /= => /IH ->.
Qed.

Lemma leString_trans : transitive leString.
Proof.
  move=> t s u; elim: s t u => [|a s IH] [|b t] [|c u] //=.
  case/orP=> [ab|/andP[/eqP -> st]]; case/orP=> [bc|/andP[/eqP <- tu]].
  - by rewrite (ltn_trans ab bc).
  - by rewrite ab.
  - by rewrite bc.
  - by rewrite eqxx (IH _ _ st tu) orbT.
Qed.

(** ** [new Set] *)

Lemma newSet_foldl (acc xs : seq string) :
  let r := foldl (fun acc x => if x \in acc then acc else rcons acc x) acc xs in
  (uniq acc -> uniq r) /\ (r =i acc ++ xs).
Proof.
  elim: xs acc => [|x xs IH] acc /=; first by rewrite cats0.
  case: ifP => Hx; case: (IH (if x \in acc then acc else rcons acc x)) => /=;
    rewrite Hx => Hu Hm; split.
  - exact: Hu.
  - move=> y; rewrite Hm !mem_cat inE.
    by case: (y =P x) => [->|//]; rewrite Hx.
  - by move=> Ha; apply: Hu; rewrite rcons_uniq Hx.
  - by move=> y; rewrite Hm -cats1 -catA.
Qed.

Lemma newSet_uniq xs : uniq (newSet xs).
Proof. by case: (newSet_foldl [::] xs) => H _; apply: H. Qed.

Lemma mem_newSet xs : newSet xs =i xs.
Proof. by case: (newSet_foldl [::] xs). Qed.

(** ** Filtering *)

Lemma subseq_filter_imp (T : eqType) (a b : pred T) (s : seq T) :
  (forall x, a x -> b x) -> subseq (filter a s) (filter b s).
Proof.
  move=> H; have ->: filter a s = filter a (filter b s).
    rewrite -filter_predI; apply: eq_filter => x /=.
    by case E: (a x) => //=; rewrite (H _ E).
  exact: filter_subseq.
Qed.

(** ** Categories *)

Section Catalogue.
Variable client : Client.

Lemma getMenuCategories_facts :
  let cs := getMenuCategories client in
  [/\ sorted leString cs, uniq cs & cs =i map category (getMenuItems client)].
Proof.
  rewrite /getMenuCategories /=; split.
  - exact: sort_sorted leString_total _.
  - by rewrite sort_uniq newSet_uniq.
  - by move=> c; rewrite mem_sort mem_newSet.
Qed.

(** C30: [getMenuCategories] is the one list that is sorted, free of
    duplicates, and has exactly the categories of the items as members. *)
Theorem getMenuCategories_characterised (r : seq string) :
  [/\ sorted leString r, uniq r & r =i map category (getMenuItems client)]
  <-> r = getMenuCategories client.
Proof.
  case: getMenuCategories_facts => Hs Hu Hm; split=> [[Hr Hur Hmr]|-> //].
  apply: (sorted_eq leString_trans leString_anti Hr Hs).
  by apply: uniq_perm => // c; rewrite Hmr Hm.
Qed.

(** ** Selection by category *)

Lemma mem_getMenuItemsByCategory c item :
  (item \in getMenuItemsByCategory client c) =
  sameCategory c item && (item \in getMenuItems client).
Proof. by rewrite mem_filter. Qed.

(** Every item is found under its own category. *)
Lemma own_category item :
  item \in getMenuItems client ->
  item \in getMenuItemsByCategory client (category item).
Proof. by rewrite mem_getMenuItemsByCategory /sameCategory eqxx. Qed.

(** The items of the categories add up to the items, when no two
    categories differ by case only. *)
Lemma sum_count_classes (T : Type) (f : T -> string) (cs : seq string)
    (s : seq T) :
  uniq cs -> {subset map f s <= cs} ->
  \sum_(c <- cs) count (fun x => f x == c) s = size s.
Proof.
  move=> Hu; elim: s => [|x s IH] Hs /=; first by rewrite big1_seq.
  have Hs' : {subset map f s <= cs}.
    by move=> c Hc; apply: Hs; rewrite inE Hc orbT.
  rewrite big_split /= (IH Hs').
  have ->: \sum_(i <- cs) (f x == i) = 1.
    have E : (fun i => f x == i) =1 pred1 (f x) by move=> i /=; rewrite eq_sym.
    rewrite -big_mkcond /= sum1_count (eq_count E).
    by rewrite count_uniq_mem // Hs //= mem_head.
  by rewrite add1n.
Qed.

(** The items of the categories add up to the items, when no two
    categories differ by case only. *)
Theorem categories_partition :
  {in map category (getMenuItems client) &, injective toLowerCase} ->
  \sum_(c <- getMenuCategories client)
     size (getMenuItemsByCategory client c) =
  size (getMenuItems client).
Proof.
  move=> Hinj; case: getMenuCategories_facts => _ Hu Hm.
  have Hsub : {subset map category (getMenuItems client)
                 <= getMenuCategories client} by move=> c; rewrite Hm.
  rewrite -(sum_count_classes Hu Hsub).
  rewrite !big_seq; apply: eq_bigr => c Hc.
  rewrite /getMenuItemsByCategory size_filter; apply: eq_in_count => x Hx.
  rewrite /sameCategory; apply/eqP/eqP => [|-> //].
  by apply: Hinj; rewrite ?map_f // -Hm.
Qed.

(** ** Search *)

Lemma matchesTerm_empty item : matchesTerm "" item.
Proof. by rewrite /matchesTerm includes_empty. Qed.

(** A term that occurs in another matches at least the same items. *)
Lemma matchesTerm_weaken t u item :
  includes u t -> matchesTerm u item -> matchesTerm t item.
Proof.
  move=> Hut; rewrite /matchesTerm.
  have H s : includes s u -> includes s t.
    by move=> Hs; apply: includes_trans Hs Hut.
  case/or3P=> [/H ->|/H ->|/hasP[i Hi /H Hit]]; rewrite ?orbT //.
  by apply/or3P/Or33/hasP; exists i.
Qed.

(** The items a search selects. *)
Lemma mem_searchMenuItems q item :
  (item \in searchMenuItems client q) =
  (item \in getMenuItems client) && matchesTerm (toLowerCase q) item.
Proof. by rewrite /searchMenuItems mem_filter andbC. Qed.

(** C32: searching is filtering by the lower case of the query: the
    result is the items that match it, in the order of the catalogue; the
    empty query selects every item; a query that contains another selects
    no more than it; and the upper case of a query selects what the
    query selects, when the query has neither U+00DF nor U+00B5, whose
    upper case has another lower case, nor U+00FF, whose upper case is
    not a text of the model. *)
Theorem searchMenuItems_spec q :
  [/\ subseq (searchMenuItems client q) (getMenuItems client),
      forall item,
        (item \in searchMenuItems client q) =
        (item \in getMenuItems client) && matchesTerm (toLowerCase q) item,
      searchMenuItems client "" = getMenuItems client,
      upperInRange q -> caseFolds q ->
        searchMenuItems client (toUpperCase q) = searchMenuItems client q
    & forall q', includes q' q ->
        subseq (searchMenuItems client q') (searchMenuItems client q)].
Proof.
  split.
  - exact: filter_subseq.
  - exact: mem_searchMenuItems.
  - by apply/all_filterP/allP => item _; exact: matchesTerm_empty.
  - by move=> _ Hq; rewrite /searchMenuItems toLowerCase_toUpperCase.
  - move=> q' Hq'; rewrite /searchMenuItems.
    have Hl : includes (toLowerCase q') (toLowerCase q).
      exact: includes_mapString.
    by apply: subseq_filter_imp => item; exact: matchesTerm_weaken.
Qed.

(** The query U+00DF is where the case matters: its upper case [SS]
    selects an item named [Mango Lassi], the query itself does not. *)
Example sharpS_query_differs :
  let lassi := "Mango Lassi" in
  includes (toLowerCase lassi) (toLowerCase (toUpperCase (String sharpS ""))) /\
  ~~ includes (toLowerCase lassi) (toLowerCase (String sharpS "")).
Proof. by split; vm_compute. Qed.

(** The featured items are the items with limited access, in the order of
    the catalogue. *)
Lemma getFeaturedItems_spec :
  [/\ subseq (getFeaturedItems client) (getMenuItems client),
      all isLimitedAccess (getFeaturedItems client)
    & forall item, item \in getMenuItems client -> isLimitedAccess item ->
        item \in getFeaturedItems client].
Proof.
  rewrite /getFeaturedItems; split; first exact: filter_subseq.
  - exact: filter_all.
  - by move=> item Hi Hl; rewrite mem_filter Hl.
Qed.

End Catalogue.

(** ** Lookup by identifier *)

Lemma findMock_some id item :
  findMock id = Some item -> sysId item = id /\ item \in mockMenuItems.
Proof.
  rewrite /findMock => H.
  have: item \in filter (fun item => sysId item == id) mockMenuItems.
    by case: (filter _ _) H => [//|x s] /= [->]; rewrite mem_head.
  by rewrite mem_filter => /andP[/eqP].
Qed.

Lemma uniq_mock_ids : uniq (map sysId mockMenuItems).
Proof. by []. Qed.

(** Without a catalogue, or when the catalogue fails, an item is looked
    up among the built-in ones: each of them is found under its own
    identifier, and what is found has the identifier that was asked for. *)
Theorem getMenuItem_fallback client id :
  (if client is Some remote then getEntry remote id = None else True) ->
  (forall item, getMenuItem client id = Some item ->
     sysId item = id /\ item \in mockMenuItems) /\
  (forall item, item \in mockMenuItems -> sysId item = id ->
     getMenuItem client id = Some item).
Proof.
  move=> Hc.
  have ->: getMenuItem client id = findMock id.
    by case: client Hc => [remote|] //= ->.
  split; first exact: findMock_some.
  move=> item; rewrite !inE.
  repeat (case/orP; [move/eqP-> => <-; reflexivity|]).
  move/eqP-> => <-; reflexivity.
Qed.

Lemma getMenuItem_fallback_witness :
  getMenuItem (Some (mkRemote None (fun _ => None))) "3" = Some item3.
Proof.
  have [//|_ H] :=
    @getMenuItem_fallback (Some (mkRemote None (fun _ => None))) "3".
  exact: H.
Defined.

(** ** Display *)

(** The number of peppers shown is the spice level, but at least one, for
    levels up to five; above five the display falls back to that of level
    zero. *)
Lemma getSpiceLevelDisplay_peppers level :
  peppers (getSpiceLevelDisplay level) =
  if level <= 5 then maxn 1 level else 1.
Proof. by do 6![case: level => [//|level]]. Qed.

(** The badges are those of the flags that are set, in the order
    vegetarian, gluten-free, limited access. *)
Lemma getDietaryBadges_spec item :
  map badgeText (getDietaryBadges item) =
  [seq t.2 | t <- [:: (isVegetarian item, "Vegetarian");
                      (isGlutenFree item, "Gluten-Free");
                      (isLimitedAccess item, "Limited Access")] & t.1].
Proof.
  by rewrite /getDietaryBadges;
     case: isVegetarian; case: isGlutenFree; case: isLimitedAccess.
Qed.

(** ** Worked examples *)

Example formatPrice_examples :
  [/\ formatPrice 1899 = "$18.99", formatPrice 5 = "$0.05",
      formatPrice 100000 = "$1,000.00"
    & formatPrice 1234505 = "$12,345.05"].
Proof. by split; vm_compute. Qed.

Example mock_categories : getMenuCategories None = [:: "Curry"; "Dessert"].
Proof. by vm_compute. Qed.

Lemma searchMenuItems_spec_witness :
  searchMenuItems None (toUpperCase "chicken") = searchMenuItems None "chicken".
Proof. by case: (@searchMenuItems_spec None "chicken") => _ _ _ /(_ isT isT). Defined.

Example mock_search :
  map sysId (searchMenuItems None "CHICKEN") = [:: "1"] /\
  map sysId (searchMenuItems None "sugar") = [:: "3"; "4"; "6"].
Proof. by split; vm_compute. Qed.

Lemma mock_categories_injective :
  {in map category (getMenuItems None) &, injective toLowerCase}.
Proof.
  have H z : z \in map category (getMenuItems None) ->
             z = "Curry" \/ z = "Dessert".
    rewrite /= !inE.
    by repeat (case/orP; [move/eqP->; auto|]); move/eqP->; auto.
  by move=> x y /H [] -> /H [] ->.
Qed.

Lemma categories_partition_witness :
  \sum_(c <- getMenuCategories None) size (getMenuItemsByCategory None c) = 6.
Proof. exact: (categories_partition mock_categories_injective). Defined.

(** ** Which catalogue is served *)

(** A setting that is missing or empty is the default. *)
Lemma settingOr_default setting fallback :
  (if setting is Some s then ~~ truthyString s else true) ->
  settingOr setting fallback = fallback.
Proof. by case: setting => [s /negbTE /= ->|]. Qed.

(** Without both settings the module answers from the built-in items,
    whatever [createClient] would have returned; so does it when a setting
    is spelled as its default. *)
Lemma unconfigured_serves_mock createClient spaceId token :
  (settingOr spaceId "demo-space-id" == "demo-space-id") ||
  (settingOr token "demo-access-token" == "demo-access-token") ->
  let client := contentfulClient createClient (CONTENTFUL_CONFIG spaceId token) in
  client = None /\ getMenuItems client = mockMenuItems.
Proof.
  rewrite /contentfulClient /CONTENTFUL_CONFIG /=.
  by case/orP => /eqP ->; rewrite eqxx ?andbF.
Qed.

(** With both settings the client is what [createClient] returns, and a
    [createClient] that throws leaves the built-in items. *)
Lemma configured_client createClient spaceId token :
  settingOr spaceId "demo-space-id" != "demo-space-id" ->
  settingOr token "demo-access-token" != "demo-access-token" ->
  contentfulClient createClient (CONTENTFUL_CONFIG spaceId token) =
  createClient (CONTENTFUL_CONFIG spaceId token).
Proof. by rewrite /contentfulClient /CONTENTFUL_CONFIG /= => -> ->. Qed.

Example space_alone_serves_mock createClient :
  getMenuItems
    (contentfulClient createClient (CONTENTFUL_CONFIG (Some "c2c") (Some ""))) =
  mockMenuItems.
Proof.
  apply: (proj2 (unconfigured_serves_mock createClient _)).
  by rewrite orbC.
Qed.
