(* ===== verification/Api.v ===== *)
(** * Api: the browser's side of the HTTP interface, [src/src/services/api.js]

    Four functions, each one request through an axios instance.  A call
    resolves to the body of the answer or throws an [Error] with a message.

    ** Model

    - [Exchange] is what the axios call comes to: an answer, or no answer
      at all (no connection, timeout).  axios rejects every answer whose
      status is outside 200-299 ([okStatus]) and keeps the answer in
      [error.response].
    - [Outcome] is a settled promise: [Resolved] with a value or [Thrown]
      with the message of the [Error].
    - [Net] says what the network does with one request, and [exchange]
      runs the request against [Server.serve] accordingly: the request is
      lost, the request is served and its answer is lost, or the answer
      arrives.
    - The instance of lines 7-13 gives up after ten seconds
      ([timeoutMs]): an answer that takes that long is an answer that is
      lost ([arrival]).  The interceptors of lines 16-37 log and pass
      their argument on ([requestInterceptor], [responseInterceptor]);
      [send] is one request through the instance. *)

From stdpp Require Import gmap strings list.
From Stdlib Require Import ZArith.
From Stdlib.Strings Require Import Byte Ascii.
From S2P Require Import Prelude JsString Encoding Regex Runtime JsMap JsValue.
From S2P Require Import InviteService Server.

#[local] Open Scope c2c_scope.
#[local] Open Scope Z_scope.

Inductive Exchange : Type :=
| NetworkError
| Answered (r : Response).

Inductive Outcome (A : Type) : Type :=
| Resolved (a : A)
| Thrown (message : string).
Arguments Resolved {A} a.
Arguments Thrown {A} message.

Inductive Net : Type := RequestLost | ReplyLost | Delivered.

(** [API_BASE_URL] (line 4), from the setting of the build. *)
Definition API_BASE_URL (setting : option string) : string :=
  match setting with
  | Some url => if truthyString url then url else "http://localhost:3001"
  | None => "http://localhost:3001"
  end.

(** The [timeout] of the instance (line 9), in milliseconds. *)
Definition timeoutMs : Z := 10000.

(** What the instance sees of a request whose answer takes [elapsed]
    milliseconds: after [timeoutMs] it has given up, and the answer is
    lost to it. *)
Definition arrival (elapsed : Z) (net : Net) : Net :=
  match net with
  | Delivered => if elapsed <? timeoutMs then Delivered else ReplyLost
  | _ => net
  end.

(** The request interceptor (lines 16-25): it logs the request and passes
    it on. *)
Definition requestInterceptor (config : Request) : Request := config.

(** The response interceptor (lines 28-37): it logs the answer, or the
    error, and passes it on. *)
Definition responseInterceptor (x : Exchange) : Exchange := x.

(** axios' default [validateStatus]. *)
Definition okStatus (s : Z) : bool := (200 <=? s) && (s <? 300).

Definition networkMessage : string :=
  "Network error. Please check your connection and try again.".

(** The [try]/[catch] shared by lines 43-54, 61-71 and 78-86:
    [error.response?.data] decides between the server's message, with
    [fallback] when it has none, and the network message. *)
Definition settle (fallback : string) (x : Exchange) : Outcome Json :=
  match x with
  | Answered r =>
      if okStatus (status r) then Resolved (json r)
      else if truthy (Some (json r)) then
        Thrown (toStringOpt
                  (orElse (field "error" (json r)) (Some (JStr fallback))))
      else Thrown networkMessage
  | NetworkError => Thrown networkMessage
  end.

(** The requests the four functions send. *)
Definition inviteRequest (email userName : string) : Request :=
  mkRequest POST "/api/invite/request"
    (BodyFields [("email", email); ("userName", userName)]).

Definition validateRequest (code : string) : Request :=
  mkRequest POST "/api/invite/validate" (BodyFields [("code", code)]).

Definition statsRequest : Request :=
  mkRequest GET "/api/admin/stats" (BodyFields []).

Definition healthRequest : Request :=
  mkRequest GET "/api/health" (BodyFields []).

(** [requestInviteCode] (lines 42-55), after the exchange. *)
Definition apiRequestInviteCode (x : Exchange) : Outcome Json :=
  settle "Failed to request invite code" x.

(** [validateInviteCode] (lines 60-72), after the exchange. *)
Definition apiValidateInviteCode (x : Exchange) : Outcome Json :=
  settle "Failed to validate invite code" x.

(** [getInviteStats] (lines 77-87), after the exchange. *)
Definition apiGetInviteStats (x : Exchange) : Outcome Json :=
  settle "Failed to get statistics" x.

(** [healthCheck] (lines 92-99). *)
Definition healthCheck (x : Exchange) : Outcome Json :=
  match x with
  | Answered r =>
      if okStatus (status r) then Resolved (json r)
      else Thrown "API server is not responding"
  | NetworkError => Thrown "API server is not responding"
  end.

Section Wire.
Context (env : Env) (P : EmailProvider) (toISOString : Z -> string).

(** One request over the network to the server of [Server]. *)
Definition exchange (net : Net) (req : Request) : M World Exchange :=
  match net with
  | RequestLost => ret NetworkError
  | ReplyLost => let* _ := serve env P toISOString req in ret NetworkError
  | Delivered => let* r := serve env P toISOString req in ret (Answered r)
  end.

(** One request through the instance of lines 7-37, with an answer that
    takes [elapsed] milliseconds. *)
Definition send (net : Net) (elapsed : Z) (req : Request) : M World Exchange :=
  let* x := exchange (arrival elapsed net) (requestInterceptor req) in
  ret (responseInterceptor x).

(** A request through the instance is an exchange over the network as
    the instance sees it, so what holds of [exchange] for every network
    holds of [send]. *)
Lemma send_arrival net elapsed req w :
  send net elapsed req w = exchange (arrival elapsed net) req w.
Proof.
  unfold send, requestInterceptor, responseInterceptor.
  rewrite run_bind. unfold ret, evalM, execM. by destruct (exchange _ req w).
Qed.

(** An answer in time is the answer; an answer after the timeout has
    changed the registry and is not seen. *)
Lemma send_in_time net elapsed req w :
  elapsed < timeoutMs -> send net elapsed req w = exchange net req w.
Proof.
  intros Ht. rewrite send_arrival.
  destruct net; cbn [arrival]; [done|done|].
  by rewrite (proj2 (Z.ltb_lt _ _) Ht).
Qed.

Lemma send_late elapsed req w :
  timeoutMs <= elapsed ->
  send Delivered elapsed req w =
  (NetworkError, execM (serve env P toISOString req) w).
Proof.
  intros Ht. rewrite send_arrival. cbn [arrival].
  rewrite (proj2 (Z.ltb_ge _ _) Ht). unfold exchange.
  rewrite run_bind. unfold ret, evalM, execM. by destruct (serve _ _ _ _ _).
Qed.

End Wire.
