(* ===== verification/Auth.v ===== *)
(** * Auth: sign-in with Google, [src/src/services/auth.js]

    The module wraps the Firebase calls: each wrapper catches what the call
    throws and returns an object with [success].  The Firebase calls
    themselves are outside the repository: [Popup] is what
    [signInWithPopup] comes to, and the current user is a parameter.

    The Google Analytics calls ([gtag]) have no effect on the results and
    are not modelled. *)

From stdpp Require Import strings list.
From Stdlib Require Import ZArith.
From S2P Require Import Prelude JsString.

(** The fields the module copies from a Firebase user (lines 29-35). *)
Record FirebaseUser : Type := mkFirebaseUser {
  uid : string;
  email : option string;
  displayName : option string;
  photoURL : option string;
  emailVerified : bool
}.

(** An error thrown by Firebase: [error.code], [error.message]. *)
Record AuthFailure : Type := mkAuthFailure {
  failureCode : option string;
  failureMessage : string
}.

(** What a Firebase call comes to. *)
Inductive Popup (A : Type) : Type :=
| Completed (a : A)
| Failed (e : AuthFailure).
Arguments Completed {A} a.
Arguments Failed {A} e.

(** The object the wrappers return: [{success, user, error, code}]. *)
Record SignInResult : Type := mkSignInResult {
  success : bool;
  signedIn : option FirebaseUser;
  error : option string;
  code : option string
}.

(** [x || fallback] on a message. *)
Definition messageOr (x fallback : string) : string :=
  if truthyString x then x else fallback.

(** The [catch] of [signInWithGoogle] (lines 37-66). *)
Definition signInFailure (e : AuthFailure) : SignInResult :=
  if decide (failureCode e = Some "auth/popup-blocked") then
    mkSignInResult false None
      (Some "Popup was blocked. Please allow popups for this site and try again.")
      (Some "popup-blocked")
  else if decide (failureCode e = Some "auth/popup-closed-by-user") then
    mkSignInResult false None (Some "Sign-in was cancelled.") (Some "cancelled")
  else if decide (failureCode e = Some "auth/network-request-failed") then
    mkSignInResult false None
      (Some "Network error. Please check your connection and try again.")
      (Some "network-error")
  else
    mkSignInResult false None
      (Some (messageOr (failureMessage e) "An error occurred during sign-in."))
      (failureCode e).

(** [signInWithGoogle] (lines 14-67). *)
Definition signInWithGoogle (p : Popup FirebaseUser) : SignInResult :=
  match p with
  | Completed u => mkSignInResult true (Some u) None None
  | Failed e => signInFailure e
  end.

(** [signInWithGoogleRedirect] (lines 72-84). *)
Definition signInWithGoogleRedirect (p : Popup unit) : SignInResult :=
  match p with
  | Completed _ => mkSignInResult true None None None
  | Failed e =>
      mkSignInResult false None
        (Some (messageOr (failureMessage e) "An error occurred during sign-in."))
        (failureCode e)
  end.

(** [handleRedirectResult] (lines 89-123): [getRedirectResult] resolves to
    a result or to [null]. *)
Definition handleRedirectResult (p : Popup (option FirebaseUser))
    : SignInResult :=
  match p with
  | Completed u => mkSignInResult true u None None
  | Failed e =>
      mkSignInResult false None
        (Some (messageOr (failureMessage e) "An error occurred during sign-in."))
        (failureCode e)
  end.

(** [signOutUser] (lines 128-145). *)
Definition signOutUser (p : Popup unit) : SignInResult :=
  match p with
  | Completed _ => mkSignInResult true None None None
  | Failed e =>
      mkSignInResult false None
        (Some (messageOr (failureMessage e) "An error occurred during sign-out."))
        None
  end.

(** [getCurrentUser] (lines 169-181) and [isAuthenticated] (lines 186-188),
    on [auth.currentUser]. *)
Definition getCurrentUser (currentUser : option FirebaseUser)
    : option FirebaseUser := currentUser.

Definition isAuthenticated (currentUser : option FirebaseUser) : bool :=
  match currentUser with Some _ => true | None => false end.

(** [onAuthStateChange] (lines 150-164): what the listener it registers
    does when Firebase reports [user]. *)
Definition authStateListener {A : Type} (callback : option FirebaseUser -> A)
    (user : option FirebaseUser) : A :=
  match user with
  | Some u =>
      callback
        (Some (mkFirebaseUser (uid u) (email u) (displayName u) (photoURL u)
                 (emailVerified u)))
  | None => callback None
  end.

(** ** Properties *)

(** The listener hands on what Firebase reported. *)
Lemma authStateListener_forwards {A : Type}
    (callback : option FirebaseUser -> A) user :
  authStateListener callback user = callback user.
Proof. by destruct user as [[]|]. Qed.

Lemma messageOr_truthy x fallback :
  fallback <> "" -> truthyString (messageOr x fallback) = true.
Proof. unfold messageOr. destruct x; [by destruct fallback|done]. Qed.

(** A wrapper reports success exactly when the Firebase call completed,
    and a failure always comes with a message that is not empty. *)
Lemma signInWithGoogle_success p :
  success (signInWithGoogle p) = match p with Completed _ => true | _ => false end.
Proof.
  destruct p as [u|e]; [done|]. unfold signInWithGoogle, signInFailure.
  by repeat case_decide.
Qed.

Lemma signInWithGoogle_error p :
  success (signInWithGoogle p) = false ->
  exists m, error (signInWithGoogle p) = Some m /\ truthyString m = true.
Proof.
  destruct p as [u|e]; [done|]. intros _.
  unfold signInWithGoogle, signInFailure.
  repeat case_decide; eexists; (split; [reflexivity|]); try done.
  by apply messageOr_truthy.
Qed.
