(* ===== verification/App.v ===== *)
(** * App: the state of the front end, [src/src/App.jsx]

    [useAuth] (lines 13-172) holds five pieces of state and four
    asynchronous operations; [InviteCodeForm] (lines 175-221) holds the
    form; [App] (lines 549-607) holds the current page and chooses what to
    render.

    ** Model

    - [AppState] is the state of the three of them together.
    - An asynchronous handler runs up to its [await], lets other events
      happen, and continues when the awaited promise settles.  Each
      handler is therefore two functions: [...Start], the part before the
      [await], and [...Done], the part after it, which takes what the
      promise settled to.  [Event] has one constructor for each part, and
      [step] runs one event; any interleaving of handlers is a list of
      events.
    - The continuation of a handler uses the values the handler captured
      when it started: [SubmitDone] carries the code that was submitted.
    - The markup is not modelled; [View] names the page that is rendered. *)

From stdpp Require Import strings list.
From Stdlib Require Import ZArith.
From S2P Require Import Prelude JsString Encoding Runtime JsValue.
From S2P Require Import Auth.
From S2P Require Api.

(** ** State *)

(** The object of lines 24-30. *)
Record User : Type := mkUser {
  userUid : string;
  userName : string;
  userEmail : option string;
  userPhotoURL : option string;
  userEmailVerified : bool
}.

(** The state of [useAuth] (lines 14-18). *)
Record AuthState : Type := mkAuthState {
  user : option User;
  isAuthenticated : bool;
  hasValidInvite : bool;
  loading : bool;
  authError : option string
}.

Inductive Page : Type := landing | signin | invite | menu.

#[export] Instance Page_eq_dec : EqDecision Page.
Proof. solve_decision. Defined.

(** The state of [InviteCodeForm] (lines 176-181). *)
Record FormState : Type := mkFormState {
  code : string;
  email : string;
  formLoading : bool;
  requestLoading : bool;
  message : string;
  requestStatus : string
}.

Record AppState : Type := mkAppState {
  auth : AuthState;
  currentPage : Page;
  form : FormState
}.

Definition initialAuth : AuthState := mkAuthState None false false true None.

Definition initialForm (u : option User) : FormState :=
  mkFormState "" (default "" (u ≫= userEmail)) false false "" "".

Definition initialApp : AppState :=
  mkAppState initialAuth landing (initialForm None).

(** What the operations of [useAuth] return: [{success, error}]. *)
Record CallResult : Type := mkCallResult {
  callSuccess : bool;
  callError : option Json
}.

Inductive View : Type :=
| ViewLoading | ViewLanding | ViewSignIn | ViewInvite | ViewMenu.

(** ** [useAuth] *)

(** The listener of lines 22-46. *)
Definition onAuthStateChange (fb : option FirebaseUser) (s : AuthState)
    : AuthState :=
  match fb with
  | Some u =>
      mkAuthState
        (Some (mkUser (uid u)
                 (match displayName u with
                  | Some n => if truthyString n then n else "User"
                  | None => "User"
                  end)
                 (Auth.email u) (photoURL u) (emailVerified u)))
        true (hasValidInvite s) false (authError s)
  | None => mkAuthState None false false false (authError s)
  end.

(** [login] before the [await] (lines 53-54). *)
Definition loginStart (s : AuthState) : AuthState :=
  mkAuthState (user s) (isAuthenticated s) (hasValidInvite s) true None.

(** [login] after the [await] (lines 58-65): the new state and the value
    returned. *)
Definition loginDone (result : SignInResult) (s : AuthState)
    : bool * AuthState :=
  if negb (success result) then
    (false,
     mkAuthState (user s) (isAuthenticated s) (hasValidInvite s) false
       (error result))
  else (true, s).

(** [logout] before and after the [await] (lines 76, 86-88). *)
Definition logoutStart (s : AuthState) : AuthState :=
  mkAuthState (user s) (isAuthenticated s) (hasValidInvite s) true
    (authError s).

Definition logoutDone (s : AuthState) : AuthState :=
  mkAuthState (user s) (isAuthenticated s) (hasValidInvite s) false
    (authError s).

Definition setHasValidInvite (b : bool) (s : AuthState) : AuthState :=
  mkAuthState (user s) (isAuthenticated s) b (loading s) (authError s).

(** The codes of line 117. *)
Definition validCodes : list string :=
  ["C2C2023"; "EXCLUSIVE2024"; "INNER2024"; "SWEET2024"].

(** [validCodes.includes(x)]. *)
Definition listIncludes (x : string) (l : list string) : bool :=
  existsb (String.eqb x) l.

(** [validateInviteCode] after the call of the API settled (lines 98-133). *)
Definition validateInviteCodeDone (submitted : string)
    (o : Api.Outcome Json) (s : AuthState) : CallResult * AuthState :=
  match o with
  | Api.Resolved result =>
      if truthy (field "success" result) then
        (mkCallResult true None, setHasValidInvite true s)
      else (mkCallResult false (field "error" result), s)
  | Api.Thrown _ =>
      if listIncludes (toUpperCase submitted) validCodes then
        (mkCallResult true None, setHasValidInvite true s)
      else
        (mkCallResult false
           (Some (JStr "Invalid invite code. Please try again.")), s)
  end.

(** [requestInviteCode] after the call of the API settled (lines 141-158):
    the object returned. *)
Definition requestInviteCodeDone (o : Api.Outcome Json) : Json :=
  match o with
  | Api.Resolved result => result
  | Api.Thrown _ =>
      JObj [("success", JBool false);
            ("error",
             JStr "Unable to send invite code at this time. Please try again later.")]
  end.

(** ** [InviteCodeForm] *)

Definition setForm (f : FormState -> FormState) (s : AppState) : AppState :=
  mkAppState (auth s) (currentPage s) (f (form s)).

Definition setAuth (f : AuthState -> AuthState) (s : AppState) : AppState :=
  mkAppState (f (auth s)) (currentPage s) (form s).

Definition setCurrentPage (p : Page) (s : AppState) : AppState :=
  mkAppState (auth s) p (form s).

(** [handleSubmit] before the [await] (lines 184-190): the code that is
    sent, if one is. *)
Definition handleSubmitStart (s : AppState) : option string * AppState :=
  let c := trim (code (form s)) in
  if negb (truthyString c) then (None, s)
  else
    (Some c,
     setForm (fun f => mkFormState (code f) (email f) true (requestLoading f)
                         "" (requestStatus f)) s).

(** [handleSubmit] after the [await] (lines 192-199); [onSuccess] is
    [handleInviteSuccess] (lines 565-567). *)
Definition handleSubmitDone (submitted : string) (o : Api.Outcome Json)
    (s : AppState) : AppState :=
  let '(result, a) := validateInviteCodeDone submitted o (auth s) in
  let s1 := mkAppState a (currentPage s) (form s) in
  let s2 :=
    if callSuccess result then
      setCurrentPage menu
        (setForm (fun f => mkFormState (code f) (email f) (formLoading f)
                             (requestLoading f) "" (requestStatus f)) s1)
    else
      setForm (fun f => mkFormState (code f) (email f) (formLoading f)
                          (requestLoading f)
                          (toStringOpt
                             (orElse (callError result)
                                (Some (JStr "Invalid invite code. Please try again."))))
                          (requestStatus f)) s1 in
  setForm (fun f => mkFormState (code f) (email f) false (requestLoading f)
                      (message f) (requestStatus f)) s2.

(** [handleRequestInvite] before the [await] (lines 203-212). *)
Definition handleRequestInviteStart (s : AppState) : option string * AppState :=
  let e := trim (email (form s)) in
  if negb (truthyString e) then
    (None,
     setForm (fun f => mkFormState (code f) (email f) (formLoading f)
                         (requestLoading f) (message f)
                         "Please enter a valid email address.") s)
  else
    (Some e,
     setForm (fun f => mkFormState (code f) (email f) (formLoading f) true
                         (message f) "") s).

(** [handleRequestInvite] after the [await] (lines 214-220). *)
Definition handleRequestInviteDone (o : Api.Outcome Json) (s : AppState)
    : AppState :=
  let result := requestInviteCodeDone o in
  let status :=
    if truthy (field "success" result) then
      "Invite code sent! Check your email and enter the code above."
    else
      toStringOpt
        (orElse (field "error" result)
           (Some (JStr "Unable to send invite code. Please try again."))) in
  setForm (fun f => mkFormState (code f) (email f) (formLoading f) false
                      (message f) status) s.

(** ** [App] *)

(** [handleGetStarted] (lines 554-556). *)
Definition handleGetStarted (s : AppState) : AppState :=
  setCurrentPage signin s.

(** [handleSignIn] (lines 558-563), before and after [login] settles. *)
Definition handleSignInStart (s : AppState) : AppState :=
  setAuth loginStart s.

Definition handleSignInDone (result : SignInResult) (s : AppState)
    : AppState :=
  let '(ok, a) := loginDone result (auth s) in
  let s1 := mkAppState a (currentPage s) (form s) in
  if ok then setCurrentPage invite s1 else s1.

(** [handleLogout] (lines 569-572), before and after [logout] settles. *)
Definition handleLogoutStart (s : AppState) : AppState :=
  setAuth logoutStart s.

Definition handleLogoutDone (s : AppState) : AppState :=
  setCurrentPage landing (setAuth logoutDone s).

(** What [App] renders (lines 575-599). *)
Definition renderCurrentPage (s : AppState) : View :=
  let a := auth s in
  if loading a && bool_decide (currentPage s = landing) then ViewLoading
  else if negb (isAuthenticated a) then
    if bool_decide (currentPage s = signin) then ViewSignIn else ViewLanding
  else if negb (hasValidInvite a) then ViewInvite
  else ViewMenu.

(** ** Events *)

Inductive Event : Type :=
| AuthChanged (fb : option FirebaseUser)
| GetStarted
| SignInStart
| SignInDone (result : SignInResult)
| LogoutStart
| LogoutDone
| TypeCode (c : string)
| TypeEmail (e : string)
| SubmitStart
| SubmitDone (submitted : string) (o : Api.Outcome Json)
| RequestInviteStart
| RequestInviteDone (o : Api.Outcome Json).

Definition step (e : Event) (s : AppState) : AppState :=
  match e with
  | AuthChanged fb => setAuth (onAuthStateChange fb) s
  | GetStarted => handleGetStarted s
  | SignInStart => handleSignInStart s
  | SignInDone result => handleSignInDone result s
  | LogoutStart => handleLogoutStart s
  | LogoutDone => handleLogoutDone s
  | TypeCode c =>
      setForm (fun f => mkFormState c (email f) (formLoading f)
                          (requestLoading f) (message f) (requestStatus f)) s
  | TypeEmail e =>
      setForm (fun f => mkFormState (code f) e (formLoading f)
                          (requestLoading f) (message f) (requestStatus f)) s
  | SubmitStart => (handleSubmitStart s).2
  | SubmitDone submitted o => handleSubmitDone submitted o s
  | RequestInviteStart => (handleRequestInviteStart s).2
  | RequestInviteDone o => handleRequestInviteDone o s
  end.

Definition run (es : list Event) (s : AppState) : AppState :=
  foldl (fun s e => step e s) s es.
