(* ===== verification/AppProps.v ===== *)
(** * AppProps: the front end against the server

    [clientValidate] and [clientRequest] run one operation of [useAuth]
    end to end: the request of [Api], the network, [Server.serve] on the
    registry, the answer through [Api] and the continuation of [App].  The
    theorems say what the visitor's browser concludes from what the
    registry did. *)

From stdpp Require Import gmap strings list.
From Stdlib Require Import ZArith.
From Stdlib.Strings Require Import Byte Ascii.
From S2P Require Import Prelude JsString Encoding Regex Runtime JsMap JsValue.
From S2P Require Import InviteService InviteLemmas InviteCode InviteInvariant.
From S2P Require Import InviteProps Server ServerProps Api Auth App.

#[local] Open Scope c2c_scope.
#[local] Open Scope Z_scope.

(** The message [handleSubmit] shows for a result that is not a success. *)
Definition shownMessage (r : CallResult) : string :=
  toStringOpt
    (orElse (callError r)
       (Some (JStr "Invalid invite code. Please try again."))).

Section EndToEnd.
Context (env : Env) (P : EmailProvider) (toISOString : Z -> string).

(** [useAuth().validateInviteCode(submitted)] against the server. *)
Definition clientValidate (net : Net) (submitted : string) (s : AuthState)
    : M World (CallResult * AuthState) :=
  let* x := exchange env P toISOString net (validateRequest submitted) in
  ret (validateInviteCodeDone submitted (apiValidateInviteCode x) s).

(** [useAuth().requestInviteCode(email)] against the server. *)
Definition clientRequest (net : Net) (address : string)
    : M World (Outcome Json) :=
  let* x := exchange env P toISOString net (inviteRequest address "") in
  ret (apiRequestInviteCode x).

Lemma callOf_validateRequest c :
  truthyString c = true ->
  callOf (validateRequest c) = Some (CallValidate c).
Proof. intros H. unfold callOf. cbn. by rewrite H. Qed.

Lemma callOf_inviteRequest e :
  truthyString e = true ->
  callOf (inviteRequest e "") = Some (CallRequest e (Some "")).
Proof. intros H. unfold callOf. cbn. by rewrite H. Qed.

Lemma exchange_delivered req w :
  exchange env P toISOString Delivered req w =
  (Answered (evalM (serve env P toISOString req) w),
   execM (serve env P toISOString req) w).
Proof. unfold exchange. by rewrite run_map. Qed.

(** A delivered validation: the server's verdict [v] comes back as
    [{valid, ...}] with status 200, and the front end reads [success]. *)
Lemma clientValidate_delivered c s w :
  truthyString c = true ->
  let w1 := advance 1 0 w in
  let v := evalM (validateInviteCode env c) w1 in
  clientValidate Delivered c s w =
  ((mkCallResult false (field "error" (validateJson v)), s),
   execM (validateInviteCode env c) w1).
Proof.
  intros Hc w1 v. unfold clientValidate. rewrite run_map.
  unfold evalM at 1, execM at 1. rewrite exchange_delivered.
  cbn [fst snd]. unfold evalM at 1, execM at 1.
  rewrite (serve_call env P toISOString _ _ w (callOf_validateRequest c Hc)).
  cbn [fst snd]. rewrite handle_eval, handle_exec. fold w1 v.
  by destruct v.
Qed.

(** A lost request leaves the registry alone and the front end falls back
    on its own list. *)
Lemma clientValidate_lost c s w :
  clientValidate RequestLost c s w =
  (validateInviteCodeDone c (Thrown networkMessage) s, w).
Proof. reflexivity. Qed.

(** A lost reply: the registry has run, the front end falls back. *)
Lemma clientValidate_reply_lost c s w :
  clientValidate ReplyLost c s w =
  (validateInviteCodeDone c (Thrown networkMessage) s,
   execM (serve env P toISOString (validateRequest c)) w).
Proof.
  unfold clientValidate. rewrite run_map.
  unfold evalM at 1, execM at 1, exchange. by rewrite run_map.
Qed.

(** C7: when the answer of the server arrives, the front end never takes
    a code for valid: it reads [success], the server says [valid].  A code
    the registry accepts is marked as used there, the visitor is told that
    it is invalid, and is not let in. *)
Theorem delivered_code_is_refused c s w :
  truthyString c = true ->
  let w1 := advance 1 0 w in
  let r := clientValidate Delivered c s w in
  callSuccess r.1.1 = false /\ r.1.2 = s /\
  r.2 = execM (validateInviteCode env c) w1 /\
  (forall e n, evalM (validateInviteCode env c) w1 = ValidateOk e n ->
     shownMessage r.1.1 = "Invalid invite code. Please try again." /\
     evalM (validateInviteCode env c) r.2 = ValidateError msgAlreadyUsed).
Proof.
  intros Hc w1 r. unfold r. rewrite clientValidate_delivered by done.
  fold w1. cbn [fst snd callSuccess]. split_and!; try done.
  intros e n Hv. rewrite Hv. split; [reflexivity|].
  unfold evalM, execM in *.
  destruct (validateP env c w1) as [| | |i Hget Hu He]; try done.
  cbn [fst snd] in *.
  rewrite (validate_used env c (markUsed (readAt env w1 1) i)); [done| |done].
  unfold redeemed, setInviteCodes. cbn [inviteCodes].
  apply mapGet_mapSet_eq.
Qed.

(** C13: the front end lets a visitor in exactly when the call of the API
    threw and the code, in upper case, is one of the four built-in codes;
    the registry has no say in it. *)
Theorem only_builtin_codes_accepted net c s w :
  truthyString c = true ->
  let r := clientValidate net c s w in
  callSuccess r.1.1 = true <->
  net <> Delivered /\ listIncludes (toUpperCase c) validCodes = true.
Proof.
  intros Hc r. unfold r. destruct net.
  - rewrite clientValidate_lost. cbn [fst snd validateInviteCodeDone].
    destruct (listIncludes _ _); naive_solver.
  - rewrite clientValidate_reply_lost. cbn [fst snd validateInviteCodeDone].
    destruct (listIncludes _ _); naive_solver.
  - rewrite clientValidate_delivered by done. cbn [fst snd callSuccess].
    naive_solver.
Qed.

(** ** Requests for a code *)

(** A delivered request: what the service answered, as the front end
    passes it to the form. *)
Lemma clientRequest_delivered e w :
  truthyString e = true ->
  let w1 := advance 1 0 w in
  let v := evalM (requestInviteCodeWith env P e (Some "")) w1 in
  clientRequest Delivered e w =
  (match v with
   | RequestOk _ _ => Resolved (requestJson v)
   | RequestError err =>
       Thrown (if truthyString err then err
               else "Failed to request invite code")
   end,
   execM (requestInviteCodeWith env P e (Some "")) w1).
Proof.
  intros He w1 v. unfold clientRequest. rewrite run_map.
  unfold evalM at 1, execM at 1. rewrite exchange_delivered.
  cbn [fst snd]. unfold evalM at 1, execM at 1.
  rewrite (serve_call env P toISOString _ _ w (callOf_inviteRequest e He)).
  cbn [fst snd]. rewrite handle_eval, handle_exec. fold w1 v.
  destruct v as [m k|err]; [done|]. by destruct err.
Qed.

(** The visitor never reads why a request was refused: when the
    service refuses (bad address, rate limit, dispatch failure) the server
    answers 400, the API layer throws the service's message, and [useAuth]
    replaces it by one fixed text; when the service grants, the form says
    that the code was sent. *)
Theorem refusal_reason_is_masked e s w :
  truthyString e = true ->
  let v := evalM (requestInviteCodeWith env P e (Some "")) (advance 1 0 w) in
  let s' := handleRequestInviteDone (evalM (clientRequest Delivered e) w) s in
  requestStatus (form s') =
  match v with
  | RequestOk _ _ =>
      "Invite code sent! Check your email and enter the code above."
  | RequestError _ =>
      "Unable to send invite code at this time. Please try again later."
  end.
Proof.
  intros He v s'. unfold s', evalM at 1.
  rewrite clientRequest_delivered by done. fold v. by destruct v.
Qed.

End EndToEnd.

(** ** The pages *)

(** The two flags of a state agree: a user is on record exactly when the
    state says authenticated. *)
Definition flagsAgree (a : AuthState) : Prop :=
  isAuthenticated a = bool_decide (is_Some (user a)).

Lemma validateInviteCodeDone_auth c o a :
  let a' := (validateInviteCodeDone c o a).2 in
  user a' = user a /\ isAuthenticated a' = isAuthenticated a.
Proof.
  destruct o as [result|m]; unfold validateInviteCodeDone.
  - by destruct (truthy _).
  - by destruct (listIncludes _ _).
Qed.

Lemma auth_handleSubmitDone c o s :
  auth (handleSubmitDone c o s) = (validateInviteCodeDone c o (auth s)).2.
Proof.
  unfold handleSubmitDone.
  destruct (validateInviteCodeDone c o (auth s)) as [r a].
  by destruct (callSuccess r).
Qed.

Lemma flagsAgree_step e s : flagsAgree (auth s) -> flagsAgree (auth (step e s)).
Proof.
  unfold flagsAgree. destruct e as [[u|]| | |r| | |c|m| |c o| |o];
    cbn -[bool_decide]; try done.
  - unfold handleSignInDone, loginDone. by destruct (negb (success r)).
  - unfold handleSubmitStart. by destruct (negb _).
  - rewrite auth_handleSubmitDone.
    by destruct (validateInviteCodeDone_auth c o (auth s)) as [-> ->].
  - unfold handleRequestInviteStart. by destruct (negb _).
Qed.

Lemma run_snoc es e s : run (es ++ [e]) s = step e (run es s).
Proof. unfold run. by rewrite foldl_app. Qed.

(** In every state the front end can reach, by any interleaving of
    handlers and listener, a user is on record exactly when the state says
    authenticated; and the menu is rendered only when the state says
    authenticated and invited. *)
Theorem reachable_pages es :
  let s := run es initialApp in
  flagsAgree (auth s) /\
  (renderCurrentPage s = ViewMenu <->
   isAuthenticated (auth s) = true /\ hasValidInvite (auth s) = true /\
   loading (auth s) && bool_decide (currentPage s = landing) = false).
Proof.
  cbv zeta. split.
  - induction es as [|e es IH] using rev_ind; [done|].
    rewrite run_snoc. by apply flagsAgree_step.
  - unfold renderCurrentPage. cbv zeta.
    destruct (loading _ && _), (isAuthenticated _), (hasValidInvite _);
      cbn; try case_bool_decide; naive_solver.
Qed.

(** ** Worked examples *)

Definition demoUser : FirebaseUser :=
  mkFirebaseUser "u1" (Some "a@b.c") (Some "Asha") None true.

Definition otherUser : FirebaseUser :=
  mkFirebaseUser "u2" (Some "x@y.z") None None true.

(** A validation that settles after the visitor has signed out sets
    the invite flag of nobody, and the next user who signs in sees the menu
    without having entered a code. *)
Example stale_validation_admits_next_user :
  let s := run [AuthChanged (Some demoUser); TypeCode "c2c2023"; SubmitStart;
                AuthChanged None;
                SubmitDone "c2c2023" (Thrown networkMessage);
                AuthChanged (Some otherUser)] initialApp in
  renderCurrentPage s = ViewMenu /\
  (user (auth s) ≫= userEmail) = Some "x@y.z".
Proof. by vm_compute. Qed.

Lemma delivered_code_is_refused_witness :
  let w := execM (requestInviteCode fastEnv "a@b.c" None) emptyWorld in
  let r := clientValidate fastEnv (mockProvider fastEnv) (toStringRadix 10)
             Delivered "C2Cloyw3v28A" initialAuth w in
  callSuccess r.1.1 = false /\
  shownMessage r.1.1 = "Invalid invite code. Please try again." /\
  evalM (validateInviteCode fastEnv "C2Cloyw3v28A") r.2 =
  ValidateError msgAlreadyUsed.
Proof.
  intros w r.
  destruct (delivered_code_is_refused fastEnv (mockProvider fastEnv)
              (toStringRadix 10) "C2Cloyw3v28A" initialAuth w eq_refl)
    as (H1 & _ & _ & H4).
  destruct (H4 "a@b.c" "") as [H5 H6]; [by vm_compute|].
  by split_and!.
Defined.

Lemma only_builtin_codes_accepted_witness :
  callSuccess
    (clientValidate fastEnv (mockProvider fastEnv) (toStringRadix 10)
       RequestLost "c2c2023" initialAuth emptyWorld).1.1 = true.
Proof.
  apply (only_builtin_codes_accepted fastEnv (mockProvider fastEnv)
           (toStringRadix 10) RequestLost "c2c2023" initialAuth emptyWorld
           eq_refl).
  split; [discriminate|reflexivity].
Defined.

Lemma refusal_reason_is_masked_witness :
  requestStatus
    (form (handleRequestInviteDone
             (evalM (clientRequest fastEnv (mockProvider fastEnv)
                       (toStringRadix 10) Delivered "not-an-address")
                emptyWorld) initialApp)) =
  "Unable to send invite code at this time. Please try again later.".
Proof.
  apply (refusal_reason_is_masked fastEnv (mockProvider fastEnv)
           (toStringRadix 10) "not-an-address" initialApp emptyWorld eq_refl).
Defined.
