(* ===== verification/EventLoop.v ===== *)
(** * EventLoop: calls of the registry that overlap

    [requestInviteCode] is [async] and suspends at
    [await sendInviteEmail(...)] (line 181 of
    [src/api/invite-service.js]); the mock provider waits one second
    there.  While a request is suspended the server handles other
    requests, so the two halves of a request can be separated by any
    number of other calls.  [InviteInvariant.runCalls] runs calls one
    after the other; this file runs them overlapped.

    ** Model

    - [LoopState] is the registry plus the requests in flight; a request
      in flight is what the suspended function keeps: the address, the
      name and the code it stored ([Pending]).
    - [Begin] runs a request up to its [await]
      ([requestInviteCodePrepare]); it replies at once when the request is
      refused and joins the requests in flight otherwise.  [End k] settles
      the [k]-th request in flight: the provider's effects happen then
      (for the mock, its only effect is the clock reading of line 136,
      after the timer), and the request replies
      ([requestInviteCodeFinish]).  [validateInviteCode] and
      [getInviteStats] have no [await] and run as one event.
    - An interleaving is a list of events: [runLoop]. *)

From stdpp Require Import gmap strings list.
From Stdlib Require Import ZArith.
From Stdlib.Strings Require Import Byte Ascii.
From S2P Require Import Prelude JsString Encoding Regex Runtime JsMap.
From S2P Require Import InviteService InviteLemmas InviteCode InviteInvariant.
From S2P Require Import InviteProps.

#[local] Open Scope c2c_scope.
#[local] Open Scope Z_scope.

Record Pending : Type := mkPending {
  pendingEmail : string;
  pendingName : string;
  pendingCode : string
}.

Record LoopState : Type := mkLoopState {
  world : World;
  inflight : list Pending
}.

Inductive LoopEvent : Type :=
| Begin (email : string) (userName : option string)
| End (k : nat)
| Validate (code : string)
| StatsCall.

Definition initialLoop : LoopState := mkLoopState emptyWorld [].

Section Loop.
Context (env : Env) (P : EmailProvider).

(** One event: the reply it produces, if it produces one, and the state
    after it. *)
Definition loopStep (e : LoopEvent) (s : LoopState)
    : option Reply * LoopState :=
  match e with
  | Begin email name =>
      let userName := default "" name in
      let '(prepared, w) := requestInviteCodePrepare env email userName (world s) in
      match prepared with
      | inl result => (Some (ReplyRequest result), mkLoopState w (inflight s))
      | inr code =>
          (None, mkLoopState w (inflight s ++ [mkPending email userName code]))
      end
  | End k =>
      match inflight s !! k with
      | Some p =>
          let '(emailResult, w) :=
            sendEmail (pendingEmail p) (pendingCode p) (pendingName p) (world s) in
          (Some (ReplyRequest (requestInviteCodeFinish (pendingCode p) emailResult)),
           mkLoopState w (delete k (inflight s)))
      | None => (None, s)
      end
  | Validate code =>
      let '(r, w) := validateInviteCode env code (world s) in
      (Some (ReplyValidate r), mkLoopState w (inflight s))
  | StatsCall =>
      let '(r, w) := getInviteStats env (world s) in
      (Some (ReplyStats r), mkLoopState w (inflight s))
  end.

(** An interleaving: the replies in the order they are given, and the
    state at the end. *)
Fixpoint runLoop (es : list LoopEvent) (s : LoopState)
    : list Reply * LoopState :=
  match es with
  | [] => ([], s)
  | e :: es' =>
      let '(r, s1) := loopStep e s in
      let '(rs, s2) := runLoop es' s1 in
      (match r with Some x => x :: rs | None => rs end, s2)
  end.

(** What holds of a state of the loop: the registry is well formed and
    every request in flight has its code on record. *)
Record loopInv (s : LoopState) : Prop := mkLoopInv {
  loop_world : worldInv (world s);
  loop_inflight :
    Forall (fun p => mapHas (pendingCode p) (inviteCodes (world s)) = true)
      (inflight s)
}.

End Loop.
