(* ===== verification/EventLoopProps.v ===== *)
(** * EventLoopProps: what overlapping calls cannot do

    Between its two halves a request of [EventLoop] lets other calls run.
    Every test-and-write of the registry lies within one event: the
    cooldown test and the two writes of [requestInviteCode] come before
    its [await], the tests and the write of [validateInviteCode] have no
    [await] between them.  So the guarantees of the sequential model carry
    over to every interleaving:

    - [loopStep_maps]: an event leaves in the two [Map]s what the call it
      starts leaves there when it runs alone; the second half of a request
      leaves them as they are.
    - [overlap_refines]: an interleaving is a run of the abstract
      registry of [InviteSpec] on the calls in the order they start: a
      request takes effect when it begins, and its second half changes
      nothing that the registry promises.  [reply_at_once] and
      [reply_at_end] relate the replies.
    - [overlap_redeems_once]: a code is accepted once, however the calls
      overlap.
    - [overlap_cooldown]: a second request of an address is refused while
      the first is still waiting for its mail. *)

From stdpp Require Import gmap strings list.
From Stdlib Require Import ZArith.
From Stdlib.Strings Require Import Byte Ascii.
From S2P Require Import Prelude JsString Encoding Regex Runtime JsMap.
From S2P Require Import InviteService InviteLemmas InviteCode InviteInvariant.
From S2P Require Import InviteProps InviteSpec EventLoop.

#[local] Open Scope c2c_scope.
#[local] Open Scope Z_scope.

(** The call an event starts; [End] starts none. *)
Definition startedCall (e : LoopEvent) : option Call :=
  match e with
  | Begin email name => Some (CallRequest email name)
  | Validate code => Some (CallValidate code)
  | StatsCall => Some CallStats
  | End _ => None
  end.

Section Overlap.
Context (env : Env) (P : EmailProvider).

(** ** The invariant of the loop *)

Lemma loopInv_initial : loopInv initialLoop.
Proof. split; [apply worldInv_empty|constructor]. Qed.

(** Codes on record stay on record through one call of the registry. *)
Lemma mapHas_prepare email name code w :
  mapHas code (inviteCodes w) = true ->
  mapHas code
    (inviteCodes (requestInviteCodePrepare env email name w).2) = true.
Proof.
  intros H. destruct (prepareP env email name w); cbn [snd issued inviteCodes];
    rewrite ?inviteCodes_advance, ?mapHas_mapSet, ?H, ?orb_true_r; done.
Qed.

Lemma mapHas_validate c code w :
  mapHas code (inviteCodes w) = true ->
  mapHas code (inviteCodes (validateInviteCode env c w).2) = true.
Proof.
  intros H. destruct (validateP env c w);
    cbn [snd redeemed setInviteCodes inviteCodes];
    rewrite ?inviteCodes_advance, ?mapHas_mapSet, ?H, ?orb_true_r; done.
Qed.

(** The code a request stores is on record when the request suspends. *)
Lemma prepare_code_on_record email name code w w' :
  requestInviteCodePrepare env email name w = (inr code, w') ->
  mapHas code (inviteCodes w') = true.
Proof.
  intros E. pose proof (prepareP env email name w) as Hp. rewrite E in Hp.
  inv Hp; apply mapHas_mapSet_eq.
Qed.

Lemma loopInv_step e s : loopInv s -> loopInv (loopStep env P e s).2.
Proof.
  intros [Hw Hf]. destruct e as [email name|k|code|]; cbn [loopStep].
  - pose proof (worldInv_prepare env email (default "" name) _ Hw) as Hw'.
    pose proof (fun c => mapHas_prepare email (default "" name) c (world s)) as Hk.
    unfold execM in Hw'.
    destruct (requestInviteCodePrepare _ _ _ _) as [[r|code] w] eqn:E;
      cbn [snd] in *; (split; [done|]); cbn [world inflight].
    + eapply Forall_impl; [exact Hf|]. intros p. apply Hk.
    + apply Forall_app. split; [eapply Forall_impl; [exact Hf|]; intros p; apply Hk|].
      repeat constructor. by eapply prepare_code_on_record.
  - destruct (inflight s !! k) as [p|] eqn:Ek; [|done].
    pose proof (sendEmail_inviteCodes (pendingEmail p) (pendingCode p)
                  (pendingName p) (world s)) as Hc.
    pose proof (sendEmail_emailRequests (pendingEmail p) (pendingCode p)
                  (pendingName p) (world s)) as Hr.
    unfold execM in Hc, Hr. destruct (sendEmail _ _ _ _) as [r w].
    cbn [snd] in *. split; cbn [world inflight].
    + by eapply worldInv_ext.
    + rewrite Hc. by apply Forall_delete.
  - pose proof (worldInv_validate env code _ Hw) as Hw'.
    pose proof (fun c => mapHas_validate code c (world s)) as Hk.
    unfold execM in Hw'. destruct (validateInviteCode _ _ _) as [r w].
    cbn [snd] in *. split; [done|]. cbn [world inflight].
    eapply Forall_impl; [exact Hf|]. intros p. apply Hk.
  - pose proof (getInviteStats_exec env (world s)) as Hs. unfold execM in Hs.
    destruct (getInviteStats _ _) as [r w]. cbn [snd] in *. subst w.
    split; [by apply worldInv_advance|done].
Qed.

Lemma runLoop_snd_cons e es s :
  (runLoop env P (e :: es) s).2 =
  (runLoop env P es (loopStep env P e s).2).2.
Proof.
  cbn [runLoop]. destruct (loopStep env P e s) as [r s1]. cbn [snd].
  by destruct (runLoop env P es s1).
Qed.

Lemma loopInv_runLoop es s : loopInv s -> loopInv (runLoop env P es s).2.
Proof.
  revert s. induction es as [|e es IH]; intros s Hs; [done|].
  rewrite runLoop_snd_cons. by apply IH, loopInv_step.
Qed.

(** However the calls of the registry overlap, the registry stays
    well formed, and every request that is waiting for its mail has its
    code on record. *)
Theorem overlapping_calls_keep_invariant es :
  loopInv (runLoop env P es initialLoop).2.
Proof. apply loopInv_runLoop, loopInv_initial. Qed.

(** A request whose mail settles before any other call runs is
    [requestInviteCode] as one call: the loop extends the sequential
    model. *)
Theorem sequential_request_in_loop email name s :
  inflight s = [] ->
  runLoop env P [Begin email name; End 0] s =
  ([ReplyRequest (evalM (requestInviteCodeWith env P email name) (world s))],
   mkLoopState (execM (requestInviteCodeWith env P email name) (world s)) []).
Proof.
  intros Hs. unfold evalM, execM. cbn [runLoop loopStep].
  destruct (requestInviteCodePrepare _ _ _ _) as [[r|code] w] eqn:E.
  - rewrite (request_early env P _ _ _ _ _ E). cbn. by rewrite Hs.
  - rewrite (request_sent env P _ _ _ _ _ E). cbn. rewrite Hs. cbn.
    unfold evalM, execM. by destruct (sendEmail _ _ _ _).
Qed.

(** Event [e] in state [s] stores a record under [code], or a request
    entry for [email]. *)
Definition loopIssues (e : LoopEvent) (s : LoopState) (code : string) : Prop :=
  from_option (fun c => issues env c (world s) code) False (startedCall e).

Definition loopGrants (e : LoopEvent) (s : LoopState) (email : string) : Prop :=
  from_option (fun c => grants env c (world s) email) False (startedCall e).

(** No event of [es], run from [s], satisfies [bad]. *)
Fixpoint never (bad : LoopEvent -> LoopState -> Prop) (es : list LoopEvent)
    (s : LoopState) : Prop :=
  match es with
  | [] => True
  | e :: es' => ~ bad e s /\ never bad es' (loopStep env P e s).2
  end.

(** The calls an interleaving starts, in order. *)
Fixpoint startedCalls (es : list LoopEvent) : list Call :=
  match es with
  | [] => []
  | e :: es' => from_option (fun c => [c]) [] (startedCall e) ++ startedCalls es'
  end.

(** The reply each of them gives when it runs alone in the state its event
    finds. *)
Fixpoint aloneReplies (es : list LoopEvent) (s : LoopState) : list Reply :=
  match es with
  | [] => []
  | e :: es' =>
      from_option (fun c => [evalM (handle env P c) (world s)]) []
        (startedCall e)
      ++ aloneReplies es' (loopStep env P e s).2
  end.

(** ** One event and the two maps *)

Lemma loopStep_maps e s :
  let w' := from_option (fun c => execM (handle env P c) (world s)) (world s)
              (startedCall e) in
  inviteCodes (world (loopStep env P e s).2) = inviteCodes w' /\
  emailRequests (world (loopStep env P e s).2) = emailRequests w'.
Proof.
  destruct e as [email name|k|code|]; cbn [startedCall from_option loopStep].
  - rewrite handle_request_exec.
    destruct (request_exec env P email name (world s)) as (-> & -> & _).
    by destruct (requestInviteCodePrepare _ _ _ _) as [[r|code] w].
  - destruct (inflight s !! k) as [p|]; [|done].
    pose proof (sendEmail_inviteCodes (pendingEmail p) (pendingCode p)
                  (pendingName p) (world s)) as Hc.
    pose proof (sendEmail_emailRequests (pendingEmail p) (pendingCode p)
                  (pendingName p) (world s)) as Hr.
    unfold execM in Hc, Hr. by destruct (sendEmail _ _ _ _).
  - rewrite handle_validate_exec. unfold execM.
    by destruct (validateInviteCode _ _ _).
  - rewrite handle_exec. unfold execM. by destruct (getInviteStats _ _).
Qed.

Lemma runLoop_nil s : (runLoop env P [] s).2 = s.
Proof. done. Qed.

Lemma loopStep_worldInv e s :
  worldInv (world s) -> worldInv (world (loopStep env P e s).2).
Proof.
  intros Hw. destruct (loopStep_maps e s) as [Hc Hr].
  apply (worldInv_ext _ _ Hc Hr).
  destruct (startedCall e); [by apply worldInv_handle|done].
Qed.

(** A record that is used stays as it is until its code is issued again. *)
Lemma loop_keeps_used e s code i :
  mapGet code (inviteCodes (world s)) = Some i -> used i = true ->
  ~ loopIssues e s code ->
  mapGet code (inviteCodes (world (loopStep env P e s).2)) = Some i.
Proof.
  intros Hget Hu Hn. rewrite (proj1 (loopStep_maps e s)).
  unfold loopIssues in Hn. destruct (startedCall e) as [c|]; [|done].
  destruct (handle_keeps_invite env P c _ code i Hget Hn) as [H|(_ & Hf & _)];
    [done|congruence].
Qed.

(** A request entry stays as it is until its requester is granted a code. *)
Lemma loop_keeps_request e s email r :
  mapGet email (emailRequests (world s)) = Some r ->
  ~ loopGrants e s email ->
  mapGet email (emailRequests (world (loopStep env P e s).2)) = Some r.
Proof.
  intros Hget Hn. rewrite (proj2 (loopStep_maps e s)).
  unfold loopGrants in Hn. destruct (startedCall e) as [c|]; [|done].
  by apply handle_keeps_request.
Qed.

(** Over an interleaving. *)
Lemma never_keeps (bad : LoopEvent -> LoopState -> Prop)
    (I : LoopState -> Prop) es s :
  (forall e s, I s -> ~ bad e s -> I (loopStep env P e s).2) ->
  I s -> never bad es s -> I (runLoop env P es s).2.
Proof.
  intros Hstep. revert s. induction es as [|e es IH]; intros s Hs Hn; [done|].
  destruct Hn as [Hb Hn]. rewrite runLoop_snd_cons.
  apply IH; [by apply Hstep|done].
Qed.

Lemma loop_used_stays es s code i :
  mapGet code (inviteCodes (world s)) = Some i -> used i = true ->
  never (fun e s => loopIssues e s code) es s ->
  mapGet code (inviteCodes (world (runLoop env P es s).2)) = Some i.
Proof.
  intros Hget Hu.
  apply (never_keeps (fun e s => loopIssues e s code)
           (fun s => mapGet code (inviteCodes (world s)) = Some i)); [|done].
  intros e s' Hs' Hb. by apply loop_keeps_used.
Qed.

Lemma loop_request_stays es s email r :
  mapGet email (emailRequests (world s)) = Some r ->
  never (fun e s => loopGrants e s email) es s ->
  mapGet email (emailRequests (world (runLoop env P es s).2)) = Some r.
Proof.
  apply (never_keeps (fun e s => loopGrants e s email)
           (fun s => mapGet email (emailRequests (world s)) = Some r)).
  intros e s' Hs' Hb. by apply loop_keeps_request.
Qed.

(** ** The abstract registry *)

(** An event is the abstract step of the call it starts, or no step. *)
Lemma loopStep_sim e s :
  loopInv s ->
  match startedCall e with
  | Some c =>
      astep (abs (world s)) c (evalM (handle env P c) (world s))
        (abs (world (loopStep env P e s).2))
  | None => abs (world (loopStep env P e s).2) = abs (world s)
  end.
Proof.
  intros [Hw _]. destruct (loopStep_maps e s) as [Hc Hr].
  rewrite (abs_ext _ _ Hc Hr). destruct (startedCall e) as [c|]; [|done].
  by apply handle_sim.
Qed.

Lemma asteps_runLoop es s :
  loopInv s ->
  asteps (abs (world s)) (startedCalls es) (aloneReplies es s)
    (abs (world (runLoop env P es s).2)).
Proof.
  revert s. induction es as [|e es IH]; intros s Hs; [apply ANil|].
  rewrite runLoop_snd_cons. specialize (IH _ (loopInv_step e s Hs)).
  pose proof (loopStep_sim e s Hs) as He.
  cbn [startedCalls aloneReplies].
  destruct (startedCall e) as [c|]; cbn [from_option app].
  - by eapply ACons.
  - by rewrite <- He.
Qed.

(** A reply that is given at once is the reply of the call alone. *)
Lemma reply_at_once e c r s :
  startedCall e = Some c ->
  (loopStep env P e s).1 = Some r ->
  r = evalM (handle env P c) (world s).
Proof.
  destruct e as [email name|k|code|]; intros [= <-]; rewrite handle_eval;
    cbn [loopStep]; unfold evalM.
  - destruct (requestInviteCodePrepare _ _ _ _) as [[r'|code] w] eqn:E;
      [|done].
    rewrite (request_early env P _ _ _ _ _ E). by intros [= <-].
  - destruct (validateInviteCode _ _ _). by intros [= <-].
  - destruct (getInviteStats _ _). by intros [= <-].
Qed.

(** A request that suspends has stored the code that its reply will
    carry, and the reply at the end is one that the abstract step of the
    request allows. *)
Lemma reply_at_end email name k p s :
  (loopStep env P (Begin email name) s).1 = None ->
  let s1 := (loopStep env P (Begin email name) s).2 in
  (exists code sent,
     inflight s1 = inflight s ++ [mkPending email (default "" name) code] /\
     evalM (handle env P (CallRequest email name)) (world s) =
     ReplyRequest (issueReply sent code)) /\
  forall s2, inflight s2 !! k = Some p ->
    exists sent,
      (loopStep env P (End k) s2).1 =
      Some (ReplyRequest (issueReply sent (pendingCode p))).
Proof.
  intros Hb s1. split.
  - subst s1. revert Hb. rewrite handle_eval. cbn [loopStep]. unfold evalM.
    destruct (requestInviteCodePrepare _ _ _ _) as [[r'|code] w] eqn:E;
      [done|intros _].
    rewrite (request_sent env P _ _ _ _ _ E). by eexists _, _.
  - intros s2 Hk. cbn [loopStep]. rewrite Hk.
    destruct (sendEmail _ _ _ _) as [r w]. by exists (success r).
Qed.

End Overlap.

(** C38: overlapping calls refine the abstract registry.  Every
    interleaving of the halves of requests with validations and
    statistics, from the empty registry, is a run of the abstract
    registry on the calls in the order they start, each with the reply it
    gives when it runs alone in the state it finds; the maps at the end
    are those the rules produce. *)
Theorem overlap_refines env (P : EmailProvider) es :
  asteps (mkAState ∅ ∅) (startedCalls es) (aloneReplies env P es initialLoop)
    (abs (world (runLoop env P es initialLoop).2)).
Proof. apply (asteps_runLoop env P es initialLoop), loopInv_initial. Qed.

(** C25: redemption is atomic in the event loop.  After [validateInviteCode]
    has accepted a code, every later validation of that code answers
    "already used", whatever requests are begun, left waiting for their
    mail or settled in between, as long as none of them issues the same
    code again. *)
Theorem overlap_redeems_once env (P : EmailProvider) code e n es s :
  (loopStep env P (Validate code) s).1 = Some (ReplyValidate (ValidateOk e n)) ->
  let s1 := (loopStep env P (Validate code) s).2 in
  never env P (fun e s => loopIssues env e s code) es s1 ->
  (loopStep env P (Validate code) (runLoop env P es s1).2).1 =
  Some (ReplyValidate (ValidateError msgAlreadyUsed)).
Proof.
  cbn [loopStep]. destruct (validateP env code (world s)) as [| | |i Hget Hu He];
    cbn [fst snd]; try done.
  intros _ Hn.
  apply (loop_used_stays env P es _ code (markUsed (readAt env (world s) 1) i))
    in Hn; [|apply mapGet_mapSet_eq|done].
  by rewrite (validate_used env code _ _ Hn eq_refl).
Qed.

(** C31: the cooldown is atomic in the event loop.  A request that was granted
    has its entry on record when it suspends, so a second request of the
    same address, begun while the first is still waiting for its mail or
    later, is refused while the clock is less than five minutes past the
    entry. *)
Theorem overlap_cooldown env (P : EmailProvider) email name name' es s :
  loopInv s ->
  (loopStep env P (Begin email name) s).1 = None ->
  let s1 := (loopStep env P (Begin email name) s).2 in
  never env P (fun e s => loopGrants env e s email) es s1 ->
  let s2 := (runLoop env P es s1).2 in
  exists r, mapGet email (emailRequests (world s2)) = Some r /\
    (readAt env (world s2) 0 - timestamp r < cooldownMs ->
     loopStep env P (Begin email name') s2 =
     (Some (ReplyRequest (RequestError msgRateLimited)),
      mkLoopState (advance 1 0 (world s2)) (inflight s2))).
Proof.
  intros Hs Hb s1 Hn s2.
  assert (exists r, mapGet email (emailRequests (world s1)) = Some r) as [r Hr].
  { subst s1. revert Hb. cbn [loopStep].
    destruct (prepareP env email (default "" name) (world s));
      cbn [fst snd world issued emailRequests]; try done;
      intros _; eexists; apply mapGet_mapSet_eq. }
  assert (Hr2 : mapGet email (emailRequests (world s2)) = Some r)
    by by apply loop_request_stays.
  assert (Hw : worldInv (world s2))
    by by apply loop_world, loopInv_runLoop, loopInv_step.
  clearbody s2. exists r. split; [done|]. intros Ht.
  destruct (inv_request _ Hw _ _ Hr2) as [Hv _].
  cbn [loopStep].
  by rewrite (prepare_limited env email (default "" name') r _ Hv Hr2 Ht).
Qed.

(** ** Worked examples *)

Lemma sequential_request_in_loop_witness :
  runLoop fastEnv (mockProvider fastEnv) [Begin "a@b.c" None; End 0]
    initialLoop =
  ([ReplyRequest (RequestOk msgSent "C2Cloyw3v28A")],
   mkLoopState
     (execM (requestInviteCode fastEnv "a@b.c" None) emptyWorld) []).
Proof.
  apply (sequential_request_in_loop fastEnv (mockProvider fastEnv) "a@b.c"
           None initialLoop eq_refl).
Defined.

(** A code is live from the moment it is stored: it is redeemed while
    its mail is still waiting to be sent, and stays redeemed when the
    dispatch then fails and the requester is told so. *)
Example redeemed_before_dispatch :
  (runLoop fastEnv failingProvider
     [Begin "a@b.c" None; Validate "C2Cloyw3v28A"; End 0] initialLoop).1 =
  [ReplyValidate (ValidateOk "a@b.c" "");
   ReplyRequest (RequestError msgDispatchFailed)].
Proof. vm_compute. reflexivity. Qed.


(** A code is redeemed while its own request and a second request are
    waiting for their mail; after both have settled it is refused. *)
Lemma overlap_redeems_once_witness :
  let s := (runLoop fastEnv (mockProvider fastEnv) [Begin "a@b.c" None]
              initialLoop).2 in
  let s1 := (loopStep fastEnv (mockProvider fastEnv)
               (Validate "C2Cloyw3v28A") s).2 in
  (loopStep fastEnv (mockProvider fastEnv) (Validate "C2Cloyw3v28A")
     (runLoop fastEnv (mockProvider fastEnv)
        [Begin "x@y.z" (Some "Bo"); End 1; StatsCall; End 0] s1).2).1 =
  Some (ReplyValidate (ValidateError msgAlreadyUsed)).
Proof.
  apply (overlap_redeems_once fastEnv (mockProvider fastEnv) "C2Cloyw3v28A"
           "a@b.c" "").
  - vm_compute. reflexivity.
  - solve_never.
Defined.

(** A second request of an address whose first request is still waiting
    for its mail is refused. *)
Lemma overlap_cooldown_witness :
  let s1 := (loopStep fastEnv (mockProvider fastEnv) (Begin "a@b.c" None)
               initialLoop).2 in
  let s2 := (runLoop fastEnv (mockProvider fastEnv)
               [Begin "x@y.z" None; StatsCall] s1).2 in
  inflight s2 =
    [mkPending "a@b.c" "" "C2Cloyw3v28A"; mkPending "x@y.z" "" "C2Cloyw4pxcA"] /\
  (loopStep fastEnv (mockProvider fastEnv) (Begin "a@b.c" (Some "Al")) s2).1 =
  Some (ReplyRequest (RequestError msgRateLimited)).
Proof.
  destruct (overlap_cooldown fastEnv (mockProvider fastEnv) "a@b.c" None
              (Some "Al") [Begin "x@y.z" None; StatsCall] initialLoop)
    as (r & Hr & Hlim).
  - apply loopInv_initial.
  - vm_compute. reflexivity.
  - solve_never.
  - intros s1 s2. split; [vm_compute; reflexivity|].
    subst s1 s2. rewrite Hlim; [done|].
    vm_compute in Hr. injection Hr as <-. vm_compute. reflexivity.
Defined.
