(* ===== verification/ServerLoop.v ===== *)
(** * ServerLoop: HTTP requests that overlap, [src/api/server.js]

    The handler of [POST /api/invite/request] is [async] and waits for
    [requestInviteCode] (line 50), which waits for the mail (line 181 of
    [src/api/invite-service.js]).  While it waits, express handles the
    requests that arrive.  The other handlers have no [await].

    ** Model

    - The state is the state of [EventLoop]: the registry and the
      requests that wait for their mail.  A handler that waits keeps
      nothing else: its answer is a function of what [requestInviteCode]
      returns ([sendResult], lines 52-63).
    - [Arrive req] is a request that reaches the application.  When it
      gets as far as line 50 ([awaitedRequest]), the logger has read the
      clock and the request begins ([EventLoop.Begin]): a request that is
      refused is answered at once, one that is granted waits.  Every
      other request is answered as [Server.application] answers it.
    - [Settle k] is the mail of the [k]-th waiting request settling
      ([EventLoop.End]); the handler then answers.
    - [runServer] is a sequence of events, with the answers in the order
      they are sent. *)

From stdpp Require Import gmap strings list.
From Stdlib Require Import ZArith.
From Stdlib.Strings Require Import Byte Ascii.
From S2P Require Import Prelude JsString Encoding Regex Runtime JsMap JsValue.
From S2P Require Import InviteService InviteInvariant Server EventLoop.

#[local] Open Scope c2c_scope.
#[local] Open Scope Z_scope.

Inductive HttpEvent : Type :=
| Arrive (req : Request)
| Settle (k : nat).

(** The answer of lines 52-63, for the result of [requestInviteCode]. *)
Definition sendResult (result : RequestResult) : Response :=
  if requestSucceeded result then mkResponse 200 (requestJson result)
  else mkResponse 400 (requestJson result).

(** The arguments of [requestInviteCode] at line 50, for a request that
    gets there. *)
Definition awaitedRequest (req : Request) : option (string * option string) :=
  match body req, method req with
  | BodyFields fields, POST =>
      if routeMatches "/api/invite/request" (path req) &&
         negb (missing (bodyField "email" fields))
      then Some (default "" (bodyField "email" fields),
                 bodyField "userName" fields)
      else None
  | _, _ => None
  end.

(** What the handler sends when [requestInviteCode] has returned. *)
Definition answerOf (r : Reply) : option Sent :=
  match r with
  | ReplyRequest result => Some (WithBody (sendResult result))
  | _ => None
  end.

Section ServerLoop.
Context (env : Env) (P : EmailProvider) (toISOString : Z -> string).

Definition serverStep (e : HttpEvent) (s : LoopState)
    : option Sent * LoopState :=
  match e with
  | Arrive req =>
      match awaitedRequest req with
      | Some (email, userName) =>
          let logged :=
            mkLoopState (execM (Date_now env) (world s)) (inflight s) in
          let '(r, s1) := loopStep env P (Begin email userName) logged in
          (r ≫= answerOf, s1)
      | None =>
          let '(a, w) := application env P toISOString req (world s) in
          (Some a, mkLoopState w (inflight s))
      end
  | Settle k =>
      let '(r, s1) := loopStep env P (End k) s in
      (r ≫= answerOf, s1)
  end.

Fixpoint runServer (es : list HttpEvent) (s : LoopState)
    : list Sent * LoopState :=
  match es with
  | [] => ([], s)
  | e :: es' =>
      let '(a, s1) := serverStep e s in
      let '(rest, s2) := runServer es' s1 in
      (match a with Some x => x :: rest | None => rest end, s2)
  end.

End ServerLoop.
