(* ===== verification/ServerLoopProps.v ===== *)
(** * ServerLoopProps: the server under overlapping requests

    - [server_sequential]: a request whose mail settles before the next
      request arrives is answered as [Server.application] answers it, so
      [ServerLoop] extends the sequential model.
    - [serverStep_maps]: an arrival leaves in the two [Map]s what the call
      it amounts to leaves there after the reading of the logger; a mail
      that settles leaves them as they are.
    - [http_overlap_refines]: every interleaving of arrivals and settling
      mails is a run of the abstract registry on the calls in the order
      of arrival, and the answer sent on arrival is the reply of the call
      as JSON.
    - [answer_at_once]: an answer that is sent on arrival is the answer of
      the sequential server.
    - [second_request_refused_while_first_waits]: the cooldown seen over
      HTTP. *)

From stdpp Require Import gmap strings list.
From Stdlib Require Import ZArith.
From Stdlib.Strings Require Import Byte Ascii.
From S2P Require Import Prelude JsString Encoding Regex Runtime JsMap JsValue.
From S2P Require Import InviteService InviteLemmas InviteCode InviteInvariant.
From S2P Require Import InviteProps InviteSpec Server ServerProps.
From S2P Require Import EventLoop EventLoopProps ServerLoop.

#[local] Open Scope c2c_scope.
#[local] Open Scope Z_scope.

(** The call an event amounts to. *)
Definition arrivedCall (e : HttpEvent) : option Call :=
  match e with
  | Arrive req => callOf req
  | Settle _ => None
  end.

Fixpoint arrivedCalls (es : list HttpEvent) : list Call :=
  match es with
  | [] => []
  | e :: es' => from_option (fun c => [c]) [] (arrivedCall e) ++ arrivedCalls es'
  end.

Lemma sendResult_replyJson r : sendResult r = replyJson (ReplyRequest r).
Proof. unfold sendResult, replyJson. by destruct (requestSucceeded r). Qed.

(** A request waits exactly when it amounts to a call of
    [requestInviteCode]. *)
Lemma awaitedRequest_callOf req :
  match awaitedRequest req with
  | Some (email, name) => callOf req = Some (CallRequest email name)
  | None => forall email name, callOf req <> Some (CallRequest email name)
  end.
Proof.
  destruct req as [m p [|fields]]; unfold awaitedRequest, callOf;
    cbn [body method path]; [by destruct m|].
  destruct m; try done; try (by repeat case_match).
  destruct (routeMatches "/api/invite/request" p); cbn [andb];
    [by destruct (missing (bodyField "email" fields))|].
  by repeat case_match.
Qed.

Section ServerLoopProps.
Context (env : Env) (P : EmailProvider) (toISOString : Z -> string).

(** The replies of the calls, each run alone after the reading of the
    logger. *)
Fixpoint servedReplies (es : list HttpEvent) (s : LoopState) : list Reply :=
  match es with
  | [] => []
  | e :: es' =>
      from_option
        (fun c => [evalM (handle env P c) (advance 1 0 (world s))]) []
        (arrivedCall e)
      ++ servedReplies es' (serverStep env P toISOString e s).2
  end.

Lemma runServer_snd_cons e es s :
  (runServer env P toISOString (e :: es) s).2 =
  (runServer env P toISOString es (serverStep env P toISOString e s).2).2.
Proof.
  cbn [runServer]. destruct (serverStep _ _ _ e s) as [r s1]. cbn [snd].
  by destruct (runServer _ _ _ es s1).
Qed.

(** ** One event and the two maps *)

Lemma serverStep_maps e s :
  let w' := from_option
              (fun c => execM (handle env P c) (advance 1 0 (world s)))
              (world s) (arrivedCall e) in
  inviteCodes (world (serverStep env P toISOString e s).2) = inviteCodes w' /\
  emailRequests (world (serverStep env P toISOString e s).2) = emailRequests w'.
Proof.
  destruct e as [req|k]; cbn [arrivedCall serverStep].
  - pose proof (awaitedRequest_callOf req) as Ha.
    destruct (awaitedRequest req) as [[email name]|].
    + rewrite Ha. cbn [from_option].
      pose proof (loopStep_maps env P (Begin email name)
                    (mkLoopState (execM (Date_now env) (world s)) (inflight s)))
        as Hm.
      by destruct (loopStep _ _ _ _).
    + destruct (callOf req) as [c|] eqn:Ec; cbn [from_option].
      * pose proof (application_call env P toISOString _ _ (world s) Ec) as E.
        unfold execM at 1 in E. destruct (application _ _ _ _ _).
        cbn in *. by subst.
      * destruct (application_no_call env P toISOString _ (world s) Ec)
          as (n & _ & E).
        unfold execM in E. destruct (application _ _ _ _ _). cbn in *. by subst.
  - pose proof (loopStep_maps env P (End k) s) as Hm.
    by destruct (loopStep _ _ _ _).
Qed.

Lemma serverStep_worldInv e s :
  worldInv (world s) ->
  worldInv (world (serverStep env P toISOString e s).2).
Proof.
  intros Hw. destruct (serverStep_maps e s) as [Hc Hr].
  apply (worldInv_ext _ _ Hc Hr).
  destruct (arrivedCall e); [by apply worldInv_handle, worldInv_advance|done].
Qed.

(** ** The abstract registry *)

Lemma serverStep_sim e s :
  worldInv (world s) ->
  match arrivedCall e with
  | Some c =>
      astep (abs (world s)) c (evalM (handle env P c) (advance 1 0 (world s)))
        (abs (world (serverStep env P toISOString e s).2))
  | None => abs (world (serverStep env P toISOString e s).2) = abs (world s)
  end.
Proof.
  intros Hw. destruct (serverStep_maps e s) as [Hc Hr].
  rewrite (abs_ext _ _ Hc Hr). destruct (arrivedCall e) as [c|]; [|done].
  rewrite <- (abs_advance 1 0 (world s)) at 1.
  by apply handle_sim, worldInv_advance.
Qed.

Lemma asteps_runServer es s :
  worldInv (world s) ->
  asteps (abs (world s)) (arrivedCalls es) (servedReplies es s)
    (abs (world (runServer env P toISOString es s).2)).
Proof.
  revert s. induction es as [|e es IH]; intros s Hs; [apply ANil|].
  rewrite runServer_snd_cons. specialize (IH _ (serverStep_worldInv e s Hs)).
  pose proof (serverStep_sim e s Hs) as He.
  cbn [arrivedCalls servedReplies].
  destruct (arrivedCall e) as [c|]; cbn [from_option app].
  - by eapply ACons.
  - by rewrite <- He.
Qed.

(** ** The answers *)

(** A request that waits is a [POST]: it passes [cors] and its answer
    leaves with its body. *)
Lemma awaited_application_run req email name w :
  awaitedRequest req = Some (email, name) ->
  application env P toISOString req w =
  (WithBody (replyJson (evalM (handle env P (CallRequest email name))
                          (advance 1 0 w))),
   execM (handle env P (CallRequest email name)) (advance 1 0 w)).
Proof.
  intros Ea. pose proof (awaitedRequest_callOf req) as Ha. rewrite Ea in Ha.
  assert (method req = POST) as Hm.
  { unfold awaitedRequest in Ea. by destruct (body req), (method req). }
  rewrite application_served by (by rewrite Hm).
  unfold evalM at 1, execM at 1.
  by rewrite (serve_call env P toISOString _ _ _ Ha), Hm.
Qed.

Lemma awaited_application req email name w :
  awaitedRequest req = Some (email, name) ->
  evalM (application env P toISOString req) w =
  WithBody (replyJson (evalM (handle env P (CallRequest email name))
                         (advance 1 0 w))).
Proof. intros Ea. unfold evalM at 1. by rewrite (awaited_application_run _ _ _ _ Ea). Qed.

(** An answer that is sent on arrival is the answer of the sequential
    server. *)
Lemma answer_at_once req a s :
  (serverStep env P toISOString (Arrive req) s).1 = Some a ->
  a = evalM (application env P toISOString req) (world s).
Proof.
  cbn [serverStep]. pose proof (awaitedRequest_callOf req) as Ha.
  destruct (awaitedRequest req) as [[email name]|] eqn:Ea.
  - rewrite (awaited_application _ _ _ _ Ea).
    cbn [fst loopStep]. rewrite handle_eval. unfold evalM.
    change (execM (Date_now env) (world s)) with (advance 1 0 (world s)).
    cbn [world].
    destruct (requestInviteCodePrepare _ _ _ _) as [[r|code] w] eqn:E;
      [|done].
    rewrite (request_early env P _ _ _ _ _ E). cbn.
    intros [= <-]. by rewrite sendResult_replyJson.
  - unfold evalM. destruct (application _ _ _ _ _). by intros [= <-].
Qed.

(** A request whose mail settles before anything else happens is served
    as the sequential server serves it. *)
Theorem server_sequential req s :
  inflight s = [] ->
  runServer env P toISOString [Arrive req; Settle 0] s =
  ([evalM (application env P toISOString req) (world s)],
   mkLoopState (execM (application env P toISOString req) (world s)) []).
Proof.
  intros Hs. cbn [runServer serverStep].
  pose proof (awaitedRequest_callOf req) as Ha.
  destruct (awaitedRequest req) as [[email name]|] eqn:Ea.
  - rewrite (awaited_application _ _ _ _ Ea).
    unfold execM. rewrite (awaited_application_run _ _ _ _ Ea).
    rewrite handle_eval, handle_request_exec. cbn [fst snd].
    change (execM (Date_now env) (world s)) with (advance 1 0 (world s)).
    pose proof (sequential_request_in_loop env P email name
                  (mkLoopState (advance 1 0 (world s)) (inflight s)) Hs) as E.
    cbn [runLoop world] in E.
    destruct (loopStep env P (Begin email name) _) as [r1 s1].
    destruct (loopStep env P (End 0) s1) as [r2 s2].
    destruct r1, r2; simplify_eq; cbn; by rewrite ?sendResult_replyJson.
  - unfold evalM, execM. destruct (application _ _ _ _ _) as [a w].
    cbn [loopStep inflight fst snd]. by rewrite Hs.
Qed.

(** C37: whatever requests arrive over HTTP (preflights, bodiless probes
    and malformed ones included) and in whatever order the mails they
    await settle, the calls the requests make, in the order of arrival and
    each with the reply it gives when it runs alone behind the logger in
    the registry it finds, are a run of the abstract registry that ends in
    the registry of the server; and the answer a request gets on arrival
    is that reply as JSON, without its body for a [HEAD] request. *)
Theorem http_overlap_refines es :
  let s := (runServer env P toISOString es initialLoop).2 in
  asteps (mkAState ∅ ∅) (arrivedCalls es) (servedReplies es initialLoop)
    (abs (world s)) /\
  forall req c a,
    callOf req = Some c ->
    (serverStep env P toISOString (Arrive req) s).1 = Some a ->
    a = sentOf (method req)
          (replyJson (evalM (handle env P c) (advance 1 0 (world s)))).
Proof.
  split; [apply (asteps_runServer es initialLoop), worldInv_empty|].
  intros req c a Hc Ha.
  rewrite (answer_at_once _ _ _ Ha). by apply application_answer.
Qed.

End ServerLoopProps.

(** ** Worked examples *)

Definition postRequest (email : string) : Request :=
  mkRequest POST "/api/invite/request" (BodyFields [("email", email)]).

Definition postValidate (code : string) : Request :=
  mkRequest POST "/api/invite/validate" (BodyFields [("code", code)]).

(** Two requests of one address arrive before the mail of the first has
    settled: the second is answered 400 at once, the first 200 when its
    mail settles. *)
Example second_request_refused_while_first_waits :
  map sentStatus
    (runServer fastEnv (mockProvider fastEnv) (toStringRadix 10)
       [Arrive (postRequest "a@b.c"); Arrive (postRequest "a@b.c"); Settle 0]
       initialLoop).1 = [400; 200].
Proof. by vm_compute. Qed.

(** A code is redeemed over HTTP while the request that issued it is
    still waiting for its mail. *)
Example redeemed_while_request_waits :
  map sentStatus
    (runServer fastEnv (mockProvider fastEnv) (toStringRadix 10)
       [Arrive (postRequest "a@b.c"); Arrive (postValidate "C2Cloyw42s0A");
        Arrive (postValidate "C2Cloyw42s0A"); Settle 0]
       initialLoop).1 = [200; 200; 200] /\
  map (fun r => sentBody r ≫= field "valid")
    (runServer fastEnv (mockProvider fastEnv) (toStringRadix 10)
       [Arrive (postRequest "a@b.c"); Arrive (postValidate "C2Cloyw42s0A");
        Arrive (postValidate "C2Cloyw42s0A")]
       initialLoop).1 = [Some (JBool true); Some (JBool false)].
Proof. by vm_compute. Qed.

(** A preflight request arrives while a request waits: it is answered
    204 and the registry, its clock included, is as it was. *)
Example preflight_changes_nothing :
  let s := (serverStep fastEnv (mockProvider fastEnv) (toStringRadix 10)
              (Arrive (postRequest "a@b.c")) initialLoop).2 in
  serverStep fastEnv (mockProvider fastEnv) (toStringRadix 10)
    (Arrive (mkRequest OPTIONS "/api/invite/request" BodyMalformed)) s =
  (Some (StatusOnly 204), s).
Proof. by vm_compute. Qed.
