(* ===== verification/Menu.v ===== *)
(** * Menu: the menu page, [src/src/components/DynamicMenu.jsx]

    [DynamicMenu] loads the catalogue when it is mounted, searches it
    300 ms after the visitor stops typing, and shows the items of the
    search or of the selected tab.

    ** Model

    - [MenuState] is the seven [useState] cells of lines 18-24.
      [Component] adds what the runtime holds for the component between
      two events: whether the [Promise.all] of line 31 is still awaited,
      the timer of line 59 with the query its closure captured, and the
      calls of [searchMenuItems] that are awaited at line 52, oldest
      first, each with its query.
    - An event is a change of the input, a click, the timer firing, or a
      promise settling ([MenuEvent]).  [enabled] says when an event can
      happen: the input, the tabs and the cards are rendered only when
      [loading] is false (lines 169-178), a card only for a displayed item,
      a promise settles only when it is awaited.  [menuStep] is one event,
      [runMenu] a sequence of them from [mount].
    - The searches may settle in any order ([SearchSettles k]); with the
      built-in items they settle in the order they were started, which is
      one of the orders.
    - Every call of [getMenuItems] fetches the catalogue again, and falls
      back to the built-in items when the fetch fails.  An event in
      which a call settles therefore carries the catalogue as it
      answered that call, a [Contentful.Client]: [LoadSettles] the answer
      to [getMenuItems] and the answer that [getMenuCategories] got
      (line 31), [SearchSettles] the answer that [searchMenuItems] got
      (line 52).  Two calls of one run may see different catalogues.
    - [render] is what the component returns: the spinner, or the page
      with its cards ([MenuItemCard]), its message and its modal.  The
      class names and the layout are left out.

    Unmounting is not an event: it discards the component, and the
    cleanup of line 60 cancels the timer. *)

From HB Require Import structures.
From mathcomp Require Import boot.
From Stdlib Require Import String Ascii.
From S2P Require Import Prelude JsString Contentful.

Set Implicit Arguments.
Unset Strict Implicit.
Unset Printing Implicit Defensive.

#[local] Open Scope string_scope.
#[local] Open Scope seq_scope.

(** ** State *)

(** The [useState] cells (lines 18-24). *)
Record MenuState : Type := mkMenuState {
  menuItems : seq MenuItem;
  categories : seq string;
  loading : bool;
  searchQuery : string;
  searchResults : seq MenuItem;
  activeCategory : string;
  selectedItem : option MenuItem
}.

Definition initialState : MenuState :=
  mkMenuState [::] [::] true "" [::] "all" None.

Definition setMenuItems (v : seq MenuItem) (s : MenuState) : MenuState :=
  mkMenuState v (categories s) (loading s) (searchQuery s) (searchResults s)
    (activeCategory s) (selectedItem s).

Definition setCategories (v : seq string) (s : MenuState) : MenuState :=
  mkMenuState (menuItems s) v (loading s) (searchQuery s) (searchResults s)
    (activeCategory s) (selectedItem s).

Definition setLoading (v : bool) (s : MenuState) : MenuState :=
  mkMenuState (menuItems s) (categories s) v (searchQuery s) (searchResults s)
    (activeCategory s) (selectedItem s).

Definition setSearchQuery (v : string) (s : MenuState) : MenuState :=
  mkMenuState (menuItems s) (categories s) (loading s) v (searchResults s)
    (activeCategory s) (selectedItem s).

Definition setSearchResults (v : seq MenuItem) (s : MenuState) : MenuState :=
  mkMenuState (menuItems s) (categories s) (loading s) (searchQuery s) v
    (activeCategory s) (selectedItem s).

Definition setActiveCategory (v : string) (s : MenuState) : MenuState :=
  mkMenuState (menuItems s) (categories s) (loading s) (searchQuery s)
    (searchResults s) v (selectedItem s).

Definition setSelectedItem (v : option MenuItem) (s : MenuState) : MenuState :=
  mkMenuState (menuItems s) (categories s) (loading s) (searchQuery s)
    (searchResults s) (activeCategory s) v.

(** The component between two events. *)
Record Component : Type := mkComponent {
  state : MenuState;
  loadPending : bool;
  debounceTimer : option string;
  searches : seq string
}.

Definition withState (f : MenuState -> MenuState) (c : Component) : Component :=
  mkComponent (f (state c)) (loadPending c) (debounceTimer c) (searches c).

Definition withTimer (t : option string) (c : Component) : Component :=
  mkComponent (state c) (loadPending c) t (searches c).

Definition withSearches (qs : seq string) (c : Component) : Component :=
  mkComponent (state c) (loadPending c) (debounceTimer c) qs.

(** [xs] without its [k]-th element. *)
Definition removeAt (T : Type) (k : nat) (xs : seq T) : seq T :=
  take k xs ++ drop k.+1 xs.

(** ** The two effects *)

(** [loadMenuData] up to its [await] (lines 28-34). *)
Definition loadMenuDataStart (c : Component) : Component :=
  mkComponent (setLoading true (state c)) true (debounceTimer c) (searches c).

(** The effect of lines 49-61 after a render in which [searchQuery]
    changed: the cleanup of the previous run cancels its timer, and a new
    timer is set. *)
Definition searchEffect (c : Component) : Component :=
  withTimer (Some (searchQuery (state c))) c.

(** The component after its first render: both effects have run. *)
Definition mount : Component :=
  searchEffect (loadMenuDataStart (mkComponent initialState false None [::])).

(** The input's [onChange] (line 191): a value equal to the state causes
    no render, and the effect does not run again. *)
Definition onQueryChange (q : string) (c : Component) : Component :=
  if q == searchQuery (state c) then c
  else searchEffect (withState (setSearchQuery q) c).

(** [performSearch] up to its [await] (lines 50-52, 54-56), for the query
    [q] of its closure. *)
Definition performSearchStart (q : string) (c : Component) : Component :=
  if truthyString (trim q) then withSearches (rcons (searches c) q) c
  else withState (setSearchResults [::]) c.

(** The tabs the page has (lines 199-201). *)
Definition tabValues : seq string := [:: "all"; "curry"; "dessert"].

(** [getFilteredItems] (lines 64-76). *)
Definition getFilteredItems (s : MenuState) : seq MenuItem :=
  if truthyString (trim (searchQuery s)) then searchResults s
  else if activeCategory s == "all" then menuItems s
  else filter (sameCategory (activeCategory s)) (menuItems s).

(** ** Events *)

Inductive MenuEvent : Type :=
| LoadSettles (items cats : Client)
| TypeQuery (q : string)
| TimerFires
| SearchSettles (k : nat) (answer : Client)
| SelectTab (value : string)
| ViewDetails (item : MenuItem)
| CloseDetails.

(** The events of the runtime, as opposed to those of the visitor. *)
Definition internal (e : MenuEvent) : bool :=
  match e with
  | LoadSettles _ _ | TimerFires | SearchSettles _ _ => true
  | _ => false
  end.

(** When an event can happen. *)
Definition enabled (e : MenuEvent) (c : Component) : bool :=
  match e with
  | LoadSettles _ _ => loadPending c
  | TimerFires => isSome (debounceTimer c)
  | SearchSettles k _ => k < size (searches c)
  | TypeQuery _ => ~~ loading (state c)
  | SelectTab value => ~~ loading (state c) && (value \in tabValues)
  | ViewDetails item =>
      ~~ loading (state c) && (item \in getFilteredItems (state c))
  | CloseDetails => ~~ loading (state c) && isSome (selectedItem (state c))
  end.

(** [loadMenuData] after its [await] (lines 36-38), with the answers to
    its two calls.  The two calls do not reject, so the handler of lines
    39-42 does not run. *)
Definition loadMenuDataDone (items cats : Client) (c : Component)
    : Component :=
  mkComponent
    (setLoading false
       (setCategories ("all" :: getMenuCategories cats)
          (setMenuItems (getMenuItems items) (state c))))
    false (debounceTimer c) (searches c).

(** [performSearch] after its [await] (lines 52-53), for the [k]-th call
    in flight and the catalogue that answered it. *)
Definition performSearchDone (k : nat) (answer : Client) (c : Component)
    : Component :=
  withSearches (removeAt k (searches c))
    (withState
       (setSearchResults (searchMenuItems answer (nth "" (searches c) k))) c).

(** What an enabled event does. *)
Definition fire (e : MenuEvent) (c : Component) : Component :=
  match e with
  | LoadSettles items cats => loadMenuDataDone items cats c
  | TypeQuery q => onQueryChange q c
  | TimerFires =>
      match debounceTimer c with
      | Some q => performSearchStart q (withTimer None c)
      | None => c
      end
  | SearchSettles k answer => performSearchDone k answer c
  | SelectTab value => withState (setActiveCategory value) c
  | ViewDetails item => withState (setSelectedItem (Some item)) c
  | CloseDetails => withState (setSelectedItem None) c
  end.

Definition menuStep (e : MenuEvent) (c : Component) : Component :=
  if enabled e c then fire e c else c.

Definition runMenu (es : seq MenuEvent) (c : Component) : Component :=
  foldl (fun c e => menuStep e c) c es.

(** ** What is rendered *)

(** The picture of a card (lines 82, 93-107). *)
Inductive Picture : Type :=
| Photo (src alt : string)
| Placeholder (curry : bool) (label : string).

(** [MenuItemCard] (lines 79-167). *)
Record Card : Type := mkCard {
  cardKey : string;
  limitedAccessBanner : bool;
  cardPicture : Picture;
  overlayMinutes : nat;
  overlayCalories : nat;
  cardSpice : option SpiceDisplay;
  cardName : string;
  cardPrice : string;
  cardDescription : string;
  cardBadges : seq Badge;
  onViewDetails : MenuEvent
}.

Definition MenuItemCard (item : MenuItem) : Card :=
  let spice := getSpiceLevelDisplay (spiceLevel item) in
  let dietaryBadges := getDietaryBadges item in
  {| cardKey := sysId item;
     limitedAccessBanner := isLimitedAccess item;
     cardPicture :=
       match imageUrl item with
       | Some url =>
           if truthyString url then Photo url (name item)
           else Placeholder (category item == "Curry") (name item)
       | None => Placeholder (category item == "Curry") (name item)
       end;
     overlayMinutes := preparationTime item;
     overlayCalories := calories item;
     cardSpice := if 0 < spiceLevel item then Some spice else None;
     cardName := name item;
     cardPrice := formatPrice (price item);
     cardDescription := description item;
     cardBadges := dietaryBadges;
     onViewDetails := ViewDetails item |}.

(** The modal of lines 222-281. *)
Record Modal : Type := mkModal {
  modalName : string;
  modalImage : option string;
  modalDescription : string;
  modalPrice : string;
  modalMinutes : nat;
  modalCalories : nat;
  modalCategory : string;
  modalIngredients : seq string
}.

Definition modalOf (item : MenuItem) : Modal :=
  {| modalName := name item;
     modalImage :=
       match imageUrl item with
       | Some url => if truthyString url then Some url else None
       | None => None
       end;
     modalDescription := description item;
     modalPrice := formatPrice (price item);
     modalMinutes := preparationTime item;
     modalCalories := calories item;
     modalCategory := category item;
     modalIngredients := ingredients item |}.

Inductive MenuView : Type :=
| Spinner
| MenuPage (query tab : string) (cards : seq Card) (message : option string)
    (modal : option Modal).

(** What the component returns (lines 169-283). *)
Definition render (s : MenuState) : MenuView :=
  if loading s then Spinner
  else
    let filteredItems := getFilteredItems s in
    MenuPage (searchQuery s) (activeCategory s)
      (map MenuItemCard filteredItems)
      (if size filteredItems == 0 then
         Some (if truthyString (searchQuery s)
               then "No items found matching your search."
               else "No items available in this category.")
       else None)
      (omap modalOf (selectedItem s)).
