(* ===== verification/MenuProps.v ===== *)
(** * MenuProps: what the menu page shows, and when

    - The invariant [menuInv] of the component of [Menu], kept by every
      event ([menuInv_step]), hence by every sequence of events from
      [mount]: what is on the page comes from a catalogue that answered
      one of the calls, in its order ([shown_items_from_catalogue],
      [card_keys_uniq]); when every call is answered alike, from that
      catalogue ([steady_items_shown]).
    - Termination: [work] counts what the runtime still owes the
      component (the load, the timer, the searches in flight); every timer
      or promise event decreases it ([work_step]), so these events run out
      ([internal_events_terminate]).
    - Liveness: [settlesNext] is one timer or promise event with the answers
      in the order of the calls, each answer one that the catalogue may
      give ([allowed]); on every maximal sequence of them the spinner
      goes away ([spinner_eventually_gone]) and the page comes to show
      an answer to the last query ([search_eventually_shown]), by
      [Prelude.eventually_measure].
    - The debounce: one search per firing of the timer, for the query on
      the page ([debounce_coalesces]).
    - What modelling showed: an answer that arrives late replaces a newer
      one ([late_answer_overwrites], [late_answer_shown]); the tabs and
      the items can come from different catalogues
      ([items_and_categories_differ]); a category outside the three tabs
      can only be seen under the first tab ([tab_items],
      [third_category_has_no_tab]); a blank query over an empty tab is
      reported as a search without results ([blank_query_message]). *)

From HB Require Import structures.
From mathcomp Require Import boot.
From Stdlib Require Import String Ascii.
From S2P Require Import Prelude JsString Contentful ContentfulProps Menu.

Set Implicit Arguments.
Unset Strict Implicit.
Unset Printing Implicit Defensive.

#[local] Open Scope string_scope.
#[local] Open Scope seq_scope.

#[local] Arguments getMenuItems : simpl never.
#[local] Arguments getMenuCategories : simpl never.
#[local] Arguments searchMenuItems : simpl never.
#[local] Arguments runMenu : simpl never.

(** What the runtime still owes the component. *)
Definition work (c : Component) : nat :=
  loadPending c + (isSome (debounceTimer c)).*2 + size (searches c).

(** The timer and promise events in which the oldest call settles. *)
Definition fifo (e : MenuEvent) : bool :=
  match e with
  | LoadSettles _ _ | TimerFires | SearchSettles 0 _ => true
  | _ => false
  end.

(** The catalogues that answered the calls that an event settles, and
    those of a run from [c]: the answers of the events that the component
    took. *)
Definition answersOf (e : MenuEvent) : seq (seq MenuItem) :=
  match e with
  | LoadSettles items cats => [:: getMenuItems items; getMenuItems cats]
  | SearchSettles _ answer => [:: getMenuItems answer]
  | _ => [::]
  end.

Fixpoint catalogues (c : Component) (es : seq MenuEvent)
    : seq (seq MenuItem) :=
  if es is e :: es' then
    (if enabled e c then answersOf e else [::]) ++ catalogues (menuStep e c) es'
  else [::].

(** [xs] is empty or a part, in order, of one of the catalogues [K]. *)
Definition fromOne (K : seq (seq MenuItem)) (xs : seq MenuItem) : bool :=
  (xs == [::]) || has (fun items => subseq xs items) K.

Lemma size_removeAt (T : Type) k (xs : seq T) :
  k < size xs -> size (removeAt k xs) = (size xs).-1.
Proof.
  move=> Hk. rewrite /removeAt size_cat size_take size_drop Hk.
  by rewrite -subn1 -addn1 subnDA addnBA ?subnKC // ?subn_gt0 // ltnW.
Qed.

Lemma removeAt0 (T : Type) (x : T) xs : removeAt 0 (x :: xs) = xs.
Proof. by rewrite /removeAt /= drop0. Qed.

Lemma all_removeAt (T : eqType) (p : pred T) k xs :
  all p xs -> all p (removeAt k xs).
Proof.
  move=> /allP H. apply/allP => x. rewrite /removeAt mem_cat.
  by case/orP => [/mem_take|/mem_drop]; exact: H.
Qed.

Lemma has_cat_l (T : Type) (p : pred T) xs ys : has p xs -> has p (xs ++ ys).
Proof. by rewrite has_cat => ->. Qed.

Lemma fromOne_cat K K' xs : fromOne K xs -> fromOne (K ++ K') xs.
Proof. by rewrite /fromOne has_cat => /orP [->|->] //; rewrite !orbT. Qed.

Lemma fromOne_subseq K xs ys : subseq xs ys -> fromOne K ys -> fromOne K xs.
Proof.
  move=> Hs. case/orP => [/eqP E|/hasP [items Hi Hy]].
  - by move: Hs; rewrite E subseq0 /fromOne => ->.
  - apply/orP; right. apply/hasP. exists items => //. exact: subseq_trans Hy.
Qed.

Lemma fromOne_mem K items : items \in K -> fromOne K items.
Proof. by move=> Hi; apply/orP; right; apply/hasP; exists items. Qed.

(** The categories and the search are functions of the items that a
    call of [getMenuItems] returned. *)
Definition categoriesOf (items : seq MenuItem) : seq string :=
  sort leString (newSet (map category items)).

Lemma getMenuCategories_items a :
  getMenuCategories a = categoriesOf (getMenuItems a).
Proof. by []. Qed.

Lemma searchMenuItems_items a b q :
  getMenuItems a = getMenuItems b -> searchMenuItems a q = searchMenuItems b q.
Proof. by rewrite /searchMenuItems => ->. Qed.

Lemma run_cons e es c : runMenu (e :: es) c = runMenu es (menuStep e c).
Proof. by []. Qed.

Lemma run_rcons es e c : runMenu (rcons es e) c = menuStep e (runMenu es c).
Proof. by rewrite /runMenu -cats1 foldl_cat. Qed.

Lemma run_nil c : runMenu [::] c = c.
Proof. by []. Qed.

(** *** One equation per event, on a component that is written out *)

Lemma load_step a b s t ss :
  menuStep (LoadSettles a b) (mkComponent s true t ss) =
  mkComponent
    (setLoading false
       (setCategories ("all" :: getMenuCategories b)
          (setMenuItems (getMenuItems a) s))) false t ss.
Proof. by []. Qed.

Lemma type_step mi cats q rs tab sel lp t ss q' :
  q' != q ->
  menuStep (TypeQuery q')
    (mkComponent (mkMenuState mi cats false q rs tab sel) lp t ss) =
  mkComponent (mkMenuState mi cats false q' rs tab sel) lp (Some q') ss.
Proof. by rewrite /menuStep /= /onQueryChange /= => /negbTE ->. Qed.

Lemma timer_step s lp q ss :
  truthyString (trim q) ->
  menuStep TimerFires (mkComponent s lp (Some q) ss) =
  mkComponent s lp None (rcons ss q).
Proof. by rewrite /menuStep /= /performSearchStart => ->. Qed.

Lemma timer_step_blank s lp q ss :
  ~~ truthyString (trim q) ->
  menuStep TimerFires (mkComponent s lp (Some q) ss) =
  mkComponent (setSearchResults [::] s) lp None ss.
Proof. by rewrite /menuStep /= /performSearchStart => /negbTE ->. Qed.

Lemma search_step k a s lp t ss :
  k < size ss ->
  menuStep (SearchSettles k a) (mkComponent s lp t ss) =
  mkComponent (setSearchResults (searchMenuItems a (nth "" ss k)) s)
    lp t (removeAt k ss).
Proof. by rewrite /menuStep /= => ->. Qed.

(** ** The invariant *)

(** [K] is the catalogues that have answered so far. *)
Record menuInv (K : seq (seq MenuItem)) (c : Component) : Prop := MenuInv {
  inv_loading : loading (state c) = loadPending c;
  inv_items :
    if loadPending c then menuItems (state c) = [::]
    else menuItems (state c) \in K;
  inv_categories :
    if loadPending c then categories (state c) = [::]
    else has (fun items => categories (state c) ==
                           "all" :: categoriesOf items) K;
  inv_results : fromOne K (searchResults (state c));
  inv_timer : debounceTimer c \in [:: None; Some (searchQuery (state c))];
  inv_searches : all (fun q => truthyString (trim q)) (searches c);
  inv_selected :
    if selectedItem (state c) is Some item
    then has (fun items => item \in items) K else true;
  inv_tab : activeCategory (state c) \in tabValues;
  inv_idle :
    loadPending c ->
    [/\ searchQuery (state c) = "", searches c = [::],
        searchResults (state c) = [::] & selectedItem (state c) = None]
}.

Lemma menuInv_mount : menuInv [::] mount.
Proof. by split. Qed.

(** More answers keep the invariant. *)
Lemma menuInv_cat K K' c : menuInv K c -> menuInv (K ++ K') c.
Proof.
  case=> Hl Hi Hc Hr Ht Hs Hsel Htab Hidle; split=> //.
  - by case: (loadPending c) Hi => //; rewrite mem_cat => ->.
  - by case: (loadPending c) Hc => //; exact: has_cat_l.
  - exact: fromOne_cat.
  - by case: (selectedItem (state c)) Hsel => // item; exact: has_cat_l.
Qed.

(** What the page lists is empty or a part of one catalogue, in its
    order. *)
Lemma getFilteredItems_fromOne K c :
  menuInv K c -> fromOne K (getFilteredItems (state c)).
Proof.
  case=> _ Hi _ Hr _ _ _ _ _. rewrite /getFilteredItems.
  case: ifP => _ //.
  have Hm : fromOne K (menuItems (state c)).
    by case: (loadPending c) Hi => [->|/fromOne_mem].
  case: ifP => _ //. exact: fromOne_subseq (filter_subseq _ _) Hm.
Qed.

Lemma menuInv_fire_load a b K c :
  menuInv K c ->
  menuInv (K ++ [:: getMenuItems a; getMenuItems b]) (loadMenuDataDone a b c).
Proof.
  move=> /(menuInv_cat [:: getMenuItems a; getMenuItems b]).
  case=> Hl Hi Hc Hr Ht Hs Hsel Htab Hidle; split=> //=.
  - by rewrite mem_cat !inE eqxx orbT.
  - by rewrite has_cat /= getMenuCategories_items eqxx !orbT.
Qed.

Lemma menuInv_fire_type q K c :
  ~~ loading (state c) -> menuInv K c -> menuInv K (onQueryChange q c).
Proof.
  move=> Hld Hc. rewrite /onQueryChange. case: ifP => // _.
  case: Hc Hld => Hl Hi Hc Hr Ht Hs Hsel Htab Hidle Hld.
  split=> //=; first by rewrite !inE eqxx orbT.
  by move=> Hp; rewrite Hl Hp in Hld.
Qed.

Lemma menuInv_fire_timer K c : menuInv K c -> menuInv K (fire TimerFires c).
Proof.
  move=> Hc /=. case Et: (debounceTimer c) => [q|] //.
  case: Hc => Hl Hi Hc Hr Ht Hs Hsel Htab Hidle.
  rewrite /performSearchStart. case: ifP => Hq; split=> //=.
  - by rewrite all_rcons Hq.
  - move=> Hp. case: (Hidle Hp) => Eq _ _ _.
    by move: Ht Hq; rewrite Et Eq !inE /= => /eqP [->].
  - by move=> /Hidle [-> -> _ ->].
Qed.

Lemma menuInv_fire_search k a K c :
  k < size (searches c) -> menuInv K c ->
  menuInv (K ++ [:: getMenuItems a]) (performSearchDone k a c).
Proof.
  move=> Hk /(menuInv_cat [:: getMenuItems a]).
  case=> Hl Hi Hc Hr Ht Hs Hsel Htab Hidle; split=> //=.
  - apply/orP; right. by rewrite has_cat /= filter_subseq !orbT.
  - exact: all_removeAt.
  - by move=> /Hidle [_ E _ _]; rewrite E in Hk.
Qed.

(** A change of the tab or of the modal, which the visitor can make only
    when the page is shown. *)
Lemma menuInv_fire_visitor f K c :
  ~~ loading (state c) -> menuInv K c ->
  (forall s, [/\ menuItems (f s) = menuItems s,
                 categories (f s) = categories s, loading (f s) = loading s,
                 searchQuery (f s) = searchQuery s
               & searchResults (f s) = searchResults s]) ->
  activeCategory (f (state c)) \in tabValues ->
  (if selectedItem (f (state c)) is Some item
   then has (fun items => item \in items) K else true) ->
  menuInv K (withState f c).
Proof.
  move=> Hld [Hl Hi Hc Hr Ht Hs Hsel Htab Hidle] Hf Hv Hin.
  case: (Hf (state c)) => E1 E2 E3 E4 E5.
  split; rewrite /= ?E1 ?E2 ?E3 ?E4 ?E5 //.
  by move=> Hp; rewrite Hl Hp in Hld.
Qed.

(** An item on the page is an item of a catalogue. *)
Lemma shown_item_known K c item :
  menuInv K c -> item \in getFilteredItems (state c) ->
  has (fun items => item \in items) K.
Proof.
  move=> /getFilteredItems_fromOne /orP [/eqP -> //|/hasP [items Hi Hs]] Hin.
  apply/hasP. exists items => //. exact: (mem_subseq Hs).
Qed.

Lemma menuInv_step e K c :
  menuInv K c ->
  menuInv (K ++ (if enabled e c then answersOf e else [::])) (menuStep e c).
Proof.
  move=> Hc. rewrite /menuStep. case: ifP => He; last by rewrite cats0.
  case: e He => [a b|q||k a|value|item|] /=; rewrite ?cats0.
  - by move=> _; apply: menuInv_fire_load.
  - by move=> Hld; apply: menuInv_fire_type.
  - by move=> _; apply: menuInv_fire_timer.
  - by move=> Hk; apply: menuInv_fire_search.
  - case/andP=> Hld Hv; apply: menuInv_fire_visitor => //=.
    exact: inv_selected Hc.
  - case/andP=> Hld Hin; apply: menuInv_fire_visitor => //=.
    + exact: inv_tab Hc.
    + exact: shown_item_known Hin.
  - case/andP=> Hld _; apply: menuInv_fire_visitor => //=. exact: inv_tab Hc.
Qed.

Lemma menuInv_run es K c :
  menuInv K c -> menuInv (K ++ catalogues c es) (runMenu es c).
Proof.
  elim: es K c => [|e es IH] K c Hc; first by rewrite /= cats0.
  rewrite run_cons /= catA. by apply: IH; apply: menuInv_step.
Qed.

Lemma menuInv_from_mount es : menuInv (catalogues mount es) (runMenu es mount).
Proof. exact: (menuInv_run es menuInv_mount). Qed.

(** ** Termination of the internal events *)

Lemma work_fire e c : internal e -> enabled e c -> work (fire e c) < work c.
Proof.
  case: c => s lp t ss. case: e => //= [a b||k a] _; rewrite /work /=.
  - by move=> ->.
  - case: t => [q|] // _. rewrite /performSearchStart.
    by case: ifP => _ /=;
      rewrite ?size_rcons -!addnA ltn_add2l /= ?add0n add2n !ltnS ?leqnSn.
  - move=> Hk. rewrite size_removeAt // ltn_add2l. by case: ss Hk.
Qed.

Lemma work_step e c :
  internal e -> enabled e c -> work (menuStep e c) < work c.
Proof. by move=> Hi He; rewrite /menuStep He; apply: work_fire. Qed.

(** A sequence of timer and promise events, each of which can happen when
    its turn comes. *)
Fixpoint internalRun (es : seq MenuEvent) (c : Component) : bool :=
  if es is e :: es' then
    [&& internal e, enabled e c & internalRun es' (menuStep e c)]
  else true.

Lemma internalRun_work es c :
  internalRun es c -> size es + work (runMenu es c) <= work c.
Proof.
  elim: es c => [|e es IH] c //= /and3P [Hi He /IH H].
  by rewrite run_cons addSn; apply: leq_ltn_trans H (work_step Hi He).
Qed.

(** C35: the timer and the promises run out: from a component [c], no
    sequence of timer and promise events is longer than [work c], which is
    at most three more than the number of calls in flight. *)
Theorem internal_events_terminate es c :
  internalRun es c ->
  size es <= work c /\ work c <= (size (searches c)).+3.
Proof.
  move=> /internalRun_work H. split; first exact: leq_trans (leq_addr _ _) H.
  rewrite /work -addn3 addnC leq_add2l.
  by case: (loadPending c); case: (debounceTimer c).
Qed.

(** ** Answers in the order of the calls *)

(** Nothing is owed. *)
Definition quiescent (c : Component) : bool := work c == 0.

(** The component is one that events lead to. *)
Definition wellFormed (c : Component) : Prop := exists K, menuInv K c.

Lemma wellFormed_step e c : wellFormed c -> wellFormed (menuStep e c).
Proof. by case=> K Hc; eexists; apply: menuInv_step Hc. Qed.

Lemma wellFormed_run es : wellFormed (runMenu es mount).
Proof. by exists (catalogues mount es); apply: menuInv_from_mount. Qed.

Lemma loading_blank c :
  wellFormed c -> truthyString (trim (searchQuery (state c))) ->
  loadPending c = false.
Proof.
  move=> [K Hc] Hq. case Ep: (loadPending c) => //.
  by case: (inv_idle Hc Ep) Hq => -> _ _ _.
Qed.

Section Answers.
(** The answers the catalogue may give. *)
Variable allowed : Client -> Prop.
Hypothesis some_allowed : exists a, allowed a.

Definition allowedEvent (e : MenuEvent) : Prop :=
  match e with
  | LoadSettles a b => allowed a /\ allowed b
  | SearchSettles _ a => allowed a
  | _ => True
  end.

(** One timer or promise event, the oldest call first. *)
Inductive settlesNext : Component -> Component -> Prop :=
| Settles e c :
    fifo e -> allowedEvent e -> enabled e c -> settlesNext c (menuStep e c).

Lemma fifo_internal e : fifo e -> internal e.
Proof. by case: e => // [[]]. Qed.

Lemma settles_work c c' : settlesNext c c' -> (work c' < work c)%coq_nat.
Proof.
  case=> e {}c Hf _ He.
  by apply/ltP; apply: work_step => //; apply: fifo_internal.
Qed.

Lemma settles_wellFormed c c' : wellFormed c -> settlesNext c c' -> wellFormed c'.
Proof. move=> Hc Hs. case: Hs Hc => e {}c _ _ _. exact: wellFormed_step. Qed.

Section Answer.
Variable q : string.
Hypothesis Hq : truthyString (trim q).

(** The search for [q] is on its way: its timer is pending, or its call
    is the newest in flight, or an answer to it is on the page. *)
Definition answering (c : Component) : Prop :=
  [/\ wellFormed c, searchQuery (state c) = q &
      [\/ debounceTimer c = Some q,
          debounceTimer c = None /\ (exists qs, searches c = rcons qs q)
        | [/\ debounceTimer c = None, searches c = [::]
            & exists2 a, allowed a &
                searchResults (state c) = searchMenuItems a q]]].

(** The page is at rest and shows an answer to [q]. *)
Definition answered (c : Component) : Prop :=
  [/\ quiescent c, searchQuery (state c) = q
    & exists2 a, allowed a & getFilteredItems (state c) = searchMenuItems a q].

Lemma answering_progress c :
  answering c -> answered c \/ exists c', settlesNext c c'.
Proof.
  case: some_allowed => a0 Ha0.
  case=> Hc Eq [Et|[Et [qs Es]]|[Et Es [a Ha Er]]].
  - right. exists (menuStep TimerFires c). apply: Settles => //=.
    by rewrite Et.
  - right. exists (menuStep (SearchSettles 0 a0) c). apply: Settles => //=.
    by rewrite Es size_rcons.
  - left. have Hp: loadPending c = false by apply: loading_blank; rewrite ?Eq.
    split=> //; first by rewrite /quiescent /work Hp Et Es.
    by exists a => //; rewrite /getFilteredItems Eq Hq.
Qed.

Lemma answering_step c c' : answering c -> settlesNext c c' -> answering c'.
Proof.
  move=> Ha Hs. case: Hs Ha => e {}c Hf Hal He [Hc Eq Hcase].
  have Hp: loadPending c = false by apply: loading_blank; rewrite ?Eq.
  have := wellFormed_step e Hc. rewrite /menuStep He.
  case: e Hf Hal He => // [|[|//] a] _ Hal /=.
  - case Et: (debounceTimer c) Hcase => [q'|] // [[E]|[//]|[//]] _.
    rewrite E /performSearchStart Hq => Hc'.
    split=> //. apply: Or32. split=> //. by exists (searches c).
  - case Es: (searches c) Hcase => [|q0 rest] // Hcase _ Hc'.
    split=> //=. rewrite Es removeAt0 /=.
    case: Hcase => [Et|[Et [[[-> ->]|q1 qs [_ ->]]]]|[//]].
    + exact: Or31.
    + by apply: Or33; split=> //; exists a.
    + by apply: Or32; split=> //; exists qs.
Qed.

Lemma pending_search_answered c :
  answering c -> eventually settlesNext answered c.
Proof.
  apply: (@eventually_measure _ settlesNext work) => [x y Hx Hxy|x].
  - split; [exact: answering_step Hxy|exact: settles_work].
  - exact: answering_progress.
Qed.

End Answer.

(** A query that was just typed is on its way. *)
Lemma typed_query_answering es q :
  let c := runMenu es mount in
  enabled (TypeQuery q) c -> q != searchQuery (state c) ->
  truthyString (trim q) ->
  answering q (menuStep (TypeQuery q) c).
Proof.
  move=> c He Hne Hq.
  have Hc : wellFormed (menuStep (TypeQuery q) c).
    exact/wellFormed_step/wellFormed_run.
  move: Hc. rewrite /menuStep He /= /onQueryChange (negbTE Hne) => Hc.
  by split=> //; apply: Or31.
Qed.

(** C36: when the visitor changes the query to one that is not blank and
    then waits, and answers come in the order of the calls, the page comes
    to rest showing an answer of the catalogue to that query, whatever
    the catalogue answers to each call. *)
Theorem search_eventually_shown es q :
  let c := runMenu es mount in
  enabled (TypeQuery q) c -> q != searchQuery (state c) ->
  truthyString (trim q) ->
  eventually settlesNext (answered q) (menuStep (TypeQuery q) c).
Proof.
  move=> c He Hne Hq.
  by apply: pending_search_answered => //; apply: typed_query_answering.
Qed.

(** The spinner goes away. *)
Lemma spinner_eventually_gone :
  eventually settlesNext (fun c => ~~ loading (state c)) mount.
Proof.
  case: some_allowed => a0 Ha0.
  apply: (@eventually_measure _ settlesNext work wellFormed) (wellFormed_run [::])
    => [x y Hx Hxy|x [K Hx]].
  - split; [exact: settles_wellFormed Hxy|exact: settles_work].
  - rewrite (inv_loading Hx). case Ep: (loadPending x); [right|by left].
    by exists (menuStep (LoadSettles a0 a0) x); apply: Settles.
Qed.

End Answers.

(** ** What is on the page *)

(** What the invariant says of the page. *)
Lemma menuInv_shown K c :
  menuInv K c ->
  (getFilteredItems (state c) = [::] \/
   exists2 items, items \in K & subseq (getFilteredItems (state c)) items) /\
  (forall item, selectedItem (state c) = Some item ->
     exists2 items, items \in K & item \in items).
Proof.
  move=> Hc. split.
  - case/orP: (getFilteredItems_fromOne Hc) => [/eqP ->|/hasP [items Hi Hs]];
      [by left|by right; exists items].
  - move=> item E. have := inv_selected Hc. rewrite E.
    by case/hasP => items Hi Hin; exists items.
Qed.

(** C33: what the page lists is a part of one catalogue that answered a
    call of the run, in the order of that catalogue, and the item of the
    modal is an item of such a catalogue: nothing on the page is made up,
    whichever catalogue answered which call. *)
Theorem shown_items_from_catalogue es :
  let c := runMenu es mount in
  (getFilteredItems (state c) = [::] \/
   exists2 items, items \in catalogues mount es &
     subseq (getFilteredItems (state c)) items) /\
  (forall item, selectedItem (state c) = Some item ->
     exists2 items, items \in catalogues mount es & item \in items).
Proof. exact: menuInv_shown (menuInv_from_mount es). Qed.

(** When every call of a run is answered with the same items, the page
    shows a part of them. *)
Lemma steady_items_shown client es :
  all (pred1 (getMenuItems client)) (catalogues mount es) ->
  let c := runMenu es mount in
  subseq (getFilteredItems (state c)) (getMenuItems client) /\
  (forall item, selectedItem (state c) = Some item ->
     item \in getMenuItems client).
Proof.
  move=> /allP Hk c.
  case: (menuInv_shown (menuInv_from_mount es)) => Hf Hs. split.
  - case: Hf => [->|[items /Hk /eqP -> //]]. exact: sub0seq.
  - by move=> item /Hs [items /Hk /eqP ->].
Qed.

(** The keys of the cards (line 214) are distinct when the identifiers of
    every catalogue are. *)
Lemma card_keys_uniq es :
  all (fun items => uniq (map sysId items)) (catalogues mount es) ->
  uniq (map (fun i => cardKey (MenuItemCard i))
          (getFilteredItems (state (runMenu es mount)))).
Proof.
  move=> /allP Hu.
  case: (menuInv_shown (menuInv_from_mount es)) => [[->|[items /Hu Hi Hs]] _] //.
  exact: subseq_uniq (map_subseq _ Hs) Hi.
Qed.

Lemma searches_type qs c :
  searches (runMenu (map TypeQuery qs) c) = searches c.
Proof.
  elim: qs c => [|q qs IH] c //=. rewrite run_cons IH /menuStep /= /onQueryChange.
  by case: ifP => // _; case: ifP.
Qed.

Lemma wellFormed_runFrom es c : wellFormed c -> wellFormed (runMenu es c).
Proof. by case=> K Hc; exists (K ++ catalogues c es); apply: menuInv_run. Qed.

(** C26: however many times the query changes before the timer fires, the
    timer starts at most one search, and that search is for the query on
    the page. *)
Theorem debounce_coalesces qs c :
  wellFormed c ->
  let c' := runMenu (rcons (map TypeQuery qs) TimerFires) c in
  searches c' = searches c \/
  searches c' = rcons (searches c) (searchQuery (state c')).
Proof.
  move=> Hc c'. rewrite /c' run_rcons.
  have [K] := wellFormed_runFrom (map TypeQuery qs) Hc.
  have := searches_type qs c.
  move: (runMenu _ _) => c1 <- /inv_timer. rewrite /menuStep /=.
  case: (debounceTimer c1) => [q|] /=; last by left.
  rewrite !inE /= => /eqP [->]. rewrite /performSearchStart.
  by case: ifP => _; [right|left].
Qed.

(** C39: when the answer to an earlier query arrives after the answer to
    the current one, the page comes to rest showing the answer to the
    earlier query, whatever the catalogue answered to the calls. *)
Theorem late_answer_overwrites q1 q2 a b a1 a2 :
  truthyString (trim q1) -> truthyString (trim q2) -> q1 != q2 ->
  let c :=
    runMenu
      [:: LoadSettles a b; TimerFires; TypeQuery q1; TimerFires; TypeQuery q2;
          TimerFires; SearchSettles 1 a2; SearchSettles 0 a1] mount in
  [/\ quiescent c, searchQuery (state c) = q2
    & getFilteredItems (state c) = searchMenuItems a1 q1].
Proof.
  move=> H1 H2 H12 c. rewrite {}/c !run_cons run_nil.
  have N1 : q1 != "" by case: q1 H1 {H12}.
  rewrite load_step timer_step_blank // type_step // timer_step //.
  rewrite type_step 1?eq_sym // timer_step // !search_step //.
  by split=> //; rewrite /getFilteredItems /= H2.
Qed.

(** Under a tab other than the first, the items are curries or desserts,
    whatever categories the catalogue has. *)
Lemma tab_items c item :
  wellFormed c -> ~~ truthyString (trim (searchQuery (state c))) ->
  item \in getFilteredItems (state c) ->
  activeCategory (state c) = "all" \/
  toLowerCase (category item) \in [:: "curry"; "dessert"].
Proof.
  move=> [K /inv_tab Ht] /negbTE Hq. rewrite /getFilteredItems Hq.
  case: eqP => [|/eqP Hn]; first by left.
  rewrite mem_filter /sameCategory => /andP [/eqP -> _]. right.
  by move: Ht Hn; rewrite /tabValues !inE => /or3P [] /eqP ->.
Qed.

(** ** Worked examples *)

(** The built-in items behind a configured catalogue. *)
Definition remoteMock : Client :=
  Some (mkRemote (Some mockMenuItems) (fun _ => None)).

(** A catalogue that answers as [client] does. *)
Definition answersLike (client a : Client) : Prop :=
  getMenuItems a = getMenuItems client.

Lemma search_eventually_shown_witness :
  eventually (settlesNext (answersLike remoteMock))
    (answered (answersLike remoteMock) "lamb")
    (menuStep (TypeQuery "lamb")
       (runMenu [:: LoadSettles remoteMock None; TimerFires] mount)).
Proof.
  apply: (@search_eventually_shown (answersLike remoteMock) _
            [:: LoadSettles remoteMock None; TimerFires] "lamb" isT isT isT).
  by exists remoteMock.
Defined.

(** With a catalogue that answers every call alike, the page comes to
    show the answer of that catalogue. *)
Lemma steady_search_shown client es q :
  let c := runMenu es mount in
  enabled (TypeQuery q) c -> q != searchQuery (state c) ->
  truthyString (trim q) ->
  eventually (settlesNext (answersLike client))
    (fun c' => [/\ quiescent c', searchQuery (state c') = q
                 & getFilteredItems (state c') = searchMenuItems client q])
    (menuStep (TypeQuery q) c).
Proof.
  move=> c He Hne Hq.
  have Hs : exists a, answersLike client a by exists client.
  have Hg := @typed_query_answering (answersLike client) _ _ He Hne Hq.
  apply: eventually_weaken (pending_search_answered Hs Hq Hg) => c'.
  case=> Hw Eq [a Ha ->]. split=> //. exact: searchMenuItems_items.
Qed.

Lemma internal_events_terminate_witness :
  size [:: TimerFires; LoadSettles None None] <= work mount /\
  work mount <= (size (searches mount)).+3.
Proof.
  exact: (@internal_events_terminate [:: TimerFires; LoadSettles None None]
            mount isT).
Defined.

Lemma late_answer_overwrites_witness :
  let c :=
    runMenu
      [:: LoadSettles remoteMock remoteMock; TimerFires; TypeQuery "cake";
          TimerFires; TypeQuery "lamb"; TimerFires;
          SearchSettles 1 remoteMock; SearchSettles 0 None]
      mount in
  [/\ quiescent c, searchQuery (state c) = "lamb"
    & getFilteredItems (state c) = searchMenuItems None "cake"].
Proof.
  exact: (@late_answer_overwrites "cake" "lamb" remoteMock remoteMock None
            remoteMock isT isT isT).
Defined.

Lemma debounce_coalesces_witness :
  let c0 := runMenu [:: LoadSettles remoteMock remoteMock; TimerFires] mount in
  let c' :=
    runMenu (rcons (map TypeQuery [:: "l"; "la"; "lam"; "lamb"]) TimerFires)
      c0 in
  searches c' = searches c0 \/
  searches c' = rcons (searches c0) (searchQuery (state c')).
Proof. apply: debounce_coalesces. exact: wellFormed_run. Defined.

(** The answer that stays on the page in the run of
    [late_answer_overwrites]: the two cakes, under the query [lamb]. *)
Example late_answer_shown :
  let c :=
    runMenu
      [:: LoadSettles remoteMock remoteMock; TimerFires; TypeQuery "cake";
          TimerFires; TypeQuery "lamb"; TimerFires;
          SearchSettles 1 remoteMock; SearchSettles 0 remoteMock]
      mount in
  map name (getFilteredItems (state c)) =
    [:: "New York Cheesecake"; "Chocolate Decadence"] /\
  map name (searchMenuItems remoteMock (searchQuery (state c))) =
    [:: "Lamb Rogan Josh"].
Proof. by vm_compute. Qed.

(** A catalogue with a third category. *)
Definition drinksItem : MenuItem :=
  {| sysId := "7"; name := "Mango Lassi";
     description := "Chilled yogurt drink with ripe mango.";
     price := 599; category := "Drinks"; imageUrl := None;
     isLimitedAccess := false; ingredients := [:: "Mango"; "Yogurt"];
     spiceLevel := 0; preparationTime := 5; isVegetarian := true;
     isGlutenFree := true; calories := 180 |}.

Definition remoteDrinks : Client :=
  Some (mkRemote (Some [:: item1; drinksItem]) (fun _ => None)).

(** A catalogue whose fetch fails: the built-in items are served. *)
Definition remoteDown : Client := Some (mkRemote None (fun _ => None)).

(** [categories] holds the three categories of this catalogue (line 37),
    and no tab shows the third. *)
Example third_category_has_no_tab :
  let c :=
    runMenu [:: LoadSettles remoteDrinks remoteDrinks; TimerFires] mount in
  categories (state c) = [:: "all"; "Curry"; "Drinks"] /\
  forall tab, tab \in tabValues -> tab != "all" ->
    drinksItem \notin
      getFilteredItems (state (menuStep (SelectTab tab) c)).
Proof.
  split; first by vm_compute.
  by move=> tab; rewrite /tabValues !inE => /or3P [] /eqP ->.
Qed.

(** The two calls of line 31 fetch the catalogue one after the other:
    when the second fetch fails, the items are those of the catalogue and
    the categories those of the built-in items. *)
Example items_and_categories_differ :
  let c := runMenu [:: LoadSettles remoteDrinks remoteDown] mount in
  map category (menuItems (state c)) = [:: "Curry"; "Drinks"] /\
  categories (state c) = [:: "all"; "Curry"; "Dessert"].
Proof. by vm_compute. Qed.

(** A blank query is not searched for, and the empty tab is reported as a
    search without results: line 208 tests [searchQuery], line 65
    [searchQuery.trim()]. *)
Example blank_query_message :
  render
    (state
       (runMenu
          [:: LoadSettles remoteDrinks remoteDrinks; TimerFires;
              SelectTab "dessert"; TypeQuery " "; TimerFires] mount)) =
  MenuPage " " "dessert" [::] (Some "No items found matching your search.")
    None.
Proof. by vm_compute. Qed.
