(* ===== verification/JsonText.v ===== *)
(** * JsonText: the JSON text of a flat value

    [JSON.stringify] and [JSON.parse] on the values the front end stores
    and on the payload of a token: strings without quotes, backslashes or
    control characters, booleans, [null], integers, and objects whose
    fields are such values under distinct keys ([plainJson]).  On these
    [JSON.stringify] prints the literals, and the keys between quotes,
    without white space ([stringifyPlain]), and [JSON.parse] reads them
    back ([parsePlain]).  [parsePlain] refuses every other text: the
    texts that are not JSON, and of the JSON texts those with white
    space, an escape, a fraction or an exponent, an array, an object
    inside an object, or a key that occurs twice. *)

From Stdlib Require Import List String Ascii Bool Arith ZArith Lia.
From S2P Require Import Prelude JsString Encoding JsValue.
Import ListNotations.

#[local] Open Scope string_scope.

(** ** Printing *)

Definition quote : ascii := ascii_of_nat 34.
Definition backslash : ascii := ascii_of_nat 92.

(** A character that [JSON.stringify] prints as it is. *)
Definition plainChar (c : ascii) : bool :=
  negb (Ascii.eqb c quote) && negb (Ascii.eqb c backslash) &&
  (32 <=? nat_of_ascii c)%nat.

Definition plain (s : string) : bool := allChars plainChar s.

Definition printString (s : string) : string :=
  String quote (s ++ String quote "").

(** A string, a boolean, [null] or an integer as a literal. *)
Definition printValue (v : Json) : string :=
  match v with
  | JStr s => printString s
  | JBool true => "true"
  | JBool false => "false"
  | JNum n => numeral n
  | _ => "null"
  end.

Definition printField (kv : string * Json) : string :=
  printString (fst kv) ++ String ":" (printValue (snd kv)).

Fixpoint printFields (fs : list (string * Json)) : string :=
  match fs with
  | [] => ""
  | [kv] => printField kv
  | kv :: rest => printField kv ++ String "," (printFields rest)
  end.

Definition stringifyPlain (v : Json) : string :=
  match v with
  | JObj fs => String "{" (printFields fs ++ "}")
  | _ => printValue v
  end.

(** ** Parsing *)

(** The characters up to the closing quote, and what follows it. *)
Fixpoint readPlain (s : string) : option (string * string) :=
  match s with
  | EmptyString => None
  | String c rest =>
      if Ascii.eqb c quote then Some ("", rest)
      else if plainChar c then
        match readPlain rest with
        | Some (t, r) => Some (String c t, r)
        | None => None
        end
      else None
  end.

Definition expect (c : ascii) (s : string) : option string :=
  match s with
  | String c' rest => if Ascii.eqb c c' then Some rest else None
  | EmptyString => None
  end.

Definition readString (s : string) : option (string * string) :=
  match expect quote s with
  | Some rest => readPlain rest
  | None => None
  end.

(** What follows the word [w]. *)
Fixpoint expectWord (w s : string) : option string :=
  match w with
  | EmptyString => Some s
  | String c w' =>
      match expect c s with
      | Some r => expectWord w' r
      | None => None
      end
  end.

Definition isDigit (c : ascii) : bool :=
  (48 <=? nat_of_ascii c)%nat && (nat_of_ascii c <=? 57)%nat.

(** The digits at the front, and what follows them. *)
Fixpoint readDigits (s : string) : string * string :=
  match s with
  | EmptyString => ("", "")
  | String c r =>
      if isDigit c then
        let '(d, r') := readDigits r in (String c d, r')
      else ("", s)
  end.

(** An integer, written as [JSON.stringify] writes it. *)
Definition readNumber (s : string) : option (Json * string) :=
  let '(negative, s1) :=
    match s with
    | String c r => if Ascii.eqb c "-" then (true, r) else (false, s)
    | EmptyString => (false, s)
    end in
  let '(d, r) := readDigits s1 in
  let n := radixValue 10 d in
  let n := if negative then (- n)%Z else n in
  if String.eqb (numeral n) (if negative then String "-" d else d)
  then Some (JNum n, r) else None.

Definition readValue (s : string) : option (Json * string) :=
  match s with
  | EmptyString => None
  | String c _ =>
      if Ascii.eqb c quote then
        match readString s with
        | Some (t, r) => Some (JStr t, r)
        | None => None
        end
      else if Ascii.eqb c "t" then
        option_map (pair (JBool true)) (expectWord "true" s)
      else if Ascii.eqb c "f" then
        option_map (pair (JBool false)) (expectWord "false" s)
      else if Ascii.eqb c "n" then
        option_map (pair JNull) (expectWord "null" s)
      else readNumber s
  end.

Definition readField (s : string) : option ((string * Json) * string) :=
  match readString s with
  | Some (k, r1) =>
      match expect ":" r1 with
      | Some r2 =>
          match readValue r2 with
          | Some (v, r3) => Some ((k, v), r3)
          | None => None
          end
      | None => None
      end
  | None => None
  end.

(** The fields up to the closing brace, which ends the text.  [fuel]
    bounds the number of fields. *)
Fixpoint readFields (fuel : nat) (s : string)
    : option (list (string * Json)) :=
  match fuel with
  | 0 => None
  | S fuel' =>
      match readField s with
      | Some (kv, String c r) =>
          if Ascii.eqb c "," then option_map (cons kv) (readFields fuel' r)
          else if Ascii.eqb c "}" then
            match r with EmptyString => Some [kv] | _ => None end
          else None
      | _ => None
      end
  end.

(** No key occurs twice. *)
Fixpoint distinctKeys (fs : list (string * Json)) : bool :=
  match fs with
  | [] => true
  | (k, _) :: rest =>
      negb (existsb (fun kv => String.eqb k (fst kv)) rest) && distinctKeys rest
  end.

Definition plainValue (v : Json) : bool :=
  match v with
  | JStr s => plain s
  | JBool _ | JNull | JNum _ => true
  | _ => false
  end.

Definition plainField (kv : string * Json) : bool :=
  plain (fst kv) && plainValue (snd kv).

(** Flat objects. *)
Definition plainObject (v : Json) : bool :=
  match v with
  | JObj fs => forallb plainField fs && distinctKeys fs
  | _ => false
  end.

(** The values of this file. *)
Definition plainJson (v : Json) : bool := plainValue v || plainObject v.

Definition parsePlain (s : string) : option Json :=
  match expect "{" s with
  | Some rest =>
      if String.eqb rest "}" then Some (JObj [])
      else
        match readFields (String.length rest) rest with
        | Some fs => if distinctKeys fs then Some (JObj fs) else None
        | None => None
        end
  | None =>
      match readValue s with
      | Some (v, EmptyString) => Some v
      | _ => None
      end
  end.

(** ** Strings *)

Lemma plainChar_quote c : plainChar c = true -> Ascii.eqb c quote = false.
Proof.
  unfold plainChar. destruct (Ascii.eqb c quote); [discriminate|reflexivity].
Qed.

Lemma readPlain_print s r :
  plain s = true -> readPlain (s ++ String quote r) = Some (s, r).
Proof.
  induction s as [|c s IH]; simpl; intros H.
  - now rewrite ?Ascii.eqb_refl.
  - apply andb_true_iff in H as [Hc Hs].
    now rewrite (plainChar_quote c Hc), Hc, (IH Hs).
Qed.

Lemma readString_print s r :
  plain s = true -> readString (printString s ++ r) = Some (s, r).
Proof.
  intros H. unfold readString, printString. simpl. rewrite ?Ascii.eqb_refl.
  rewrite append_assoc. simpl. now apply readPlain_print.
Qed.

(** ** Numbers *)

(** What may follow a value: not a digit. *)
Definition endsValue (r : string) : bool :=
  match r with
  | String c _ => negb (isDigit c)
  | EmptyString => true
  end.

Lemma isDigit_digitChar d : (0 <= d < 10)%Z -> isDigit (digitChar d) = true.
Proof.
  intros Hd. unfold isDigit, digitChar.
  replace (d <? 10)%Z with true by (symmetry; apply Z.ltb_lt; lia).
  unfold nat_of_ascii. rewrite N_ascii_embedding by lia.
  apply andb_true_iff. split; apply Nat.leb_le; lia.
Qed.

Lemma allChars_append p s t :
  allChars p (s ++ t) = allChars p s && allChars p t.
Proof.
  induction s as [|c s IH]; [reflexivity|]. simpl.
  now rewrite IH, andb_assoc.
Qed.

Lemma digitsOf_digits fuel n :
  (0 <= n)%Z -> allChars isDigit (digitsOf 10 fuel n) = true.
Proof.
  revert n. induction fuel as [|fuel IH]; intros n Hn; [reflexivity|].
  cbn [digitsOf]. rewrite allChars_append. cbn [allChars].
  rewrite isDigit_digitChar by (apply Z.mod_pos_bound; lia).
  destruct (n <? 10)%Z; [reflexivity|].
  rewrite IH; [reflexivity|]. apply Z.div_pos; lia.
Qed.

Lemma readDigits_print d r :
  allChars isDigit d = true -> endsValue r = true ->
  readDigits (d ++ r) = (d, r).
Proof.
  intros Hd Hr. induction d as [|c d IH]; simpl in *.
  - destruct r as [|c r]; [reflexivity|]. simpl in *.
    now rewrite (proj1 (negb_true_iff _) Hr).
  - apply andb_true_iff in Hd as [Hc Hd]. now rewrite Hc, (IH Hd).
Qed.

(** The first unit of a numeral is a digit or the sign. *)
Lemma digitsOf_head fuel n :
  (0 <= n)%Z ->
  exists c d, digitsOf 10 (S fuel) n = String c d /\ isDigit c = true.
Proof.
  intros Hn. pose proof (digitsOf_digits (S fuel) n Hn) as Ha.
  destruct (digitsOf 10 (S fuel) n) as [|c d] eqn:E.
  - cbn [digitsOf] in E. destruct (if (n <? 10)%Z then _ else _); discriminate.
  - exists c, d. split; [reflexivity|].
    simpl in Ha. now apply andb_true_iff in Ha as [-> _].
Qed.

Lemma isDigit_not c x :
  isDigit c = true -> isDigit x = false -> Ascii.eqb c x = false.
Proof.
  intros Hc Hx. destruct (Ascii.eqb_spec c x) as [->|]; [congruence|reflexivity].
Qed.

Lemma readNumber_print n r :
  endsValue r = true -> readNumber (numeral n ++ r) = Some (JNum n, r).
Proof.
  intros Hr. unfold readNumber, numeral, toStringRadix, radixFuel.
  destruct (Z.ltb_spec n 0) as [Hn|Hn].
  - assert (H0 : (0 <= - n)%Z) by lia.
    replace (- n <? 0)%Z with false by (symmetry; apply Z.ltb_ge; lia).
    cbn [append]. rewrite Ascii.eqb_refl.
    rewrite (readDigits_print _ r (digitsOf_digits _ _ H0) Hr).
    rewrite (radixValue_digitsOf 10) by lia.
    rewrite Z.opp_involutive.
    replace (n <? 0)%Z with true by (symmetry; apply Z.ltb_lt; lia).
    replace (- n <? 0)%Z with false by (symmetry; apply Z.ltb_ge; lia).
    now rewrite String.eqb_refl.
  - destruct (digitsOf_head (Z.to_nat (Z.log2 n)) n Hn) as (c & d & E & Hc).
    pose proof (readDigits_print _ r
                (digitsOf_digits (S (Z.to_nat (Z.log2 n))) n Hn) Hr) as Hd.
    rewrite E in *. cbn [append] in *.
    rewrite (isDigit_not c "-" Hc eq_refl), Hd. rewrite <- E.
    rewrite (radixValue_digitsOf 10) by lia.
    replace (n <? 0)%Z with false by (symmetry; apply Z.ltb_ge; lia).
    now rewrite String.eqb_refl.
Qed.

Lemma numeral_head n :
  exists c d, numeral n = String c d /\
    (isDigit c = true \/ c = "-"%char).
Proof.
  unfold numeral, toStringRadix, radixFuel.
  destruct (Z.ltb_spec n 0) as [Hn|Hn].
  - replace (- n <? 0)%Z with false by (symmetry; apply Z.ltb_ge; lia).
    eexists _, _. split; [reflexivity|now right].
  - destruct (digitsOf_head (Z.to_nat (Z.log2 n)) n Hn) as (c & d & E & Hc).
    exists c, d. split; [exact E|now left].
Qed.

(** ** Values and fields *)

Lemma readValue_print v r :
  plainValue v = true -> endsValue r = true ->
  readValue (printValue v ++ r) = Some (v, r).
Proof.
  intros Hv Hr. destruct v as [|[]|n|s| |]; try discriminate; try reflexivity.
  - destruct (numeral_head n) as (c & d & E & Hc).
    pose proof (readNumber_print n r Hr) as Hn.
    cbn [printValue] in *. rewrite E in *. cbn [append readValue] in *.
    destruct Hc as [Hc| ->]; [|exact Hn].
    now rewrite (isDigit_not c quote Hc eq_refl), (isDigit_not c "t" Hc eq_refl),
      (isDigit_not c "f" Hc eq_refl), (isDigit_not c "n" Hc eq_refl).
  - cbn [printValue plainValue] in *. unfold printString at 1.
    cbn [append readValue]. rewrite Ascii.eqb_refl.
    change (String quote ((s ++ String quote "") ++ r))
      with (printString s ++ r).
    now rewrite (readString_print s r Hv).
Qed.

Lemma readField_print kv r :
  plainField kv = true -> endsValue r = true ->
  readField (printField kv ++ r) = Some (kv, r).
Proof.
  destruct kv as [k v]. unfold plainField, readField, printField.
  cbn [fst snd]. intros H Hr. apply andb_true_iff in H as [Hk Hv].
  rewrite append_assoc, (readString_print k _ Hk). cbn [expect append].
  rewrite Ascii.eqb_refl. now rewrite (readValue_print v r Hv Hr).
Qed.

Lemma readFields_print fs fuel :
  fs <> [] -> forallb plainField fs = true -> List.length fs <= fuel ->
  readFields fuel (printFields fs ++ "}") = Some fs.
Proof.
  revert fuel. induction fs as [|kv fs IH]; [easy|]. intros fuel _ H Hf.
  simpl in H. apply andb_true_iff in H as [Hkv Hfs].
  destruct fuel as [|fuel]; [simpl in Hf; lia|]. simpl in Hf.
  destruct fs as [|kv' fs].
  - cbn [printFields readFields].
    now rewrite (readField_print kv "}" Hkv eq_refl).
  - change (printFields (kv :: kv' :: fs))
      with (printField kv ++ String "," (printFields (kv' :: fs))).
    cbn [readFields]. rewrite append_assoc. cbn [append].
    rewrite (readField_print kv (String "," _) Hkv eq_refl).
    rewrite Ascii.eqb_refl.
    rewrite IH; [reflexivity|discriminate|exact Hfs|lia].
Qed.

Lemma length_printField kv : 1 <= String.length (printField kv).
Proof. destruct kv as [k v]. unfold printField, printString. simpl. lia. Qed.

Lemma length_printFields fs :
  List.length fs <= String.length (printFields fs).
Proof.
  induction fs as [|kv [|kv' fs] IH]; [simpl; lia| |].
  - simpl. pose proof (length_printField kv). lia.
  - change (printFields (kv :: kv' :: fs))
      with (printField kv ++ String "," (printFields (kv' :: fs))).
    rewrite length_append. pose proof (length_printField kv).
    cbn [String.length List.length] in *. lia.
Qed.

(** ** The round trip *)

(** What is printed is read back. *)
Lemma parsePlain_object fs :
  plainObject (JObj fs) = true ->
  parsePlain (stringifyPlain (JObj fs)) = Some (JObj fs).
Proof.
  simpl. intros H. apply andb_true_iff in H as [Hp Hd].
  destruct fs as [|kv fs]; [reflexivity|].
  pose proof (length_printFields (kv :: fs)) as Hl.
  unfold parsePlain. cbn [expect]. rewrite Ascii.eqb_refl.
  destruct (String.eqb_spec (printFields (kv :: fs) ++ "}") "}") as [E|_].
  - apply (f_equal String.length) in E. rewrite length_append in E.
    simpl in E, Hl. lia.
  - rewrite readFields_print, Hd; [reflexivity|discriminate|exact Hp|].
    rewrite length_append. lia.
Qed.

(** A literal does not start as an object does. *)
Lemma printValue_head v :
  exists c d, printValue v = String c d /\ Ascii.eqb "{" c = false.
Proof.
  destruct v as [|[]|n|s| |]; try (eexists _, _; split; reflexivity).
  destruct (numeral_head n) as (c & d & E & Hc).
  exists c, d. split; [exact E|]. destruct Hc as [Hc| ->]; [|reflexivity].
  rewrite Ascii.eqb_sym. now apply isDigit_not.
Qed.

Lemma parsePlain_literal v :
  plainValue v = true -> parsePlain (printValue v) = Some v.
Proof.
  intros Hv. destruct (printValue_head v) as (c & d & E & Hc).
  pose proof (readValue_print v "" Hv eq_refl) as Hr.
  rewrite append_nil_r in Hr. unfold parsePlain. rewrite E in *.
  cbn [expect]. now rewrite Hc, Hr.
Qed.

Lemma parsePlain_stringifyPlain v :
  plainJson v = true -> parsePlain (stringifyPlain v) = Some v.
Proof.
  unfold plainJson. destruct (plainValue v) eqn:Hv.
  - intros _. destruct v; try discriminate; now apply parsePlain_literal.
  - destruct v; try discriminate. apply parsePlain_object.
Qed.

(** What is read is a flat object. *)
Lemma readPlain_plain s t r : readPlain s = Some (t, r) -> plain t = true.
Proof.
  revert t r. induction s as [|c s IH]; simpl; intros t r; [discriminate|].
  destruct (Ascii.eqb c quote); [intros [= <- _]; reflexivity|].
  destruct (plainChar c) eqn:Hc; [|discriminate].
  destruct (readPlain s) as [[t' r']|]; [|discriminate].
  intros [= <- _]. unfold plain in *. cbn [allChars].
  now rewrite Hc, (IH t' r' eq_refl).
Qed.

Lemma readString_plain s t r : readString s = Some (t, r) -> plain t = true.
Proof.
  unfold readString. destruct (expect quote s); [|discriminate].
  apply readPlain_plain.
Qed.

Lemma readValue_plain s v r : readValue s = Some (v, r) -> plainValue v = true.
Proof.
  unfold readValue, readNumber. destruct s as [|c s]; [discriminate|].
  repeat match goal with
         | |- context [if ?b then _ else _] => destruct b
         | |- context [let '(_, _) := ?x in _] => destruct x
         | |- context [option_map _ ?x] => destruct x; cbn [option_map]
         end;
    try discriminate; try (now intros [= <- _]).
  destruct (readString _) as [[t r']|] eqn:E; [|discriminate].
  intros [= <- _]. exact (readString_plain _ _ _ E).
Qed.

Lemma readField_plain s kv r :
  readField s = Some (kv, r) -> plainField kv = true.
Proof.
  unfold readField. destruct (readString s) as [[k r1]|] eqn:Ek; [|discriminate].
  destruct (expect ":" r1) as [r2|]; [|discriminate].
  destruct (readValue r2) as [[v r3]|] eqn:Ev; [|discriminate].
  intros [= <- _]. unfold plainField. cbn [fst snd].
  now rewrite (readString_plain _ _ _ Ek), (readValue_plain _ _ _ Ev).
Qed.

Lemma readFields_plain fuel s fs :
  readFields fuel s = Some fs -> forallb plainField fs = true.
Proof.
  revert s fs. induction fuel as [|fuel IH]; intros s fs; [discriminate|].
  cbn [readFields]. destruct (readField s) as [[kv [|c r]]|] eqn:Ef;
    try discriminate.
  apply readField_plain in Ef. destruct (Ascii.eqb c ",").
  - destruct (readFields fuel r) as [fs'|] eqn:Er; [|discriminate].
    intros [= <-]. simpl. now rewrite Ef, (IH r fs' Er).
  - destruct (Ascii.eqb c "}"); [|discriminate].
    destruct r; [|discriminate]. intros [= <-]. simpl. now rewrite Ef.
Qed.

Lemma parsePlain_plainJson s v :
  parsePlain s = Some v -> plainJson v = true.
Proof.
  unfold parsePlain, plainJson. destruct (expect "{" s) as [rest|].
  - destruct (String.eqb rest "}"); [intros [= <-]; reflexivity|].
    destruct (readFields _ rest) as [fs|] eqn:E; [|discriminate].
    destruct (distinctKeys fs) eqn:Hd; [|discriminate].
    intros [= <-]. simpl. now rewrite (readFields_plain _ _ _ E), Hd.
  - destruct (readValue s) as [[v' [|? ?]]|] eqn:E; try discriminate.
    intros [= <-]. now rewrite (readValue_plain _ _ _ E).
Qed.

Lemma stringifyPlain_truthy v : truthyString (stringifyPlain v) = true.
Proof.
  destruct v; try reflexivity.
  - cbn [stringifyPlain]. now destruct b.
  - destruct (printValue_head (JNum n)) as (c & d & E & _).
    cbn [stringifyPlain]. now rewrite E.
Qed.

(** ** Examples *)

(** A text that is not JSON, and a number with a leading zero. *)
Example parsePlain_refuses :
  parsePlain "{oops" = None /\
  parsePlain (String "{" (printString "n" ++ ":07}")) = None.
Proof. split; reflexivity. Qed.

(** Literals are JSON texts. *)
Example parsePlain_literals :
  parsePlain "null" = Some JNull /\ parsePlain "true" = Some (JBool true) /\
  parsePlain "-12" = Some (JNum (-12)) /\
  parsePlain (printString "abc") = Some (JStr "abc") /\
  parsePlain "nullx" = None.
Proof. repeat split; reflexivity. Qed.

(** The payload of a token: strings, a boolean and times. *)
Example parsePlain_payload :
  let payload :=
    JObj [("sub", JStr "1234"); ("email", JStr "asha@example.com");
          ("email_verified", JBool true); ("iat", JNum 1700000000);
          ("exp", JNum 1700003600); ("hd", JNull); ("offset", JNum (-330))] in
  parsePlain (stringifyPlain payload) = Some payload /\
  stringifyPlain (JObj [("ok", JBool false); ("n", JNum (-5))]) =
    String "{" (printString "ok" ++ ":false," ++ printString "n" ++ ":-5}").
Proof. split; reflexivity. Qed.
