(* ===== verification/AuthContext.v ===== *)
(** * AuthContext: the session the browser keeps,
      [src/src/contexts/AuthContext.jsx]

    [AuthProvider] holds the signed-in user and the invite flag in React
    state and mirrors them in [localStorage], from which a page that is
    opened again restores them.

    ** Model

    - [Browser] is the state of the provider ([State], lines 15-18)
      together with [localStorage], a finite map from keys to texts.
      The user is a JSON value, [null] ([JNull]) when nobody is signed
      in.
    - [JSON.stringify] and [JSON.parse] are the class [JsonCodec]: a
      printer, a parser that may fail, and the values that survive the
      round trip ([storable]).  [plainCodec] is the instance of
      [JsonText].
    - Every operation is a function on [Browser]: [mountEffect] is the
      effect of lines 23-42, [login], [logout] and [validateInviteCode]
      the functions of lines 44-70.  [requestInviteCode] (lines 72-83)
      changes nothing and resolves, two seconds later, to a fixed reply.
    - [Action] is what can happen to the provider, [reload] included;
      [runActions] a sequence of actions.

    The definitions are in the module [AuthProvider], under the names of
    the source. *)

From stdpp Require Import gmap strings.
From S2P Require Import Prelude JsString JsValue JsonText.

(** ** [JSON.stringify] and [JSON.parse] *)

Class JsonCodec : Type := {
  stringify : Json -> string;
  parse : string -> option Json;
  storable : Json -> bool;
  parse_stringify v : storable v = true -> parse (stringify v) = Some v;
  parse_storable text v : parse text = Some v -> storable v = true;
  stringify_truthy v : truthyString (stringify v) = true
}.

#[export] Instance plainCodec : JsonCodec := {|
  stringify := stringifyPlain;
  parse := parsePlain;
  storable := plainJson;
  parse_stringify := parsePlain_stringifyPlain;
  parse_storable := parsePlain_plainJson;
  stringify_truthy := stringifyPlain_truthy
|}.

Module AuthProvider.

(** The state of lines 15-18; [user] is [JNull] while nobody is signed
    in. *)
Record State : Type := mkState {
  user : Json;
  isAuthenticated : bool;
  hasValidInvite : bool;
  loading : bool
}.

Record Browser : Type := mkBrowser {
  ctx : State;
  localStorage : gmap string string
}.

(** The value of [requestInviteCode] (lines 77-80). *)
Record InviteReply : Type := mkInviteReply {
  success : bool;
  message : string
}.

Inductive Action : Type :=
| Login (userData : Json)
| Logout
| ValidateInviteCode (code : string)
| Reload.

Definition initialState : State := mkState JNull false false true.

Definition userKey : string := "curry2cakes_user".
Definition inviteKey : string := "curry2cakes_invite_status".

Definition setLoading (v : bool) (s : State) : State :=
  mkState (user s) (isAuthenticated s) (hasValidInvite s) v.

Definition setHasValidInvite (v : bool) (s : State) : State :=
  mkState (user s) (isAuthenticated s) v (loading s).

(** [useAuth] (lines 6-12): the value of the context, or the error thrown
    outside a provider. *)
Definition useAuth {Value : Type} (context : option Value) : string + Value :=
  match context with
  | Some value => inr value
  | None => inl "useAuth must be used within an AuthProvider"
  end.

(** The codes of line 61. *)
Definition validCodes : list string :=
  ["C2C2023"; "SPICY2SWEET"; "EXCLUSIVE2023"; "INNER_CIRCLE"].

Section Provider.
Context `{JsonCodec}.

(** The effect of lines 23-42. *)
Definition mountEffect (b : Browser) : Browser :=
  let savedUser := localStorage b !! userKey in
  let savedInviteStatus := localStorage b !! inviteKey in
  let b1 :=
    match savedUser with
    | Some text =>
        if truthyString text then
          match parse text with
          | Some userData =>
              mkBrowser
                (mkState userData true
                   (bool_decide (savedInviteStatus = Some "true"))
                   (loading (ctx b)))
                (localStorage b)
          | None =>
              mkBrowser (ctx b)
                (delete inviteKey (delete userKey (localStorage b)))
          end
        else b
    | None => b
    end in
  mkBrowser (setLoading false (ctx b1)) (localStorage b1).

(** The page is opened over a storage: the provider mounts with its
    initial state and its effect runs. *)
Definition openPage (storage : gmap string string) : Browser :=
  mountEffect (mkBrowser initialState storage).

(** [login] (lines 44-48). *)
Definition login (userData : Json) (b : Browser) : Browser :=
  mkBrowser
    (mkState userData true (hasValidInvite (ctx b)) (loading (ctx b)))
    (<[userKey := stringify userData]> (localStorage b)).

(** [logout] (lines 50-56). *)
Definition logout (b : Browser) : Browser :=
  mkBrowser (mkState JNull false false (loading (ctx b)))
    (delete inviteKey (delete userKey (localStorage b))).

(** [validateInviteCode] (lines 58-70): the value returned and the
    browser after the call. *)
Definition validateInviteCode (code : string) (b : Browser) : bool * Browser :=
  if bool_decide (toUpperCase code ∈ validCodes) then
    (true,
     mkBrowser (setHasValidInvite true (ctx b))
       (<[inviteKey := "true"]> (localStorage b)))
  else (false, b).

(** [requestInviteCode] (lines 72-83): what the promise resolves to. *)
Definition requestInviteCode (email : Json) : InviteReply :=
  mkInviteReply true
    "Invite code request sent! Check your email in a few minutes.".

Definition act (a : Action) (b : Browser) : Browser :=
  match a with
  | Login userData => login userData b
  | Logout => logout b
  | ValidateInviteCode code => (validateInviteCode code b).2
  | Reload => openPage (localStorage b)
  end.

Definition runActions (actions : list Action) (b : Browser) : Browser :=
  foldl (fun b a => act a b) b actions.

End Provider.

End AuthProvider.
