(* ===== verification/AuthContextProps.v ===== *)
(** * AuthContextProps: the session and the storage

    - [sessionInv]: the state of the provider and [localStorage] agree.
      It holds of a page opened over any storage
      ([sessionInv_openPage]) and every action keeps it
      ([sessionInv_act]), as long as the users that sign in survive the
      round trip through JSON ([storableAction]).
    - A page that is opened again restores the session
      ([reload_restores_session]); a stored user that does not parse is
      discarded with the invite ([corrupt_session_discarded]); after
      [logout] nothing is found ([logout_forgets]).
    - [validateInviteCode_accepts]: the four codes, in any case.
    - What modelling showed: the invite flag is restored only together
      with a user ([invite_returns_after_sign_in]), it belongs to the
      browser and not to the user ([invite_passes_to_next_user]), the
      stored text [null] makes the state authenticated without a user
      ([signed_in_as_nobody]), and the provider and [App.jsx] accept
      different codes ([validCodes_differ]).

    The theorems hold for every [JsonCodec]; the examples run with
    [plainCodec]. *)

From stdpp Require Import gmap strings.
From S2P Require Import Prelude JsString JsValue JsonText AuthContext.
From S2P Require App.
Import AuthProvider.

(** The users that sign in survive the round trip through JSON. *)
Definition storableAction `{JsonCodec} (a : Action) : Prop :=
  match a with
  | Login userData => storable userData = true
  | _ => True
  end.

Section Session.
Context `{JsonCodec}.

(** ** The state and the storage agree *)

Record sessionInv (b : Browser) : Prop := mkSessionInv {
  inv_user :
    if isAuthenticated (ctx b) then
      exists text, localStorage b !! userKey = Some text /\
        truthyString text = true /\ parse text = Some (user (ctx b))
    else
      user (ctx b) = JNull /\
      forall text, localStorage b !! userKey = Some text ->
        truthyString text = false;
  inv_invite :
    hasValidInvite (ctx b) = true -> localStorage b !! inviteKey = Some "true";
  inv_loading : loading (ctx b) = false
}.

Lemma keys_differ : userKey <> inviteKey.
Proof. done. Qed.

(** One equation per branch of the effect. *)
Lemma openPage_restored storage text userData :
  storage !! userKey = Some text -> truthyString text = true ->
  parse text = Some userData ->
  openPage storage =
  mkBrowser
    (mkState userData true
       (bool_decide (storage !! inviteKey = Some "true")) false) storage.
Proof.
  intros Hs Ht Hp. unfold openPage, mountEffect. cbn [localStorage ctx].
  by rewrite Hs, Ht, Hp.
Qed.

Lemma openPage_corrupt storage text :
  storage !! userKey = Some text -> truthyString text = true ->
  parse text = None ->
  openPage storage =
  mkBrowser (mkState JNull false false false)
    (delete inviteKey (delete userKey storage)).
Proof.
  intros Hs Ht Hp. unfold openPage, mountEffect. cbn [localStorage ctx].
  by rewrite Hs, Ht, Hp.
Qed.

Lemma openPage_fresh storage :
  (forall text, storage !! userKey = Some text -> truthyString text = false) ->
  openPage storage = mkBrowser (mkState JNull false false false) storage.
Proof.
  intros Hs. unfold openPage, mountEffect. cbn [localStorage ctx].
  destruct (storage !! userKey) as [text|]; [|done].
  by rewrite (Hs text eq_refl).
Qed.

Lemma sessionInv_openPage storage : sessionInv (openPage storage).
Proof.
  destruct (storage !! userKey) as [text|] eqn:Hs.
  - destruct (truthyString text) eqn:Ht.
    + destruct (parse text) as [userData|] eqn:Hp.
      * rewrite (openPage_restored _ _ _ Hs Ht Hp).
        split; cbn; [|by case_bool_decide|done]. by exists text.
      * rewrite (openPage_corrupt _ _ Hs Ht Hp). split; cbn; [|done|done].
        split; [done|]. intros t. by rewrite lookup_delete_ne, lookup_delete_eq.
    + rewrite openPage_fresh; [split; cbn; try done; split; [done|]|];
        intros t; congruence.
  - rewrite openPage_fresh; [split; cbn; try done; split; [done|]|];
      intros t; congruence.
Qed.


Lemma sessionInv_login userData b :
  storable userData = true -> sessionInv b -> sessionInv (login userData b).
Proof.
  intros Hu [Hs Hi Hl]. split; cbn; [|by rewrite lookup_insert_ne|done].
  exists (stringify userData).
  by rewrite lookup_insert_eq, stringify_truthy, parse_stringify.
Qed.

Lemma sessionInv_logout b : sessionInv b -> sessionInv (logout b).
Proof.
  intros [Hs Hi Hl]. split; cbn; [|done|done].
  split; [done|]. intros t. by rewrite lookup_delete_ne, lookup_delete_eq.
Qed.

Lemma sessionInv_validateInviteCode code b :
  sessionInv b -> sessionInv (validateInviteCode code b).2.
Proof.
  intros Hb. unfold validateInviteCode. case_bool_decide; [|done].
  destruct Hb as [Hs Hi Hl]. split; cbn; [|by rewrite lookup_insert_eq|done].
  destruct (isAuthenticated (ctx b)).
  - destruct Hs as (text & Hs & Ht). exists text. by rewrite lookup_insert_ne.
  - destruct Hs as [Hu Hs]. split; [done|].
    intros t. rewrite lookup_insert_ne by done. apply Hs.
Qed.

Lemma sessionInv_act a b :
  storableAction a -> sessionInv b -> sessionInv (act a b).
Proof.
  destruct a; cbn; intros Ha Hb;
    auto using sessionInv_login, sessionInv_logout,
      sessionInv_validateInviteCode, sessionInv_openPage.
Qed.

Lemma sessionInv_runActions actions b :
  Forall storableAction actions -> sessionInv b ->
  sessionInv (runActions actions b).
Proof.
  intros Ha. revert b. induction Ha as [|a actions Ha _ IH]; intros b Hb; [done|].
  apply IH. by apply sessionInv_act.
Qed.

(** C17: whatever the storage holds when the page is opened, and whatever
    happens then, the state and the storage agree: while the state says
    authenticated the user is the one the stored text parses to, otherwise
    the user is [null] and the storage holds no user; and a valid invite
    is recorded in the storage. *)
Theorem session_agrees_with_storage storage actions :
  Forall storableAction actions ->
  sessionInv (runActions actions (openPage storage)).
Proof. intros Ha. apply sessionInv_runActions, sessionInv_openPage. done. Qed.

(** C15: a page that is opened again restores the session: the user, and
    the invite the user had; the storage is not changed.  A browser
    without a user comes back without an invite. *)
Theorem reload_restores_session b :
  sessionInv b ->
  let b' := act Reload b in
  user (ctx b') = user (ctx b) /\
  isAuthenticated (ctx b') = isAuthenticated (ctx b) /\
  localStorage b' = localStorage b /\
  hasValidInvite (ctx b') =
    (isAuthenticated (ctx b) &&
     bool_decide (localStorage b !! inviteKey = Some "true")) /\
  (isAuthenticated (ctx b) = true -> hasValidInvite (ctx b) = true ->
   hasValidInvite (ctx b') = true).
Proof.
  intros [Hs Hi Hl]. cbn zeta.
  change (act Reload b) with (openPage (localStorage b)).
  destruct (isAuthenticated (ctx b)).
  - destruct Hs as (text & Hs & Ht & Hp).
    rewrite (openPage_restored _ _ _ Hs Ht Hp). cbn. split_and!; try done.
    intros _ Hv. by rewrite (Hi Hv), bool_decide_eq_true_2.
  - destruct Hs as [Hu Hs]. rewrite (openPage_fresh _ Hs). cbn.
    by split_and!.
Qed.

(** C23: a stored user that does not parse is discarded: the page opens
    signed out and without an invite, and both keys are removed. *)
Theorem corrupt_session_discarded storage text :
  storage !! userKey = Some text -> truthyString text = true ->
  parse text = None ->
  ctx (openPage storage) = mkState JNull false false false /\
  localStorage (openPage storage) !! userKey = None /\
  localStorage (openPage storage) !! inviteKey = None /\
  (forall k, k <> userKey -> k <> inviteKey ->
     localStorage (openPage storage) !! k = storage !! k).
Proof.
  intros Hs Ht Hp. rewrite (openPage_corrupt _ _ Hs Ht Hp). cbn.
  split_and!; [done| | |].
  - by rewrite lookup_delete_ne, lookup_delete_eq.
  - by rewrite lookup_delete_eq.
  - intros k Hu Hi. by rewrite !lookup_delete_ne.
Qed.

(** [validateInviteCode] accepts a code exactly when its upper case is one
    of the four codes; it then sets the flag and records it, and otherwise
    changes nothing. *)
Lemma validateInviteCode_accepts code b :
  let '(accepted, b') := validateInviteCode code b in
  accepted = bool_decide (toUpperCase code ∈ validCodes) /\
  (if accepted then
     hasValidInvite (ctx b') = true /\
     localStorage b' = <[inviteKey := "true"]> (localStorage b) /\
     user (ctx b') = user (ctx b)
   else b' = b).
Proof. unfold validateInviteCode. by case_bool_decide. Qed.

(** After [logout], a page that is opened again finds nothing. *)
Lemma logout_forgets b :
  ctx (act Reload (logout b)) = mkState JNull false false false.
Proof.
  change (act Reload (logout b)) with (openPage (localStorage (logout b))).
  rewrite openPage_fresh; [done|]. intros t. cbn.
  by rewrite lookup_delete_ne, lookup_delete_eq.
Qed.

End Session.

(** ** Examples *)

Definition asha : Json := JObj [("email", JStr "asha@example.com")].

Lemma session_agrees_with_storage_witness :
  sessionInv
    (runActions [Login asha; ValidateInviteCode "c2c2023"; Reload]
       (openPage ∅)).
Proof.
  apply session_agrees_with_storage. repeat constructor.
Defined.

Lemma reload_restores_session_witness :
  let b := runActions [Login asha; ValidateInviteCode "c2c2023"] (openPage ∅) in
  let b' := act Reload b in
  user (ctx b') = user (ctx b) /\
  isAuthenticated (ctx b') = isAuthenticated (ctx b) /\
  localStorage b' = localStorage b /\
  hasValidInvite (ctx b') =
    (isAuthenticated (ctx b) &&
     bool_decide (localStorage b !! inviteKey = Some "true")) /\
  (isAuthenticated (ctx b) = true -> hasValidInvite (ctx b) = true ->
   hasValidInvite (ctx b') = true).
Proof.
  apply reload_restores_session, sessionInv_runActions, sessionInv_openPage.
  repeat constructor.
Defined.

Lemma corrupt_session_discarded_witness :
  let storage : gmap string string :=
    <[inviteKey := "true"]> (<[userKey := "{oops"]> ∅) in
  ctx (openPage storage) = mkState JNull false false false /\
  localStorage (openPage storage) !! userKey = None /\
  localStorage (openPage storage) !! inviteKey = None /\
  (forall k, k <> userKey -> k <> inviteKey ->
     localStorage (openPage storage) !! k = storage !! k).
Proof.
  apply (corrupt_session_discarded _ "{oops"); reflexivity.
Defined.

(** An invite that is validated before anyone signs in is forgotten by the
    next page and comes back two pages later, once a user is stored. *)
Example invite_returns_after_sign_in :
  let b1 := runActions [ValidateInviteCode "C2C2023"; Reload] (openPage ∅) in
  let b2 := act (Login asha) b1 in
  let b3 := act Reload b2 in
  hasValidInvite (ctx b1) = false /\ hasValidInvite (ctx b2) = false /\
  hasValidInvite (ctx b3) = true.
Proof. vm_compute. done. Qed.

(** The invite belongs to the browser: a second user who signs in without
    a [logout] in between has the invite of the first. *)
Example invite_passes_to_next_user :
  let b :=
    runActions
      [Login asha; ValidateInviteCode "C2C2023";
       Login (JObj [("email", JStr "ravi@example.com")])] (openPage ∅) in
  hasValidInvite (ctx b) = true /\
  user (ctx b) = JObj [("email", JStr "ravi@example.com")].
Proof. vm_compute. done. Qed.

(** The state can say authenticated while there is no user: the stored
    text [null] is JSON, and so is the [null] that [login] stores when it
    is called without user data. *)
Example signed_in_as_nobody :
  let b := openPage (<[userKey := "null"]> ∅) in
  isAuthenticated (ctx b) = true /\ user (ctx b) = JNull /\
  ctx (act Reload (act (Login JNull) (openPage ∅))) = ctx b.
Proof. vm_compute. done. Qed.

(** The provider and [App.jsx] accept different codes: one code is on both
    lists. *)
Example validCodes_differ :
  filter (fun c => c ∈ App.validCodes) validCodes = ["C2C2023"].
Proof. vm_compute. done. Qed.
