(* ===== verification/Base64.v ===== *)
(** * Base64: [atob], and [decodeURIComponent] on ASCII

    [atob] is the forgiving-base64 decoder of the HTML standard: it drops
    ASCII white space, accepts padding only on a text whose length is a
    multiple of four, refuses a length of one more than a multiple of four
    and every unit outside the alphabet, and turns four units into three
    bytes, discarding the bits of an incomplete last group.

    [decodeAscii] is [decodeURIComponent] on the texts whose escapes are
    below 128: an escape [%XY] becomes the unit of that number, every
    other unit stays.  An escape of a byte from 128 on starts a UTF-8
    sequence, which this decoder refuses. *)

From Stdlib Require Import List String Ascii ZArith Bool Lia.
From S2P Require Import Prelude JsString.
Import ListNotations.

#[local] Open Scope string_scope.
#[local] Open Scope Z_scope.

Definition unitValue (c : ascii) : Z := Z.of_N (N_of_ascii c).

Definition unitOf (n : Z) : ascii := ascii_of_N (Z.to_N n).

(** The value of a unit of the base64 alphabet. *)
Definition sextet (c : ascii) : option Z :=
  let n := unitValue c in
  if (65 <=? n) && (n <=? 90) then Some (n - 65)
  else if (97 <=? n) && (n <=? 122) then Some (n - 71)
  else if (48 <=? n) && (n <=? 57) then Some (n + 4)
  else if n =? 43 then Some 62
  else if n =? 47 then Some 63
  else None.

(** ASCII white space: tab, line feed, form feed, carriage return, space. *)
Definition asciiWhiteSpace (c : ascii) : bool :=
  let n := unitValue c in
  (n =? 9) || (n =? 10) || (n =? 12) || (n =? 13) || (n =? 32).

Fixpoint removeWhiteSpace (s : string) : string :=
  match s with
  | EmptyString => EmptyString
  | String c s' =>
      if asciiWhiteSpace c then removeWhiteSpace s'
      else String c (removeWhiteSpace s')
  end.

Fixpoint unitsOf (s : string) : list ascii :=
  match s with
  | EmptyString => []
  | String c s' => c :: unitsOf s'
  end.

(** Without the one or two [=] at the end. *)
Definition removePadding (l : list ascii) : list ascii :=
  match rev l with
  | "="%char :: "="%char :: r => rev r
  | "="%char :: r => rev r
  | _ => l
  end.

Fixpoint sextets (l : list ascii) : option (list Z) :=
  match l with
  | [] => Some []
  | c :: l' =>
      match sextet c, sextets l' with
      | Some v, Some vs => Some (v :: vs)
      | _, _ => None
      end
  end.

(** Four sextets are three bytes; of two and of three at the end, the
    last bits are discarded. *)
Fixpoint decodeSextets (l : list Z) : string :=
  match l with
  | a :: b :: c :: d :: rest =>
      String (unitOf (a * 4 + b / 16))
        (String (unitOf (b mod 16 * 16 + c / 4))
           (String (unitOf (c mod 4 * 64 + d)) (decodeSextets rest)))
  | [a; b; c] =>
      String (unitOf (a * 4 + b / 16))
        (String (unitOf (b mod 16 * 16 + c / 4)) "")
  | [a; b] => String (unitOf (a * 4 + b / 16)) ""
  | _ => ""
  end.

(** [atob(s)], [None] when it throws. *)
Definition atob (s : string) : option string :=
  let l := unitsOf (removeWhiteSpace s) in
  let l := if (Z.of_nat (List.length l) mod 4 =? 0) then removePadding l else l in
  if Z.of_nat (List.length l) mod 4 =? 1 then None
  else option_map decodeSextets (sextets l).

(** The value of a hexadecimal digit. *)
Definition hexDigit (c : ascii) : option Z :=
  let n := unitValue c in
  if (48 <=? n) && (n <=? 57) then Some (n - 48)
  else if (97 <=? n) && (n <=? 102) then Some (n - 87)
  else if (65 <=? n) && (n <=? 70) then Some (n - 55)
  else None.

Fixpoint decodeAscii (s : string) : option string :=
  match s with
  | EmptyString => Some EmptyString
  | String "%" (String x (String y s')) =>
      match hexDigit x, hexDigit y, decodeAscii s' with
      | Some h, Some l, Some r =>
          if h <? 8 then Some (String (unitOf (h * 16 + l)) r) else None
      | _, _, _ => None
      end
  | String "%" _ => None
  | String c s' => option_map (String c) (decodeAscii s')
  end.

(** ** Examples and bounds *)

Example atob_examples :
  atob "aGVsbG8=" = Some "hello" /\ atob "aGVsbG8" = Some "hello" /\
  atob " aGVs bG8h " = Some "hello!" /\ atob "aGVsb" = None /\
  atob "aGVs-G8h" = None /\ atob "aGVsbG8==" = None /\ atob "" = Some "".
Proof. repeat split; reflexivity. Qed.

Lemma sextet_range c v : sextet c = Some v -> 0 <= v < 64.
Proof.
  unfold sextet.
  repeat match goal with
         | |- context [if ?b then _ else _] => destruct b eqn:?
         end; intros [= <-]; bool_to_prop; lia.
Qed.

Lemma length_sextets l vs : sextets l = Some vs -> List.length vs = List.length l.
Proof.
  revert vs. induction l as [|c l IH]; simpl; intros vs.
  - now intros [= <-].
  - destruct (sextet c); [|discriminate].
    destruct (sextets l) as [vs'|]; [|discriminate].
    intros [= <-]. simpl. now rewrite (IH vs' eq_refl).
Qed.
