(* ===== verification/Base64Props.v ===== *)
(** * Base64Props: [atob] decodes what base64 encodes

    [encode] is the base64 encoding of a text of 8-bit units, without
    padding, in the standard alphabet or in the alphabet of base64url
    (the second segment of a token of Google is encoded so).  It is a
    reference: the sources only decode.

    - [atob_encode]: [atob] of the encoding of a text is the text.
    - [alphabet_url]: replacing [-] by [+] and [_] by [/] turns the
      alphabet of base64url into the standard one.
    - [hexDigit_hexChar], [unitOf_hex]: the two digits of a
      percent-escape give back the unit.

    Facts about one unit are checked on all of its values ([checkBelow]);
    facts about three bytes are arithmetic. *)

From stdpp Require Import tactics.
From Stdlib Require Import List String Ascii ZArith Bool Lia.
From S2P Require Import Prelude JsString Encoding Base64.
Import ListNotations.

#[local] Open Scope string_scope.
#[local] Open Scope Z_scope.

(** ** The reference encoder *)

(** The unit of the alphabet for a value below 64. *)
Definition alphabet (url : bool) (v : Z) : ascii :=
  if v <? 26 then unitOf (v + 65)
  else if v <? 52 then unitOf (v + 71)
  else if v <? 62 then unitOf (v - 4)
  else if v =? 62 then (if url then "-"%char else "+"%char)
  else (if url then "_"%char else "/"%char).

(** Three bytes are four sextets; one byte at the end is two, two bytes
    are three. *)
Fixpoint encodeBytes (l : list Z) : list Z :=
  match l with
  | a :: b :: c :: rest =>
      a / 4 :: a mod 4 * 16 + b / 16 :: b mod 16 * 4 + c / 64 :: c mod 64
      :: encodeBytes rest
  | [a; b] => [a / 4; a mod 4 * 16 + b / 16; b mod 16 * 4]
  | [a] => [a / 4; a mod 4 * 16]
  | [] => []
  end.

Fixpoint stringOf (l : list ascii) : string :=
  match l with
  | [] => EmptyString
  | c :: l' => String c (stringOf l')
  end.

Definition bytesOf (s : string) : list Z := map unitValue (unitsOf s).

Definition encode (url : bool) (s : string) : string :=
  stringOf (map (alphabet url) (encodeBytes (bytesOf s))).

(** ** Checking all values of a unit *)

Definition checkBelow (n : nat) (p : Z -> bool) : bool :=
  forallb p (map Z.of_nat (seq 0 n)).

Lemma checkBelow_spec n p v :
  checkBelow n p = true -> 0 <= v < Z.of_nat n -> p v = true.
Proof.
  unfold checkBelow. rewrite forallb_forall. intros H Hv. apply H.
  apply in_map_iff. exists (Z.to_nat v). split; [lia|].
  apply in_seq. lia.
Qed.

Lemma unitValue_range c : 0 <= unitValue c < 256.
Proof.
  unfold unitValue. pose proof (N_ascii_bounded c). lia.
Qed.

Lemma unitOf_unitValue c : unitOf (unitValue c) = c.
Proof.
  unfold unitOf, unitValue. rewrite N2Z.id. apply ascii_N_embedding.
Qed.

Lemma unitValue_unitOf v : 0 <= v < 256 -> unitValue (unitOf v) = v.
Proof.
  intros Hv. unfold unitOf, unitValue. rewrite N_ascii_embedding; lia.
Qed.

(** A property of every unit, from a check of the 256 values. *)
Lemma all_units (p : ascii -> bool) c :
  checkBelow 256 (fun v => p (unitOf v)) = true -> p c = true.
Proof.
  intros H. rewrite <- (unitOf_unitValue c).
  apply (checkBelow_spec 256 (fun v => p (unitOf v))); [done|].
  apply unitValue_range.
Qed.

(** ** One unit of the alphabet *)

Definition sameSextet (x : option Z) (v : Z) : bool :=
  match x with Some w => w =? v | None => false end.

Lemma sameSextet_spec x v : sameSextet x v = true -> x = Some v.
Proof. destruct x as [w|]; simpl; [|easy]. intros H. f_equal. lia. Qed.

Lemma sextet_alphabet v :
  0 <= v < 64 -> sextet (alphabet false v) = Some v.
Proof.
  intros Hv. apply sameSextet_spec.
  apply (checkBelow_spec 64 (fun v => sameSextet (sextet (alphabet false v)) v));
    [by vm_compute|done].
Qed.

Lemma alphabet_plain url v :
  0 <= v < 64 ->
  asciiWhiteSpace (alphabet url v) = false /\
  Ascii.eqb (alphabet url v) "=" = false /\
  Ascii.eqb (alphabet url v) "." = false.
Proof.
  intros Hv.
  pose proof (checkBelow_spec 64
    (fun v => negb (asciiWhiteSpace (alphabet url v)) &&
              negb (Ascii.eqb (alphabet url v) "=") &&
              negb (Ascii.eqb (alphabet url v) ".")) v) as H.
  rewrite !andb_true_iff, !negb_true_iff in H.
  destruct H as [[? ?] ?]; [by destruct url; vm_compute|done|done].
Qed.

(** ** Groups of three bytes *)

#[local] Ltac dlia := Z.to_euclidean_division_equations; lia.
#[local] Ltac bytes :=
  repeat match goal with
         | H : Forall _ (_ :: _) |- _ => inversion_clear H
         end.

Lemma list_ind3 {A} (Q : list A -> Prop) :
  Q [] -> (forall a, Q [a]) -> (forall a b, Q [a; b]) ->
  (forall a b c l, Q l -> Q (a :: b :: c :: l)) ->
  forall l, Q l.
Proof.
  intros H0 H1 H2 H3 l.
  assert (H : Q l /\ (forall a, Q (a :: l)) /\ (forall a b, Q (a :: b :: l))).
  { induction l as [|c l (IH0 & IH1 & IH2)]; [by auto|].
    split; [apply IH1|]. split; [intros a; apply IH2|].
    intros a b. by apply H3. }
  apply H.
Qed.

Definition isByte (v : Z) : Prop := 0 <= v < 256.
Definition isSextet (v : Z) : Prop := 0 <= v < 64.

Lemma encodeBytes_sextets l :
  Forall isByte l -> Forall isSextet (encodeBytes l).
Proof.
  unfold isByte, isSextet. induction l as [|a|a b|a b c l IH] using list_ind3;
    intros H; cbn [encodeBytes]; bytes; repeat (constructor; [dlia|]); auto.
Qed.

Lemma length_encodeBytes l :
  Z.of_nat (List.length (encodeBytes l)) mod 4 <> 1 /\
  (Z.of_nat (List.length (encodeBytes l)) mod 4 = 0 ->
   Z.of_nat (List.length l) mod 3 = 0).
Proof.
  induction l as [|a|a b|a b c l IH] using list_ind3; cbn [encodeBytes List.length];
    try (by vm_compute).
  replace (Z.of_nat (S (S (S (S (List.length (encodeBytes l)))))))
    with (Z.of_nat (List.length (encodeBytes l)) + 1 * 4) by lia.
  replace (Z.of_nat (S (S (S (List.length l)))))
    with (Z.of_nat (List.length l) + 1 * 3) by lia.
  by rewrite !Z_mod_plus_full.
Qed.

(** Decoding the sextets of some bytes gives the bytes. *)
Lemma decodeSextets_encodeBytes l :
  Forall isByte l ->
  decodeSextets (encodeBytes l) = stringOf (map unitOf l).
Proof.
  unfold isByte. induction l as [|a|a b|a b c l IH] using list_ind3;
    intros H; bytes; cbn [encodeBytes decodeSextets map stringOf];
    rewrite ?IH by done; repeat f_equal; dlia.
Qed.

(** ** Texts *)

Lemma unitsOf_stringOf l : unitsOf (stringOf l) = l.
Proof. induction l as [|c l IH]; simpl; congruence. Qed.

Lemma stringOf_unitsOf s : stringOf (unitsOf s) = s.
Proof. induction s as [|c s IH]; simpl; congruence. Qed.

Lemma bytesOf_bytes s : Forall isByte (bytesOf s).
Proof.
  unfold bytesOf. induction s as [|c s IH]; simpl; constructor; [|done].
  apply unitValue_range.
Qed.

Lemma map_unitOf_bytesOf s : map unitOf (bytesOf s) = unitsOf s.
Proof.
  unfold bytesOf. induction s as [|c s IH]; simpl; [done|].
  by rewrite unitOf_unitValue, IH.
Qed.

Lemma removeWhiteSpace_plain l :
  Forall (fun c => asciiWhiteSpace c = false) l ->
  removeWhiteSpace (stringOf l) = stringOf l.
Proof. induction 1 as [|c l Hc _ IH]; simpl; [done|]. by rewrite Hc, IH. Qed.

Lemma sextets_alphabet vs :
  Forall isSextet vs -> sextets (map (alphabet false) vs) = Some vs.
Proof.
  induction 1 as [|v vs Hv _ IH]; simpl; [done|].
  by rewrite (sextet_alphabet v Hv), IH.
Qed.

(** A text that does not end in [=] has no padding to remove. *)
Lemma removePadding_plain l :
  Forall (fun c => Ascii.eqb c "=" = false) l -> removePadding l = l.
Proof.
  intros H. unfold removePadding.
  assert (Hr : Forall (fun c => Ascii.eqb c "=" = false) (rev l)).
  { apply Forall_forall. intros c Hc. rewrite Forall_forall in H.
    apply H. by apply in_rev. }
  destruct (rev l) as [|c r]; [done|]. inversion_clear Hr as [|? ? Hc _].
  by destruct c as [[] [] [] [] [] [] [] []].
Qed.

Lemma Forall_alphabet url (Q : ascii -> Prop) vs :
  (forall v, isSextet v -> Q (alphabet url v)) ->
  Forall isSextet vs -> Forall Q (map (alphabet url) vs).
Proof. intros HQ. induction 1; simpl; constructor; auto. Qed.

(** ** The round trip *)

Theorem atob_encode s : atob (encode false s) = Some s.
Proof.
  pose proof (encodeBytes_sextets _ (bytesOf_bytes s)) as Hs.
  pose proof (length_encodeBytes (bytesOf s)) as [Hlen _].
  unfold atob, encode.
  rewrite removeWhiteSpace_plain, unitsOf_stringOf
    by (apply Forall_alphabet; [intros v Hv; apply alphabet_plain, Hv|done]).
  rewrite removePadding_plain
    by (apply Forall_alphabet; [intros v Hv; apply alphabet_plain, Hv|done]).
  rewrite length_map.
  replace (if _ =? 0 then _ else _) with (map (alphabet false) (encodeBytes (bytesOf s)))
    by (by destruct (_ =? 0)).
  rewrite length_map. destruct (Z.eqb_spec (Z.of_nat (List.length (encodeBytes (bytesOf s))) mod 4) 1);
    [done|].
  rewrite sextets_alphabet by done. cbn [option_map].
  rewrite decodeSextets_encodeBytes by apply bytesOf_bytes.
  by rewrite map_unitOf_bytesOf, stringOf_unitsOf.
Qed.

(** ** The alphabet of base64url, and hexadecimal digits *)

Lemma alphabet_url v :
  0 <= v < 64 ->
  let c := alphabet true v in
  let c1 := if Ascii.eqb c "-" then "+"%char else c in
  (if Ascii.eqb c1 "_" then "/"%char else c1) = alphabet false v.
Proof.
  intros Hv. cbv zeta. apply Ascii.eqb_eq.
  apply (checkBelow_spec 64
    (fun v => Ascii.eqb
       (let c := alphabet true v in
        let c1 := if Ascii.eqb c "-" then "+"%char else c in
        if Ascii.eqb c1 "_" then "/"%char else c1) (alphabet false v)));
    [by vm_compute|done].
Qed.

Lemma hexDigit_hexChar d : 0 <= d < 16 -> hexDigit (hexChar d) = Some d.
Proof.
  intros Hd. apply sameSextet_spec.
  apply (checkBelow_spec 16 (fun d => sameSextet (hexDigit (hexChar d)) d));
    [by vm_compute|done].
Qed.

Lemma unitOf_hex c :
  unitOf (unitValue c / 16 * 16 + unitValue c mod 16) = c.
Proof.
  replace (_ + _) with (unitValue c) by dlia. apply unitOf_unitValue.
Qed.
