(* ===== verification/Forms.v ===== *)
(** * Forms: the invite form and the Google button of the provider,
      [src/src/components/InviteCodeForm.jsx] and
      [src/src/components/GoogleSignIn.jsx]

    Both components read the session of [AuthContext] through [useAuth].

    ** Model

    - [InviteCodeForm.Mounted] is the form as it is mounted: its five
      [useState] cells ([InviteCodeForm.State], lines 11-15), the browser
      with the provider, the timer of line 23 with the code its closure
      holds, the call of [requestInviteCode] that is awaited at line 49,
      and the number of times [onSuccess] was called.
    - [handleSubmit] runs up to [setTimeout] ([handleSubmitStart]) and
      continues when the timer fires ([handleSubmitDone]);
      [handleRequestInvite] runs up to its [await]
      ([handleRequestInviteStart]) and continues with what the promise
      settled to ([handleRequestInviteDone], [None] for a rejection).
    - [InviteCodeForm.render] gives what the markup depends on: which
      controls are disabled and which alerts are shown.  An event of the
      visitor is [enabled] when its control is not disabled.
    - [GoogleSignIn.handleSuccess] has no [await] and runs in one piece.
      [atob] is [Base64.atob]; [decodeURIComponent] is the class
      [UriDecoder], with the decoder of ASCII texts as an instance;
      [JSON.parse] is [AuthContext.JsonCodec].  An object is kept as its
      defined fields, so the [userData] of lines 28-36 has the fields that
      [userInfo] defines. *)

From stdpp Require Import gmap strings.
From Stdlib Require Import ZArith.
From Stdlib.Strings Require Import Ascii.
From S2P Require Import Prelude JsString Encoding JsValue JsonText Base64.
From S2P Require Import AuthContext.

(** [decodeURIComponent(s)], [None] when it throws. *)
Class UriDecoder : Type := {
  decodeURIComponent : string -> option string
}.

(** The decoder of the texts whose escapes are ASCII. *)
#[export] Instance asciiUriDecoder : UriDecoder := {|
  decodeURIComponent := decodeAscii
|}.

(** [user?.email]. *)
Definition emailOf (user : Json) : option Json := field "email" user.

Module InviteCodeForm.

(** [{type, message}] (lines 51-65). *)
Record RequestStatus : Type := mkRequestStatus {
  statusType : string;
  statusMessage : string
}.

(** The state of lines 11-15. *)
Record State : Type := mkState {
  inviteCode : string;
  error : string;
  isLoading : bool;
  requestStatus : option RequestStatus;
  isRequestingCode : bool
}.

Record Mounted : Type := mkMounted {
  browser : AuthProvider.Browser;
  form : State;
  submitTimer : option string;
  requestPending : option Json;
  onSuccessCalls : nat
}.

Inductive Event : Type :=
| TypeCode (value : string)
| Submit
| SubmitTimer
| RequestInvite
| RequestSettles.

(** What the markup of lines 71-165 depends on. *)
Record View : Type := mkView {
  inputDisabled : bool;
  errorAlert : option string;
  statusAlert : option (bool * string);
  submitDisabled : bool;
  submitBusy : bool;
  requestDisabled : bool;
  requestBusy : bool;
  signInHint : bool
}.

Definition initialState : State := mkState "" "" false None false.

Definition mount (b : AuthProvider.Browser) : Mounted :=
  mkMounted b initialState None None 0.

Definition setInviteCode (v : string) (s : State) : State :=
  mkState v (error s) (isLoading s) (requestStatus s) (isRequestingCode s).

Definition setError (v : string) (s : State) : State :=
  mkState (inviteCode s) v (isLoading s) (requestStatus s) (isRequestingCode s).

Definition setIsLoading (v : bool) (s : State) : State :=
  mkState (inviteCode s) (error s) v (requestStatus s) (isRequestingCode s).

Definition setRequestStatus (v : option RequestStatus) (s : State) : State :=
  mkState (inviteCode s) (error s) (isLoading s) v (isRequestingCode s).

Definition setIsRequestingCode (v : bool) (s : State) : State :=
  mkState (inviteCode s) (error s) (isLoading s) (requestStatus s) v.

Definition withForm (f : State -> State) (m : Mounted) : Mounted :=
  mkMounted (browser m) (f (form m)) (submitTimer m) (requestPending m)
    (onSuccessCalls m).

Definition msgNotOnList : string :=
  "Sorry, this code isn't on our list. Double-check your code or request a new one.".
Definition msgSignInFirst : string :=
  "Please sign in first to request an invite code.".
Definition msgRequestFailed : string :=
  "Failed to send invite request. Please try again.".

(** [handleSubmit] up to [setTimeout] (lines 17-23). *)
Definition handleSubmitStart (m : Mounted) : Mounted :=
  mkMounted (browser m) (setIsLoading true (setError "" (form m)))
    (Some (inviteCode (form m))) (requestPending m) (onSuccessCalls m).

(** The callback of the timer (lines 24-34), for the code of its
    closure. *)
Definition handleSubmitDone (code : string) (m : Mounted) : Mounted :=
  let '(isValid, b) := AuthProvider.validateInviteCode code (browser m) in
  if isValid then
    mkMounted b (setIsLoading false (form m)) None (requestPending m)
      (S (onSuccessCalls m))
  else
    mkMounted b (setIsLoading false (setError msgNotOnList (form m))) None
      (requestPending m) (onSuccessCalls m).

(** [handleRequestInvite] up to its [await] (lines 38-49). *)
Definition handleRequestInviteStart (m : Mounted) : Mounted :=
  let user := AuthProvider.user (AuthProvider.ctx (browser m)) in
  if negb (truthy (emailOf user)) then withForm (setError msgSignInFirst) m
  else
    mkMounted (browser m)
      (setRequestStatus None (setError "" (setIsRequestingCode true (form m))))
      (submitTimer m) (emailOf user) (onSuccessCalls m).

(** [handleRequestInvite] after its [await] (lines 49-68): [settled] is
    the value of the promise, [None] when it is rejected. *)
Definition handleRequestInviteDone (settled : option AuthProvider.InviteReply)
    (m : Mounted) : Mounted :=
  let status :=
    match settled with
    | Some result =>
        if AuthProvider.success result then
          mkRequestStatus "success" (AuthProvider.message result)
        else
          mkRequestStatus "error"
            (if truthyString (AuthProvider.message result)
             then AuthProvider.message result else msgRequestFailed)
    | None => mkRequestStatus "error" msgRequestFailed
    end in
  mkMounted (browser m)
    (setIsRequestingCode false (setRequestStatus (Some status) (form m)))
    (submitTimer m) None (onSuccessCalls m).

(** What is rendered (lines 71-165). *)
Definition render (user : Json) (s : State) : View :=
  {| inputDisabled := isLoading s;
     errorAlert := if truthyString (error s) then Some (error s) else None;
     statusAlert :=
       match requestStatus s with
       | Some status =>
           Some (negb (String.eqb (statusType status) "success"),
                 statusMessage status)
       | None => None
       end;
     submitDisabled := isLoading s || negb (truthyString (trim (inviteCode s)));
     submitBusy := isLoading s;
     requestDisabled := isRequestingCode s || negb (truthy (emailOf user));
     requestBusy := isRequestingCode s;
     signInHint := negb (truthy (emailOf user)) |}.

Definition view (m : Mounted) : View :=
  render (AuthProvider.user (AuthProvider.ctx (browser m))) (form m).

(** When an event can happen: the control of the visitor is not disabled,
    the timer is pending, the promise is awaited. *)
Definition enabled (e : Event) (m : Mounted) : bool :=
  match e with
  | TypeCode _ => negb (inputDisabled (view m))
  | Submit => negb (submitDisabled (view m))
  | SubmitTimer => bool_decide (is_Some (submitTimer m))
  | RequestInvite => negb (requestDisabled (view m))
  | RequestSettles => bool_decide (is_Some (requestPending m))
  end.

Definition fire (e : Event) (m : Mounted) : Mounted :=
  match e with
  | TypeCode value => withForm (setInviteCode value) m
  | Submit => handleSubmitStart m
  | SubmitTimer =>
      match submitTimer m with
      | Some code => handleSubmitDone code m
      | None => m
      end
  | RequestInvite => handleRequestInviteStart m
  | RequestSettles =>
      match requestPending m with
      | Some email =>
          handleRequestInviteDone (Some (AuthProvider.requestInviteCode email)) m
      | None => m
      end
  end.

Definition formStep (e : Event) (m : Mounted) : Mounted :=
  if enabled e m then fire e m else m.

Definition runForm (es : list Event) (m : Mounted) : Mounted :=
  foldl (fun m e => formStep e m) m es.

End InviteCodeForm.

Module GoogleSignIn.

(** What [handleSuccess] and [handleError] leave behind: the browser, the
    flag of line 9, and the callbacks that were called. *)
Inductive Callback : Type :=
| OnSuccess (userData : Json)
| OnError.

Record Mounted : Type := mkMounted {
  browser : AuthProvider.Browser;
  isLoading : bool;
  callbacks : list Callback
}.

Definition mount (b : AuthProvider.Browser) : Mounted := mkMounted b false [].

(** [token.split('.')[1]] (line 17). *)
Definition payloadSegment (token : string) : option string :=
  splitOn "."%char token !! 1.

(** Line 18. *)
Definition toBase64 (base64Url : string) : string :=
  replaceChar "_"%char "/"%char (replaceChar "-"%char "+"%char base64Url).

(** ['%' + ('00' + c.charCodeAt(0).toString(16)).slice(-2)] (line 22). *)
Definition percentEncode (c : Ascii.ascii) : string :=
  let n := Z.of_N (charCode c) in
  String "%"%char
    (String (hexChar (n / 16)%Z) (String (hexChar (n mod 16)%Z) "")).

Fixpoint percentEncodeAll (s : string) : string :=
  match s with
  | EmptyString => EmptyString
  | String c s' => percentEncode c +:+ percentEncodeAll s'
  end.

(** The fields of lines 28-36, those that [userInfo] defines. *)
Definition pick (userInfo : Json) (key source : string)
    : list (string * Json) :=
  match field source userInfo with
  | Some v => [(key, v)]
  | None => []
  end.

Definition userDataOf (userInfo : Json) : Json :=
  JObj
    (pick userInfo "id" "sub" ++ pick userInfo "email" "email" ++
     pick userInfo "name" "name" ++ pick userInfo "picture" "picture" ++
     pick userInfo "given_name" "given_name" ++
     pick userInfo "family_name" "family_name" ++
     pick userInfo "email_verified" "email_verified").

Section GoogleSignIn.
Context `{JsonCodec} `{UriDecoder}.

(** Lines 16-26: the payload of the token, or [None] when a step throws.
    Reading a field of [null] throws at line 29. *)
Definition decodeToken (credential : option string) : option Json :=
  token ← credential;
  base64Url ← payloadSegment token;
  binary ← atob (toBase64 base64Url);
  jsonPayload ← decodeURIComponent (percentEncodeAll binary);
  userInfo ← parse jsonPayload;
  match userInfo with JNull => None | _ => Some userInfo end.

(** [handleSuccess] (lines 11-52). *)
Definition handleSuccess (credential : option string) (m : Mounted) : Mounted :=
  match decodeToken credential with
  | Some userInfo =>
      let userData := userDataOf userInfo in
      mkMounted (AuthProvider.login userData (browser m)) false
        (callbacks m ++ [OnSuccess userData])
  | None => mkMounted (browser m) false (callbacks m ++ [OnError])
  end.

(** [handleError] (lines 54-60). *)
Definition handleError (m : Mounted) : Mounted :=
  mkMounted (browser m) false (callbacks m ++ [OnError]).

End GoogleSignIn.

(** What is rendered (lines 62-87): a disabled button while [isLoading],
    the widget of Google with its settings otherwise. *)
Inductive View : Type :=
| SigningIn
| GoogleLogin (useOneTap : bool) (theme size text shape : string).

Definition render (m : Mounted) : View :=
  if isLoading m then SigningIn
  else GoogleLogin false "outline" "large" "signin_with" "rectangular".

End GoogleSignIn.
