(* ===== verification/FormsProps.v ===== *)
(** * FormsProps: the invite form and the Google button at work

    - [formInv]: while a submission waits for its timer, the timer holds
      the code on the screen; the message of the form is empty or the
      refusal of a code; the status of a request is a success.  Every
      event keeps it ([formInv_step]), so the message of line 40 and the
      statuses of lines 56-65 of [InviteCodeForm.jsx] are never shown
      ([form_reaches_no_error_status]).
    - [submit_validates_code]: what a submission does, on both branches.
    - [form_eventually_idle]: every submission and every request is
      answered, by [Prelude.eventually_measure] with the measure [owed].
    - [sign_in_survives_reload]: from a token of Google through
      [AuthProvider.login] and the storage back to the state of a page
      that is opened again.
    - [credential_without_payload_rejected]: the error path of
      [handleSuccess].
    - What modelling showed: a code with white space around it can be
      submitted and is refused ([padded_code_refused]); a token with an
      empty payload signs in a user without an address
      ([empty_payload_signs_in]). *)

From stdpp Require Import gmap strings.
From Stdlib Require Import ZArith.
From Stdlib.Strings Require Import Ascii.
From S2P Require Import Prelude JsString Encoding JsValue JsonText Base64.
From S2P Require Import AuthContext AuthContextProps Forms.
Import InviteCodeForm.

(** ** The invite form *)

(** What holds of the form between two events. *)
Record formInv (m : Mounted) : Prop := mkFormInv {
  inv_timer :
    match submitTimer m with
    | Some code =>
        isLoading (form m) = true /\ code = inviteCode (form m) /\
        truthyString (trim code) = true
    | None => isLoading (form m) = false
    end;
  inv_request :
    isRequestingCode (form m) = bool_decide (is_Some (requestPending m));
  inv_error : error (form m) ∈ [""; msgNotOnList];
  inv_status :
    match requestStatus (form m) with
    | Some status => statusType status = "success"
    | None => True
    end
}.

Lemma error_blank : "" ∈ [""; msgNotOnList].
Proof. by left. Qed.

Lemma error_not_on_list : msgNotOnList ∈ [""; msgNotOnList].
Proof. by right; left. Qed.

#[local] Hint Resolve error_blank error_not_on_list : core.

(** One equation per branch of the timer's callback. *)
Lemma handleSubmitDone_valid code m :
  toUpperCase code ∈ AuthProvider.validCodes ->
  handleSubmitDone code m =
  mkMounted
    (AuthProvider.mkBrowser
       (AuthProvider.setHasValidInvite true (AuthProvider.ctx (browser m)))
       (<[AuthProvider.inviteKey := "true"]>
          (AuthProvider.localStorage (browser m))))
    (setIsLoading false (form m)) None (requestPending m)
    (S (onSuccessCalls m)).
Proof.
  intros Hc. unfold handleSubmitDone, AuthProvider.validateInviteCode.
  by rewrite bool_decide_eq_true_2.
Qed.

Lemma handleSubmitDone_invalid code m :
  toUpperCase code ∉ AuthProvider.validCodes ->
  handleSubmitDone code m =
  mkMounted (browser m) (setIsLoading false (setError msgNotOnList (form m)))
    None (requestPending m) (onSuccessCalls m).
Proof.
  intros Hc. unfold handleSubmitDone, AuthProvider.validateInviteCode.
  by rewrite bool_decide_eq_false_2.
Qed.

Lemma formInv_mount b : formInv (mount b).
Proof. by split. Qed.

Lemma formInv_step e m : formInv m -> formInv (formStep e m).
Proof.
  intros Hm. pose proof Hm as [Ht Hr He Hs]. unfold formStep.
  destruct (enabled e m) eqn:En; [|done].
  destruct e; cbn in En |- *.
  - apply negb_true_iff in En. rewrite En in Ht.
    destruct (submitTimer m) as [code|] eqn:E; [by destruct Ht|].
    split; cbn; rewrite ?E; done.
  - apply negb_true_iff, orb_false_iff in En as [En1 En2].
    apply negb_false_iff in En2.
    split; cbn; auto.
  - destruct (submitTimer m) as [code|] eqn:E; [|done].
    destruct (decide (toUpperCase code ∈ AuthProvider.validCodes)) as [Hc|Hc].
    + rewrite (handleSubmitDone_valid _ _ Hc). split; cbn; auto.
    + rewrite (handleSubmitDone_invalid _ _ Hc). split; cbn; auto.
  - apply negb_true_iff, orb_false_iff in En as [En1 En2].
    apply negb_false_iff in En2. unfold handleRequestInviteStart.
    rewrite En2. cbn. split; cbn; [done| |auto|done].
    destruct (emailOf _); [done|discriminate].
  - destruct (requestPending m) as [email|] eqn:E; [|done].
    split; cbn; done.
Qed.

Lemma formInv_runForm es m : formInv m -> formInv (runForm es m).
Proof.
  revert m. induction es as [|e es IH]; intros m Hm; [done|].
  apply IH, formInv_step, Hm.
Qed.

Lemma formStep_enabled e m : enabled e m = true -> formStep e m = fire e m.
Proof. unfold formStep. by intros ->. Qed.

(** C24: a submitted code is validated one second later as it was
    submitted: a code of the list sets the invite and calls [onSuccess]
    once, any other code leaves the browser as it was and shows the
    refusal; the form is idle again in both cases. *)
Theorem submit_validates_code m :
  enabled Submit m = true ->
  let code := inviteCode (form m) in
  let m' := runForm [Submit; SubmitTimer] m in
  isLoading (form m') = false /\ submitTimer m' = None /\
  inviteCode (form m') = code /\
  if bool_decide (toUpperCase code ∈ AuthProvider.validCodes) then
    AuthProvider.hasValidInvite (AuthProvider.ctx (browser m')) = true /\
    onSuccessCalls m' = S (onSuccessCalls m) /\ error (form m') = ""
  else
    browser m' = browser m /\ onSuccessCalls m' = onSuccessCalls m /\
    error (form m') = msgNotOnList.
Proof.
  intros En. cbn zeta. unfold runForm. cbn [foldl].
  rewrite (formStep_enabled _ _ En), formStep_enabled by done.
  cbn [fire handleSubmitStart submitTimer].
  case_bool_decide as Hc.
  - by rewrite (handleSubmitDone_valid _ _ Hc).
  - by rewrite (handleSubmitDone_invalid _ _ Hc).
Qed.

(** In every state the form reaches, the timer holds the code on the
    screen, the message is empty or the refusal of a code, and the status
    of a request is a success: the message of line 40 and the statuses of
    lines 56-65 are never shown. *)
Theorem form_reaches_no_error_status es b :
  formInv (runForm es (mount b)).
Proof. apply formInv_runForm, formInv_mount. Qed.

(** A code with a space before it can be submitted and is refused. *)
Example padded_code_refused :
  let m := runForm [TypeCode " C2C2023"] (mount (AuthProvider.openPage ∅)) in
  enabled Submit m = true /\
  error (form (runForm [Submit; SubmitTimer] m)) = msgNotOnList.
Proof. vm_compute. done. Qed.

Lemma submit_validates_code_witness :
  let m := runForm [TypeCode "c2c2023"] (mount (AuthProvider.openPage ∅)) in
  let code := inviteCode (form m) in
  let m' := runForm [Submit; SubmitTimer] m in
  isLoading (form m') = false /\ submitTimer m' = None /\
  inviteCode (form m') = code /\
  if bool_decide (toUpperCase code ∈ AuthProvider.validCodes) then
    AuthProvider.hasValidInvite (AuthProvider.ctx (browser m')) = true /\
    onSuccessCalls m' = S (onSuccessCalls m) /\ error (form m') = ""
  else
    browser m' = browser m /\ onSuccessCalls m' = onSuccessCalls m /\
    error (form m') = msgNotOnList.
Proof.
  apply (submit_validates_code
           (runForm [TypeCode "c2c2023"] (mount (AuthProvider.openPage ∅)))).
  reflexivity.
Defined.

(** *** Every submission and every request is answered *)

(** What the runtime still owes the form. *)
Definition owed (m : Mounted) : nat :=
  (if submitTimer m is Some _ then 1 else 0) +
  (if requestPending m is Some _ then 1 else 0).

(** The timer fires, or the promise settles. *)
Inductive formSettles : Mounted -> Mounted -> Prop :=
| TimerFired m : is_Some (submitTimer m) ->
    formSettles m (formStep SubmitTimer m)
| RequestSettled m : is_Some (requestPending m) ->
    formSettles m (formStep RequestSettles m).

Lemma formSettles_owed m m' : formSettles m m' -> owed m' < owed m.
Proof.
  intros [m0 [code E]|m0 [email E]]; unfold formStep, owed; cbn; rewrite E.
  - rewrite bool_decide_eq_true_2 by done. unfold handleSubmitDone.
    destruct (AuthProvider.validateInviteCode _ _) as [[] b]; cbn; lia.
  - rewrite bool_decide_eq_true_2 by done. cbn.
    destruct (submitTimer m0); lia.
Qed.

Lemma formSettles_formInv m m' : formInv m -> formSettles m m' -> formInv m'.
Proof. intros Hm Hs. destruct Hs; by apply formInv_step. Qed.

(** The form comes to rest with both buttons idle. *)
Lemma form_eventually_idle es b :
  eventually formSettles
    (fun m => isLoading (form m) = false /\ isRequestingCode (form m) = false)
    (runForm es (mount b)).
Proof.
  apply (eventually_measure formSettles owed formInv);
    [| |apply formInv_runForm, formInv_mount].
  - intros m m' Hm Hs. split; [by eapply formSettles_formInv|].
    by apply formSettles_owed.
  - intros m [Ht Hr _ _].
    destruct (submitTimer m) as [code|] eqn:Et.
    { right. eexists. apply TimerFired. by rewrite Et. }
    destruct (requestPending m) as [email|] eqn:Er.
    { right. eexists. apply RequestSettled. by rewrite Er. }
    left. split; [done|]. by rewrite Hr.
Qed.

(** ** The Google button *)

Lemma splitOn_no_sep sep s :
  allChars (fun c => negb (Ascii.eqb c sep)) s = true -> splitOn sep s = [s].
Proof.
  induction s as [|c s IH]; [done|]. cbn [allChars splitOn].
  intros [Hc Hs]%andb_true_iff. apply negb_true_iff in Hc.
  by rewrite Hc, (IH Hs).
Qed.

Lemma lookupField_pick k userInfo key source :
  lookupField k (GoogleSignIn.pick userInfo key source) =
  if String.eqb k key then field source userInfo else None.
Proof.
  unfold GoogleSignIn.pick. destruct (field source userInfo); cbn;
    by destruct (String.eqb k key).
Qed.

Lemma emailOf_userDataOf userInfo :
  emailOf (GoogleSignIn.userDataOf userInfo) = field "email" userInfo.
Proof.
  unfold emailOf, GoogleSignIn.userDataOf. cbn [mbind option_bind field].
  rewrite !lookupField_app, !lookupField_pick. cbn.
  by destruct (field "email" userInfo).
Qed.

Section GoogleSignInProps.
Context `{JsonCodec} `{UriDecoder}.

(** One equation per outcome of the decoding. *)
Lemma handleSuccess_decoded credential userInfo m :
  GoogleSignIn.decodeToken credential = Some userInfo ->
  GoogleSignIn.handleSuccess credential m =
  GoogleSignIn.mkMounted
    (AuthProvider.login (GoogleSignIn.userDataOf userInfo)
       (GoogleSignIn.browser m))
    false
    (GoogleSignIn.callbacks m ++
       [GoogleSignIn.OnSuccess (GoogleSignIn.userDataOf userInfo)]).
Proof. unfold GoogleSignIn.handleSuccess. by intros ->. Qed.

Lemma handleSuccess_failed credential m :
  GoogleSignIn.decodeToken credential = None ->
  GoogleSignIn.handleSuccess credential m =
  GoogleSignIn.mkMounted (GoogleSignIn.browser m) false
    (GoogleSignIn.callbacks m ++ [GoogleSignIn.OnError]).
Proof. unfold GoogleSignIn.handleSuccess. by intros ->. Qed.

(** C34: a visitor who signed in with Google is still signed in when the
    page is opened again, with the same user data and, if the storage
    records one, the invite; the address the invite form reads is the one
    of the token. *)
Theorem sign_in_survives_reload credential userInfo m :
  GoogleSignIn.decodeToken credential = Some userInfo ->
  storable (GoogleSignIn.userDataOf userInfo) = true ->
  let b := GoogleSignIn.browser (GoogleSignIn.handleSuccess credential m) in
  let b' := AuthProvider.act AuthProvider.Reload b in
  AuthProvider.ctx b' =
    AuthProvider.mkState (GoogleSignIn.userDataOf userInfo) true
      (bool_decide
         (AuthProvider.localStorage (GoogleSignIn.browser m)
            !! AuthProvider.inviteKey = Some "true")) false /\
  AuthProvider.localStorage b' = AuthProvider.localStorage b /\
  emailOf (AuthProvider.user (AuthProvider.ctx b')) = field "email" userInfo.
Proof.
  intros Hd Hs. cbn zeta. rewrite (handleSuccess_decoded _ _ _ Hd).
  cbn [GoogleSignIn.browser AuthProvider.act AuthProvider.login
       AuthProvider.localStorage].
  rewrite (openPage_restored _ (stringify (GoogleSignIn.userDataOf userInfo))
             (GoogleSignIn.userDataOf userInfo)).
  - cbn [AuthProvider.ctx AuthProvider.user AuthProvider.localStorage].
    rewrite lookup_insert_ne by done. by rewrite emailOf_userDataOf.
  - by rewrite lookup_insert_eq.
  - apply stringify_truthy.
  - by apply parse_stringify.
Qed.

(** A credential that is missing or has no second segment signs
    nobody in: [onError] is called and the browser is as it was. *)
Theorem credential_without_payload_rejected credential m :
  match credential with
  | Some token => allChars (fun c => negb (Ascii.eqb c ".")) token = true
  | None => True
  end ->
  GoogleSignIn.handleSuccess credential m =
  GoogleSignIn.mkMounted (GoogleSignIn.browser m) false
    (GoogleSignIn.callbacks m ++ [GoogleSignIn.OnError]).
Proof.
  intros Hc. apply handleSuccess_failed. destruct credential as [token|]; [|done].
  unfold GoogleSignIn.decodeToken, GoogleSignIn.payloadSegment. cbn.
  by rewrite (splitOn_no_sep _ _ Hc).
Qed.

(** The button is never left busy: both handlers end with the widget on
    the screen. *)
Lemma button_never_left_busy credential m :
  GoogleSignIn.render (GoogleSignIn.handleSuccess credential m) =
    GoogleSignIn.render (GoogleSignIn.handleError m) /\
  GoogleSignIn.render (GoogleSignIn.handleError m) =
    GoogleSignIn.GoogleLogin false "outline" "large" "signin_with" "rectangular".
Proof.
  unfold GoogleSignIn.handleSuccess.
  by destruct (GoogleSignIn.decodeToken credential).
Qed.

End GoogleSignInProps.

(** ** Examples, with [plainCodec] and [asciiUriDecoder] *)

Definition ashaToken : string :=
  "e30.eyJzdWIiOiIxMjM0IiwiZW1haWwiOiJhc2hhQGV4YW1wbGUuY29tIiwibmFtZSI6IkFzaGE_PiJ9.c2ln".

Example decodeToken_example :
  GoogleSignIn.decodeToken (Some ashaToken) =
  Some (JObj [("sub", JStr "1234"); ("email", JStr "asha@example.com");
              ("name", JStr "Asha?>")]).
Proof. vm_compute. done. Qed.

Lemma sign_in_survives_reload_witness :
  let m := GoogleSignIn.mount (AuthProvider.openPage ∅) in
  let userInfo :=
    JObj [("sub", JStr "1234"); ("email", JStr "asha@example.com");
          ("name", JStr "Asha?>")] in
  let b := GoogleSignIn.browser (GoogleSignIn.handleSuccess (Some ashaToken) m) in
  let b' := AuthProvider.act AuthProvider.Reload b in
  AuthProvider.ctx b' =
    AuthProvider.mkState (GoogleSignIn.userDataOf userInfo) true
      (bool_decide
         (AuthProvider.localStorage (GoogleSignIn.browser m)
            !! AuthProvider.inviteKey = Some "true")) false /\
  AuthProvider.localStorage b' = AuthProvider.localStorage b /\
  emailOf (AuthProvider.user (AuthProvider.ctx b')) = field "email" userInfo.
Proof.
  apply (sign_in_survives_reload (Some ashaToken)); [apply decodeToken_example|].
  vm_compute. done.
Defined.

Lemma credential_without_payload_rejected_witness :
  GoogleSignIn.handleSuccess (Some "not-a-token")
    (GoogleSignIn.mount (AuthProvider.openPage ∅)) =
  GoogleSignIn.mkMounted (AuthProvider.openPage ∅) false [GoogleSignIn.OnError].
Proof.
  apply (credential_without_payload_rejected (Some "not-a-token")). reflexivity.
Defined.

(** A token whose payload is [null], and one whose payload is not
    base64. *)
Example bad_payloads_rejected :
  GoogleSignIn.decodeToken (Some "e30.bnVsbA.c2ln") = None /\
  GoogleSignIn.decodeToken (Some "e30.e3*9.c2ln") = None /\
  GoogleSignIn.decodeToken (Some "e30..c2ln") = None.
Proof. vm_compute. done. Qed.

(** A token whose payload is the empty object signs in a user without an
    address: nothing of the payload is required. *)
Example empty_payload_signs_in :
  let m :=
    GoogleSignIn.handleSuccess (Some "e30.e30.c2ln")
      (GoogleSignIn.mount (AuthProvider.openPage ∅)) in
  AuthProvider.ctx (GoogleSignIn.browser m) =
    AuthProvider.mkState (JObj []) true false false /\
  GoogleSignIn.callbacks m = [GoogleSignIn.OnSuccess (JObj [])] /\
  requestDisabled (view (mount (GoogleSignIn.browser m))) = true.
Proof. vm_compute. done. Qed.

(** From the Google button to the menu and back after the page is opened
    again: the visitor signs in, submits a code, and finds the session
    restored. *)
Example session_end_to_end :
  let signedIn :=
    GoogleSignIn.browser
      (GoogleSignIn.handleSuccess (Some ashaToken)
         (GoogleSignIn.mount (AuthProvider.openPage ∅))) in
  let m :=
    runForm [TypeCode "inner_circle"; Submit; SubmitTimer; RequestInvite;
             RequestSettles] (mount signedIn) in
  onSuccessCalls m = 1 /\
  (statusMessage <$> requestStatus (form m)) =
    Some "Invite code request sent! Check your email in a few minutes." /\
  AuthProvider.ctx (AuthProvider.act AuthProvider.Reload (browser m)) =
  AuthProvider.mkState
    (JObj [("id", JStr "1234"); ("email", JStr "asha@example.com");
           ("name", JStr "Asha?>")]) true true false.
Proof. vm_compute. done. Qed.
