(* ===== verification/TokenProps.v ===== *)
(** * TokenProps: the decoding of a token of Google, end to end

    [GoogleSignIn.decodeToken] (lines 16-26 of
    [src/src/components/GoogleSignIn.jsx]) takes the second segment of
    the token, turns base64url into base64, decodes it with [atob],
    percent-encodes every unit and decodes the result with
    [decodeURIComponent], and parses the text.

    - [payloadSegment_token]: the second segment of
      [header.payload.signature].
    - [toBase64_encode]: line 18 turns the base64url encoding of a text
      into its base64 encoding.
    - [decodeAscii_percentEncodeAll]: lines 19-24 give back a text below
      128.
    - [decodeToken_encoded]: for every token whose second segment encodes
      a text below 128, [decodeToken] is [JSON.parse] of that text.
    - [token_signs_in]: such a token signs in the user that its payload
      describes. *)

From stdpp Require Import gmap strings.
From Stdlib Require Import ZArith.
From Stdlib.Strings Require Import Ascii.
From S2P Require Import Prelude JsString Encoding JsValue JsonText Base64.
From S2P Require Import Base64Props AuthContext AuthContextProps Forms.
From S2P Require Import FormsProps.

(** A text without [.]. *)
Definition noDot (s : string) : bool :=
  allChars (fun c => negb (Ascii.eqb c ".")) s.

(** ** The segments of a token *)

Lemma splitOn_app sep a b :
  allChars (fun c => negb (Ascii.eqb c sep)) a = true ->
  splitOn sep (a +:+ String sep b) = a :: splitOn sep b.
Proof.
  induction a as [|c a IH]; cbn [allChars].
  - intros _. change ("" +:+ ?s) with s. cbn [splitOn].
    by rewrite Ascii.eqb_refl.
  - intros [Hc Ha]%andb_true_iff. apply negb_true_iff in Hc.
    change (String c a +:+ ?s) with (String c (a +:+ s)). cbn [splitOn].
    by rewrite Hc, (IH Ha).
Qed.

Lemma allChars_stringOf p l :
  Forall (fun c => p c = true) l -> allChars p (stringOf l) = true.
Proof. induction 1 as [|c l Hc _ IH]; [done|]. cbn. by rewrite Hc, IH. Qed.

Lemma noDot_encode url s : noDot (encode url s) = true.
Proof.
  apply allChars_stringOf, Forall_alphabet.
  - intros v Hv. destruct (alphabet_plain url v Hv) as (_ & _ & ->). done.
  - apply encodeBytes_sextets, bytesOf_bytes.
Qed.

Lemma payloadSegment_token header payload signature :
  noDot header = true -> noDot payload = true ->
  GoogleSignIn.payloadSegment
    (header +:+ "." +:+ payload +:+ "." +:+ signature) = Some payload.
Proof.
  intros Hh Hp. unfold GoogleSignIn.payloadSegment.
  change ("." +:+ signature) with (String "."%char signature).
  change ("." +:+ ?s) with (String "."%char s).
  by rewrite (splitOn_app _ _ _ Hh), (splitOn_app _ _ _ Hp).
Qed.

(** ** From base64url to the text *)

Lemma mapString_stringOf f l : mapString f (stringOf l) = stringOf (map f l).
Proof. induction l as [|c l IH]; cbn; congruence. Qed.

Lemma toBase64_encode s : GoogleSignIn.toBase64 (encode true s) = encode false s.
Proof.
  unfold GoogleSignIn.toBase64, replaceChar, encode.
  rewrite !mapString_stringOf, !map_map. f_equal.
  pose proof (encodeBytes_sextets _ (bytesOf_bytes s)) as Hs.
  induction Hs as [|v vs Hv _ IH]; [done|]. cbn [map].
  by rewrite IH, (alphabet_url v Hv).
Qed.

Lemma decodeAscii_percentEncodeAll s :
  isAscii s = true ->
  decodeAscii (GoogleSignIn.percentEncodeAll s) = Some s.
Proof.
  unfold isAscii. induction s as [|c s IH]; [done|].
  cbn [allChars GoogleSignIn.percentEncodeAll].
  intros [Hc Hs]%andb_true_iff. apply N.ltb_lt in Hc.
  unfold GoogleSignIn.percentEncode. cbv zeta.
  change (Z.of_N (charCode c)) with (unitValue c).
  pose proof (unitValue_range c) as Hr.
  assert (Hn : (unitValue c < 128)%Z) by (unfold unitValue, charCode in *; lia).
  change (String ?a (String ?b (String ?d "")) +:+ ?s)
    with (String a (String b (String d s))).
  cbn [decodeAscii].
  rewrite !hexDigit_hexChar, (IH Hs)
    by (Z.to_euclidean_division_equations; lia).
  replace (_ <? 8)%Z with true
    by (symmetry; apply Z.ltb_lt; Z.to_euclidean_division_equations; lia).
  by rewrite unitOf_hex.
Qed.

(** ** The decoding, end to end *)

Section Token.
Context `{JsonCodec}.

(** What [handleSuccess] makes of a payload that was parsed: [null] has no
    fields to read. *)
Definition payloadOf (text : string) : option Json :=
  userInfo ← parse text;
  match userInfo with JNull => None | _ => Some userInfo end.

(** The steps of lines 16-24 undo the encoding of the second segment, and
    line 25 parses what they give. *)
Lemma decodeToken_payloadOf header payload signature :
  noDot header = true -> isAscii payload = true ->
  GoogleSignIn.decodeToken
    (Some (header +:+ "." +:+ encode true payload +:+ "." +:+ signature)) =
  payloadOf payload.
Proof.
  intros Hh Hp. unfold GoogleSignIn.decodeToken, payloadOf.
  cbn [mbind option_bind].
  rewrite (payloadSegment_token _ _ _ Hh (noDot_encode true payload)).
  cbn [mbind option_bind]. rewrite toBase64_encode, atob_encode.
  cbn [mbind option_bind decodeURIComponent asciiUriDecoder].
  by rewrite (decodeAscii_percentEncodeAll _ Hp).
Qed.

(** C29: the decoding of lines 16-26 gives back the payload.  For every
    token whose first segment has no [.] and whose second segment is the
    base64url encoding, without padding, of a text below 128,
    [decodeToken] is [JSON.parse] of that text, and nothing when the
    text is [null] or does not parse. *)
Theorem decodeToken_encoded header payload signature :
  noDot header = true -> isAscii payload = true ->
  GoogleSignIn.decodeToken
    (Some (header +:+ "." +:+ encode true payload +:+ "." +:+ signature)) =
  payloadOf payload.
Proof. apply decodeToken_payloadOf. Qed.

(** A token whose payload is an object signs in the user of the
    payload. *)
Theorem token_signs_in header payload signature userInfo m :
  noDot header = true -> isAscii payload = true ->
  payloadOf payload = Some userInfo ->
  GoogleSignIn.handleSuccess
    (Some (header +:+ "." +:+ encode true payload +:+ "." +:+ signature)) m =
  GoogleSignIn.mkMounted
    (AuthProvider.login (GoogleSignIn.userDataOf userInfo)
       (GoogleSignIn.browser m))
    false
    (GoogleSignIn.callbacks m ++
       [GoogleSignIn.OnSuccess (GoogleSignIn.userDataOf userInfo)]).
Proof.
  intros Hh Hp Hu. apply handleSuccess_decoded.
  by rewrite decodeToken_payloadOf.
Qed.

End Token.

(** ** Tokens of flat payloads

    With the codec of [JsonText], the decoding returns the object whose
    text the token carries: strings, booleans, [null] and integers come
    back as they were signed. *)

Lemma payloadOf_stringifyPlain v :
  plainJson v = true -> v <> JNull ->
  payloadOf (H := plainCodec) (stringifyPlain v) = Some v.
Proof.
  intros Hv Hn. unfold payloadOf. cbn [parse plainCodec].
  rewrite (parsePlain_stringifyPlain v Hv). cbn [mbind option_bind].
  by destruct v.
Qed.

Theorem decodeToken_flat header v signature :
  noDot header = true -> plainJson v = true -> v <> JNull ->
  isAscii (stringifyPlain v) = true ->
  GoogleSignIn.decodeToken (H := plainCodec)
    (Some (header +:+ "." +:+ encode true (stringifyPlain v) +:+ "." +:+
           signature)) = Some v.
Proof.
  intros Hh Hv Hn Ha.
  by rewrite (decodeToken_payloadOf (H := plainCodec) _ _ _ Hh Ha),
    payloadOf_stringifyPlain.
Qed.

(** A payload as Google signs it, with a boolean and two times. *)
Definition googlePayload : Json :=
  JObj [("iss", JStr "https://accounts.google.com"); ("sub", JStr "1234");
        ("email", JStr "asha@example.com"); ("email_verified", JBool true);
        ("name", JStr "Asha Rao"); ("picture", JNull);
        ("iat", JNum 1700000000); ("exp", JNum 1700003600)].

Example googlePayload_decoded :
  GoogleSignIn.decodeToken (H := plainCodec)
    (Some ("e30" +:+ "." +:+ encode true (stringifyPlain googlePayload) +:+
           "." +:+ "c2ln")) = Some googlePayload.
Proof. by apply decodeToken_flat. Qed.

(** ** Worked examples *)

Definition ashaPayload : string :=
  stringifyPlain
    (JObj [("sub", JStr "1234"); ("email", JStr "asha@example.com");
           ("name", JStr "Asha?>")]).

Example ashaToken_encoded :
  ashaToken = "e30" +:+ "." +:+ encode true ashaPayload +:+ "." +:+ "c2ln".
Proof. by vm_compute. Qed.

Lemma decodeToken_encoded_witness :
  GoogleSignIn.decodeToken (Some ashaToken) = payloadOf ashaPayload.
Proof.
  rewrite ashaToken_encoded.
  apply (decodeToken_encoded "e30" ashaPayload "c2ln"); reflexivity.
Defined.
