(* ===== verification/AppView.v ===== *)
(** * AppView: what [App.jsx] puts on the screen, and what the visitor
      can do there

    [App] returns a spinner or the header with one of four pages (lines
    575-607).  The pages and the form are functions of the state of
    [App]: [renderForm] (lines 223-316), [Header] (lines 320-402),
    [LandingPage] (lines 404-444), [SignInPage] (lines 446-492),
    [InviteCodePage] (lines 494-512) and [MenuPage] (lines 514-547).

    ** Model

    - A view keeps what depends on the state: which alerts are shown, which
      buttons are disabled and what they say, which handler a control
      calls.  Texts that never change, class names and layout are left
      out.
    - [Shell] is the state of [App] together with the state of [Header]
      (its mobile menu) and the promises the handlers await
      ([Awaited]): a handler that reaches its [await] adds one, its
      continuation takes it away.
    - [canHappen] says which events the screen allows: a handler runs only
      when its control is on the screen and not disabled, a continuation
      only when its promise is awaited.  The listener of Firebase can
      always be called.
    - [InviteCodeForm] is mounted while the invite page is shown.  When
      the page goes away its state is discarded, and the next time the
      page is shown the form starts from [initialForm] with the user of
      that moment ([remount]).  A handler of a form that was unmounted
      still continues when its promise settles ([StaleDone]): it changes
      the state of [App] and not the form that is on the screen by then.
      An awaited promise of the form records whether its form is still
      mounted.
    - [shellStep] is one event on the screen; [shellRun] a sequence. *)

From stdpp Require Import strings list.
From Stdlib Require Import ZArith.
From S2P Require Import Prelude JsString Encoding Runtime JsValue.
From S2P Require Import Auth App.

(** ** Views *)

(** The form (lines 223-316). *)
Record FormView : Type := mkFormView {
  codeValue : string;
  messageAlert : option string;
  submitDisabled : bool;
  submitLabel : string;
  emailValue : string;
  statusAlert : option (bool * string);
  requestDisabled : bool;
  requestLabel : string
}.

(** The header (lines 320-402): the block of the user with its [logout]
    button, and the links of the mobile menu. *)
Record HeaderView : Type := mkHeaderView {
  userBlock : option (option string * string);
  mobileMenuIcon : string;
  mobileLinks : list string
}.

(** The sign-in page (lines 446-492). *)
Record SignInView : Type := mkSignInView {
  signInAlert : option string;
  signInDisabled : bool;
  signInLabel : string
}.

Inductive PageView : Type :=
| LandingPageView (buttons : list (string * Event))
| SignInPageView (v : SignInView)
| InviteCodePageView (v : FormView)
| MenuPageView (banner : string).

Inductive Screen : Type :=
| LoadingScreen
| SiteScreen (header : HeaderView) (page : PageView).

(** A promise that a handler awaits: [login] (line 559), [logout] (line
    570), [validateInviteCode] with the code that was sent (line 190),
    [requestInviteCode] (line 212).  [mounted] says whether the form
    whose handler awaits is still on the screen. *)
Inductive Awaited : Type :=
| AwaitsSignIn
| AwaitsLogout
| AwaitsSubmit (submitted : string) (mounted : bool)
| AwaitsRequest (mounted : bool).

#[export] Instance Awaited_eq_dec : EqDecision Awaited.
Proof. solve_decision. Defined.

Record Shell : Type := mkShell {
  app : AppState;
  mobileMenuOpen : bool;
  awaited : list Awaited
}.

Inductive ShellEvent : Type :=
| AppEvent (e : Event)
| StaleDone (e : Event)
| ToggleMobileMenu.

(** The continuations of the handlers of the form. *)
Definition isFormDone (e : Event) : bool :=
  match e with
  | SubmitDone _ _ | RequestInviteDone _ => true
  | _ => false
  end.

(** [x && s]: the string when it is truthy. *)
Definition whenTruthy (s : string) : option string :=
  if truthyString s then Some s else None.

(** [InviteCodeForm]'s return (lines 223-316). *)
Definition renderForm (f : FormState) : FormView :=
  {| codeValue := code f;
     messageAlert := whenTruthy (message f);
     submitDisabled := formLoading f || negb (truthyString (trim (code f)));
     submitLabel := if formLoading f then "Verifying..." else "Verify Code";
     emailValue := email f;
     statusAlert :=
       (fun s => (includes s "sent", s)) <$> whenTruthy (requestStatus f);
     requestDisabled :=
       requestLoading f || negb (truthyString (trim (email f)));
     requestLabel :=
       if requestLoading f then "Sending..." else "Request an Invite Code" |}.

(** [Header] (lines 320-402). *)
Definition Header (user : option User) (isAuthenticated : bool)
    (mobileMenuOpen : bool) : HeaderView :=
  {| userBlock :=
       match user with
       | Some u =>
           if isAuthenticated then
             Some (userPhotoURL u ≫= whenTruthy, userName u)
           else None
       | None => None
       end;
     mobileMenuIcon := if mobileMenuOpen then "X" else "Menu";
     mobileLinks :=
       if mobileMenuOpen then ["#home"; "#menu"; "#contact"] else [] |}.

(** [LandingPage] (lines 404-444): both buttons call [onGetStarted]. *)
Definition LandingPage : PageView :=
  LandingPageView
    [("Sign In to Explore", GetStarted); ("Request an Invite", GetStarted)].

(** [SignInPage] (lines 446-492). *)
Definition SignInPage (authError : option string) (loading : bool) : PageView :=
  SignInPageView
    {| signInAlert := authError ≫= whenTruthy;
       signInDisabled := loading;
       signInLabel := if loading then "Signing in..." else "Sign In with Google" |}.

(** [InviteCodePage] (lines 494-512). *)
Definition InviteCodePage (f : FormState) : PageView :=
  InviteCodePageView (renderForm f).

(** [MenuPage] (lines 514-547), around [DynamicMenu]. *)
Definition MenuPage : PageView :=
  MenuPageView "Only 15 invites left this month!".

(** What [App] returns (lines 575-607). *)
Definition AppReturn (sh : Shell) : Screen :=
  let s := app sh in
  let a := auth s in
  match renderCurrentPage s with
  | ViewLoading => LoadingScreen
  | v =>
      SiteScreen (Header (user a) (isAuthenticated a) (mobileMenuOpen sh))
        match v with
        | ViewSignIn => SignInPage (authError a) (loading a)
        | ViewInvite => InviteCodePage (form s)
        | ViewMenu => MenuPage
        | _ => LandingPage
        end
  end.

(** ** Events *)

(** What the continuation [e] waits for, from a form that is mounted or
    not. *)
Definition awaitedBy (mounted : bool) (e : Event) : option Awaited :=
  match e with
  | SignInDone _ => Some AwaitsSignIn
  | LogoutDone => Some AwaitsLogout
  | SubmitDone submitted _ => Some (AwaitsSubmit submitted mounted)
  | RequestInviteDone _ => Some (AwaitsRequest mounted)
  | _ => None
  end.

(** A continuation runs when its promise is awaited. *)
Definition settles (mounted : bool) (e : Event) (sh : Shell) : bool :=
  match awaitedBy mounted e with
  | Some p => bool_decide (p ∈ awaited sh)
  | None => false
  end.

(** The events the screen allows. *)
Definition canHappen (e : ShellEvent) (sh : Shell) : bool :=
  match e with
  | StaleDone e => isFormDone e && settles false e sh
  | ToggleMobileMenu =>
      match AppReturn sh with SiteScreen _ _ => true | LoadingScreen => false end
  | AppEvent (AuthChanged _) => true
  | AppEvent ((SignInDone _ | LogoutDone | SubmitDone _ _
              | RequestInviteDone _) as e) => settles true e sh
  | AppEvent e =>
      match AppReturn sh with
      | LoadingScreen => false
      | SiteScreen header page =>
          match e with
          | LogoutStart => bool_decide (is_Some (userBlock header))
          | GetStarted =>
              match page with LandingPageView _ => true | _ => false end
          | SignInStart =>
              match page with
              | SignInPageView v => negb (signInDisabled v)
              | _ => false
              end
          | TypeCode _ | TypeEmail _ =>
              match page with InviteCodePageView _ => true | _ => false end
          | SubmitStart =>
              match page with
              | InviteCodePageView v => negb (submitDisabled v)
              | _ => false
              end
          | RequestInviteStart =>
              match page with
              | InviteCodePageView v => negb (requestDisabled v)
              | _ => false
              end
          | _ => false
          end
      end
  end.

(** [InviteCodeForm] lives while the invite page is shown: a form that
    is mounted after [before] starts from the user of the moment (line
    177). *)
Definition remount (before s : AppState) : AppState :=
  match renderCurrentPage before, renderCurrentPage s with
  | ViewInvite, ViewInvite => s
  | _, _ => setForm (fun _ => initialForm (user (auth s))) s
  end.

(** The promise a handler starts to await. *)
Definition starts (e : Event) (s : AppState) : list Awaited :=
  match e with
  | SignInStart => [AwaitsSignIn]
  | LogoutStart => [AwaitsLogout]
  | SubmitStart =>
      match (handleSubmitStart s).1 with
      | Some submitted => [AwaitsSubmit submitted true]
      | None => []
      end
  | RequestInviteStart =>
      match (handleRequestInviteStart s).1 with
      | Some _ => [AwaitsRequest true]
      | None => []
      end
  | _ => []
  end.

(** [ps] without the first [p]. *)
Fixpoint removeFirst (p : Awaited) (ps : list Awaited) : list Awaited :=
  match ps with
  | [] => []
  | q :: ps' => if decide (q = p) then ps' else q :: removeFirst p ps'
  end.

(** The form has gone: what it awaits is awaited by no form. *)
Definition unmounted (p : Awaited) : Awaited :=
  match p with
  | AwaitsSubmit submitted _ => AwaitsSubmit submitted false
  | AwaitsRequest _ => AwaitsRequest false
  | _ => p
  end.

(** [Header] and the form live while they are shown. *)
Definition afterEvent (before s : AppState) (ps : list Awaited) (sh : Shell)
    : Shell :=
  mkShell (remount before s)
    (match renderCurrentPage s with
     | ViewLoading => false
     | _ => mobileMenuOpen sh
     end)
    (match renderCurrentPage s with
     | ViewInvite => ps
     | _ => unmounted <$> ps
     end).

(** An event of the application; the continuation of a handler whose form
    has been unmounted meanwhile, which reaches the state of [App] but not
    the form on the screen; the button of the mobile menu. *)
Definition fireShell (e : ShellEvent) (sh : Shell) : Shell :=
  match e with
  | AppEvent e =>
      afterEvent (app sh) (step e (app sh))
        (match awaitedBy true e with
         | Some p => removeFirst p (awaited sh)
         | None => awaited sh ++ starts e (app sh)
         end) sh
  | StaleDone e =>
      let s := step e (app sh) in
      afterEvent (app sh) (mkAppState (auth s) (currentPage s) (form (app sh)))
        (match awaitedBy false e with
         | Some p => removeFirst p (awaited sh)
         | None => awaited sh
         end) sh
  | ToggleMobileMenu =>
      mkShell (app sh) (negb (mobileMenuOpen sh)) (awaited sh)
  end.

Definition shellStep (e : ShellEvent) (sh : Shell) : Shell :=
  if canHappen e sh then fireShell e sh else sh.

Definition shellRun (es : list ShellEvent) (sh : Shell) : Shell :=
  foldl (fun sh e => shellStep e sh) sh es.

Definition initialShell : Shell := mkShell initialApp false [].
