(* ===== verification/AppViewProps.v ===== *)
(** * AppViewProps: the screen of [App.jsx]

    - [screen_keeps_one_call_in_flight]: in every state the screen can
      reach, the spinner of each button of the form is on exactly while
      one call of its handler is awaited by the form on the screen, and
      never two ([shellInv]); a form that is not on the screen holds
      nothing ([freshForm]) and awaits nothing.  This rests on the
      [disabled] attributes ([canHappen]) and on the continuations of an
      unmounted form leaving the form on the screen alone ([StaleDone]).
    - [screen_refines_app]: the events the screen allows form a run of
      [App.run] ([happened]); the session of the screen is the session of
      that run ([shellRun_session]), because a step changes the session
      as a function of the session alone ([sessionOf_step]) and
      remounting the form does not touch it.  What is proved of [App.run]
      therefore holds of the screen: [flagsAgree_shellRun],
      [logout_offered_when_signed_in].
    - [submit_sends], [request_sends]: the handlers of the form are called
      only when they will send, so their guards never fire.
    - [second_sign_in_while_first_waits]: the button of the sign-in page
      is enabled again when the listener of Firebase is called during a
      sign-in, so two sign-ins can be awaited at once.
    - [alert_green_iff_issued]: the request form against the server, over
      every behaviour of the network.
    - [stale_validation_on_screen]: the run that admits the next user is a
      run of the screen. *)

From stdpp Require Import gmap strings list.
From Stdlib Require Import ZArith.
From Stdlib.Strings Require Import Byte Ascii.
From S2P Require Import Prelude JsString Encoding Regex Runtime JsMap JsValue.
From S2P Require Import InviteService InviteLemmas InviteCode InviteInvariant.
From S2P Require Import InviteProps Server ServerProps Api Auth App AppProps.
From S2P Require Import AppView.

(** ** The screen refines the events of [App] *)

(** The part of the state that decides the page. *)
Definition sessionOf (s : AppState) : AuthState * Page :=
  (auth s, currentPage s).

(** The events of a sequence that the screen allowed, in order. *)
Fixpoint happened (es : list ShellEvent) (sh : Shell) : list Event :=
  match es with
  | [] => []
  | e :: es' =>
      (if canHappen e sh then
         match e with
         | AppEvent a | StaleDone a => [a]
         | ToggleMobileMenu => []
         end
       else []) ++ happened es' (shellStep e sh)
  end.

Lemma sessionOf_handleSubmitDone c o s :
  sessionOf (handleSubmitDone c o s) =
  let r := validateInviteCodeDone c o (auth s) in
  (r.2, if callSuccess r.1 then menu else currentPage s).
Proof.
  unfold handleSubmitDone, sessionOf.
  destruct (validateInviteCodeDone c o (auth s)) as [r a]. cbn.
  by destruct (callSuccess r).
Qed.

(** The session after an event depends on the session before it, not on
    the form. *)
Lemma sessionOf_step e s s' :
  sessionOf s = sessionOf s' -> sessionOf (step e s) = sessionOf (step e s').
Proof.
  destruct s as [a p f], s' as [a' p' f']. intros [= <- <-].
  destruct e; try done; cbn [step].
  - unfold handleSignInDone, sessionOf. cbn.
    destruct (loginDone result a) as [[] a1]; done.
  - unfold handleSubmitStart. by destruct (negb _), (negb _).
  - by rewrite !sessionOf_handleSubmitDone.
  - unfold handleRequestInviteStart. by destruct (negb _), (negb _).
Qed.

Lemma sessionOf_remount before s : sessionOf (remount before s) = sessionOf s.
Proof.
  unfold remount. by destruct (renderCurrentPage before), (renderCurrentPage s).
Qed.

Lemma renderCurrentPage_session s s' :
  sessionOf s = sessionOf s' -> renderCurrentPage s = renderCurrentPage s'.
Proof. destruct s, s'. by intros [= <- <-]. Qed.

Lemma sessionOf_shellStep e sh :
  sessionOf (app (shellStep e sh)) =
  if canHappen e sh then
    match e with
    | AppEvent a | StaleDone a => sessionOf (step a (app sh))
    | ToggleMobileMenu => sessionOf (app sh)
    end
  else sessionOf (app sh).
Proof.
  unfold shellStep. destruct (canHappen e sh); [|done].
  destruct e; cbn [fireShell afterEvent app]; by rewrite ?sessionOf_remount.
Qed.

Lemma shellRun_session es sh s :
  sessionOf (app sh) = sessionOf s ->
  sessionOf (app (shellRun es sh)) = sessionOf (run (happened es sh) s).
Proof.
  revert sh s. induction es as [|e es IH]; intros sh s Hs; [done|].
  cbn [shellRun happened foldl]. unfold run. rewrite foldl_app.
  apply IH. rewrite sessionOf_shellStep.
  destruct (canHappen e sh); [|done].
  destruct e; cbn [foldl]; auto using sessionOf_step.
Qed.

Lemma flagsAgree_run es s :
  flagsAgree (auth s) -> flagsAgree (auth (run es s)).
Proof.
  revert s. induction es as [|e es IH]; intros s Hs; [done|].
  apply IH. by apply flagsAgree_step.
Qed.

Lemma flagsAgree_shellRun es :
  flagsAgree (auth (app (shellRun es initialShell))).
Proof.
  pose proof (shellRun_session es initialShell initialApp eq_refl) as E.
  injection E as -> _. by apply flagsAgree_run.
Qed.

(** What can happen on the screen is a run of the events of [App]: the
    session after a sequence of events on the screen is the session after
    those of the events that the screen allowed. *)
Theorem screen_refines_app es :
  sessionOf (app (shellRun es initialShell)) =
  sessionOf (run (happened es initialShell) initialApp).
Proof. by apply shellRun_session. Qed.

(** ** The form and what it awaits *)

(** A form that is not on the screen holds nothing. *)
Definition freshForm (s : AppState) : Prop :=
  renderCurrentPage s <> ViewInvite -> form s = initialForm (user (auth s)).

(** The calls that the form on the screen awaits. *)
Definition isLiveSubmit (p : Awaited) : bool :=
  match p with AwaitsSubmit _ true => true | _ => false end.

Definition isLiveRequest (p : Awaited) : bool :=
  match p with AwaitsRequest true => true | _ => false end.

(** The flag of a button is set exactly while one call of its handler is
    awaited. *)
Definition formAwaits (f : FormState) (ps : list Awaited) : Prop :=
  countb isLiveSubmit ps = Nat.b2n (formLoading f) /\
  countb isLiveRequest ps = Nat.b2n (requestLoading f).

Record shellInv (sh : Shell) : Prop := mkShellInv {
  inv_flags : flagsAgree (auth (app sh));
  inv_fresh : freshForm (app sh);
  inv_awaits : formAwaits (form (app sh)) (awaited sh)
}.

(** No call is awaited by the form. *)
Definition noneLive (ps : list Awaited) : Prop :=
  countb isLiveSubmit ps = 0 /\ countb isLiveRequest ps = 0.

Lemma noneLive_unmounted ps : noneLive (unmounted <$> ps).
Proof.
  induction ps as [|p ps [IH1 IH2]]; [done|]. unfold noneLive.
  rewrite fmap_cons, !countb_cons, IH1, IH2. by destruct p as [| |c []|[]].
Qed.

Lemma countb_removeFirst f p ps :
  p ∈ ps -> countb f (removeFirst p ps) + Nat.b2n (f p) = countb f ps.
Proof.
  induction ps as [|q ps IH]; [by intros ?%elem_of_nil|].
  cbn [removeFirst]. rewrite countb_cons. destruct (decide (q = p)) as [->|Hq].
  - intros _. destruct (f p); cbn; lia.
  - intros [?|Hp]%elem_of_cons; [done|]. rewrite countb_cons.
    specialize (IH Hp). lia.
Qed.

(** Taking away a promise that the form on the screen does not await, or
    adding one, changes nothing for the form. *)
Lemma formAwaits_removeFirst f p ps :
  isLiveSubmit p = false -> isLiveRequest p = false -> p ∈ ps ->
  formAwaits f ps -> formAwaits f (removeFirst p ps).
Proof.
  intros H1 H2 Hp [Hs Hr].
  pose proof (countb_removeFirst isLiveSubmit p ps Hp) as E1.
  pose proof (countb_removeFirst isLiveRequest p ps Hp) as E2.
  rewrite H1 in E1. rewrite H2 in E2. cbn in E1, E2. split; lia.
Qed.

Lemma formAwaits_snoc f p ps :
  isLiveSubmit p = false -> isLiveRequest p = false ->
  formAwaits f ps -> formAwaits f (ps ++ [p]).
Proof.
  intros H1 H2 [Hs Hr]. unfold formAwaits.
  rewrite !countb_app, !countb_cons, H1, H2, !countb_nil. split; lia.
Qed.


(** The state after an event, from what the event did to the state of
    [App] and to the promises. *)
Lemma shellInv_afterEvent before s ps sh :
  flagsAgree (auth s) ->
  (renderCurrentPage before = ViewInvite -> formAwaits (form s) ps) ->
  (renderCurrentPage before <> ViewInvite -> noneLive ps) ->
  shellInv (afterEvent before s ps sh).
Proof.
  intros Ha Hin Hout.
  pose proof (sessionOf_remount before s) as [= Ea Ep].
  pose proof (renderCurrentPage_session _ _ (sessionOf_remount before s)) as Er.
  split; cbn [afterEvent app awaited].
  - by rewrite Ea.
  - unfold freshForm. rewrite Er. unfold remount.
    by destruct (renderCurrentPage before), (renderCurrentPage s).
  - unfold remount.
    destruct (renderCurrentPage s) eqn:Es;
      try (destruct (renderCurrentPage before); apply noneLive_unmounted).
    destruct (renderCurrentPage before) eqn:Eb;
      try (by apply Hout).
    by apply Hin.
Qed.

(** The flags of the form after a step. *)
Lemma flags_step e s :
  let f := form s in
  let f' := form (step e s) in
  match e with
  | SubmitStart =>
      formLoading f' =
        (if (handleSubmitStart s).1 then true else formLoading f) /\
      requestLoading f' = requestLoading f
  | SubmitDone _ _ => formLoading f' = false /\ requestLoading f' = requestLoading f
  | RequestInviteStart =>
      formLoading f' = formLoading f /\
      requestLoading f' =
        (if (handleRequestInviteStart s).1 then true else requestLoading f)
  | RequestInviteDone _ =>
      formLoading f' = formLoading f /\ requestLoading f' = false
  | _ => formLoading f' = formLoading f /\ requestLoading f' = requestLoading f
  end.
Proof.
  destruct e; cbn [step]; try done.
  - unfold handleSignInDone. by destruct (loginDone _ _) as [[] ?].
  - unfold handleSubmitStart. by destruct (negb _).
  - unfold handleSubmitDone.
    destruct (validateInviteCodeDone _ _ _) as [r a]. by destruct (callSuccess r).
  - unfold handleRequestInviteStart. by destruct (negb _).
Qed.

(** A button of the form that can be pressed is on the screen, is not
    waiting, and sends. *)
Lemma canHappen_submit sh :
  canHappen (AppEvent SubmitStart) sh = true ->
  renderCurrentPage (app sh) = ViewInvite /\
  formLoading (form (app sh)) = false /\
  (handleSubmitStart (app sh)).1 = Some (trim (code (form (app sh)))).
Proof.
  unfold canHappen, AppReturn.
  destruct (renderCurrentPage (app sh)); try done. cbn.
  intros [H1 H2]%negb_true_iff%orb_false_iff. unfold handleSubmitStart.
  by rewrite H2.
Qed.

Lemma canHappen_request sh :
  canHappen (AppEvent RequestInviteStart) sh = true ->
  renderCurrentPage (app sh) = ViewInvite /\
  requestLoading (form (app sh)) = false /\
  (handleRequestInviteStart (app sh)).1 = Some (trim (email (form (app sh)))).
Proof.
  unfold canHappen, AppReturn.
  destruct (renderCurrentPage (app sh)); try done. cbn.
  intros [H1 H2]%negb_true_iff%orb_false_iff. unfold handleRequestInviteStart.
  by rewrite H2.
Qed.

Lemma settles_elem mounted e sh :
  settles mounted e sh = true ->
  exists p, awaitedBy mounted e = Some p /\ p ∈ awaited sh.
Proof.
  unfold settles. destruct (awaitedBy mounted e) as [p|]; [|done].
  intros Hp%bool_decide_eq_true. by exists p.
Qed.

(** The promises after an event of [App], while the form stays on the
    screen. *)
Lemma formAwaits_appEvent e sh :
  canHappen (AppEvent e) sh = true ->
  formAwaits (form (app sh)) (awaited sh) ->
  formAwaits (form (step e (app sh)))
    (match awaitedBy true e with
     | Some p => removeFirst p (awaited sh)
     | None => awaited sh ++ starts e (app sh)
     end).
Proof.
  intros He Hf. pose proof (flags_step e (app sh)) as Hs. cbn zeta in Hs.
  destruct Hf as [Hf1 Hf2].
  destruct e; cbn [awaitedBy starts]; destruct Hs as [Hs1 Hs2];
    unfold formAwaits; rewrite ?app_nil_r, ?Hs1, ?Hs2; try done.
  - by apply (formAwaits_snoc _ AwaitsSignIn).
  - apply settles_elem in He as (p & [= <-] & Hp).
    by apply (formAwaits_removeFirst _ AwaitsSignIn).
  - by apply (formAwaits_snoc _ AwaitsLogout).
  - apply settles_elem in He as (p & [= <-] & Hp).
    by apply (formAwaits_removeFirst _ AwaitsLogout).
  - apply canHappen_submit in He as (_ & Hl & ->).
    rewrite !countb_app, !countb_cons, !countb_nil, Hf1, Hf2, Hl. cbn. lia.
  - apply settles_elem in He as (p & [= <-] & Hp).
    pose proof (countb_removeFirst isLiveSubmit _ _ Hp) as E1.
    pose proof (countb_removeFirst isLiveRequest _ _ Hp) as E2.
    cbn in E1, E2. destruct (formLoading _); cbn in *; lia.
  - apply canHappen_request in He as (_ & Hl & ->).
    rewrite !countb_app, !countb_cons, !countb_nil, Hf1, Hf2, Hl. cbn. lia.
  - apply settles_elem in He as (p & [= <-] & Hp).
    pose proof (countb_removeFirst isLiveSubmit _ _ Hp) as E1.
    pose proof (countb_removeFirst isLiveRequest _ _ Hp) as E2.
    cbn in E1, E2. destruct (requestLoading _); cbn in *; lia.
Qed.

(** The promises after an event of [App], while no form is on the
    screen. *)
Lemma noneLive_appEvent e sh :
  canHappen (AppEvent e) sh = true ->
  renderCurrentPage (app sh) <> ViewInvite ->
  noneLive (awaited sh) ->
  noneLive
    (match awaitedBy true e with
     | Some p => removeFirst p (awaited sh)
     | None => awaited sh ++ starts e (app sh)
     end).
Proof.
  intros He Hp Hn.
  destruct e; cbn [awaitedBy starts]; rewrite ?app_nil_r; try done.
  - by apply (formAwaits_snoc (initialForm None) AwaitsSignIn).
  - apply settles_elem in He as (p & [= <-] & Hq).
    by apply (formAwaits_removeFirst (initialForm None) AwaitsSignIn).
  - by apply (formAwaits_snoc (initialForm None) AwaitsLogout).
  - apply settles_elem in He as (p & [= <-] & Hq).
    by apply (formAwaits_removeFirst (initialForm None) AwaitsLogout).
  - by apply canHappen_submit in He as (? & _).
  - apply settles_elem in He as (p & [= <-] & Hq).
    pose proof (countb_removeFirst isLiveSubmit _ _ Hq) as E1.
    destruct Hn as [Hn _]. cbn in E1, Hn. lia.
  - by apply canHappen_request in He as (? & _).
  - apply settles_elem in He as (p & [= <-] & Hq).
    pose proof (countb_removeFirst isLiveRequest _ _ Hq) as E1.
    destruct Hn as [_ Hn]. cbn in E1, Hn. lia.
Qed.

(** A continuation of a form that has gone takes its promise away and
    leaves the form on the screen alone. *)
Lemma formAwaits_stale e f sh :
  canHappen (StaleDone e) sh = true ->
  formAwaits f (awaited sh) ->
  formAwaits f
    (match awaitedBy false e with
     | Some p => removeFirst p (awaited sh)
     | None => awaited sh
     end).
Proof.
  cbn [canHappen]. intros [Hd He]%andb_true_iff Hf.
  apply settles_elem in He as (p & Hp & Hq). rewrite Hp.
  apply formAwaits_removeFirst; [| |done|done];
    by (destruct e; cbn in Hd, Hp; simplify_eq).
Qed.

Lemma shellInv_shellStep e sh : shellInv sh -> shellInv (shellStep e sh).
Proof.
  intros [Ha Hf Hw]. unfold shellStep.
  destruct (canHappen e sh) eqn:He; [|done].
  assert (renderCurrentPage (app sh) <> ViewInvite -> noneLive (awaited sh))
    as Hn by (intros Hp; by rewrite (Hf Hp) in Hw).
  destruct e as [e|e|]; cbn [fireShell].
  - apply shellInv_afterEvent; [by apply flagsAgree_step| |].
    + intros _. by apply formAwaits_appEvent.
    + intros Hp. by apply noneLive_appEvent; [| |apply Hn].
  - apply shellInv_afterEvent; cbn [auth form]; [by apply flagsAgree_step| |].
    + intros _. by apply formAwaits_stale.
    + intros Hp. by apply (formAwaits_stale e (initialForm None)), Hn.
  - done.
Qed.

Lemma shellInv_shellRun es sh : shellInv sh -> shellInv (shellRun es sh).
Proof.
  revert sh. induction es as [|e es IH]; intros sh Hs; [done|].
  by apply IH, shellInv_shellStep.
Qed.

(** C28: on every screen that a sequence of events can lead to, the flag
    of each button of the form is set exactly while one call of its
    handler is awaited by the form on the screen, and two are never
    awaited; a form that is not on the screen is in its initial state and
    awaits nothing; and a user is on record exactly when the state says
    authenticated. *)
Theorem screen_keeps_one_call_in_flight es :
  let sh := shellRun es initialShell in
  countb isLiveSubmit (awaited sh) = Nat.b2n (formLoading (form (app sh))) /\
  countb isLiveRequest (awaited sh) =
    Nat.b2n (requestLoading (form (app sh))) /\
  freshForm (app sh) /\ flagsAgree (auth (app sh)).
Proof.
  cbn zeta. by destruct (shellInv_shellRun es initialShell) as [? ? [? ?]].
Qed.

(** The sign-in button has no such guarantee: the listener of Firebase
    clears [loading] (line 45), which enables the button while the first
    sign-in is awaited. *)
Example second_sign_in_while_first_waits :
  awaited
    (shellRun
       [AppEvent (AuthChanged None); AppEvent GetStarted; AppEvent SignInStart;
        AppEvent (AuthChanged None); AppEvent SignInStart] initialShell) =
  [AwaitsSignIn; AwaitsSignIn].
Proof. by vm_compute. Qed.

(** A form that comes to the screen starts with the address of the user
    of that moment (line 177). *)
Example form_mounts_with_address :
  email (form (app (shellRun [AppEvent (AuthChanged (Some demoUser))]
                      initialShell))) = "a@b.c".
Proof. by vm_compute. Qed.

(** The header offers [logout] exactly to a visitor who is signed in. *)
Lemma logout_offered_when_signed_in es :
  let sh := shellRun es initialShell in
  let a := auth (app sh) in
  is_Some (userBlock (Header (user a) (isAuthenticated a) (mobileMenuOpen sh)))
  <-> isAuthenticated a = true.
Proof.
  cbn zeta. pose proof (flagsAgree_shellRun es) as Ha. unfold flagsAgree in Ha.
  rewrite Ha. unfold Header. cbn [userBlock].
  destruct (user _) as [u|]; cbn; [|by split; [intros [? [=]]|]].
  by split.
Qed.

(** A handler of the form that the screen allows sends what it was given:
    the guards of lines 185 and 204 never fire. *)
Lemma submit_sends sh :
  canHappen (AppEvent SubmitStart) sh = true ->
  (handleSubmitStart (app sh)).1 = Some (trim (code (form (app sh)))).
Proof.
  unfold canHappen, AppReturn.
  destruct (renderCurrentPage (app sh)); try done. cbn.
  intros [_ H]%negb_true_iff%orb_false_iff. unfold handleSubmitStart.
  by rewrite H.
Qed.

Lemma request_sends sh :
  canHappen (AppEvent RequestInviteStart) sh = true ->
  (handleRequestInviteStart (app sh)).1 = Some (trim (email (form (app sh)))).
Proof.
  unfold canHappen, AppReturn.
  destruct (renderCurrentPage (app sh)); try done. cbn.
  intros [_ H]%negb_true_iff%orb_false_iff. unfold handleRequestInviteStart.
  by rewrite H.
Qed.

(** The run of [AppProps.stale_validation_admits_next_user] is a run of
    the screen: every event of it can happen when its turn comes, and the
    second visitor finds the menu with an empty form behind it. *)
Example stale_validation_on_screen :
  let es :=
    [AppEvent (AuthChanged (Some demoUser)); AppEvent (TypeCode "c2c2023");
     AppEvent SubmitStart; AppEvent (AuthChanged None);
     StaleDone (SubmitDone "c2c2023" (Thrown networkMessage));
     AppEvent (AuthChanged (Some otherUser))] in
  happened es initialShell =
    [AuthChanged (Some demoUser); TypeCode "c2c2023"; SubmitStart;
     AuthChanged None; SubmitDone "c2c2023" (Thrown networkMessage);
     AuthChanged (Some otherUser)] /\
  exists header, AppReturn (shellRun es initialShell) = SiteScreen header MenuPage.
Proof. split; [by vm_compute|]. eexists. by vm_compute. Qed.

(** ** The colour of the alert *)

Section Alert.
Context (env : Env) (P : EmailProvider) (toISOString : Z -> string).

Definition msgSentShown : string :=
  "Invite code sent! Check your email and enter the code above.".
Definition msgUnableShown : string :=
  "Unable to send invite code at this time. Please try again later.".

Lemma clientRequest_not_delivered net address w :
  net <> Delivered ->
  evalM (clientRequest env P toISOString net address) w = Thrown networkMessage.
Proof.
  intros Hn. unfold clientRequest. rewrite evalM_bind.
  destruct net; [done| |done]. unfold exchange. by rewrite execM_bind, evalM_bind.
Qed.

(** C27: the alert under the request form is green exactly when the
    request was delivered and the registry issued a code.  When the reply
    is lost the registry has issued the code and the alert is red. *)
Theorem alert_green_iff_issued net address s w :
  truthyString address = true ->
  let v := evalM (requestInviteCodeWith env P address (Some "")) (advance 1 0 w) in
  let o := evalM (clientRequest env P toISOString net address) w in
  statusAlert (renderForm (form (handleRequestInviteDone o s))) =
  Some (match net, v with
        | Delivered, RequestOk _ _ => (true, msgSentShown)
        | _, _ => (false, msgUnableShown)
        end).
Proof.
  intros Ha v o. unfold o. destruct net.
  - by rewrite clientRequest_not_delivered.
  - by rewrite clientRequest_not_delivered.
  - unfold evalM at 1. rewrite clientRequest_delivered by done. fold v.
    cbn [fst]. by destruct v.
Qed.

End Alert.

Lemma alert_green_iff_issued_witness :
  statusAlert
    (renderForm
       (form (handleRequestInviteDone
                (evalM (clientRequest fastEnv (mockProvider fastEnv)
                          (toStringRadix 10) ReplyLost "a@b.c") emptyWorld)
                initialApp))) =
  Some (false, msgUnableShown).
Proof.
  apply (alert_green_iff_issued fastEnv (mockProvider fastEnv)
           (toStringRadix 10) ReplyLost "a@b.c" initialApp emptyWorld eq_refl).
Defined.
